(** * MHTML conversion suite: a shallow embedding of the converters

    The development follows [src/converter-suite.js] (browser build) and
    the command line scripts that share its algorithms.  JavaScript
    strings are sequences of UTF-16 code units, bytes are the elements of
    a [Uint8Array]; both are integers here.  Positions are integers as in
    the source, where [-1] is the answer of a failed [indexOf]. *)

From Stdlib Require Import ZArith List String Ascii Bool Lia.
From stdpp Require Import base list gmap.
Import ListNotations.
Local Open Scope Z_scope.

#[local] Arguments Z.eqb : simpl never.
#[local] Arguments Z.leb : simpl never.
#[local] Arguments Z.ltb : simpl never.
#[local] Arguments Z.add : simpl never.
#[local] Arguments Z.sub : simpl never.
#[local] Arguments Z.land : simpl never.

(** ** JavaScript strings *)

(** A string is the list of its UTF-16 code units. *)
Abbreviation jsstring := (list Z).

(** The code units of an ASCII literal. *)
Definition lit (s : string) : jsstring :=
  map (fun a => Z.of_N (N_of_ascii a)) (list_ascii_of_string s).
Arguments lit s%_string.

(** [s.length] *)
Definition len (s : jsstring) : Z := Z.of_nat (length s).

(** [s.startsWith(p)], on the text that starts at the current position. *)
Fixpoint startsWith (s p : jsstring) {struct p} : bool :=
  match p, s with
  | [], _ => true
  | a :: p', b :: s' => (a =? b) && startsWith s' p'
  | _ :: _, [] => false
  end.

(** [s.endsWith(p)] *)
Definition endsWith (s p : jsstring) : bool :=
  startsWith (rev s) (rev p).

(** The search loop of [indexOf]: [s] is the text from absolute position
    [i] on; the answer is the first position where [needle] starts, or
    [-1]. *)
Fixpoint indexOfFrom (needle s : jsstring) (i : Z) : Z :=
  if startsWith s needle then i
  else match s with
       | [] => -1
       | _ :: s' => indexOfFrom needle s' (i + 1)
       end.

(** [s.indexOf(needle, from)]: [from] is clamped to [0 .. s.length]. *)
Definition indexOf (s needle : jsstring) (from : Z) : Z :=
  let from' := Z.min (Z.max from 0) (len s) in
  indexOfFrom needle (drop (Z.to_nat from') s) from'.

(** [s.includes(needle)] *)
Definition includes (s needle : jsstring) : bool :=
  0 <=? indexOf s needle 0.

(** [occurs needle s]: [needle] starts at some position of [s]. *)
Fixpoint occurs (needle s : jsstring) : bool :=
  startsWith s needle ||
  match s with
  | [] => false
  | _ :: s' => occurs needle s'
  end.

(** Relative index of [slice]: negative counts from the end, everything
    is clamped to [0 .. n]. *)
Definition clampIndex (n i : Z) : Z :=
  if i <? 0 then Z.max (n + i) 0 else Z.min i n.

(** [s.slice(a, b)] *)
Definition slice (s : jsstring) (a b : Z) : jsstring :=
  let from := clampIndex (len s) a in
  let to := clampIndex (len s) b in
  take (Z.to_nat (to - from)) (drop (Z.to_nat from) s).

(** [s.slice(a)] *)
Definition sliceFrom (s : jsstring) (a : Z) : jsstring :=
  slice s a (len s).

(** ECMAScript [WhiteSpace] and [LineTerminator] code points: what
    [trim] strips and what [\s] matches. *)
Definition isWhiteSpace (c : Z) : bool :=
  (c =? 9) || (c =? 10) || (c =? 11) || (c =? 12) || (c =? 13) ||
  (c =? 32) || (c =? 160) || (c =? 5760) ||
  ((8192 <=? c) && (c <=? 8202)) ||
  (c =? 8232) || (c =? 8233) || (c =? 8239) || (c =? 8287) ||
  (c =? 12288) || (c =? 65279).

Fixpoint trimStart (s : jsstring) : jsstring :=
  match s with
  | c :: s' => if isWhiteSpace c then trimStart s' else s
  | [] => []
  end.

Definition trimEnd (s : jsstring) : jsstring :=
  rev (trimStart (rev s)).

(** [s.trim()] *)
Definition trim (s : jsstring) : jsstring :=
  trimEnd (trimStart s).

(** ** Regular expressions of the source

    Each regular expression of the source is embedded as a matcher: given
    the code unit before the current position (for look-behind and word
    boundaries) and the text from the current position on, it answers the
    length of the match that the backtracking search of the engine finds
    there, if any.  All patterns below match at least one code unit. *)
Definition matcher : Type := option Z -> jsstring -> option nat.

(** A literal pattern. *)
Definition literal (pat : jsstring) : matcher :=
  fun _ s => if startsWith s pat then Some (length pat) else None.

(** [s.replace(re, repl)] for a global [re]: the text is scanned left to
    right, a match is replaced and the scan resumes after it.  [skip]
    counts the code units of the current match still to be passed over. *)
Fixpoint replaceFrom (m : matcher) (repl : jsstring) (prev : option Z)
    (skip : nat) (s : jsstring) : jsstring :=
  match s with
  | [] => []
  | c :: rest =>
      match skip with
      | S k => replaceFrom m repl (Some c) k rest
      | O =>
          match m prev s with
          | Some (S n) => repl ++ replaceFrom m repl (Some c) n rest
          | _ => c :: replaceFrom m repl (Some c) 0 rest
          end
      end
  end.

Definition replaceRe (m : matcher) (repl s : jsstring) : jsstring :=
  replaceFrom m repl None 0 s.

(** [s.replace(/pat/g, repl)] for a literal pattern. *)
Definition replaceAll (pat repl s : jsstring) : jsstring :=
  replaceRe (literal pat) repl s.

(** [s.split(re)]: [cur] is the piece being collected. *)
Fixpoint splitFrom (m : matcher) (prev : option Z) (skip : nat)
    (cur s : jsstring) : list jsstring :=
  match s with
  | [] => [cur]
  | c :: rest =>
      match skip with
      | S k => splitFrom m (Some c) k cur rest
      | O =>
          match m prev s with
          | Some (S n) => cur :: splitFrom m (Some c) n [] rest
          | _ => splitFrom m (Some c) 0 (cur ++ [c]) rest
          end
      end
  end.

Definition splitRe (m : matcher) (s : jsstring) : list jsstring :=
  splitFrom m None 0 [] s.

(** [s.split(sep)] for a literal, non-empty separator. *)
Definition split (sep s : jsstring) : list jsstring :=
  splitRe (literal sep) s.

(** [lines.join(sep)] *)
Fixpoint join (sep : jsstring) (l : list jsstring) : jsstring :=
  match l with
  | [] => []
  | [x] => x
  | x :: rest => x ++ sep ++ join sep rest
  end.

(** ** Transfer decoding *)

(** [/[0-9A-Fa-f]/] *)
Definition isHexDigit (c : Z) : bool :=
  ((48 <=? c) && (c <=? 57)) || ((65 <=? c) && (c <=? 70)) ||
  ((97 <=? c) && (c <=? 102)).

(** The value of a hexadecimal digit, as [parseInt(_, 16)] reads it. *)
Definition hexVal (c : Z) : Z :=
  if c <=? 57 then c - 48 else if c <=? 70 then c - 55 else c - 87.

(** [/^[0-9A-Fa-f]{2}$/.test(s)] *)
Definition isHexPair (s : jsstring) : bool :=
  match s with
  | [h1; h2] => isHexDigit h1 && isHexDigit h2
  | _ => false
  end.

(** [parseInt(s, 16)] on a pair of hexadecimal digits. *)
Definition parseHexPair (s : jsstring) : Z :=
  match s with
  | [h1; h2] => 16 * hexVal h1 + hexVal h2
  | _ => 0
  end.

(** [/=\r?\n/]: a soft line break. *)
Definition softBreak : matcher :=
  fun _ s =>
    if startsWith s [61; 13; 10] then Some 3%nat
    else if startsWith s [61; 10] then Some 2%nat
    else None.

(** The loop of [qpDecodeToBytes] over [src]: the argument is the text
    from index [i] on, so [i + 2 < src.length] reads [2 <= length rest]
    and [src.slice(i + 1, i + 3)] is [take 2 rest]; [skip] is the
    pending [i += 2]. *)
Fixpoint qpDecodeFrom (skip : nat) (src : jsstring) : list Z :=
  match src with
  | [] => []
  | ch :: rest =>
      match skip with
      | S k => qpDecodeFrom k rest
      | O =>
          if (ch =? 61) && (2 <=? length rest)%nat && isHexPair (take 2 rest)
          then parseHexPair (take 2 rest) :: qpDecodeFrom 2 rest
          else Z.land ch 255 :: qpDecodeFrom 0 rest
      end
  end.

Definition qpDecodeToBytes (text : jsstring) : list Z :=
  qpDecodeFrom 0 (replaceRe softBreak [] text).

(** [latin1ToBytes] *)
Definition latin1ToBytes (text : jsstring) : list Z :=
  map (fun c => Z.land c 255) text.

(** A byte, as an element of a [Uint8Array]. *)
Definition isByte (b : Z) : Prop := 0 <= b < 256.

(** Modelled from the spec: the repository only decodes quoted-printable;
    the encoder of the round trip follows the glossary (non-printable and high bytes as =XX hex escapes,
    soft line wraps as a trailing =).  Printable ASCII other than [=] stands for itself,
    every other byte is escaped with upper-case digits, and a soft line
    break keeps encoded lines within 76 columns. *)
Definition hexDigitOf (n : Z) : Z := if n <? 10 then 48 + n else 55 + n.

Definition qpToken (b : Z) : jsstring :=
  if (33 <=? b) && (b <=? 126) && negb (b =? 61) then [b]
  else [61; hexDigitOf (b / 16); hexDigitOf (b mod 16)].

Fixpoint qpEncodeFrom (col : nat) (bytes : list Z) : jsstring :=
  match bytes with
  | [] => []
  | b :: rest =>
      let t := qpToken b in
      if (75 <? col + length t)%nat
      then [61; 13; 10] ++ t ++ qpEncodeFrom (length t) rest
      else t ++ qpEncodeFrom (col + length t) rest
  end.

Definition qpEncode (bytes : list Z) : jsstring := qpEncodeFrom 0 bytes.

(** Modelled from the spec: every text that a quoted-printable encoder
    may produce for a byte sequence.  A byte other than [=] may stand for
    itself, any byte may be written [=XX] with digits of either case, and
    a soft line break ([=] followed by a line break) may stand between
    two tokens. *)
Inductive qpEncoding : list Z -> jsstring -> Prop :=
| qpe_done : qpEncoding [] []
| qpe_literal b bytes text :
    isByte b -> b <> 61 -> qpEncoding bytes text ->
    qpEncoding (b :: bytes) (b :: text)
| qpe_escape h1 h2 bytes text :
    isHexDigit h1 = true -> isHexDigit h2 = true ->
    qpEncoding bytes text ->
    qpEncoding (16 * hexVal h1 + hexVal h2 :: bytes) (61 :: h1 :: h2 :: text)
| qpe_soft_crlf bytes text :
    qpEncoding bytes text -> qpEncoding bytes (61 :: 13 :: 10 :: text)
| qpe_soft_lf bytes text :
    qpEncoding bytes text -> qpEncoding bytes (61 :: 10 :: text).

(** [atob]: the forgiving base64 decoder of the host.  The caller has
    removed all white space.  A final group of four may end in one or two
    [=]; a length of 1 modulo 4 and any code unit outside the alphabet
    are rejected ([InvalidCharacterError]). *)
Definition base64Value (c : Z) : option Z :=
  if (65 <=? c) && (c <=? 90) then Some (c - 65)
  else if (97 <=? c) && (c <=? 122) then Some (c - 71)
  else if (48 <=? c) && (c <=? 57) then Some (c + 4)
  else if c =? 43 then Some 62
  else if c =? 47 then Some 63
  else None.

Fixpoint base64Values (s : jsstring) : option (list Z) :=
  match s with
  | [] => Some []
  | c :: rest =>
      match base64Value c, base64Values rest with
      | Some v, Some vs => Some (v :: vs)
      | _, _ => None
      end
  end.

Fixpoint base64Groups (fuel : nat) (vs : list Z) : list Z :=
  match fuel, vs with
  | S fuel', a :: b :: c :: d :: rest =>
      let n := a * 262144 + b * 4096 + c * 64 + d in
      n / 65536 :: (n / 256) mod 256 :: n mod 256 :: base64Groups fuel' rest
  | _, [a; b; c] =>
      let n := a * 4096 + b * 64 + c in [n / 1024; (n / 4) mod 256]
  | _, [a; b] => [(a * 64 + b) / 16]
  | _, _ => []
  end.

Definition stripPadding (s : jsstring) : jsstring :=
  if (length s mod 4 =? 0)%nat then
    if endsWith s [61; 61] then take (length s - 2) s
    else if endsWith s [61] then take (length s - 1) s
    else s
  else s.

Definition atob (data : jsstring) : option (list Z) :=
  let data := stripPadding data in
  if (length data mod 4 =? 1)%nat then None
  else match base64Values data with
       | Some vs => Some (base64Groups (length vs) vs)
       | None => None
       end.

(** [base64ToBytes]: [text.replace(/[\r\n\s]/g, '')], then [atob]; the
    answer is [None] when [atob] throws. *)
Definition base64ToBytes (text : jsstring) : option (list Z) :=
  atob (List.filter (fun c => negb (isWhiteSpace c)) text).

(** [btoa] on the binary string of a byte array. *)
Definition base64Char (v : Z) : Z :=
  if v <? 26 then 65 + v
  else if v <? 52 then 71 + v
  else if v <? 62 then v - 4
  else if v =? 62 then 43 else 47.

Fixpoint btoa (bytes : list Z) : jsstring :=
  match bytes with
  | a :: b :: c :: rest =>
      let n := a * 65536 + b * 256 + c in
      base64Char (n / 262144) :: base64Char ((n / 4096) mod 64) ::
      base64Char ((n / 64) mod 64) :: base64Char (n mod 64) :: btoa rest
  | [a; b] =>
      let n := a * 1024 + b * 4 in
      [base64Char (n / 4096); base64Char ((n / 64) mod 64);
       base64Char (n mod 64); 61]
  | [a] =>
      let n := a * 16 in [base64Char (n / 64); base64Char (n mod 64); 61; 61]
  | [] => []
  end.

(** [bytesToBase64]: the chunks of the source only bound the number of
    arguments of [String.fromCharCode]; their concatenation is the whole
    binary string. *)
Definition bytesToBase64 (bytes : list Z) : jsstring := btoa bytes.

(** ** Charset decoding *)

(** [x || fallback] on a string that may be [null] or [undefined]. *)
Definition orElse (x : option jsstring) (fallback : jsstring) : jsstring :=
  match x with
  | Some (c :: s) => c :: s
  | _ => fallback
  end.

(** Truthiness of a string that may be [null]. *)
Definition truthy (x : option jsstring) : bool :=
  match x with
  | Some (_ :: _) => true
  | _ => false
  end.

(** [list.includes(x)] on strings. *)
Definition inList (x : jsstring) (l : list jsstring) : bool :=
  existsb (fun y => bool_decide (x = y)) l.

Section Charset.

(** The host's [TextDecoder]: [textDecode label fatal bytes] is the
    outcome of [new TextDecoder(label, { fatal }).decode(bytes)], which
    is [None] when the constructor rejects the label ([RangeError]) or
    a fatal decoder meets malformed input ([TypeError]). *)
Variable textDecode : jsstring -> bool -> list Z -> option jsstring.

(** The charsets that [decodeBytes] always tries, in order. *)
Definition defaultCharsets : list jsstring :=
  [lit "utf-8"; lit "cp949"; lit "euc-kr"; lit "windows-1252"; lit "latin1"].

(** The array [tries] of [decodeBytes] after its first loop. *)
Definition charsetTries (charsetHint : option jsstring) : list jsstring :=
  fold_left (fun tries c => if inList c tries then tries else tries ++ [c])
    defaultCharsets
    (if truthy charsetHint then [orElse charsetHint []] else []).

(** The second loop: the first decoder that does not throw. *)
Fixpoint firstDecoded (tries : list jsstring) (bytes : list Z)
  : option jsstring :=
  match tries with
  | [] => None
  | cs :: rest =>
      match textDecode cs false bytes with
      | Some text => Some text
      | None => firstDecoded rest bytes
      end
  end.

(** [decodeBytes]; [None] stands for an exception that leaves it. *)
Definition decodeBytes (bytes : list Z) (charsetHint : option jsstring)
  : option jsstring :=
  match firstDecoded (charsetTries charsetHint) bytes with
  | Some text => Some text
  | None => textDecode (lit "utf-8") false bytes
  end.

End Charset.

(** A minimal host: it knows the label [utf-8] only and decodes ASCII,
    with U+FFFD for every other byte. *)
Definition asciiHost (label : jsstring) (fatal : bool) (bytes : list Z)
  : option jsstring :=
  if bool_decide (label = lit "utf-8")
  then Some (map (fun b => if b <? 128 then b else 65533) bytes)
  else None.

(** The charsets that the fallback chain names, in order: the hint when
    there is one, then the five defaults. *)
Definition charsetChain (charsetHint : option jsstring) : list jsstring :=
  (if truthy charsetHint then [orElse charsetHint []] else []) ++
  defaultCharsets.

(** ** The multipart reader *)

(** [new TextDecoder('iso-8859-1').decode(bytes)].  In the Encoding
    Standard the label [iso-8859-1] names windows-1252: one code unit per
    byte, the bytes 0x80 to 0x9F going through this table. *)
Definition windows1252High : list Z :=
  [8364; 129; 8218; 402; 8222; 8230; 8224; 8225; 710; 8240; 352; 8249; 338;
   141; 381; 143; 144; 8216; 8217; 8220; 8221; 8226; 8211; 8212; 732; 8482;
   353; 8250; 339; 157; 382; 376].

Definition decodeSingleByte (b : Z) : Z :=
  if (128 <=? b) && (b <? 160)
  then nth (Z.to_nat (b - 128)) windows1252High b
  else b.

Definition decodeLatin1 (bytes : list Z) : jsstring :=
  map decodeSingleByte bytes.

(** [s.toLowerCase()] on Basic Latin, the Latin-1 supplement and the
    letters of windows-1252, with the two further code points whose lower
    case contains an ASCII letter (U+0130 and the Kelvin sign).  Other
    letters are left as they are: the source compares lower-cased text
    with ASCII constants only, which cannot tell the difference. *)
Definition lowerUnit (c : Z) : jsstring :=
  if (65 <=? c) && (c <=? 90) then [c + 32]
  else if (192 <=? c) && (c <=? 222) && negb (c =? 215) then [c + 32]
  else if (c =? 352) || (c =? 338) || (c =? 381) then [c + 1]
  else if c =? 376 then [255]
  else if c =? 304 then [105; 775]
  else if c =? 8490 then [107]
  else [c].

Definition toLowerCase (s : jsstring) : jsstring := flat_map lowerUnit s.

(** Case folding of an ignore-case pattern without the unicode flag: a
    code unit outside ASCII never folds to an ASCII letter. *)
Definition canonicalize (c : Z) : Z :=
  if (97 <=? c) && (c <=? 122) then c - 32 else c.

Fixpoint startsWithIgnoreCase (s p : jsstring) {struct p} : bool :=
  match p, s with
  | [], _ => true
  | a :: p', b :: s' =>
      (canonicalize a =? canonicalize b) && startsWithIgnoreCase s' p'
  | _ :: _, [] => false
  end.

(** A maximal run of code units that satisfy [f], and what follows. *)
Fixpoint span (f : Z -> bool) (s : jsstring) : jsstring * jsstring :=
  match s with
  | c :: rest =>
      if f c then let '(run, after) := span f rest in (c :: run, after)
      else ([], s)
  | [] => ([], [])
  end.

(** One attempt of the expression of [getParam],
    [key\s*=\s*(Q([^Q]+)Q|([^;\s]+))] with flag [i] (Q is the double
    quote), at the current
    position; the answer is [m[2] || m[3]].  No backtracking into the
    greedy runs can succeed: a shorter run of white space is followed by
    white space, which starts neither alternative, and a shorter run of
    [[^Q]] is not followed by the closing quote. *)
Definition paramValueAt (key s : jsstring) : option jsstring :=
  if startsWithIgnoreCase s key then
    match snd (span isWhiteSpace (drop (length key) s)) with
    | c :: afterEq =>
        if c =? 61 then
          let value := snd (span isWhiteSpace afterEq) in
          let bare := fst (span (fun c => negb ((c =? 59) || isWhiteSpace c))
                             value) in
          let bareMatch := match bare with [] => None | _ => Some bare end in
          match value with
          | q :: inner =>
              if q =? 34 then
                match span (fun c => negb (c =? 34)) inner with
                | (c1 :: run, q' :: _) =>
                    if q' =? 34 then Some (c1 :: run) else bareMatch
                | _ => bareMatch
                end
              else bareMatch
          | [] => None
          end
        else None
    | [] => None
    end
  else None.

(** [headerValue.match(re)]: the first position where an attempt
    succeeds. *)
Fixpoint paramSearch (key s : jsstring) : option jsstring :=
  match paramValueAt key s with
  | Some v => Some v
  | None =>
      match s with
      | [] => None
      | _ :: s' => paramSearch key s'
      end
  end.

(** The source pastes [key] into the text of the expression.  Letters,
    digits, the hyphen and the underscore stand for themselves there, so
    that for a key made of them the expression is the one above; the
    callers pass [boundary] and [charset]. *)
Definition plainKey (key : jsstring) : bool :=
  forallb (fun c => ((48 <=? c) && (c <=? 57)) || ((65 <=? c) && (c <=? 90)) ||
                    ((97 <=? c) && (c <=? 122)) || (c =? 45) || (c =? 95))
    key.

(** [getParam] for a plain key; [None] is [null]. *)
Definition getParam (headerValue key : jsstring) : option jsstring :=
  match headerValue with
  | [] => None
  | _ =>
      match paramSearch key headerValue with
      | Some v => Some (trim v)
      | None => None
      end
  end.

(** [out[k] = v] for a string [v] on the plain object [out] of
    [parseHeaders].  The name [__proto__] is the accessor that the object
    inherits, whose setter ignores a string: nothing is stored under that
    name.  Every other name becomes a property of the object itself. *)
Definition setProperty (out : gmap (list Z) (list Z)) (k v : jsstring)
  : gmap (list Z) (list Z) :=
  if bool_decide (k = lit "__proto__") then out else <[k := v]> out.

(** One turn of the loop of [parseHeaders]: the state is the object
    [out] and the variable [key]. *)
Definition headerLine (st : gmap (list Z) (list Z) * option (list Z))
    (line : jsstring) : gmap (list Z) (list Z) * option (list Z) :=
  let '(out, key) := st in
  match trim line with
  | [] => st
  | _ =>
      if (startsWith line [32] || startsWith line [9]) && truthy key then
        let k := orElse key [] in
        (setProperty out k (orElse (out !! k) [] ++ [32] ++ trim line), key)
      else
        let idx := indexOf line [58] 0 in
        if idx <? 0 then st
        else
          let k := toLowerCase (trim (slice line 0 idx)) in
          (setProperty out k (trim (sliceFrom line (idx + 1))), Some k)
  end.

Definition parseHeaders (headerText : jsstring) : gmap (list Z) (list Z) :=
  let lines := split [10] (replaceAll [13; 10] [10] headerText) in
  fst (fold_left headerLine lines (∅, None)).

(** What a converter can throw. *)
Inductive error : Type :=
| NoHeaderSeparator   (* Invalid MHTML: no header separator. *)
| BoundaryNotFound    (* Invalid MHTML: multipart boundary not found. *)
| InvalidCharacter    (* the exception of [atob] *)
| DecoderError        (* an exception of [TextDecoder] *)
| NoHtmlPart.         (* No text/html part found in MHTML. *)

Inductive outcome (A : Type) : Type :=
| Returned (a : A)
| Thrown (e : error).
Arguments Returned {A} a.
Arguments Thrown {A} e.

Record Part : Type := mkPart {
  headers : gmap (list Z) (list Z);
  contentType : jsstring;
  charset : option jsstring;
  bytes : list Z
}.

(** [text.indexOf(CRLF CRLF) >= 0 ? CRLF CRLF : LF LF] *)
Definition headerSeparator (text : jsstring) : jsstring :=
  if 0 <=? indexOf text [13; 10; 13; 10] 0 then [13; 10; 13; 10]
  else [10; 10].

(** [sec.replace(/^\r?\n/, '')] *)
Definition stripLeadingBreak (s : jsstring) : jsstring :=
  if startsWith s [13; 10] then drop 2 s
  else if startsWith s [10] then drop 1 s
  else s.

(** [pBody.replace(/\r?\n$/, '')] *)
Definition stripTrailingBreak (s : jsstring) : jsstring :=
  if endsWith s [13; 10] then take (length s - 2) s
  else if endsWith s [10] then take (length s - 1) s
  else s.

(** The first half of the body of the loop of [parseMhtmlParts] over the
    sections, up to the part's headers and body text; [None] is a
    [continue]. *)
Definition sectionSplit (sec : jsstring)
  : option (gmap (list Z) (list Z) * jsstring) :=
  let sec := stripLeadingBreak sec in
  match sec with
  | [] => None
  | _ =>
      if startsWith sec (lit "--") then None
      else
        let partSep := headerSeparator sec in
        let idx := indexOf sec partSep 0 in
        if idx <? 0 then None
        else
          let pHeaders := parseHeaders (slice sec 0 idx) in
          let pBody := stripTrailingBreak (sliceFrom sec (idx + len partSep)) in
          Some (pHeaders, pBody)
  end.

(** [(pHeaders['content-transfer-encoding'] || '').toLowerCase()] *)
Definition transferEncoding (pHeaders : gmap (list Z) (list Z)) : jsstring :=
  toLowerCase (orElse (pHeaders !! lit "content-transfer-encoding") []).

(** The second half: transfer decoding and the part record. *)
Definition parseSection (sec : jsstring) : outcome (option Part) :=
  match sectionSplit sec with
  | None => Returned None
  | Some (pHeaders, pBody) =>
      let cte := transferEncoding pHeaders in
      let pBytes :=
        if includes cte (lit "base64") then base64ToBytes pBody
        else if includes cte (lit "quoted-printable")
             then Some (qpDecodeToBytes pBody)
             else Some (latin1ToBytes pBody) in
      match pBytes with
      | None => Thrown InvalidCharacter
      | Some pBytes =>
          let ctype :=
            toLowerCase
              (trim
                 (hd []
                    (split [59]
                       (orElse (pHeaders !! lit "content-type")
                          (lit "application/octet-stream"))))) in
          let charset :=
            getParam (orElse (pHeaders !! lit "content-type") [])
              (lit "charset") in
          Returned (Some (mkPart pHeaders ctype charset pBytes))
      end
  end.

Fixpoint parseSections (sections : list jsstring) (parts : list Part)
  : outcome (list Part) :=
  match sections with
  | [] => Returned parts
  | sec :: rest =>
      match parseSection sec with
      | Thrown e => Thrown e
      | Returned None => parseSections rest parts
      | Returned (Some part) => parseSections rest (parts ++ [part])
      end
  end.

Definition parseMhtmlParts (bytes : list Z) : outcome (list Part) :=
  let latin1 := decodeLatin1 bytes in
  let sep := headerSeparator latin1 in
  let headEnd := indexOf latin1 sep 0 in
  if headEnd <? 0 then Thrown NoHeaderSeparator
  else
    let rootHeaders := parseHeaders (slice latin1 0 headEnd) in
    let rootCtype := orElse (rootHeaders !! lit "content-type") [] in
    let boundary := getParam rootCtype (lit "boundary") in
    if negb (truthy boundary) then Thrown BoundaryNotFound
    else
      let bodyText := sliceFrom latin1 (headEnd + len sep) in
      let marker := lit "--" ++ orElse boundary [] in
      let sections := drop 1 (split marker bodyText) in
      parseSections sections [].

(** The conditions under which [parseMhtmlParts] fails, read off the
    decoded text. *)

(** There is a blank line between headers and body. *)
Definition hasHeaderSeparator (latin1 : jsstring) : bool :=
  includes latin1 [13; 10; 13; 10] || includes latin1 [10; 10].

(** The [boundary] parameter of the root [Content-Type], as [getParam]
    finds it. *)
Definition rootBoundary (latin1 : jsstring) : option jsstring :=
  let headEnd := indexOf latin1 (headerSeparator latin1) 0 in
  let rootHeaders := parseHeaders (slice latin1 0 headEnd) in
  getParam (orElse (rootHeaders !! lit "content-type") []) (lit "boundary").

(** The sections between the boundary markers. *)
Definition bodySections (latin1 : jsstring) : list jsstring :=
  let sep := headerSeparator latin1 in
  let headEnd := indexOf latin1 sep 0 in
  drop 1
    (split (lit "--" ++ orElse (rootBoundary latin1) [])
       (sliceFrom latin1 (headEnd + len sep))).

(** A section that declares base64 and whose body [atob] rejects. *)
Definition rejectedSection (sec : jsstring) : bool :=
  match sectionSplit sec with
  | Some (pHeaders, pBody) =>
      includes (transferEncoding pHeaders) (lit "base64") &&
      match base64ToBytes pBody with
      | None => true
      | Some _ => false
      end
  | None => false
  end.

(** A file with a separator and a boundary, whose only part carries a
    base64 body that is not base64. *)
Definition brokenBase64File : list Z :=
  lit "Content-Type: multipart/related; boundary=XYZ" ++ [10; 10] ++
  lit "--XYZ" ++ [10] ++
  lit "Content-Type: image/png" ++ [10] ++
  lit "Content-Transfer-Encoding: base64" ++ [10; 10] ++
  lit "####" ++ [10] ++
  lit "--XYZ--" ++ [10].

(** ** Content-id references *)

(** [s.replace(/^<|>$/g, '')] *)
Definition stripAngleBrackets (s : jsstring) : jsstring :=
  let s1 := match s with
            | c :: rest => if c =? 60 then rest else s
            | [] => []
            end in
  if endsWith s1 [62] then take (length s1 - 1) s1 else s1.

Definition normalizeCid (value : jsstring) : jsstring :=
  let cid := if startsWith value (lit "cid:") then sliceFrom value 4
             else value in
  stripAngleBrackets (trim cid).

(** One turn of the loop of [buildCidMap]. *)
Definition registerPart (cidMap : gmap (list Z) Part) (part : Part)
  : gmap (list Z) Part :=
  let contentId := trim (orElse (headers part !! lit "content-id") []) in
  let contentLoc := trim (orElse (headers part !! lit "content-location") []) in
  let cidMap := match contentId with
                | [] => cidMap
                | _ => <[normalizeCid contentId := part]> cidMap
                end in
  if startsWith contentLoc (lit "cid:")
  then <[normalizeCid contentLoc := part]> cidMap
  else cidMap.

Definition buildCidMap (parts : list Part) : gmap (list Z) Part :=
  fold_left registerPart parts ∅.

Definition toDataUri (part : Part) : jsstring :=
  lit "data:" ++
  orElse (Some (contentType part)) (lit "application/octet-stream") ++
  lit ";base64," ++ bytesToBase64 (bytes part).

(** A regular expression whose replacement is computed from the match:
    the answer is the length of the match and the text that replaces
    it. *)
Definition rewriter : Type := option Z -> jsstring -> option (nat * jsstring).

(** [s.replace(re, callback)] for a global [re]. *)
Fixpoint rewriteFrom (m : rewriter) (prev : option Z) (skip : nat)
    (s : jsstring) : jsstring :=
  match s with
  | [] => []
  | c :: rest =>
      match skip with
      | S k => rewriteFrom m (Some c) k rest
      | O =>
          match m prev s with
          | Some (S n, repl) => repl ++ rewriteFrom m (Some c) n rest
          | _ => c :: rewriteFrom m (Some c) 0 rest
          end
      end
  end.

(** An optional quote, single or double, taken greedily. *)
Definition optionalQuote (s : jsstring) : jsstring :=
  match s with
  | c :: rest => if (c =? 39) || (c =? 34) then rest else s
  | [] => []
  end.

(** [/url\(q?(cid:[^)q]+)q?\)/gi], where q is a single or a double
    quote, with the callback of
    [replaceCidUrlsInCss].  The greedy pieces admit no other split: a
    skipped quote cannot start [cid:], and a shorter run is followed by a
    code unit that is neither a quote nor the closing parenthesis. *)
Definition cssUrl (cidMap : gmap (list Z) Part) : rewriter :=
  fun _ s =>
    if startsWithIgnoreCase s (lit "url(") then
      let s2 := optionalQuote (drop 4 s) in
      if startsWithIgnoreCase s2 (lit "cid:") then
        match span (fun c => negb ((c =? 41) || (c =? 34) || (c =? 39)))
                (drop 4 s2) with
        | (c1 :: run, after) =>
            match optionalQuote after with
            | c :: rest =>
                if c =? 41 then
                  let n := (length s - length rest)%nat in
                  let cidRef := take 4 s2 ++ c1 :: run in
                  Some (n,
                        match cidMap !! normalizeCid cidRef with
                        | Some part => lit "url('" ++ toDataUri part ++ lit "')"
                        | None => take n s
                        end)
                else None
            | [] => None
            end
        | _ => None
        end
      else None
    else None.

(** [/@import\s+q(cid:[^q\s;]+)q/gi], where q is a single or a double
    quote, with its callback. *)
Definition cssImport (cidMap : gmap (list Z) Part) : rewriter :=
  fun _ s =>
    if startsWithIgnoreCase s (lit "@import") then
      match span isWhiteSpace (drop 7 s) with
      | (_ :: _, q :: s2) =>
          if ((q =? 39) || (q =? 34)) && startsWithIgnoreCase s2 (lit "cid:")
          then
            match span (fun c => negb ((c =? 39) || (c =? 34) ||
                                       isWhiteSpace c || (c =? 59)))
                    (drop 4 s2) with
            | (c1 :: run, q' :: rest) =>
                if (q' =? 39) || (q' =? 34) then
                  let n := (length s - length rest)%nat in
                  let cidRef := take 4 s2 ++ c1 :: run in
                  Some (n,
                        match cidMap !! normalizeCid cidRef with
                        | Some part =>
                            lit "@import url('" ++ toDataUri part ++ lit "')"
                        | None => take n s
                        end)
                else None
            | _ => None
            end
          else None
      | _ => None
      end
    else None.

Definition replaceCidUrlsInCss (cssText : jsstring)
    (cidMap : gmap (list Z) Part) : jsstring :=
  rewriteFrom (cssImport cidMap) None 0
    (rewriteFrom (cssUrl cidMap) None 0 cssText).

(** *** The elements of the document

    The loops that rewrite references select elements, read and write
    attributes, and remove or replace elements.  For them the document is
    the sequence of its element nodes in document order; a slot is empty
    once its element has been removed. *)
Record Element : Type := mkElement {
  tagName : jsstring;                       (* local name, lower case *)
  attributes : list (jsstring * jsstring);  (* names are lower case *)
  textContent : jsstring
}.

Fixpoint getAttribute (attrs : list (jsstring * jsstring)) (name : jsstring)
  : option jsstring :=
  match attrs with
  | [] => None
  | (n, v) :: rest =>
      if bool_decide (n = name) then Some v else getAttribute rest name
  end.

Fixpoint setAttributeIn (attrs : list (jsstring * jsstring))
    (name value : jsstring) : list (jsstring * jsstring) :=
  match attrs with
  | [] => [(name, value)]
  | (n, v) :: rest =>
      if bool_decide (n = name) then (n, value) :: rest
      else (n, v) :: setAttributeIn rest name value
  end.

Definition setAttribute (el : Element) (name value : jsstring) : Element :=
  mkElement (tagName el) (setAttributeIn (attributes el) name value)
    (textContent el).

(** [Array.from(doc.querySelectorAll(sel))]: the slots of the elements
    that satisfy the selector, in document order. *)
Definition selectAll (sel : Element -> bool) (doc : list (option Element))
  : list nat :=
  List.filter (fun i => match doc !! i with
                   | Some (Some el) => sel el
                   | _ => false
                   end)
    (seq 0 (length doc)).

Definition hasAttribute (name : jsstring) (el : Element) : bool :=
  match getAttribute (attributes el) name with
  | Some _ => true
  | None => false
  end.

(** Sequencing of statements that may throw. *)
Definition andThen {A B : Type} (x : outcome A) (f : A -> outcome B)
  : outcome B :=
  match x with
  | Returned a => f a
  | Thrown e => Thrown e
  end.

Fixpoint forEach {A S : Type} (body : S -> A -> outcome S) (l : list A)
    (st : S) : outcome S :=
  match l with
  | [] => Returned st
  | a :: rest => andThen (body st a) (forEach body rest)
  end.

Section Rewriting.

Variable textDecode : jsstring -> bool -> list Z -> option jsstring.
Variable cidMap : gmap (list Z) Part.

(** The body of the loop over [link[href]]: a style sheet part is
    inlined, any other [cid:] link is removed. *)
Definition inlineLink (doc : list (option Element)) (i : nat)
  : outcome (list (option Element)) :=
  match doc !! i with
  | Some (Some link) =>
      let href := orElse (getAttribute (attributes link) (lit "href")) [] in
      if negb (startsWith href (lit "cid:")) then Returned doc
      else
        match cidMap !! normalizeCid href with
        | Some part =>
            if bool_decide (contentType part = lit "text/css") then
              match decodeBytes textDecode (bytes part) (charset part) with
              | Some css =>
                  let style :=
                    mkElement (lit "style") []
                      (replaceCidUrlsInCss css cidMap) in
                  Returned (<[i := Some style]> doc)
              | None => Thrown DecoderError
              end
            else Returned (<[i := None]> doc)
        | None => Returned (<[i := None]> doc)
        end
  | _ => Returned doc
  end.

Definition inlineLinks (doc : list (option Element))
  : outcome (list (option Element)) :=
  forEach inlineLink
    (selectAll (fun el => bool_decide (tagName el = lit "link") &&
                          hasAttribute (lit "href") el) doc)
    doc.

(** The body of the loop over the elements that carry [attr]. *)
Definition rewriteAttribute (attr : jsstring) (doc : list (option Element))
    (i : nat) : list (option Element) :=
  match doc !! i with
  | Some (Some el) =>
      let v := orElse (getAttribute (attributes el) attr) [] in
      if negb (startsWith v (lit "cid:")) then doc
      else
        match cidMap !! normalizeCid v with
        | Some part => <[i := Some (setAttribute el attr (toDataUri part))]> doc
        | None => doc
        end
  | _ => doc
  end.

(** What the loop over [attr] does to one element. *)
Definition rewrittenElement (attr : jsstring) (el : Element) : Element :=
  let v := orElse (getAttribute (attributes el) attr) [] in
  if startsWith v (lit "cid:") then
    match cidMap !! normalizeCid v with
    | Some part => setAttribute el attr (toDataUri part)
    | None => el
    end
  else el.

(** The value that the rewriting gives to a [cid:] reference. *)
Definition resolved (v : jsstring) : jsstring :=
  match cidMap !! normalizeCid v with
  | Some part => toDataUri part
  | None => v
  end.

Definition rewriteAttributes (doc : list (option Element))
  : list (option Element) :=
  fold_left
    (fun doc attr =>
       fold_left (rewriteAttribute attr) (selectAll (hasAttribute attr) doc)
         doc)
    [lit "src"; lit "href"; lit "poster"] doc.

(** The first two loops of [convertMhtmlToHtml]. *)
Definition rewriteCidReferences (doc : list (option Element))
  : outcome (list (option Element)) :=
  andThen (inlineLinks doc) (fun doc => Returned (rewriteAttributes doc)).

End Rewriting.

(** What the loop over [link[href]] leaves in the slot of an element
    that it visits: [before] is the slot when the loop starts, [after]
    the slot when it ends. *)
Definition slotAfterLinks
    (textDecode : jsstring -> bool -> list Z -> option jsstring)
    (cidMap : gmap (list Z) Part)
    (before after : option (option Element)) : Prop :=
  match before with
  | Some (Some link) =>
      let href := orElse (getAttribute (attributes link) (lit "href")) [] in
      if startsWith href (lit "cid:") then
        match cidMap !! normalizeCid href with
        | Some part =>
            if bool_decide (contentType part = lit "text/css") then
              exists css,
                decodeBytes textDecode (bytes part) (charset part) =
                  Some css /\
                after =
                  Some (Some (mkElement (lit "style") []
                                (replaceCidUrlsInCss css cidMap)))
            else after = Some None
        | None => after = Some None
        end
      else after = before
  | _ => after = before
  end.

(** A [cid:] link: what the first loop removes or replaces. *)
Definition isCidLink (el : Element) : bool :=
  bool_decide (tagName el = lit "link") &&
  startsWith (orElse (getAttribute (attributes el) (lit "href")) [])
    (lit "cid:").

(** An image part registered under the content id [img1], and a
    document with an icon link to it, an image that shows it, and a link
    to a part that is not there. *)
Definition pngPart : Part :=
  mkPart {[ lit "content-id" := lit "<img1>" ]} (lit "image/png") None
    (lit "Man").

Definition iconLinkDoc : list (option Element) :=
  [Some (mkElement (lit "link")
           [(lit "rel", lit "icon"); (lit "href", lit "cid:img1")] []);
   Some (mkElement (lit "img") [(lit "src", lit "cid:img1")] []);
   Some (mkElement (lit "link")
           [(lit "rel", lit "stylesheet"); (lit "href", lit "cid:gone")] [])].

Definition iconLinkDocRewritten : list (option Element) :=
  [None;
   Some (mkElement (lit "img")
           [(lit "src", lit "data:image/png;base64,TWFu")] []);
   None].

(** ** The Markdown tree walker: tables *)

(** A parsed fragment: the tree of its nodes.  Element names are local
    names in lower case. *)
#[warnings="-register-all"]
Inductive Node : Type :=
| TextNode (data : jsstring)
| ElementNode (name : jsstring) (attrs : list (jsstring * jsstring))
    (children : list Node)
| CommentNode (data : jsstring).

(** [node.textContent] *)
Fixpoint nodeText (n : Node) : jsstring :=
  match n with
  | TextNode data => data
  | ElementNode _ _ children => flat_map nodeText children
  | CommentNode _ => []
  end.

(** The descendants of a node, in document order. *)
Fixpoint descendants (n : Node) : list Node :=
  match n with
  | ElementNode _ _ children =>
      flat_map (fun c => c :: descendants c) children
  | _ => []
  end.

(** [Array.from(el.querySelectorAll(sel))] for a selector that is a list
    of element names. *)
Definition querySelectorAll (names : list jsstring) (el : Node) : list Node :=
  List.filter
    (fun d => match d with
              | ElementNode name _ _ => inList name names
              | _ => false
              end)
    (descendants el).

(** [/\s+/]: a run of white space. *)
Definition whiteSpaceRun : matcher :=
  fun _ s =>
    match fst (span isWhiteSpace s) with
    | [] => None
    | run => Some (length run)
    end.

(** The text of a table cell:
    [c.textContent.replace(/ /g, ' ').replace(/\s+/g, ' ').trim().replace(/\|/g, '\\|')];
    the command line build writes [normalizeText(...)] for the first
    three steps. *)
Definition normalizeText (text : jsstring) : jsstring :=
  trim (replaceRe whiteSpaceRun [32] (replaceAll [160] [32] text)).

Definition cellText (c : Node) : jsstring :=
  replaceAll [124] [92; 124] (normalizeText (nodeText c)).

(** The array [rows]: one row per [tr] that has cells. *)
Definition tableRows (el : Node) : list (list jsstring) :=
  flat_map
    (fun tr =>
       match querySelectorAll [lit "th"; lit "td"] tr with
       | [] => []
       | cells => [map cellText cells]
       end)
    (querySelectorAll [lit "tr"] el).

(** [Math.max(...rows.map((r) => r.length))] on a non-empty array. *)
Definition maxLength (rows : list (list jsstring)) : nat :=
  fold_right Nat.max 0%nat (map (@length jsstring) rows).

(** The loop that pads a row with empty cells. *)
Definition padRow (width : nat) (r : list jsstring) : list jsstring :=
  r ++ repeat [] (width - length r).

(** [`| ${r.join(' | ')} |`] *)
Definition renderRow (r : list jsstring) : jsstring :=
  lit "| " ++ join (lit " | ") r ++ lit " |".

(** The lines of the rendered table: the array [out]. *)
Definition tableLines (rows : list (list jsstring)) : list jsstring :=
  let width := maxLength rows in
  match map (padRow width) rows with
  | [] => []
  | first :: others =>
      renderRow first :: renderRow (repeat (lit "---") width) ::
      map renderRow others
  end.

(** [tableToMarkdown] of the command line build; the [table] case of
    [glmNodeToMd] has the same code. *)
Definition tableToMarkdown (el : Node) : jsstring :=
  match tableRows el with
  | [] => []
  | rows => join [10] (tableLines rows) ++ [10; 10]
  end.

(** The pipes of a line that delimit cells: those that no backslash
    escapes.  [prev] is the code unit before the text. *)
Fixpoint delimiters (prev : Z) (s : jsstring) : nat :=
  match s with
  | [] => 0
  | c :: rest =>
      if (c =? 124) && negb (prev =? 92) then S (delimiters c rest)
      else delimiters c rest
  end.

(** The number of cells of a rendered line: one less than its
    delimiters. *)
Definition cellCount (line : jsstring) : nat := (delimiters 0 line - 1)%nat.

(** A cell is safe when it holds no line break and no delimiter,
    whatever precedes it. *)
Definition safeCell (c : jsstring) : Prop :=
  ~ In 10 c /\ forall prev, delimiters prev c = 0%nat.

(** A jagged table. *)
Definition jaggedTable : Node :=
  ElementNode (lit "table") []
    [ElementNode (lit "tr") []
       [ElementNode (lit "th") [] [TextNode (lit "a|b")];
        ElementNode (lit "th") [] [TextNode (lit "c")]];
     ElementNode (lit "tr") []
       [ElementNode (lit "td") [] [TextNode (lit " x  y ")]]].

(** ** The balanced-tag scanner *)

(** One turn of a [while] loop either goes on with a new state or leaves
    the loop with a result. *)
Inductive turn (S R : Type) : Type :=
| Continue (s : S)
| Break (r : R).
Arguments Continue {S R} s.
Arguments Break {S R} r.

(** A [while] loop run for at most [fuel] turns; [None] when the fuel
    does not suffice (or when a turn itself has no answer). *)
Fixpoint while {S R : Type} (body : S -> option (turn S R)) (fuel : nat)
    (s : S) : option R :=
  match fuel with
  | O => None
  | Datatypes.S fuel' =>
      match body s with
      | None => None
      | Some (Break r) => Some r
      | Some (Continue s') => while body fuel' s'
      end
  end.

Inductive role : Type := User | Model.

(** The literal that opens a message container, and the end of an
    opening tag. *)
Definition needle : jsstring :=
  lit "<div dir=" ++ [34] ++ lit "ltr" ++ [34] ++ lit " class=" ++ [34].

Definition tagEnd : jsstring := [34; 62].

(** One turn of the inner loop [while (depth > 0)]; the state is
    [(depth, k)]. *)
Definition balanceTurn (fullHtml : jsstring) (st : Z * Z)
  : option (turn (Z * Z) (Z * Z)) :=
  let '(depth, k) := st in
  if 0 <? depth then
    let nOpen := indexOf fullHtml (lit "<div") k in
    let nClose := indexOf fullHtml (lit "</div>") k in
    if nClose =? -1 then Some (Break (depth, len fullHtml))
    else if negb (nOpen =? -1) && (nOpen <? nClose)
         then Some (Continue (depth + 1, nOpen + 4))
         else Some (Continue (depth - 1, nClose + 6))
  else Some (Break (depth, k)).

(** The inner loop from [depth = 1] and [k = start]: the final
    [(depth, k)]. *)
Definition balance (fullHtml : jsstring) (start : Z) : option (Z * Z) :=
  while (balanceTurn fullHtml) (S (length fullHtml)) (1, start).

(** One turn of the outer loop [while (true)]; the state is
    [(pos, blocks)]. *)
Definition scanTurn (fullHtml : jsstring) (st : Z * list (role * jsstring))
  : option (turn (Z * list (role * jsstring)) (list (role * jsstring))) :=
  let '(pos, blocks) := st in
  let i := indexOf fullHtml needle pos in
  if i =? -1 then Some (Break blocks)
  else
    let j := indexOf fullHtml tagEnd i in
    if j =? -1 then Some (Break blocks)
    else
      let classAttr := slice fullHtml (i + len needle) j in
      if negb (includes classAttr (lit "r-imh66m"))
      then Some (Continue (i + 1, blocks))
      else
        let start := j + 2 in
        match balance fullHtml start with
        | None => None
        | Some (depth, k) =>
            let fragment := if depth =? 0 then slice fullHtml start (k - 6)
                            else slice fullHtml start k in
            let role := if includes classAttr (lit "r-1kt6imw") then User
                        else Model in
            Some (Continue (k, blocks ++ [(role, fragment)]))
        end.

(** [extractGrokBlocks], which is [extractMessageBlocks] in the command
    line build. *)
Definition extractGrokBlocks (fullHtml : jsstring)
  : option (list (role * jsstring)) :=
  while (scanTurn fullHtml) (S (length fullHtml)) (0, []).

(** [startsIn needle x y]: in the text [x ++ y], [needle] starts at some
    position of [x]. *)
Fixpoint startsIn (needle x y : jsstring) : bool :=
  match x with
  | [] => false
  | _ :: x' => startsWith (x ++ y) needle || startsIn needle x' y
  end.

(** ** Turns as text *)

(** The decimal digits of a number, as a template literal prints it. *)
Fixpoint digitsOf (d : Decimal.uint) : jsstring :=
  match d with
  | Decimal.Nil => []
  | Decimal.D0 d => 48 :: digitsOf d
  | Decimal.D1 d => 49 :: digitsOf d
  | Decimal.D2 d => 50 :: digitsOf d
  | Decimal.D3 d => 51 :: digitsOf d
  | Decimal.D4 d => 52 :: digitsOf d
  | Decimal.D5 d => 53 :: digitsOf d
  | Decimal.D6 d => 54 :: digitsOf d
  | Decimal.D7 d => 55 :: digitsOf d
  | Decimal.D8 d => 56 :: digitsOf d
  | Decimal.D9 d => 57 :: digitsOf d
  end.

Definition numberToString (n : nat) : jsstring := digitsOf (Nat.to_uint n).

(** The section markers: the Korean words for question and answer (two
    Hangul syllables each, U+C9C8 U+BB38 and U+B2F5 U+BCC0), then a
    colon. *)
Definition questionMark : jsstring := [51656; 47928; 58].
Definition answerMark : jsstring := [45813; 48320; 58].

(** The lines that [convertMhtmlToQaTxt] pushes for the pair of index
    [i]. *)
Definition turnHeader (i : nat) : jsstring :=
  lit "[Turn " ++ numberToString (i + 1) ++ lit "]".

Definition turnLines (i : nat) (qa : jsstring * jsstring) : list jsstring :=
  [turnHeader i; questionMark; fst qa; []; answerMark; snd qa; []].

Fixpoint linesFrom (i : nat) (pairs : list (jsstring * jsstring))
  : list jsstring :=
  match pairs with
  | [] => []
  | qa :: rest => turnLines i qa ++ linesFrom (S i) rest
  end.

(** The text of [convertMhtmlToQaTxt], from the pairs on. *)
Definition formatQaTxt (pairs : list (jsstring * jsstring)) : jsstring :=
  join [10] (linesFrom 0 pairs) ++ [10].

(** [/\r?\n/] *)
Definition lineBreak : matcher :=
  fun _ s =>
    if startsWith s [13; 10] then Some 2%nat
    else if startsWith s [10] then Some 1%nat
    else None.

(** [s.replace(/\n+$/g, '')]: the line feeds at the end go. *)
Fixpoint dropBreaks (s : jsstring) : jsstring :=
  match s with
  | c :: s' => if c =? 10 then dropBreaks s' else s
  | [] => []
  end.

Definition stripTrailingBreaks (s : jsstring) : jsstring :=
  rev (dropBreaks (rev s)).

(** The variable [state] of [parseQaText]. *)
Inductive section : Type := NoSection | InQuestion | InAnswer.

(** The variables of [parseQaText]. *)
Record parser : Type := mkParser {
  pairsOf : list (jsstring * jsstring);
  questionLines : list jsstring;
  answerLines : list jsstring;
  state : section
}.

(** The inner function [flush]. *)
Definition flush (st : parser) : parser :=
  mkParser
    (match questionLines st, answerLines st with
     | [], [] => pairsOf st
     | _, _ =>
         pairsOf st ++
         [(stripTrailingBreaks (join [10] (questionLines st)),
           stripTrailingBreaks (join [10] (answerLines st)))]
     end)
    [] [] (state st).

(** The lines that the parser takes for delimiters. *)
Definition isTurnLine (line : jsstring) : bool :=
  startsWith line (lit "[Turn ") && endsWith line (lit "]").

Definition isMarkLine (mark line : jsstring) : bool :=
  bool_decide (trim line = mark).

Definition isDelimiterLine (line : jsstring) : bool :=
  isTurnLine line || isMarkLine questionMark line ||
  isMarkLine answerMark line.

(** One turn of the loop over the lines. *)
Definition parseLine (st : parser) (line : jsstring) : parser :=
  if isTurnLine line then
    let st := flush st in
    mkParser (pairsOf st) (questionLines st) (answerLines st) NoSection
  else if isMarkLine questionMark line then
    mkParser (pairsOf st) (questionLines st) (answerLines st) InQuestion
  else if isMarkLine answerMark line then
    mkParser (pairsOf st) (questionLines st) (answerLines st) InAnswer
  else
    match state st with
    | InQuestion =>
        mkParser (pairsOf st) (questionLines st ++ [line]) (answerLines st)
          InQuestion
    | InAnswer =>
        mkParser (pairsOf st) (questionLines st) (answerLines st ++ [line])
          InAnswer
    | NoSection => st
    end.

Definition parseQaText (text : jsstring) : list (jsstring * jsstring) :=
  pairsOf
    (flush
       (fold_left parseLine (splitRe lineBreak text)
          (mkParser [] [] [] NoSection))).

(** A question or an answer that survives the round trip: none of its
    lines has the shape of a delimiter, no carriage return stands before
    a line feed or at its end, and it does not end with a line feed. *)
Definition plainText (s : jsstring) : bool :=
  forallb (fun line => negb (isDelimiterLine line)) (split [10] s) &&
  negb (occurs [13; 10] (s ++ [10])) &&
  negb (endsWith s [10]).

(** The state after the lines of one turn. *)
Definition afterTurn (done : list (jsstring * jsstring)) (qa : jsstring * jsstring)
  : parser :=
  mkParser done (split [10] (fst qa) ++ [[]]) (split [10] (snd qa) ++ [[]])
    InAnswer.

(** Three turns: a question of two lines, an empty turn, and an answer
    with a blank line. *)
Definition sampleTurns : list (jsstring * jsstring) :=
  [(lit "Hello" ++ [10] ++ lit "world", lit "Answer 1");
   ([], []);
   (lit "q3", lit "a" ++ [10; 10] ++ lit "b")].

(** ** The Markdown cleanup *)

(** Character classes: [[ \t]], [\d], [[A-Za-z]], [\w] and
    [[A-Za-z0-9-]]. *)
Definition isBlank (c : Z) : bool := (c =? 32) || (c =? 9).
Definition isDigit (c : Z) : bool := (48 <=? c) && (c <=? 57).
Definition isLetter (c : Z) : bool :=
  ((65 <=? c) && (c <=? 90)) || ((97 <=? c) && (c <=? 122)).
Definition isWord (c : Z) : bool := isLetter c || isDigit c || (c =? 95).
Definition isLabel (c : Z) : bool := isLetter c || isDigit c || (c =? 45).

(** [/[ \t]+\n/]: the greedy run of blanks has to reach the line feed. *)
Definition blanksBeforeBreak : matcher :=
  fun _ s =>
    match span isBlank s with
    | (_ :: run, c :: _) => if c =? 10 then Some (S (S (length run))) else None
    | _ => None
    end.

(** [/\n{3,}/] *)
Definition breakRun : matcher :=
  fun _ s =>
    let run := fst (span (fun c => c =? 10) s) in
    if (3 <=? length run)%nat then Some (length run) else None.

(** [/[ \t]{2,}/] *)
Definition blankRun : matcher :=
  fun _ s =>
    let run := fst (span isBlank s) in
    if (2 <=? length run)%nat then Some (length run) else None.

(** One group [[A-Za-z0-9-]+\.] of a domain name: what follows it.  The
    dot is not in the class, so only the longest run can be followed by
    it. *)
Definition labelDot (s : jsstring) : option jsstring :=
  match span isLabel s with
  | (_ :: _, c :: rest) => if c =? 46 then Some rest else None
  | _ => None
  end.

(** [[A-Za-z]{2,}\b(?!\))]: what follows the letters.  After a shorter
    run comes a letter, which is no word boundary. *)
Definition topLevel (s : jsstring) : option jsstring :=
  match span isLetter s with
  | (_ :: _ :: _, rest) =>
      match rest with
      | [] => Some rest
      | c :: _ => if isWord c || (c =? 41) then None else Some rest
      end
  | _ => None
  end.

(** [(?:[A-Za-z0-9-]+\.)+[A-Za-z]{2,}\b(?!\))] from the current position:
    what follows the match.  The greedy [+] tries one more group before
    it settles for the letters; each group takes two code units, so the
    length of the text is fuel enough. *)
Fixpoint domainRest (fuel : nat) (s : jsstring) : option jsstring :=
  match fuel with
  | O => None
  | S fuel' =>
      match labelDot s with
      | Some afterDot =>
          match domainRest fuel' afterDot with
          | Some rest => Some rest
          | None => topLevel afterDot
          end
      | None => None
      end
  end.

(** [/(?<!\()\b(?:[A-Za-z0-9-]+\.)+[A-Za-z]{2,}\b(?!\))/]: a token of
    the shape of a domain name, not in parentheses. *)
Definition domainToken : matcher :=
  fun prev s =>
    let notAfterParen := match prev with
                         | Some p => negb (p =? 40)
                         | None => true
                         end in
    let boundary := match s with
                    | c :: _ =>
                        xorb (match prev with
                              | Some p => isWord p
                              | None => false
                              end) (isWord c)
                    | [] => false
                    end in
    if notAfterParen && boundary then
      match domainRest (length s) s with
      | Some rest => Some (length s - length rest)%nat
      | None => None
      end
    else None.

(** [/^(?:[A-Za-z0-9-]+\.)+[A-Za-z]{2,}$/.test(s)] *)
Fixpoint isDomainFrom (fuel : nat) (s : jsstring) : bool :=
  match fuel with
  | O => false
  | S fuel' =>
      match labelDot s with
      | Some afterDot =>
          isDomainFrom fuel' afterDot ||
          ((2 <=? length afterDot)%nat && forallb isLetter afterDot)
      | None => false
      end
  end.

Definition isDomainLine (s : jsstring) : bool := isDomainFrom (length s) s.

(** [/^\d{1,3}$/.test(s)] *)
Definition isShortNumber (s : jsstring) : bool :=
  (1 <=? length s)%nat && (length s <=? 3)%nat && forallb isDigit s.

(** [['sources', 'thought process'].includes(s.toLowerCase())] *)
Definition isBoilerplate (s : jsstring) : bool :=
  inList (toLowerCase s) [lit "sources"; lit "thought process"].

(** A trimmed line that the loop drops. *)
Definition isNoise (s : jsstring) : bool :=
  isBoilerplate s || isShortNumber s || isDomainLine s.

(** What the loop over the lines pushes for one line. *)
Definition cleanLine (line : jsstring) : list jsstring :=
  match trim line with
  | [] => [[]]
  | s => if isNoise s then [] else [s]
  end.

(** The first half of [cleanGlmMarkdown]: line breaks are normalized,
    trailing blanks and runs of empty lines go, and the lines are
    trimmed and filtered; the result is [lines.join('\n')]. *)
Definition cleanedLines (text : jsstring) : jsstring :=
  let out := replaceAll [13] [10] (replaceAll [13; 10] [10] text) in
  let out := replaceRe blanksBeforeBreak [10] out in
  let out := replaceRe breakRun [10; 10] out in
  let lines := flat_map cleanLine (split [10] out) in
  join [10] lines.

(** [cleanGlmMarkdown] of the browser build: after the lines, the
    mid-line domain tokens go, runs of blanks and of empty lines are
    collapsed, and the text is trimmed. *)
Definition cleanGlmMarkdown (text : jsstring) : jsstring :=
  let out := cleanedLines text in
  let out := replaceRe domainToken [] out in
  let out := replaceRe blankRun [32] out in
  trim (replaceRe breakRun [10; 10] out).

(** [cleanMarkdown] of the command line build: the same passes, and a
    final line feed after a non-empty result. *)
Definition cleanMarkdown (text : jsstring) : jsstring :=
  match cleanGlmMarkdown text with
  | [] => []
  | out => out ++ [10]
  end.

(** [firesIn m prev s]: the pattern [m] matches at some position of
    [s], where [prev] is the code unit before [s]. *)
Fixpoint firesIn (m : matcher) (prev : option Z) (s : jsstring) : bool :=
  match s with
  | [] => false
  | c :: rest =>
      match m prev s with
      | Some (S _) => true
      | _ => false
      end || firesIn m (Some c) rest
  end.

(** A text on which the later passes of the cleanup have nothing to do:
    no domain token to remove and no run of blanks to collapse. *)
Definition settled (text : jsstring) : bool :=
  negb (firesIn domainToken None text) && negb (firesIn blankRun None text).

(** *** What the cleanup leaves alone *)

(** A text is trimmed when it is empty or starts and ends with a code
    unit that is not white space. *)
Definition trimmed (s : jsstring) : Prop :=
  match s with
  | [] => True
  | c :: _ => isWhiteSpace c = false /\ isWhiteSpace (List.last s 0) = false
  end.

(** Whether a pattern matches here. *)
Definition fires (o : option nat) : bool :=
  match o with
  | Some (S _) => true
  | _ => false
  end.

(** The number of line feeds that a text starts with. *)
Definition lead (s : jsstring) : nat :=
  length (fst (span (fun c => c =? 10) s)).

(** A line on which the cleanup has nothing to do. *)
Definition cleanedLine (l : jsstring) : Prop :=
  cleanLine l = [l] /\ ~ In 13 l /\
  firesIn domainToken None l = false /\ firesIn blankRun None l = false.

(** A text on which the cleanup can only trim the ends. *)
Definition cleanedText (s : jsstring) : Prop :=
  Forall cleanedLine (split [10] s) /\ occurs [10; 10; 10] s = false.

(** ** Base64 as 6-bit values *)

(** The 6-bit values that [btoa] writes for a byte sequence, before the
    padding. *)
Fixpoint sextets (bytes : list Z) : list Z :=
  match bytes with
  | a :: b :: c :: rest =>
      let n := a * 65536 + b * 256 + c in
      n / 262144 :: (n / 4096) mod 64 :: (n / 64) mod 64 :: n mod 64 ::
      sextets rest
  | [a; b] =>
      let n := a * 1024 + b * 4 in [n / 4096; (n / 64) mod 64; n mod 64]
  | [a] => let n := a * 16 in [n / 64; n mod 64]
  | [] => []
  end.

(** A 6-bit value. *)
Definition isSextet (v : Z) : Prop := 0 <= v < 64.

(** ** A small archive *)

(** A file of two parts: a page in quoted-printable whose type is
    written in capitals, and an image in base64 with a content id. *)
Definition sampleFile : list Z :=
  lit "MIME-Version: 1.0" ++ [13; 10] ++
  lit "Content-Type: multipart/related;" ++ [13; 10] ++
  [9] ++ lit "type=text/html; boundary=QQ" ++ [13; 10; 13; 10] ++
  lit "--QQ" ++ [13; 10] ++
  lit "Content-Type: Text/HTML; charset=UTF-8" ++ [13; 10] ++
  lit "Content-Transfer-Encoding: quoted-printable" ++ [13; 10; 13; 10] ++
  lit "<img src=3Dcid:img1>" ++ [13; 10] ++
  lit "--QQ" ++ [13; 10] ++
  lit "Content-Type: image/png" ++ [13; 10] ++
  lit "Content-ID: <img1>" ++ [13; 10] ++
  lit "Content-Transfer-Encoding: base64" ++ [13; 10; 13; 10] ++
  lit "iVBO" ++ [13; 10] ++ lit "Rw==" ++ [13; 10] ++
  lit "--QQ--" ++ [13; 10].

(** ** The keys of a part *)

(** The constants [contentId] and [contentLoc] of the loop of
    [buildCidMap]. *)
Definition contentId (part : Part) : jsstring :=
  trim (orElse (headers part !! lit "content-id") []).

Definition contentLoc (part : Part) : jsstring :=
  trim (orElse (headers part !! lit "content-location") []).

(** [needle] starts at some position of [s], in any spelling of upper
    and lower case. *)
Fixpoint occursIgnoreCase (needle s : jsstring) : bool :=
  startsWithIgnoreCase s needle ||
  match s with
  | [] => false
  | _ :: s' => occursIgnoreCase needle s'
  end.

(** ** The page and the name of the output *)

(** [getMainHtmlPart]: the first part of type text/html. *)
Definition getMainHtmlPart (parts : list Part) : outcome Part :=
  match List.filter (fun p => bool_decide (contentType p = lit "text/html"))
          parts with
  | [] => Thrown NoHtmlPart
  | p :: _ => Returned p
  end.

(** [s.replace(re, repl)] for an expression without the global flag: the
    first match is replaced. *)
Fixpoint replaceFirstFrom (m : matcher) (repl : jsstring) (prev : option Z)
    (s : jsstring) : jsstring :=
  match s with
  | [] => []
  | c :: rest =>
      match m prev s with
      | Some (S n) => repl ++ drop n rest
      | _ => c :: replaceFirstFrom m repl (Some c) rest
      end
  end.

Definition replaceFirst (m : matcher) (repl s : jsstring) : jsstring :=
  replaceFirstFrom m repl None s.

(** [/\.[^.]+$/]: a dot and what follows it, when that is not empty and
    holds no dot, up to the end of the text. *)
Definition extension : matcher :=
  fun _ s =>
    match s with
    | c :: d :: rest =>
        if (c =? 46) && forallb (fun x => negb (x =? 46)) (d :: rest)
        then Some (length s) else None
    | _ => None
    end.

(** [makeOutputName] *)
Definition makeOutputName (inputName ext : jsstring) : jsstring :=
  replaceFirst extension [] inputName ++ ext.

(** ** Entities *)

(** [escapeHtml] on a string. *)
Definition escapeHtml (text : jsstring) : jsstring :=
  replaceAll [39] (lit "&#39;")
    (replaceAll [34] (lit "&quot;")
       (replaceAll [62] (lit "&gt;")
          (replaceAll [60] (lit "&lt;")
             (replaceAll [38] (lit "&amp;") text)))).

(** [htmlUnescape] *)
Definition htmlUnescape (text : jsstring) : jsstring :=
  replaceAll (lit "&amp;") [38]
    (replaceAll (lit "&#39;") [39]
       (replaceAll (lit "&quot;") [34]
          (replaceAll (lit "&gt;") [62]
             (replaceAll (lit "&lt;") [60]
                (replaceAll (lit "&nbsp;") [32] text))))).

(** What [escapeHtml] writes for one code unit. *)
Definition entity (c : Z) : jsstring :=
  if c =? 38 then lit "&amp;"
  else if c =? 60 then lit "&lt;"
  else if c =? 62 then lit "&gt;"
  else if c =? 34 then lit "&quot;"
  else if c =? 39 then lit "&#39;"
  else [c].

(** Two texts differ at a position that both have. *)
Fixpoint differs (v pat : jsstring) : bool :=
  match v, pat with
  | a :: v', b :: pat' => negb (a =? b) || differs v' pat'
  | _, _ => false
  end.

(** No part of a token, from any of its positions on, can start a
    match of the pattern. *)
Fixpoint allDiffer (tok pat : jsstring) : bool :=
  match tok with
  | [] => true
  | _ :: tl => differs tok pat && allDiffer tl pat
  end.

(** What stands for a code unit after [htmlUnescape] has replaced the
    first [k] of the entities of the five special characters, in its
    order: less than, greater than, double quote, single quote,
    ampersand. *)
Definition entityAfter (k : nat) (c : Z) : jsstring :=
  if c =? 60 then if (1 <=? k)%nat then [60] else lit "&lt;"
  else if c =? 62 then if (2 <=? k)%nat then [62] else lit "&gt;"
  else if c =? 34 then if (3 <=? k)%nat then [34] else lit "&quot;"
  else if c =? 39 then if (4 <=? k)%nat then [39] else lit "&#39;"
  else if c =? 38 then if (5 <=? k)%nat then [38] else lit "&amp;"
  else [c].

(** ** Turns as Markdown *)

(** The default title line, and the words that stand for a missing
    question and a missing answer. *)
Definition defaultTitleLine : jsstring :=
  [35; 32; 51656; 51032; 51025; 45813; 32; 52628; 52636].
Definition noQuestion : jsstring := [40; 51656; 47928; 32; 50630; 51020; 41].
Definition noAnswer : jsstring := [40; 45813; 48320; 32; 50630; 51020; 41].
Definition questionHeading : jsstring := lit "### " ++ [51656; 47928].
Definition answerHeading : jsstring := lit "### " ++ [45813; 48320].

(** The lines that [makeTurnsMarkdown] pushes for the pair of index
    [i]. *)
Definition turnBlock (i : nat) (qa : jsstring * jsstring) : list jsstring :=
  [lit "## Turn " ++ numberToString (i + 1); []; questionHeading; [];
   orElse (Some (fst qa)) noQuestion; []; answerHeading; [];
   orElse (Some (snd qa)) noAnswer; []].

Fixpoint turnBlocks (i : nat) (pairs : list (jsstring * jsstring))
  : list jsstring :=
  match pairs with
  | [] => []
  | qa :: rest => turnBlock i qa ++ turnBlocks (S i) rest
  end.

(** [makeTurnsMarkdown] of the browser build. *)
Definition makeTurnsMarkdown (pairs : list (jsstring * jsstring))
    (title : jsstring) : jsstring :=
  let lines :=
    (if truthy (Some title) then lit "# " ++ title else defaultTitleLine)
    :: [] :: turnBlocks 0 pairs in
  trim (replaceRe breakRun [10; 10] (join [10] lines)) ++ [10].

(** The lines that [makeMd] of the command line build pushes for a
    turn: the question is written as it is. *)
Definition mdBlock (i : nat) (qa : jsstring * jsstring) : list jsstring :=
  [lit "## Turn " ++ numberToString (i + 1); []; questionHeading; [];
   fst qa; []; answerHeading; []; orElse (Some (snd qa)) noAnswer; []].

Fixpoint mdBlocks (i : nat) (turns : list (jsstring * jsstring))
  : list jsstring :=
  match turns with
  | [] => []
  | qa :: rest => mdBlock i qa ++ mdBlocks (S i) rest
  end.

(** [makeMd] *)
Definition makeMd (turns : list (jsstring * jsstring)) (title : jsstring)
  : jsstring :=
  let lines := (lit "# " ++ title) :: [] :: mdBlocks 0 turns in
  trim (replaceRe breakRun [10; 10] (join [10] lines)) ++ [10].

(** ** Blocks into turns *)

(** The two notices about keyboard shortcuts that the page shows, which
    are no part of the conversation. *)
Definition shortcutNotices : list jsstring :=
  [[53412; 48372; 46300; 32; 45800; 52629; 53412; 47484; 32; 48372; 47140;
    47732; 32; 47932; 51020; 54364; 47484; 32; 45572; 47476; 49464; 50836;
    46];
   [53412; 48372; 46300; 32; 45800; 52629; 53412; 32; 48372; 44592]].

(** [answers.filter((a) => a.trim()).join(LF LF).trim()] *)
Definition joinAnswers (answers : list jsstring) : jsstring :=
  trim (join [10; 10]
          (List.filter (fun a => truthy (Some (trim a))) answers)).

Section Turns.

(** [fragmentToMarkdown]: the Markdown of a fragment, which the command
    line build computes with the HTML parser of a library. *)
Variable fragmentToMarkdown : jsstring -> jsstring.

(** The variables [turns], [q] and [answers] of [buildTurns]. *)
Definition turnsState : Type :=
  list (jsstring * jsstring) * option jsstring * list jsstring.

(** [turns.push([q, ...])] when [q !== null]. *)
Definition pushTurn (turns : list (jsstring * jsstring)) (q : option jsstring)
    (answers : list jsstring) : list (jsstring * jsstring) :=
  match q with
  | Some q0 => turns ++ [(q0, joinAnswers answers)]
  | None => turns
  end.

(** One turn of the loop over the blocks. *)
Definition turnStep (st : turnsState) (block : role * jsstring) : turnsState :=
  let '(turns, q, answers) := st in
  let text := fragmentToMarkdown (snd block) in
  if negb (truthy (Some text)) then st
  else if inList text shortcutNotices then st
  else
    match fst block with
    | User => (pushTurn turns q answers, Some text, [])
    | Model =>
        (turns,
         Some (match q with Some q0 => q0 | None => noQuestion end),
         answers ++ [text])
    end.

(** [buildTurns] of the command line build. *)
Definition buildTurns (blocks : list (role * jsstring))
  : list (jsstring * jsstring) :=
  let '(turns, q, answers) := fold_left turnStep blocks ([], None, []) in
  pushTurn turns q answers.

(** The blocks that the loop does not skip, with their texts. *)
Definition keptTexts (blocks : list (role * jsstring))
  : list (role * jsstring) :=
  List.filter
    (fun rt => truthy (Some (snd rt)) && negb (inList (snd rt) shortcutNotices))
    (map (fun block => (fst block, fragmentToMarkdown (snd block))) blocks).

End Turns.

(** The texts of the blocks of the user. *)
Definition userTexts (texts : list (role * jsstring)) : list jsstring :=
  map snd (List.filter (fun rt => match fst rt with
                                  | User => true
                                  | Model => false
                                  end) texts).

(** A conversation in which the user and the model take turns: the
    blocks of its exchanges. *)
Definition exchangeBlocks (exchanges : list (jsstring * jsstring))
  : list (role * jsstring) :=
  flat_map (fun e => [(User, fst e); (Model, snd e)]) exchanges.

(** ** The Markdown of a fragment, normalized *)

(** [/\n[ \t]+/]: a line feed and the blanks after it. *)
Definition blanksAfterBreak : matcher :=
  fun _ s =>
    match s with
    | c :: rest =>
        if c =? 10 then
          match fst (span isBlank rest) with
          | _ :: run => Some (S (S (length run)))
          | [] => None
          end
        else None
    | [] => None
    end.

(** [normalizeMarkdown] of the command line build. *)
Definition normalizeMarkdown (text : jsstring) : jsstring :=
  let out := replaceAll [13] [10] (replaceAll [13; 10] [10] text) in
  let out := replaceRe blanksBeforeBreak [10] out in
  let out := replaceRe blanksAfterBreak [10] out in
  let out := replaceRe breakRun [10; 10] out in
  let out := replaceRe blankRun [32] out in
  trim out.

Definition isLineFeed (c : Z) : bool := c =? 10.

(** [pairFreeAfter a b last s]: in the text [s], read after the code
    unit [last], no code unit that satisfies [a] stands right before
    one that satisfies [b]. *)
Fixpoint pairFreeAfter (a b : Z -> bool) (last : option Z) (s : jsstring)
  : bool :=
  match s with
  | [] => true
  | y :: t =>
      match last with
      | Some x => negb (a x && b y)
      | None => true
      end && pairFreeAfter a b (Some y) t
  end.

(** The code unit before what follows [x], when [last] is the one
    before [x]. *)
Fixpoint lastOf (last : option Z) (x : jsstring) : option Z :=
  match x with
  | [] => last
  | c :: t => lastOf (Some c) t
  end.

(** After the blanks that a text starts with, if any, comes a line
    feed. *)
Definition breakAhead (s : jsstring) : bool :=
  match snd (span isBlank s) with
  | c :: _ => c =? 10
  | [] => false
  end.

(** A property of the code unit before the current position. *)
Definition before (a : Z -> bool) (last : option Z) : bool :=
  match last with
  | Some x => a x
  | None => false
  end.

(** A text does not start with a blank. *)
Definition noBlankFirst (s : jsstring) : bool :=
  match s with
  | c :: _ => negb (isBlank c)
  | [] => true
  end.

(** ** The Markdown tree walker: nodes *)

(** The test of [glmNodeToMd] on the class of an element:
    [cls] is the class attribute in lower case and [classList] its
    parts between white space. *)
Definition hiddenByClass (attrs : list (jsstring * jsstring)) : bool :=
  let cls := toLowerCase (orElse (getAttribute attrs (lit "class")) []) in
  let classList :=
    List.filter (fun t => match t with [] => false | _ => true end)
      (splitRe whiteSpaceRun cls) in
  includes cls (lit "thinking-chain-container") ||
  includes cls (lit "thinking-block") ||
  (inList (lit "overflow-hidden") classList && inList (lit "h-0") classList) ||
  includes cls (lit "citations") ||
  includes cls (lit "tooltip") ||
  includes cls (lit "edit-user-message-button").

(** [/^h[1-6]$/.test(name)], with the level [Number(name.slice(1))]. *)
Definition headingLevel (name : jsstring) : option nat :=
  match name with
  | [h; d] =>
      if (h =? 104) && (49 <=? d) && (d <=? 54)
      then Some (Z.to_nat (d - 48))
      else None
  | _ => None
  end.

(** One entry of a list, indented by its depth: a number and a dot in
    an ordered list, a hyphen otherwise. *)
Definition listLine (ordered : bool) (depth idx : nat) (content : jsstring)
  : jsstring :=
  concat (repeat (lit "  ") depth) ++
  (if ordered then numberToString idx ++ lit ". " else lit "- ") ++
  content.

(** The loop over the entries of a list: the state is the array [lines]
    and the counter [idx]; an entry without content is passed over. *)
Definition listLines (ordered : bool) (depth : nat)
    (contents : list jsstring) : list jsstring :=
  fst (fold_left
         (fun (st : list jsstring * nat) content =>
            match content with
            | [] => st
            | _ =>
                (fst st ++ [listLine ordered depth (snd st) content],
                 if ordered then S (snd st) else snd st)
            end)
         contents ([], 1%nat)).

(** [glmNodeToMd(node, depth)].  The name of an element is its
    [tagName] in lower case.  The code of the [table] case is the code of
    [tableToMarkdown]. *)
Fixpoint glmNodeToMd (node : Node) (depth : nat) {struct node} : jsstring :=
  match node with
  | TextNode data => replaceAll [160] [32] data
  | CommentNode _ => []
  | ElementNode name attrs children =>
      if hiddenByClass attrs then []
      else if inList name [lit "script"; lit "style"; lit "noscript";
                           lit "button"] then []
      else if bool_decide (name = lit "br") then [10]
      else
        match headingLevel name with
        | Some level =>
            [10] ++ repeat 35 level ++ [32] ++
            normalizeText (nodeText node) ++ [10; 10]
        | None =>
            if bool_decide (name = lit "table") then tableToMarkdown node
            else if bool_decide (name = lit "ul") ||
                    bool_decide (name = lit "ol") then
              let contents :=
                flat_map
                  (fun c =>
                     match c with
                     | ElementNode cname _ grandchildren =>
                         if bool_decide (cname = lit "li") then
                           [trim (flat_map
                                    (fun n => glmNodeToMd n (S depth))
                                    grandchildren)]
                         else []
                     | _ => []
                     end)
                  children in
              match listLines (bool_decide (name = lit "ol")) depth
                      contents with
              | [] => []
              | lines => join [10] lines ++ [10; 10]
              end
            else
              let body :=
                trim (flat_map (fun n => glmNodeToMd n depth) children) in
              if inList name [lit "p"; lit "div"; lit "section";
                              lit "article"; lit "blockquote"] then
                match body with
                | [] => []
                | _ => body ++ [10; 10]
                end
              else body
        end
  end.

(** *** The table as the specification words it *)

(** The words of a text: its maximal runs of code units that are not
    white space.  [cur] is the word being read. *)
Fixpoint wordsFrom (cur s : jsstring) : list jsstring :=
  match s with
  | [] => match cur with [] => [] | _ => [cur] end
  | c :: rest =>
      if isWhiteSpace c then
        match cur with
        | [] => wordsFrom [] rest
        | _ => cur :: wordsFrom [] rest
        end
      else wordsFrom (cur ++ [c]) rest
  end.

Definition words (s : jsstring) : list jsstring := wordsFrom [] s.

(** A backslash before every pipe. *)
Definition escapePipes (s : jsstring) : jsstring :=
  flat_map (fun c => if c =? 124 then [92; 124] else [c]) s.

(** The text shown for a cell: its words with one space between them,
    pipes escaped. *)
Definition shownCell (c : Node) : jsstring :=
  escapePipes (join [32] (words (nodeText c))).

(** A row of [width] columns: the cells of the row, then empty cells,
    each between pipes. *)
Definition shownRow (width : nat) (cells : list jsstring) : jsstring :=
  lit "|" ++
  flat_map (fun c => [32] ++ c ++ lit " |")
    (cells ++ repeat [] (width - length cells)).

Definition separatorRow (width : nat) : jsstring :=
  lit "|" ++ concat (repeat (lit " --- |") width).

(** The lines of a table: the first row, the separator, the other
    rows. *)
Definition shownLines (width : nat) (rows : list (list jsstring))
  : list jsstring :=
  match rows with
  | [] => []
  | first :: others =>
      shownRow width first :: separatorRow width ::
      map (shownRow width) others
  end.

(** The rows of a table: the cells of each [tr] that has cells, in
    document order. *)
Definition hasCells (cells : list Node) : bool :=
  match cells with
  | [] => false
  | _ => true
  end.

Definition shownRows (table : Node) : list (list jsstring) :=
  map (map shownCell)
    (List.filter hasCells
       (map (querySelectorAll [lit "th"; lit "td"])
          (querySelectorAll [lit "tr"] table))).

(** The classes that hide an element, as the specification words them:
    the class attribute in lower case contains one of five markers, or
    the classes [overflow-hidden] and [h-0] are both among the words of
    the attribute. *)
Definition hidingClass (cls : jsstring) : Prop :=
  (exists marker pre post,
     In marker [lit "thinking-chain-container"; lit "thinking-block";
                lit "citations"; lit "tooltip";
                lit "edit-user-message-button"] /\
     cls = pre ++ marker ++ post) \/
  (In (lit "overflow-hidden") (words cls) /\ In (lit "h-0") (words cls)).

(** A table that [glmNodeToMd] hides: one row, one cell, and a class. *)
Definition hiddenTable : Node :=
  ElementNode (lit "table") [(lit "class", lit "ToolTip wide")]
    [ElementNode (lit "tr") []
       [ElementNode (lit "td") [] [TextNode (lit "x")]]].

(** ** The HTML converter: serialization *)

(** The last statement of [convertMhtmlToHtml]:
    ['<!DOCTYPE html>\n' + doc.documentElement.outerHTML.replace(/\*\*/g, '')].
    The argument is the serialized document element. *)
Definition htmlOut (outerHTML : jsstring) : jsstring :=
  lit "<!DOCTYPE html>" ++ [10] ++ replaceAll (lit "**") [] outerHTML.

(** The command line variant writes [$.html().replace(/\*\*/g, '')]. *)
Definition htmlOutCli (html : jsstring) : jsstring :=
  replaceAll (lit "**") [] html.

(** * Properties *)

Lemma indexOfFrom_occurs needle s i :
  0 <= i -> (0 <=? indexOfFrom needle s i) = occurs needle s.
Proof.
  revert i; induction s as [|c s IH]; intros i Hi.
  - destruct needle; simpl; [apply Z.leb_le; lia|reflexivity].
  - cbn [indexOfFrom occurs].
    destruct (startsWith (c :: s) needle); simpl; [apply Z.leb_le; lia|].
    apply IH; lia.
Qed.

Lemma includes_occurs s needle : includes s needle = occurs needle s.
Proof.
  unfold includes, indexOf.
  assert (H : Z.min (Z.max 0 0) (len s) = 0) by (unfold len; lia).
  rewrite H. simpl. apply indexOfFrom_occurs; lia.
Qed.

(** ** No bold marker survives the serialization *)

Lemma removeBold_no_marker s prev skip :
  (skip <= 1)%nat ->
  occurs (lit "**") (replaceFrom (literal (lit "**")) [] prev skip s) = false.
Proof.
  change (lit "**") with [42; 42].
  revert prev skip; induction s as [|c rest IH]; intros prev skip Hskip;
    [reflexivity|].
  destruct skip as [|k]; cbn [replaceFrom].
  - unfold literal at 1.
    destruct (startsWith (c :: rest) [42; 42]) eqn:Hm; cbn [length app].
    + apply IH; simpl; lia.
    + cbn [occurs]. rewrite (IH (Some c) 0%nat) by lia. rewrite orb_false_r.
      cbn [startsWith] in *.
      destruct (42 =? c) eqn:Hc; [|reflexivity]. cbn [andb] in *.
      destruct rest as [|d rest']; [reflexivity|].
      cbn [startsWith replaceFrom] in *. unfold literal at 1.
      cbn [startsWith].
      destruct (42 =? d) eqn:Hd; [discriminate|].
      cbn [andb startsWith]. rewrite Hd. reflexivity.
  - apply IH; lia.
Qed.

(** C9: the serialized output of the HTML conversion, in the browser
    build ([htmlOut]) and in the command line build ([htmlOutCli]),
    contains no occurrence of the two-character sequence [**], whatever
    the serialized document was. *)
Theorem C9_output_has_no_bold_marker (outerHTML : jsstring) :
  includes (htmlOut outerHTML) (lit "**") = false /\
  includes (htmlOutCli outerHTML) (lit "**") = false.
Proof.
  rewrite !includes_occurs. unfold htmlOut, htmlOutCli, replaceAll, replaceRe.
  split.
  - assert (H := removeBold_no_marker outerHTML None 0).
    change (lit "**") with [42; 42] in *.
    let x := eval cbv in (lit "<!DOCTYPE html>") in
    change (lit "<!DOCTYPE html>") with x.
    cbn [app occurs startsWith].
    repeat (rewrite (proj2 (Z.eqb_neq 42 _)) by lia; cbn [andb orb]).
    apply H; lia.
  - apply removeBold_no_marker; lia.
Qed.

(** ** Quoted-printable *)

Lemma hexDigitOf_hex n : 0 <= n < 16 -> isHexDigit (hexDigitOf n) = true /\ hexVal (hexDigitOf n) = n.
Proof.
  intros H. unfold hexDigitOf, isHexDigit, hexVal.
  destruct (Z.ltb_spec n 10).
  - split; [|destruct (Z.leb_spec (48 + n) 57); lia].
    apply orb_true_iff; left; apply orb_true_iff; left. apply andb_true_iff; split; apply Z.leb_le; lia.
  - split.
    + apply orb_true_iff; left; apply orb_true_iff; right. apply andb_true_iff; split; apply Z.leb_le; lia.
    + destruct (Z.leb_spec (55 + n) 57); [lia|]. destruct (Z.leb_spec (55 + n) 70); lia.
Qed.

Lemma qpToken_encoding b bytes text :
  isByte b -> qpEncoding bytes text -> qpEncoding (b :: bytes) (qpToken b ++ text).
Proof.
  intros Hb He. unfold qpToken.
  destruct ((33 <=? b) && (b <=? 126) && negb (b =? 61)) eqn:Hl.
  - apply andb_true_iff in Hl as [_ Hl]. apply negb_true_iff, Z.eqb_neq in Hl.
    now apply qpe_literal.
  - unfold isByte in Hb.
    destruct (hexDigitOf_hex (b / 16)) as [H1 H1']; [split; [apply Z.div_pos; lia| apply Z.div_lt_upper_bound; lia]|].
    destruct (hexDigitOf_hex (b mod 16)) as [H2 H2']; [apply Z.mod_pos_bound; lia|].
    assert (Hv : b = 16 * hexVal (hexDigitOf (b / 16)) + hexVal (hexDigitOf (b mod 16))).
    { rewrite H1', H2'. apply Z.div_mod; lia. }
    rewrite Hv at 1. cbn [app]. now apply qpe_escape.
Qed.

Lemma qpEncodeFrom_encoding bytes col :
  Forall isByte bytes -> qpEncoding bytes (qpEncodeFrom col bytes).
Proof.
  intros H; revert col; induction H as [|b bytes Hb _ IH]; intros col; cbn [qpEncodeFrom].
  - constructor.
  - destruct (75 <? col + length (qpToken b))%nat.
    + cbn [app]. apply qpe_soft_crlf. now apply qpToken_encoding.
    + now apply qpToken_encoding.
Qed.

Lemma isHexDigit_not_break h :
  isHexDigit h = true -> h <> 61 /\ h <> 13 /\ h <> 10.
Proof.
  unfold isHexDigit. intros H.
  repeat (apply orb_true_iff in H as [H|H]);
    apply andb_true_iff in H as [H1 H2];
    apply Z.leb_le in H1; apply Z.leb_le in H2; lia.
Qed.

Lemma qpDecode_of_encoding bytes text prev :
  qpEncoding bytes text ->
  qpDecodeFrom 0 (replaceFrom softBreak [] prev 0 text) = bytes.
Proof.
  intros H; revert prev; induction H as
    [|b bytes text Hb Hne _ IH|h1 h2 bytes text H1 H2 _ IH
     |bytes text _ IH|bytes text _ IH]; intros prev.
  - reflexivity.
  - cbn [replaceFrom]. unfold softBreak at 1. cbn [startsWith].
    rewrite (proj2 (Z.eqb_neq 61 b)) by lia. cbn [andb qpDecodeFrom].
    rewrite (proj2 (Z.eqb_neq b 61)) by lia. cbn [andb].
    rewrite IH. f_equal. unfold isByte in Hb.
    change 255 with (Z.ones 8). rewrite Z.land_ones by lia.
    apply Z.mod_small; lia.
  - destruct (isHexDigit_not_break _ H1) as (A1 & A2 & A3).
    destruct (isHexDigit_not_break _ H2) as (B1 & B2 & B3).
    cbn [replaceFrom]. unfold softBreak at 1. cbn [startsWith].
    rewrite Z.eqb_refl, (proj2 (Z.eqb_neq 13 h1)), (proj2 (Z.eqb_neq 10 h1)) by lia.
    cbn [andb]. unfold softBreak at 1. cbn [startsWith].
    rewrite (proj2 (Z.eqb_neq 61 h1)) by lia. cbn [andb].
    unfold softBreak at 1. cbn [startsWith].
    rewrite (proj2 (Z.eqb_neq 61 h2)) by lia. cbn [andb].
    cbn [qpDecodeFrom length take isHexPair parseHexPair].
    rewrite Z.eqb_refl, H1, H2. cbn [andb Nat.leb]. now rewrite IH.
  - cbn [replaceFrom]. unfold softBreak at 1. cbn [startsWith].
    rewrite !Z.eqb_refl. cbn [andb app replaceFrom]. apply IH.
  - cbn [replaceFrom]. unfold softBreak at 1. cbn [startsWith].
    rewrite !Z.eqb_refl. cbn [andb app replaceFrom].
    change (13 =? 10) with false. cbn [andb replaceFrom]. apply IH.
Qed.

(** C4: decoding the quoted-printable encoding of a byte sequence gives
    the sequence back, for all byte values 0 to 255: for the reference
    encoder [qpEncode], which escapes with [=XX] and wraps lines with
    soft breaks. *)
Theorem C4_qp_round_trip (bytes : list Z) :
  Forall isByte bytes -> qpDecodeToBytes (qpEncode bytes) = bytes.
Proof.
  intros H. unfold qpDecodeToBytes, replaceRe.
  apply qpDecode_of_encoding, qpEncodeFrom_encoding, H.
Qed.

Lemma C4_qp_round_trip_witness :
  Forall isByte [0; 61; 255; 10; 13; 65; 128] /\
  qpDecodeToBytes (qpEncode [0; 61; 255; 10; 13; 65; 128]) =
    [0; 61; 255; 10; 13; 65; 128].
Proof.
  assert (H : Forall isByte [0; 61; 255; 10; 13; 65; 128])
    by (repeat constructor; unfold isByte; lia).
  split; [exact H | apply (C4_qp_round_trip _ H)].
Defined.

(** ** Charset decoding *)

Section CharsetFacts.

Variable textDecode : jsstring -> bool -> list Z -> option jsstring.

Lemma firstDecoded_app a b bytes :
  firstDecoded textDecode (a ++ b) bytes =
  match firstDecoded textDecode a bytes with
  | Some text => Some text
  | None => firstDecoded textDecode b bytes
  end.
Proof.
  induction a as [|cs a IH]; [reflexivity|]. cbn [app firstDecoded].
  destruct (textDecode cs false bytes); [reflexivity|apply IH].
Qed.

Lemma firstDecoded_failed a cs bytes :
  inList cs a = true -> firstDecoded textDecode a bytes = None ->
  textDecode cs false bytes = None.
Proof.
  unfold inList. induction a as [|x a IH]; [discriminate|].
  cbn [existsb firstDecoded]. intros Hin Hnone.
  destruct (textDecode x false bytes) eqn:Hx; [discriminate|].
  apply orb_true_iff in Hin as [Hin|Hin]; [|now apply IH].
  apply bool_decide_eq_true in Hin. now subst.
Qed.

(** A charset that is already among the tries can be tried again at
    the end without changing the outcome. *)
Lemma firstDecoded_push tries c bytes :
  firstDecoded textDecode
    (if inList c tries then tries else tries ++ [c]) bytes =
  firstDecoded textDecode (tries ++ [c]) bytes.
Proof.
  destruct (inList c tries) eqn:Hin; [|reflexivity].
  rewrite firstDecoded_app.
  destruct (firstDecoded textDecode tries bytes) eqn:Hf; [reflexivity|].
  cbn [firstDecoded]. now rewrite (firstDecoded_failed _ _ _ Hin Hf).
Qed.

Lemma firstDecoded_fold cs tries bytes :
  firstDecoded textDecode
    (fold_left (fun tries c => if inList c tries then tries else tries ++ [c])
       cs tries) bytes =
  firstDecoded textDecode (tries ++ cs) bytes.
Proof.
  revert tries; induction cs as [|c cs IH]; intros tries; cbn [fold_left].
  - now rewrite app_nil_r.
  - rewrite IH. rewrite !firstDecoded_app, firstDecoded_push.
    rewrite firstDecoded_app. cbn [firstDecoded].
    destruct (firstDecoded textDecode tries bytes); [reflexivity|].
    destruct (textDecode c false bytes); reflexivity.
Qed.

End CharsetFacts.

(** The first charset of a list whose decoder does not throw decides
    the outcome of the second loop. *)
Lemma firstDecoded_first
    (textDecode : jsstring -> bool -> list Z -> option jsstring)
    (tries : list jsstring) (bytes : list Z) (i : nat) (cs text : jsstring) :
  tries !! i = Some cs ->
  textDecode cs false bytes = Some text ->
  (forall j cs', (j < i)%nat -> tries !! j = Some cs' ->
                 textDecode cs' false bytes = None) ->
  firstDecoded textDecode tries bytes = Some text.
Proof.
  revert i; induction tries as [|c tries IH]; intros i Hi Hcs Hbefore;
    [discriminate|].
  cbn [firstDecoded]. destruct i as [|i].
  - injection Hi as ->. now rewrite Hcs.
  - rewrite (Hbefore 0%nat c) by (reflexivity || lia).
    apply (IH i); [exact Hi|exact Hcs|].
    intros j cs' Hj Hcs'. apply (Hbefore (S j) cs'); [lia|exact Hcs'].
Qed.

Lemma firstDecoded_none
    (textDecode : jsstring -> bool -> list Z -> option jsstring)
    (tries : list jsstring) (bytes : list Z) :
  (forall cs, In cs tries -> textDecode cs false bytes = None) ->
  firstDecoded textDecode tries bytes = None.
Proof.
  induction tries as [|c tries IH]; intros H; [reflexivity|].
  cbn [firstDecoded]. rewrite (H c) by now left.
  apply IH. intros cs Hcs. apply H. now right.
Qed.

(** The array [tries] gives the outcome of the chain that keeps the
    repeated names. *)
Lemma decodeBytes_chain
    (textDecode : jsstring -> bool -> list Z -> option jsstring)
    (bytes : list Z) (charsetHint : option jsstring) :
  decodeBytes textDecode bytes charsetHint =
  match firstDecoded textDecode (charsetChain charsetHint) bytes with
  | Some text => Some text
  | None => textDecode (lit "utf-8") false bytes
  end.
Proof.
  unfold decodeBytes, charsetTries, charsetChain.
  now rewrite firstDecoded_fold.
Qed.

(** On a host whose UTF-8 decoder does not throw, no exception leaves
    [decodeBytes]. *)
Lemma decodeBytes_returns
    (textDecode : jsstring -> bool -> list Z -> option jsstring)
    (bytes : list Z) (charsetHint : option jsstring) :
  textDecode (lit "utf-8") false bytes <> None ->
  exists text, decodeBytes textDecode bytes charsetHint = Some text.
Proof.
  intros lenient. rewrite decodeBytes_chain.
  destruct (firstDecoded textDecode _ bytes) as [text|]; [now exists text|].
  destruct (textDecode (lit "utf-8") false bytes) as [text|];
    [now exists text|contradiction].
Qed.

(** C5: charset decoding is total and follows the first-success chain.
    The chain is the hint, when there is one, then utf-8, cp949,
    euc-kr, windows-1252 and latin1.  For every host, every buffer and
    every hint: when the decoder of some charset of the chain does not
    throw and the decoders of all the charsets before it in the chain
    throw, [decodeBytes] returns the text of that decoder; when the
    decoder of every charset of the chain throws, [decodeBytes] is the
    lenient UTF-8 decode; and on a host whose lenient UTF-8 decoder
    never throws, [decodeBytes] returns a text for every buffer and
    hint, so that no exception leaves it. *)
Theorem C5_decodeBytes_total
    (textDecode : jsstring -> bool -> list Z -> option jsstring)
    (bytes : list Z) (charsetHint : option jsstring) :
  let chain :=
    match charsetHint with
    | Some (c :: hint) => [c :: hint]
    | _ => []
    end ++
    [lit "utf-8"; lit "cp949"; lit "euc-kr"; lit "windows-1252";
     lit "latin1"] in
  (forall (i : nat) (cs text : jsstring),
     chain !! i = Some cs ->
     textDecode cs false bytes = Some text ->
     (forall j cs', (j < i)%nat -> chain !! j = Some cs' ->
                    textDecode cs' false bytes = None) ->
     decodeBytes textDecode bytes charsetHint = Some text) /\
  ((forall cs, In cs (chain) ->
               textDecode cs false bytes = None) ->
   decodeBytes textDecode bytes charsetHint =
   textDecode (lit "utf-8") false bytes) /\
  ((forall bytes', textDecode (lit "utf-8") false bytes' <> None) ->
   exists (i : nat) (cs text : jsstring),
     chain !! i = Some cs /\
     textDecode cs false bytes = Some text /\
     (forall j cs', (j < i)%nat -> chain !! j = Some cs' ->
                    textDecode cs' false bytes = None) /\
     decodeBytes textDecode bytes charsetHint = Some text).
Proof.
  intros chain.
  assert (Hchain : chain = charsetChain charsetHint)
    by (destruct charsetHint as [[|c hint]|]; reflexivity).
  rewrite Hchain. clear chain Hchain.
  split; [|split].
  - intros i cs text Hi Hcs Hbefore. rewrite decodeBytes_chain.
    now rewrite (firstDecoded_first textDecode _ bytes i cs text).
  - intros Hall. rewrite decodeBytes_chain.
    now rewrite firstDecoded_none.
  - intros lenient. rewrite decodeBytes_chain.
    assert (Hfirst : forall chain,
              firstDecoded textDecode chain bytes = None \/
              exists (i : nat) (cs text : jsstring),
                chain !! i = Some cs /\
                textDecode cs false bytes = Some text /\
                (forall j cs', (j < i)%nat -> chain !! j = Some cs' ->
                               textDecode cs' false bytes = None) /\
                firstDecoded textDecode chain bytes = Some text).
    { induction chain as [|c chain IH]; [now left|].
      cbn [firstDecoded].
      destruct (textDecode c false bytes) as [text|] eqn:Hc.
      - right. exists 0%nat, c, text. repeat split; try assumption.
        intros j cs' Hj. lia.
      - destruct IH as [IH|(i & cs & text & Hi & Hcs & Hbefore & Hres)];
          [now left|].
        right. exists (S i), cs, text. repeat split; try assumption.
        intros [|j] cs' Hj Hcs'.
        + injection Hcs' as <-. exact Hc.
        + apply (Hbefore j cs'); [lia|exact Hcs']. }
    destruct (Hfirst (charsetChain charsetHint))
      as [Hnone|(i & cs & text & Hi & Hcs & Hb & Hres)].
    + exfalso. apply (lenient bytes).
      apply (firstDecoded_failed textDecode (charsetChain charsetHint));
        [|exact Hnone].
      unfold charsetChain, inList. rewrite existsb_app.
      apply orb_true_iff; right. reflexivity.
    + exists i, cs, text. rewrite Hres. repeat split; assumption.
Qed.

Lemma C5_decodeBytes_total_witness :
  decodeBytes asciiHost [72; 105; 200] (Some (lit "x-unknown")) =
    Some [72; 105; 65533] /\
  decodeBytes (fun _ _ _ => None) [72; 105; 200] (Some (lit "x-unknown")) =
    None /\
  exists text,
    decodeBytes asciiHost [72; 105; 200] (Some (lit "x-unknown")) = Some text.
Proof.
  split; [|split].
  - apply (proj1 (C5_decodeBytes_total asciiHost [72; 105; 200]
                    (Some (lit "x-unknown"))) 1%nat (lit "utf-8"));
      [reflexivity|reflexivity|].
    intros [|j] cs' Hj Hcs'; [injection Hcs' as <-; reflexivity|lia].
  - apply (proj1 (proj2 (C5_decodeBytes_total (fun _ _ _ => None)
                           [72; 105; 200] (Some (lit "x-unknown"))))).
    reflexivity.
  - destruct (proj2 (proj2 (C5_decodeBytes_total asciiHost [72; 105; 200]
                              (Some (lit "x-unknown")))))
      as (i & cs & text & _ & _ & _ & H).
    + intros bytes'. unfold asciiHost.
      rewrite bool_decide_eq_true_2 by reflexivity. discriminate.
    + now exists text.
Defined.

(** ** The multipart reader *)

Lemma indexOf_negative s needle :
  (indexOf s needle 0 <? 0) = negb (includes s needle).
Proof. unfold includes. apply Z.ltb_antisym. Qed.

Lemma headEnd_negative latin1 :
  (indexOf latin1 (headerSeparator latin1) 0 <? 0) =
  negb (hasHeaderSeparator latin1).
Proof.
  unfold headerSeparator, hasHeaderSeparator.
  fold (includes latin1 [13; 10; 13; 10]).
  destruct (includes latin1 [13; 10; 13; 10]) eqn:H; rewrite indexOf_negative.
  - now rewrite H.
  - reflexivity.
Qed.

Lemma parseSection_thrown sec e :
  parseSection sec = Thrown e <->
  rejectedSection sec = true /\ e = InvalidCharacter.
Proof.
  unfold parseSection, rejectedSection.
  destruct (sectionSplit sec) as [[pHeaders pBody]|]; [|split; [discriminate|intros [? _]; discriminate]].
  destruct (includes (transferEncoding pHeaders) (lit "base64")).
  - destruct (base64ToBytes pBody); cbn [andb].
    + split; [discriminate|intros [? _]; discriminate].
    + split; [intros [= <-]; auto|intros [_ ->]; reflexivity].
  - cbn [andb].
    destruct (includes (transferEncoding pHeaders) (lit "quoted-printable"));
      (split; [discriminate|intros [? _]; discriminate]).
Qed.

Lemma parseSection_returned sec :
  rejectedSection sec = false -> exists r, parseSection sec = Returned r.
Proof.
  intros H. destruct (parseSection sec) as [r|e] eqn:Hp; [now exists r|].
  apply parseSection_thrown in Hp as [Hp _]. congruence.
Qed.

Lemma parseSections_returned sections parts :
  existsb rejectedSection sections = false ->
  exists parts', parseSections sections parts = Returned parts'.
Proof.
  revert parts; induction sections as [|sec rest IH]; intros parts H.
  - now exists parts.
  - cbn [existsb] in H. apply orb_false_iff in H as [H1 H2].
    cbn [parseSections].
    destruct (parseSection_returned _ H1) as [[part|] ->]; now apply IH.
Qed.

Lemma parseSections_thrown sections parts :
  existsb rejectedSection sections = true ->
  parseSections sections parts = Thrown InvalidCharacter.
Proof.
  revert parts; induction sections as [|sec rest IH]; intros parts H;
    [discriminate|].
  cbn [existsb parseSections] in *.
  destruct (rejectedSection sec) eqn:Hr.
  - assert (Hp : parseSection sec = Thrown InvalidCharacter)
      by (apply parseSection_thrown; auto).
    now rewrite Hp.
  - destruct (parseSection_returned _ Hr) as [[part|] ->]; now apply IH.
Qed.

Lemma parseMhtmlParts_cases bytes :
  parseMhtmlParts bytes =
  if negb (hasHeaderSeparator (decodeLatin1 bytes))
  then Thrown NoHeaderSeparator
  else if negb (truthy (rootBoundary (decodeLatin1 bytes)))
       then Thrown BoundaryNotFound
       else parseSections (bodySections (decodeLatin1 bytes)) [].
Proof.
  unfold parseMhtmlParts. cbv zeta. rewrite headEnd_negative.
  reflexivity.
Qed.

(** C8 (amended): when [parseMhtmlParts] throws.  It throws its no-header-separator
    error exactly when the decoded input contains neither CR LF CR
    LF nor LF LF; it throws its boundary-not-found error exactly when
    there is a separator and [getParam] finds no usable [boundary] in the
    root [Content-Type] (none, or a quoted one that is blank); with both
    present, the exception of [atob] leaves it exactly when some section
    declares base64 and has a body that is not base64; in all other
    cases it returns a list of parts. *)
Theorem C8_parse_failures (bytes : list Z) :
  let latin1 := decodeLatin1 bytes in
  (hasHeaderSeparator latin1 = false <->
   parseMhtmlParts bytes = Thrown NoHeaderSeparator) /\
  (hasHeaderSeparator latin1 = true /\ truthy (rootBoundary latin1) = false <->
   parseMhtmlParts bytes = Thrown BoundaryNotFound) /\
  (hasHeaderSeparator latin1 = true /\ truthy (rootBoundary latin1) = true /\
   existsb rejectedSection (bodySections latin1) = true <->
   parseMhtmlParts bytes = Thrown InvalidCharacter) /\
  (hasHeaderSeparator latin1 = true /\ truthy (rootBoundary latin1) = true /\
   existsb rejectedSection (bodySections latin1) = false <->
   exists parts, parseMhtmlParts bytes = Returned parts).
Proof.
  intros latin1. rewrite parseMhtmlParts_cases. fold latin1.
  destruct (hasHeaderSeparator latin1); cbn [negb];
    [destruct (truthy (rootBoundary latin1)); cbn [negb];
     [destruct (existsb rejectedSection (bodySections latin1)) eqn:Hr;
      [rewrite (parseSections_thrown _ _ Hr)
      |destruct (parseSections_returned _ [] Hr) as [parts ->]]|]|];
    repeat split;
    repeat match goal with
      | |- _ -> _ => intros ?
      | H : _ /\ _ |- _ => destruct H
      | H : exists _, _ |- _ => destruct H
      end;
    try discriminate; try reflexivity; eauto.
Qed.

(** C8 as stated fails: this input has a header separator and a
    boundary, and still [parseMhtmlParts] throws. *)
Lemma C8_broken_base64_throws :
  hasHeaderSeparator (decodeLatin1 brokenBase64File) = true /\
  rootBoundary (decodeLatin1 brokenBase64File) = Some (lit "XYZ") /\
  parseMhtmlParts brokenBase64File = Thrown InvalidCharacter.
Proof. vm_compute. repeat split. Qed.

(** ** Content-id references *)

Lemma getAttribute_set_same attrs name value :
  getAttribute (setAttributeIn attrs name value) name = Some value.
Proof.
  induction attrs as [|[n v] rest IH]; cbn [setAttributeIn getAttribute].
  - now rewrite bool_decide_eq_true_2.
  - destruct (bool_decide (n = name)) eqn:Hn; cbn [getAttribute];
      rewrite Hn; [reflexivity|apply IH].
Qed.

Lemma getAttribute_set_other attrs name value other :
  name <> other ->
  getAttribute (setAttributeIn attrs name value) other =
  getAttribute attrs other.
Proof.
  intros Hne.
  induction attrs as [|[n v] rest IH]; cbn [setAttributeIn getAttribute].
  - now rewrite bool_decide_eq_false_2.
  - destruct (bool_decide (n = name)) eqn:Hn; cbn [getAttribute].
    + apply bool_decide_eq_true in Hn; subst n.
      now rewrite !bool_decide_eq_false_2.
    + now rewrite IH.
Qed.

Section RewritingFacts.

Variable textDecode : jsstring -> bool -> list Z -> option jsstring.
Variable cidMap : gmap (list Z) Part.

Lemma rewriteAttribute_slot attr (doc : list (option Element)) i :
  rewriteAttribute cidMap attr doc i =
  match doc !! i with
  | Some (Some el) => <[i := Some (rewrittenElement cidMap attr el)]> doc
  | _ => doc
  end.
Proof.
  unfold rewriteAttribute, rewrittenElement.
  destruct (doc !! i) as [[el|]|] eqn:Hi; try reflexivity.
  destruct (startsWith _ (lit "cid:")); cbn [negb].
  - destruct (cidMap !! _); [reflexivity|].
    symmetry. now apply list_insert_id.
  - symmetry. now apply list_insert_id.
Qed.

Lemma rewriteAttribute_fold attr idxs (doc : list (option Element)) i :
  NoDup idxs ->
  fold_left (rewriteAttribute cidMap attr) idxs doc !! i =
  if bool_decide (i ∈ idxs)
  then option_map (option_map (rewrittenElement cidMap attr)) (doc !! i)
  else doc !! i.
Proof.
  intros Hnd; revert doc; induction Hnd as [|j idxs Hj Hnd IH]; intros doc.
  - reflexivity.
  - cbn [fold_left]. rewrite IH. rewrite rewriteAttribute_slot.
    destruct (decide (i = j)) as [->|Hne].
    + rewrite (bool_decide_eq_false_2 (j ∈ idxs)) by assumption.
      rewrite (bool_decide_eq_true_2 (j ∈ j :: idxs)) by left.
      destruct (doc !! j) as [[el|]|] eqn:Hdoc; rewrite ?Hdoc; try reflexivity.
      rewrite list_lookup_insert_eq; [reflexivity|].
      now apply lookup_lt_Some in Hdoc.
    + assert (Hother : match doc !! j with
                       | Some (Some el) =>
                           <[j := Some (rewrittenElement cidMap attr el)]> doc
                       | _ => doc
                       end !! i = doc !! i).
      { destruct (doc !! j) as [[el|]|]; try reflexivity.
        now apply list_lookup_insert_ne. }
      rewrite Hother.
      destruct (bool_decide (i ∈ idxs)) eqn:Hin.
      * apply bool_decide_eq_true in Hin.
        rewrite bool_decide_eq_true_2 by now right. reflexivity.
      * apply bool_decide_eq_false in Hin.
        rewrite bool_decide_eq_false_2; [reflexivity|].
        intros [?|?]%elem_of_cons; contradiction.
Qed.

Lemma selectAll_NoDup sel (doc : list (option Element)) :
  NoDup (selectAll sel doc).
Proof. unfold selectAll. apply NoDup_ListNoDup, List.NoDup_filter, List.seq_NoDup. Qed.

Lemma selectAll_spec sel (doc : list (option Element)) i :
  i ∈ selectAll sel doc <->
  exists el, doc !! i = Some (Some el) /\ sel el = true.
Proof.
  unfold selectAll. rewrite list_elem_of_In, List.filter_In, List.in_seq.
  split.
  - intros [_ H]. destruct (doc !! i) as [[el|]|]; try discriminate.
    now exists el.
  - intros (el & Hi & Hsel). rewrite Hi. split; [|assumption].
    apply lookup_lt_Some in Hi. lia.
Qed.

Lemma rewrittenElement_without attr el :
  hasAttribute attr el = false -> rewrittenElement cidMap attr el = el.
Proof.
  unfold hasAttribute, rewrittenElement.
  destruct (getAttribute (attributes el) attr); [discriminate|reflexivity].
Qed.

(** One pass of the outer loop rewrites every element in place. *)
Lemma rewriteAttribute_pass attr (doc : list (option Element)) :
  fold_left (rewriteAttribute cidMap attr) (selectAll (hasAttribute attr) doc)
    doc =
  map (option_map (rewrittenElement cidMap attr)) doc.
Proof.
  apply list_eq; intros i.
  rewrite rewriteAttribute_fold by apply selectAll_NoDup.
  rewrite list_lookup_fmap.
  destruct (bool_decide _) eqn:Hin.
  - destruct (doc !! i); reflexivity.
  - apply bool_decide_eq_false in Hin. rewrite selectAll_spec in Hin.
    destruct (doc !! i) as [[el|]|] eqn:Hi; try reflexivity.
    cbn. rewrite rewrittenElement_without; [reflexivity|].
    destruct (hasAttribute attr el) eqn:Hh; [|reflexivity].
    exfalso; apply Hin; now exists el.
Qed.

Lemma rewriteAttributes_slot (doc : list (option Element)) i :
  rewriteAttributes cidMap doc !! i =
  option_map
    (option_map
       (fun el =>
          rewrittenElement cidMap (lit "poster")
            (rewrittenElement cidMap (lit "href")
               (rewrittenElement cidMap (lit "src") el))))
    (doc !! i).
Proof.
  unfold rewriteAttributes. cbn [fold_left].
  rewrite !rewriteAttribute_pass, !list_lookup_fmap.
  destruct (doc !! i) as [[el|]|]; reflexivity.
Qed.

Lemma toDataUri_not_cid part : startsWith (toDataUri part) (lit "cid:") = false.
Proof. reflexivity. Qed.

Lemma rewrittenElement_tag attr el :
  tagName (rewrittenElement cidMap attr el) = tagName el.
Proof.
  unfold rewrittenElement. destruct (startsWith _ _); [|reflexivity].
  destruct (cidMap !! _); reflexivity.
Qed.

Lemma rewrittenElement_other attr other el :
  attr <> other ->
  getAttribute (attributes (rewrittenElement cidMap attr el)) other =
  getAttribute (attributes el) other.
Proof.
  intros Hne. unfold rewrittenElement.
  destruct (startsWith _ _); [|reflexivity].
  destruct (cidMap !! _); [|reflexivity].
  cbn [setAttribute attributes]. now apply getAttribute_set_other.
Qed.

Lemma rewrittenElement_same attr el v :
  getAttribute (attributes el) attr = Some v ->
  startsWith v (lit "cid:") = true ->
  getAttribute (attributes (rewrittenElement cidMap attr el)) attr =
  Some (resolved cidMap v).
Proof.
  intros Hv Hcid. unfold rewrittenElement, resolved. rewrite Hv.
  assert (Hor : orElse (Some v) [] = v)
    by (destruct v; [discriminate|reflexivity]).
  rewrite Hor, Hcid.
  destruct (cidMap !! normalizeCid v); [|assumption].
  cbn [setAttribute attributes]. apply getAttribute_set_same.
Qed.

End RewritingFacts.

Section LinkFacts.

Variable textDecode : jsstring -> bool -> list Z -> option jsstring.
Variable cidMap : gmap (list Z) Part.
Hypothesis lenient :
  forall bytes, textDecode (lit "utf-8") false bytes <> None.

Lemma inlineLink_step (doc : list (option Element)) j :
  exists doc1,
    inlineLink textDecode cidMap doc j = Returned doc1 /\
    length doc1 = length doc /\
    (forall i, i <> j -> doc1 !! i = doc !! i) /\
    slotAfterLinks textDecode cidMap (doc !! j) (doc1 !! j).
Proof.
  unfold inlineLink, slotAfterLinks.
  destruct (doc !! j) as [[link|]|] eqn:Hj;
    try (exists doc; rewrite Hj; now repeat split).
  cbv zeta.
  destruct (startsWith _ (lit "cid:")) eqn:Hcid; cbn [negb];
    [|exists doc; rewrite Hj; now repeat split].
  assert (Hlt : (j < length doc)%nat) by now apply lookup_lt_Some in Hj.
  destruct (cidMap !! _) as [part|].
  - destruct (bool_decide (contentType part = lit "text/css")).
    + destruct (decodeBytes_returns textDecode (bytes part) (charset part)
                  (lenient (bytes part))) as [css Hcss].
      rewrite Hcss. eexists. split; [reflexivity|].
      split; [apply length_insert|]. split.
      * intros i Hi. now apply list_lookup_insert_ne.
      * exists css. split; [reflexivity|].
        now rewrite list_lookup_insert_eq.
    + eexists. split; [reflexivity|]. split; [apply length_insert|]. split.
      * intros i Hi. now apply list_lookup_insert_ne.
      * now rewrite list_lookup_insert_eq.
  - eexists. split; [reflexivity|]. split; [apply length_insert|]. split.
    + intros i Hi. now apply list_lookup_insert_ne.
    + now rewrite list_lookup_insert_eq.
Qed.

Lemma inlineLinks_run idxs (doc : list (option Element)) :
  NoDup idxs ->
  exists doc1,
    forEach (inlineLink textDecode cidMap) idxs doc = Returned doc1 /\
    length doc1 = length doc /\
    forall i,
      (i ∈ idxs ->
       slotAfterLinks textDecode cidMap (doc !! i) (doc1 !! i)) /\
      (i ∉ idxs -> doc1 !! i = doc !! i).
Proof.
  intros Hnd; revert doc; induction Hnd as [|j idxs Hj Hnd IH]; intros doc.
  - exists doc. split; [reflexivity|]. split; [reflexivity|].
    intros i. split; [intros Hin; inversion Hin|reflexivity].
  - destruct (inlineLink_step doc j) as (docj & Hstep & Hlen & Hother & Hslot).
    destruct (IH docj) as (doc1 & Hrun & Hlen1 & Hall).
    exists doc1. cbn [forEach]. rewrite Hstep. cbn [andThen].
    split; [exact Hrun|]. split; [congruence|].
    intros i. destruct (Hall i) as [Hin Hout].
    destruct (decide (i = j)) as [->|Hne].
    + split.
      * intros _. rewrite (Hout Hj). exact Hslot.
      * intros Hnot. exfalso. apply Hnot. left.
    + rewrite <- (Hother i Hne). split.
      * intros [?|Hi]%elem_of_cons; [contradiction|]. now apply Hin.
      * intros Hnot. apply Hout. intros Hi. apply Hnot. now right.
Qed.

End LinkFacts.

Lemma setAttributeIn_names attrs name value v :
  getAttribute attrs name = Some v ->
  map fst (setAttributeIn attrs name value) = map fst attrs.
Proof.
  induction attrs as [|[n w] rest IH]; [discriminate|].
  cbn [getAttribute setAttributeIn].
  destruct (bool_decide (n = name)); [reflexivity|].
  intros H. cbn [map fst]. f_equal. now apply IH.
Qed.

Section ElementFacts.

Variable cidMap : gmap (list Z) Part.

Lemma rewrittenElement_names attr el :
  map fst (attributes (rewrittenElement cidMap attr el)) =
  map fst (attributes el).
Proof.
  unfold rewrittenElement.
  destruct (getAttribute (attributes el) attr) as [v|] eqn:Hv;
    [|reflexivity].
  destruct (startsWith _ _); [|reflexivity].
  destruct (cidMap !! _); [|reflexivity].
  cbn [setAttribute attributes]. now apply setAttributeIn_names with v.
Qed.

Lemma rewrittenElement_text attr el :
  textContent (rewrittenElement cidMap attr el) = textContent el.
Proof.
  unfold rewrittenElement. destruct (startsWith _ _); [|reflexivity].
  destruct (cidMap !! _); reflexivity.
Qed.

(** The value of every attribute after one pass. *)
Lemma rewrittenElement_value attr other el :
  getAttribute (attributes (rewrittenElement cidMap attr el)) other =
  option_map
    (fun v => if bool_decide (other = attr) && startsWith v (lit "cid:")
              then resolved cidMap v else v)
    (getAttribute (attributes el) other).
Proof.
  destruct (decide (other = attr)) as [->|Hne].
  - rewrite bool_decide_eq_true_2 by reflexivity. cbn [andb].
    destruct (getAttribute (attributes el) attr) as [v|] eqn:Hv.
    + cbn [option_map]. destruct (startsWith v (lit "cid:")) eqn:Hcid.
      * now rewrite (rewrittenElement_same cidMap attr el v Hv Hcid).
      * unfold rewrittenElement. rewrite Hv.
        assert (Hor : startsWith (orElse (Some v) []) (lit "cid:") = false)
          by (destruct v; [reflexivity|exact Hcid]).
        now rewrite Hor, Hv.
    + unfold rewrittenElement. now rewrite Hv.
  - rewrite rewrittenElement_other by congruence.
    rewrite bool_decide_eq_false_2 by assumption.
    now destruct (getAttribute (attributes el) other).
Qed.

End ElementFacts.

Lemma rewriteAttributes_length cidMap (doc : list (option Element)) :
  length (rewriteAttributes cidMap doc) = length doc.
Proof.
  unfold rewriteAttributes. cbn [fold_left].
  now rewrite !rewriteAttribute_pass, !length_map.
Qed.




(** ** Tables *)

Lemma replaceFrom_single c0 repl s prev :
  replaceFrom (literal [c0]) repl prev 0 s =
  flat_map (fun c => if c0 =? c then repl else [c]) s.
Proof.
  revert prev; induction s as [|c s IH]; intros prev; [reflexivity|].
  cbn [replaceFrom flat_map]. unfold literal at 1. cbn [startsWith length].
  destruct (c0 =? c); cbn [andb]; now rewrite IH.
Qed.

Lemma last_cons (c : Z) a prev : List.last (c :: a) prev = List.last a c.
Proof.
  revert c prev; induction a as [|d a IH]; intros c prev; [reflexivity|].
  change (List.last (c :: d :: a) prev) with (List.last (d :: a) prev).
  now rewrite !IH.
Qed.

Lemma delimiters_app prev a b :
  delimiters prev (a ++ b) = (delimiters prev a + delimiters (List.last a prev) b)%nat.
Proof.
  revert prev; induction a as [|c a IH]; intros prev; [reflexivity|].
  cbn [app delimiters].
  rewrite last_cons, IH. destruct ((c =? 124) && negb (prev =? 92)); reflexivity.
Qed.

Lemma escaped_no_delimiter t prev :
  delimiters prev (replaceAll [124] [92; 124] t) = 0%nat.
Proof.
  unfold replaceAll, replaceRe. rewrite replaceFrom_single.
  revert prev; induction t as [|c t IH]; intros prev; [reflexivity|].
  cbn [flat_map]. destruct (Z.eqb_spec 124 c) as [<-|Hc].
  - cbn [app delimiters]. change (92 =? 124) with false.
    change (124 =? 124) with true. change (92 =? 92) with true.
    cbn [andb negb]. apply IH.
  - cbn [app delimiters]. rewrite (proj2 (Z.eqb_neq c 124)) by lia.
    cbn [andb]. apply IH.
Qed.

Lemma Forall_trimStart (P : Z -> Prop) s : Forall P s -> Forall P (trimStart s).
Proof.
  induction 1 as [|c s Hc Hs IH]; cbn [trimStart]; [constructor|].
  destruct (isWhiteSpace c); [assumption|now constructor].
Qed.

Lemma Forall_trim (P : Z -> Prop) s : Forall P s -> Forall P (trim s).
Proof.
  intros H. unfold trim, trimEnd.
  apply Forall_rev, Forall_trimStart, Forall_rev, Forall_trimStart, H.
Qed.

Lemma whiteSpaceRun_collapsed s prev skip :
  Forall (fun c => isWhiteSpace c = false \/ c = 32)
    (replaceFrom whiteSpaceRun [32] prev skip s).
Proof.
  revert prev skip; induction s as [|c s IH]; intros prev skip;
    [constructor|].
  cbn [replaceFrom]. destruct skip as [|k]; [|apply IH].
  unfold whiteSpaceRun at 1. cbn [span].
  destruct (isWhiteSpace c) eqn:Hc.
  - destruct (span isWhiteSpace s) as [run after]. cbn [fst length app].
    constructor; [now right|apply IH].
  - cbn [fst]. constructor; [now left|apply IH].
Qed.

Lemma cellText_safe node : safeCell (cellText node).
Proof.
  unfold cellText. split; [|intros prev; apply escaped_no_delimiter].
  unfold replaceAll at 1, replaceRe. rewrite replaceFrom_single.
  intros Hin. apply in_flat_map in Hin as (c & Hc & Hin).
  assert (Hok : Forall (fun c => isWhiteSpace c = false \/ c = 32)
                  (normalizeText (nodeText node)))
    by apply Forall_trim, whiteSpaceRun_collapsed.
  rewrite List.Forall_forall in Hok. specialize (Hok c Hc).
  destruct (124 =? c).
  - cbn [In] in Hin. lia.
  - cbn [In] in Hin. destruct Hin as [->|[]].
    destruct Hok as [Hok|Hok]; [discriminate Hok|lia].
Qed.

Lemma renderRow_cells cells :
  cells <> [] -> Forall safeCell cells ->
  ~ In 10 (renderRow cells) /\
  cellCount (renderRow cells) = length cells.
Proof.
  intros Hne Hsafe. unfold renderRow, cellCount.
  change (lit " | ") with [32; 124; 32]. change (lit " |") with [32; 124].
  change (lit "| ") with [124; 32].
  assert (H : ~ In 10 (join [32; 124; 32] cells ++ [32; 124]) /\
              delimiters 32 (join [32; 124; 32] cells ++ [32; 124]) =
              length cells).
  { induction Hsafe as [|c cells [Hnl Hd] Hsafe IH]; [contradiction|].
    destruct cells as [|c' cells].
    - cbn [join length]. split.
      + rewrite in_app_iff. intros [?|Hin]; [contradiction|].
        cbn in Hin. lia.
      + rewrite delimiters_app, Hd. reflexivity.
    - destruct IH as [IH1 IH2]; [discriminate|].
      change (join [32; 124; 32] (c :: c' :: cells)) with
        (c ++ [32; 124; 32] ++ join [32; 124; 32] (c' :: cells)).
      rewrite <- !app_assoc. split.
      + rewrite in_app_iff. intros [?|Hin]; [contradiction|].
        cbn [app In] in Hin. destruct Hin as [?|[?|[?|Hin]]]; try lia.
        contradiction.
      + rewrite delimiters_app, Hd.
        cbn [app delimiters Nat.add].
        change (32 =? 124) with false. change (124 =? 124) with true.
        change (32 =? 92) with false. cbn [andb negb].
        rewrite IH2. reflexivity. }
  destruct H as [H1 H2]. split.
  - cbn [app In]. intros [?|[?|?]]; try lia. contradiction.
  - cbn [app delimiters]. change (124 =? 124) with true.
    change (0 =? 92) with false. change (32 =? 124) with false.
    cbn [andb negb]. rewrite H2. lia.
Qed.

Lemma length_le_maxLength r rows :
  In r rows -> (length r <= maxLength rows)%nat.
Proof.
  unfold maxLength. induction rows as [|r' rows IH]; [contradiction|].
  cbn [map fold_right]. intros [->|Hin]; [lia|].
  specialize (IH Hin). lia.
Qed.

Lemma padRow_length width r :
  (length r <= width)%nat -> length (padRow width r) = width.
Proof.
  intros H. unfold padRow. rewrite length_app, repeat_length. lia.
Qed.

Lemma padRow_safe width r :
  Forall safeCell r -> Forall safeCell (padRow width r).
Proof.
  intros H. unfold padRow. apply Forall_app; split; [assumption|].
  apply Forall_forall. intros c Hc%list_elem_of_In%repeat_spec. subst c.
  split; [intros []|reflexivity].
Qed.

Lemma separator_safe width : Forall safeCell (repeat (lit "---") width).
Proof.
  apply Forall_forall. intros c Hc%list_elem_of_In%repeat_spec. subst c.
  split; [cbn; lia|reflexivity].
Qed.

(** The shape of the lines, for rows of safe cells. *)
Lemma tableLines_shape rows :
  rows <> [] -> Forall (fun r => r <> [] /\ Forall safeCell r) rows ->
  length (tableLines rows) = S (length rows) /\
  nth_error (tableLines rows) 1 =
    Some (renderRow (repeat (lit "---") (maxLength rows))) /\
  Forall (fun line => ~ In 10 line /\ cellCount line = maxLength rows)
    (tableLines rows).
Proof.
  intros Hne Hrows. unfold tableLines.
  set (width := maxLength rows).
  assert (Hwidth : (0 < width)%nat).
  { destruct rows as [|r rows]; [contradiction|].
    apply Forall_cons in Hrows as [[Hr _] _].
    assert (H := length_le_maxLength r (r :: rows) (or_introl eq_refl)).
    fold width in H. destruct r; [contradiction|]. cbn [length] in H. lia. }
  assert (Hpadded : Forall (fun line => ~ In 10 line /\ cellCount line = width)
                      (map renderRow (map (padRow width) rows))).
  { rewrite !Forall_map. rewrite Forall_forall in Hrows |- *. intros r Hr.
    destruct (Hrows r Hr) as [_ Hsafe].
    assert (Hlen : length (padRow width r) = width)
      by (apply padRow_length, length_le_maxLength, list_elem_of_In, Hr).
    destruct (renderRow_cells (padRow width r)) as [H1 H2].
    - intros Hnil. rewrite Hnil in Hlen. cbn in Hlen. lia.
    - now apply padRow_safe.
    - split; [assumption|]. now rewrite H2. }
  destruct rows as [|r rows]; [contradiction|].
  cbn [map] in *. apply Forall_cons in Hpadded as [Hfirst Hothers].
  split; [cbn [length]; now rewrite !length_map|].
  split; [reflexivity|].
  constructor; [exact Hfirst|]. constructor; [|exact Hothers].
  destruct (renderRow_cells (repeat (lit "---") width)) as [H1 H2];
    [destruct width; [lia|discriminate]|apply separator_safe|].
  split; [exact H1|]. now rewrite H2, repeat_length.
Qed.

Lemma tableRows_all_rows table :
  (forall tr, In tr (querySelectorAll [lit "tr"] table) ->
              querySelectorAll [lit "th"; lit "td"] tr <> []) ->
  length (tableRows table) = length (querySelectorAll [lit "tr"] table) /\
  Forall (fun r => r <> [] /\ Forall safeCell r) (tableRows table).
Proof.
  unfold tableRows. induction (querySelectorAll [lit "tr"] table)
    as [|tr trs IH]; intros H; [split; [reflexivity|constructor]|].
  cbn [flat_map].
  destruct IH as [IH1 IH2]; [intros tr' Htr'; apply H; now right|].
  assert (Hcells := H tr (or_introl eq_refl)).
  destruct (querySelectorAll [lit "th"; lit "td"] tr) as [|c cells];
    [contradiction|].
  cbn [app length]. split; [now rewrite IH1|].
  constructor; [|assumption]. split; [discriminate|].
  rewrite Forall_map. apply Forall_forall. intros; apply cellText_safe.
Qed.

(** ** The balanced-tag scanner *)

Lemma startsWith_length s p : startsWith s p = true -> (length p <= length s)%nat.
Proof.
  revert s; induction p as [|a p IH]; intros s H; [cbn; lia|].
  destruct s as [|b s]; [discriminate|]. cbn [startsWith] in H.
  apply andb_true_iff in H as [_ H]. specialize (IH _ H). cbn [length]. lia.
Qed.

Lemma indexOfFrom_bounds needle s i :
  indexOfFrom needle s i = -1 \/
  (i <= indexOfFrom needle s i /\
   indexOfFrom needle s i + len needle <= i + len s).
Proof.
  revert i; induction s as [|c s IH]; intros i; cbn [indexOfFrom].
  - destruct (startsWith [] needle) eqn:H; [|now left].
    right. apply startsWith_length in H. unfold len. lia.
  - destruct (startsWith (c :: s) needle) eqn:H.
    + right. apply startsWith_length in H. unfold len. lia.
    + destruct (IH (i + 1)) as [IH'|IH']; [now left|right].
      unfold len in *. cbn [length]. lia.
Qed.

Lemma indexOf_bounds s needle from :
  0 <= from <= len s ->
  indexOf s needle from = -1 \/
  (from <= indexOf s needle from /\
   indexOf s needle from + len needle <= len s).
Proof.
  intros H. unfold indexOf.
  replace (Z.min (Z.max from 0) (len s)) with from by lia.
  destruct (indexOfFrom_bounds needle (drop (Z.to_nat from) s) from)
    as [Hb|Hb]; [now left|right].
  unfold len in *. rewrite length_drop in Hb. lia.
Qed.

(** A loop whose turns keep an invariant and decrease a measure ends
    within as many turns as the measure allows. *)
Lemma while_terminates {S R : Type} (body : S -> option (turn S R))
    (inv : S -> Prop) (measure : S -> nat) :
  (forall s, inv s -> body s <> None) ->
  (forall s s', inv s -> body s = Some (Continue s') ->
                inv s' /\ (measure s' < measure s)%nat) ->
  forall fuel s, inv s -> (measure s < fuel)%nat ->
  exists r, while body fuel s = Some r.
Proof.
  intros Hsome Hstep fuel; induction fuel as [|fuel IH]; intros s Hinv Hlt;
    [lia|].
  cbn [while]. destruct (body s) as [[s'|r]|] eqn:Hb.
  - destruct (Hstep s s' Hinv Hb) as [Hinv' Hlt']. apply IH; [assumption|lia].
  - now exists r.
  - now apply Hsome in Hb.
Qed.

(** More fuel does not change the result of a loop that has ended. *)
Lemma while_more_fuel {S R : Type} (body : S -> option (turn S R))
    fuel fuel' s r :
  while body fuel s = Some r -> (fuel <= fuel')%nat ->
  while body fuel' s = Some r.
Proof.
  revert fuel' s; induction fuel as [|fuel IH]; intros fuel' s H Hle;
    [discriminate|].
  destruct fuel' as [|fuel']; [lia|]. cbn [while] in *.
  destruct (body s) as [[s'|r']|]; try assumption.
  apply IH; [assumption|lia].
Qed.

(** What a loop returns satisfies what its turns establish. *)
Lemma while_result {S R : Type} (body : S -> option (turn S R))
    (inv : S -> Prop) (post : R -> Prop) :
  (forall s s', inv s -> body s = Some (Continue s') -> inv s') ->
  (forall s r, inv s -> body s = Some (Break r) -> post r) ->
  forall fuel s r, inv s -> while body fuel s = Some r -> post r.
Proof.
  intros Hstep Hbreak fuel; induction fuel as [|fuel IH]; intros s r Hinv H;
    [discriminate|].
  cbn [while] in H. destruct (body s) as [[s'|r']|] eqn:Hb; [| |discriminate].
  - eapply IH; [|exact H]. eapply Hstep; eassumption.
  - injection H as <-. eapply Hbreak; eassumption.
Qed.

Lemma balanceTurn_progress fullHtml depth k depth' k' :
  0 <= k <= len fullHtml ->
  balanceTurn fullHtml (depth, k) = Some (Continue (depth', k')) ->
  k < k' <= len fullHtml.
Proof.
  intros Hk. unfold balanceTurn.
  destruct (0 <? depth); [|discriminate].
  destruct (indexOf_bounds fullHtml (lit "<div") k Hk) as [Ho|Ho];
  destruct (indexOf_bounds fullHtml (lit "</div>") k Hk) as [Hc|Hc];
    change (len (lit "<div")) with 4 in *;
    change (len (lit "</div>")) with 6 in *;
    destruct (Z.eqb_spec (indexOf fullHtml (lit "</div>") k) (-1));
    try discriminate; try lia;
    destruct (Z.eqb_spec (indexOf fullHtml (lit "<div") k) (-1));
    cbn [negb andb]; try lia;
    try (destruct (Z.ltb_spec (indexOf fullHtml (lit "<div") k)
                    (indexOf fullHtml (lit "</div>") k)));
    intros [= <- <-]; lia.
Qed.

Lemma balance_total fullHtml start :
  0 <= start <= len fullHtml ->
  exists depth k,
    balance fullHtml start = Some (depth, k) /\ start <= k <= len fullHtml.
Proof.
  intros Hstart. unfold balance.
  destruct (while_terminates (balanceTurn fullHtml)
              (fun st => 0 <= snd st <= len fullHtml)
              (fun st => Z.to_nat (len fullHtml - snd st)))
    with (fuel := S (length fullHtml)) (s := (1, start)) as [[depth k] Hr].
  - intros [depth k] _. unfold balanceTurn.
    destruct (0 <? depth); [|discriminate].
    destruct (_ =? -1); [discriminate|]. destruct (_ && _); discriminate.
  - intros [depth k] [depth' k'] Hk Hturn. cbn [snd] in *.
    apply balanceTurn_progress in Hturn; [|assumption]. lia.
  - cbn [snd]. lia.
  - cbn [snd]. unfold len in *. lia.
  - exists depth, k. split; [assumption|].
    apply (while_result (balanceTurn fullHtml)
             (fun st => start <= snd st <= len fullHtml)
             (fun st => start <= snd st <= len fullHtml))
      with (fuel := S (length fullHtml)) (s := (1, start)) (r := (depth, k)).
    + intros [d1 k1] [d2 k2] Hk Hturn. cbn [snd] in *.
      apply balanceTurn_progress in Hturn; lia.
    + intros [d1 k1] [d2 k2] Hk. cbn [snd] in *. unfold balanceTurn.
      destruct (0 <? d1); [|intros [= <- <-]; lia].
      destruct (_ =? -1); [intros [= <- <-]; lia|].
      destruct (_ && _); discriminate.
    + cbn [snd]. lia.
    + assumption.
Qed.

Lemma scanTurn_progress fullHtml pos blocks pos' blocks' :
  0 <= pos <= len fullHtml ->
  scanTurn fullHtml (pos, blocks) = Some (Continue (pos', blocks')) ->
  pos < pos' <= len fullHtml.
Proof.
  intros Hpos. unfold scanTurn.
  destruct (indexOf_bounds fullHtml needle pos Hpos) as [Hi|Hi];
    [rewrite Hi; discriminate|].
  set (i := indexOf fullHtml needle pos) in *.
  change (len needle) with 22 in *.
  destruct (i =? -1); [discriminate|].
  assert (Hi' : 0 <= i <= len fullHtml) by lia.
  destruct (indexOf_bounds fullHtml tagEnd i Hi') as [Hj|Hj];
    [rewrite Hj; discriminate|].
  set (j := indexOf fullHtml tagEnd i) in *.
  change (len tagEnd) with 2 in *.
  destruct (j =? -1); [discriminate|].
  destruct (negb _); [intros [= <- <-]; lia|].
  destruct (balance_total fullHtml (j + 2)) as (depth & k & -> & Hk); [lia|].
  intros [= <- <-]. lia.
Qed.

Lemma scanTurn_some fullHtml pos blocks :
  0 <= pos <= len fullHtml -> scanTurn fullHtml (pos, blocks) <> None.
Proof.
  intros Hpos. unfold scanTurn.
  destruct (indexOf_bounds fullHtml needle pos Hpos) as [Hi|Hi];
    [rewrite Hi; discriminate|].
  set (i := indexOf fullHtml needle pos) in *.
  change (len needle) with 22 in *.
  destruct (i =? -1); [discriminate|].
  assert (Hi' : 0 <= i <= len fullHtml) by lia.
  destruct (indexOf_bounds fullHtml tagEnd i Hi') as [Hj|Hj];
    [rewrite Hj; discriminate|].
  set (j := indexOf fullHtml tagEnd i) in *.
  change (len tagEnd) with 2 in *.
  destruct (j =? -1); [discriminate|].
  destruct (negb _); [discriminate|].
  destruct (balance_total fullHtml (j + 2)) as (depth & k & -> & Hk); [lia|].
  discriminate.
Qed.

(** The outer loop ends within the fuel that [extractGrokBlocks] gives
    it, and more fuel changes nothing. *)
Lemma scan_total (fullHtml : jsstring) :
  exists blocks,
    extractGrokBlocks fullHtml = Some blocks /\
    forall fuel, (S (length fullHtml) <= fuel)%nat ->
                 while (scanTurn fullHtml) fuel (0, []) = Some blocks.
Proof.
  destruct (while_terminates (scanTurn fullHtml)
              (fun st => 0 <= fst st <= len fullHtml)
              (fun st => Z.to_nat (len fullHtml - fst st)))
    with (fuel := S (length fullHtml)) (s := (0, @nil (role * jsstring)))
    as [blocks Hr].
  - intros [pos blocks] Hpos. now apply scanTurn_some.
  - intros [pos blocks] [pos' blocks'] Hpos Hturn. cbn [fst] in *.
    apply scanTurn_progress in Hturn; [|assumption]. lia.
  - cbn [fst]. unfold len. lia.
  - cbn [fst]. unfold len. lia.
  - exists blocks. split; [exact Hr|].
    intros fuel Hfuel. now apply (while_more_fuel _ _ _ _ _ Hr).
Qed.

(** C10: the block scanner terminates on every input.  Each turn of its
    outer loop that goes on moves the scan position strictly forward and
    keeps it within the text (so does each turn of the inner loop, see
    [balanceTurn_progress]); hence [extractGrokBlocks] returns a list of
    blocks within the fuel it is given, and more fuel gives the same
    list. *)
Theorem C10_scanner_terminates (fullHtml : jsstring) :
  (forall pos blocks pos' blocks',
     0 <= pos <= len fullHtml ->
     scanTurn fullHtml (pos, blocks) = Some (Continue (pos', blocks')) ->
     pos < pos' <= len fullHtml) /\
  (forall start, 0 <= start <= len fullHtml ->
     exists depth k, balance fullHtml start = Some (depth, k) /\
                     start <= k <= len fullHtml) /\
  exists blocks,
    extractGrokBlocks fullHtml = Some blocks /\
    forall fuel, (S (length fullHtml) <= fuel)%nat ->
                 while (scanTurn fullHtml) fuel (0, []) = Some blocks.
Proof.
  split; [apply scanTurn_progress|]. split; [apply balance_total|].
  apply scan_total.
Qed.

Lemma len_app (a b : jsstring) : len (a ++ b) = len a + len b.
Proof. unfold len. rewrite length_app. lia. Qed.

Lemma len_nonneg (a : jsstring) : 0 <= len a.
Proof. unfold len. lia. Qed.

Lemma indexOf_at_prefix (p s needle : jsstring) :
  indexOf (p ++ s) needle (len p) = indexOfFrom needle s (len p).
Proof.
  unfold indexOf. rewrite len_app.
  replace (Z.min (Z.max (len p) 0) (len p + len s)) with (len p)
    by (pose proof (len_nonneg p); pose proof (len_nonneg s); lia).
  unfold len. rewrite Nat2Z.id, drop_app_length. reflexivity.
Qed.

Lemma indexOf_at_start (s needle : jsstring) :
  indexOf s needle 0 = indexOfFrom needle s 0.
Proof. apply (indexOf_at_prefix [] s). Qed.

Lemma slice_middle (p m s : jsstring) :
  slice (p ++ m ++ s) (len p) (len p + len m) = m.
Proof.
  unfold slice, clampIndex. rewrite !len_app.
  pose proof (len_nonneg p); pose proof (len_nonneg m);
    pose proof (len_nonneg s).
  destruct (Z.ltb_spec (len p) 0); [lia|].
  destruct (Z.ltb_spec (len p + len m) 0); [lia|].
  replace (Z.min (len p) (len p + (len m + len s))) with (len p) by lia.
  replace (Z.min (len p + len m) (len p + (len m + len s)))
    with (len p + len m) by lia.
  replace (len p + len m - len p) with (len m) by lia.
  unfold len. rewrite !Nat2Z.id, drop_app_length, take_app_length.
  reflexivity.
Qed.

Lemma indexOfFrom_skip needle x y i :
  startsIn needle x y = false ->
  indexOfFrom needle (x ++ y) i = indexOfFrom needle y (i + len x).
Proof.
  revert i; induction x as [|c x IH]; intros i H.
  - cbn [app]. f_equal. unfold len. cbn. lia.
  - cbn [startsIn] in H. apply orb_false_iff in H as [H1 H2].
    cbn [app indexOfFrom]. cbn [app] in H1. rewrite H1, (IH _ H2).
    f_equal. unfold len. cbn [length]. lia.
Qed.

Lemma startsWith_app_self (needle y : jsstring) :
  startsWith (needle ++ y) needle = true.
Proof.
  induction needle as [|c needle IH]; [reflexivity|].
  cbn [app startsWith]. now rewrite Z.eqb_refl.
Qed.

Lemma indexOfFrom_here needle y i : indexOfFrom needle (needle ++ y) i = i.
Proof.
  assert (H := startsWith_app_self needle y).
  destruct (needle ++ y); cbn [indexOfFrom]; now rewrite H.
Qed.

(** A pattern that avoids [c0] cannot run over a [c0]. *)
Lemma startsWith_before c0 (p x y : jsstring) :
  forallb (fun a => negb (a =? c0)) p = true ->
  startsWith (x ++ c0 :: y) p = true -> startsWith x p = true.
Proof.
  revert x; induction p as [|a p IH]; intros x Hp H; [reflexivity|].
  cbn [forallb] in Hp. apply andb_true_iff in Hp as [Ha Hp].
  destruct x as [|b x].
  - cbn [app startsWith] in H. apply andb_true_iff in H as [H _].
    rewrite H in Ha. discriminate.
  - cbn [app startsWith] in *. apply andb_true_iff in H as [-> H].
    now rewrite (IH _ Hp H).
Qed.

(** A pattern whose first code unit does not come back in it cannot
    start in a text free of it and end in a following copy of its first
    code unit. *)
Lemma startsIn_clean c0 (tl x y : jsstring) :
  forallb (fun a => negb (a =? c0)) tl = true ->
  occurs (c0 :: tl) x = false ->
  startsIn (c0 :: tl) x (c0 :: y) = false.
Proof.
  intros Htl; induction x as [|b x IH]; intros Hocc; [reflexivity|].
  cbn [occurs] in Hocc. apply orb_false_iff in Hocc as [H1 H2].
  cbn [startsIn]. rewrite (IH H2), orb_false_r.
  cbn [app startsWith] in *.
  destruct (c0 =? b); [|reflexivity]. cbn [andb] in *.
  destruct (startsWith (x ++ c0 :: y) tl) eqn:H; [|reflexivity].
  now rewrite (startsWith_before _ _ _ _ Htl H) in H1.
Qed.

Lemma scan_blocks_prefix fullHtml fuel pos blocks result :
  while (scanTurn fullHtml) fuel (pos, blocks) = Some result ->
  exists more, result = blocks ++ more.
Proof.
  revert pos blocks; induction fuel as [|fuel IH]; intros pos blocks H;
    [discriminate|].
  cbn [while] in H.
  destruct (scanTurn fullHtml (pos, blocks)) as [[[pos' blocks']|r]|] eqn:Ht;
    [| |discriminate].
  - destruct (IH _ _ H) as [more ->].
    unfold scanTurn in Ht.
    destruct (_ =? -1); [discriminate|]. destruct (_ =? -1); [discriminate|].
    destruct (negb _); [injection Ht as <- <-; now exists more|].
    destruct (balance _ _) as [[depth k]|]; [|discriminate].
    injection Ht as <- <-. rewrite <- app_assoc. eauto.
  - injection H as <-. unfold scanTurn in Ht.
    destruct (_ =? -1); [injection Ht as <-; exists []; now rewrite app_nil_r|].
    destruct (_ =? -1); [injection Ht as <-; exists []; now rewrite app_nil_r|].
    destruct (negb _); [discriminate|].
    destruct (balance _ _) as [[depth k]|]; discriminate.
Qed.

Lemma indexOf_split (html p s needle : jsstring) k :
  html = p ++ s -> k = len p ->
  indexOf html needle k = indexOfFrom needle s k.
Proof. intros -> ->. apply indexOf_at_prefix. Qed.

Lemma open_before_open x y i :
  occurs (lit "<div") x = false ->
  indexOfFrom (lit "<div") (x ++ lit "<div" ++ y) i = i + len x.
Proof.
  intros H. rewrite indexOfFrom_skip, indexOfFrom_here; [reflexivity|].
  now apply (startsIn_clean 60 [100; 105; 118] x ([100; 105; 118] ++ y)).
Qed.

Lemma close_before_close x y i :
  occurs (lit "</div>") x = false ->
  indexOfFrom (lit "</div>") (x ++ lit "</div>" ++ y) i = i + len x.
Proof.
  intros H. rewrite indexOfFrom_skip, indexOfFrom_here; [reflexivity|].
  now apply (startsIn_clean 60 [47; 100; 105; 118; 62] x
               ([47; 100; 105; 118; 62] ++ y)).
Qed.

Lemma close_over_open x y i :
  occurs (lit "</div>") x = false ->
  indexOfFrom (lit "</div>") (x ++ lit "<div" ++ y) i =
  indexOfFrom (lit "</div>") y (i + len x + 4).
Proof.
  intros H. rewrite indexOfFrom_skip.
  - rewrite (indexOfFrom_skip _ (lit "<div") y) by reflexivity.
    f_equal.
  - now apply (startsIn_clean 60 [47; 100; 105; 118; 62] x
                 ([100; 105; 118] ++ y)).
Qed.

Lemma open_over_close x y i :
  occurs (lit "<div") x = false ->
  indexOfFrom (lit "<div") (x ++ lit "</div>" ++ y) i =
  indexOfFrom (lit "<div") y (i + len x + 6).
Proof.
  intros H. rewrite indexOfFrom_skip.
  - rewrite (indexOfFrom_skip _ (lit "</div>") y) by reflexivity.
    f_equal.
  - now apply (startsIn_clean 60 [100; 105; 118] x
                 ([47; 100; 105; 118; 62] ++ y)).
Qed.

Section Nested.

Variables pre cls A B C rest : jsstring.

Hypothesis pre_clean : occurs needle pre = false.
Hypothesis cls_clean : occurs tagEnd (needle ++ cls) = false.
Hypothesis cls_marked : includes cls (lit "r-imh66m") = true.
Hypothesis A_open : occurs (lit "<div") A = false.
Hypothesis A_close : occurs (lit "</div>") A = false.
Hypothesis B_open : occurs (lit "<div") B = false.
Hypothesis B_close : occurs (lit "</div>") B = false.
Hypothesis C_open : occurs (lit "<div") C = false.
Hypothesis C_close : occurs (lit "</div>") C = false.

Let opening : jsstring := pre ++ needle ++ cls ++ tagEnd.
Let fragment : jsstring := A ++ lit "<div" ++ B ++ lit "</div>" ++ C.
Let fullHtml : jsstring :=
  pre ++ needle ++ cls ++ tagEnd ++
  A ++ lit "<div" ++ B ++ lit "</div>" ++ C ++ lit "</div>" ++ rest.

Ltac lens :=
  unfold opening, fragment, fullHtml in *;
  rewrite ?len_app in *;
  change (len (lit "<div")) with 4 in *;
  change (len (lit "</div>")) with 6 in *;
  change (len needle) with 22 in *;
  change (len tagEnd) with 2 in *;
  pose proof (len_nonneg pre); pose proof (len_nonneg cls);
  pose proof (len_nonneg A); pose proof (len_nonneg B);
  pose proof (len_nonneg C); pose proof (len_nonneg rest);
  try lia.

Ltac regroup :=
  unfold opening, fragment, fullHtml; rewrite <- ?app_assoc; reflexivity.

Lemma nested_turn1 :
  balanceTurn fullHtml (1, len opening) =
  Some (Continue (2, len opening + len A + 4)).
Proof.
  unfold balanceTurn. change (0 <? 1) with true. cbv iota.
  rewrite (indexOf_split fullHtml opening
             (A ++ lit "<div" ++ B ++ lit "</div>" ++ C ++ lit "</div>" ++ rest)
             (lit "<div")) by (regroup || reflexivity).
  rewrite (indexOf_split fullHtml opening
             (A ++ lit "<div" ++ B ++ lit "</div>" ++ C ++ lit "</div>" ++ rest)
             (lit "</div>")) by (regroup || reflexivity).
  rewrite open_before_open by assumption.
  rewrite close_over_open by assumption.
  rewrite close_before_close by assumption.
  rewrite (proj2 (Z.eqb_neq _ (-1))) by lens.
  rewrite (proj2 (Z.eqb_neq _ (-1))) by lens.
  rewrite (proj2 (Z.ltb_lt _ _)) by lens. reflexivity.
Qed.

Lemma nested_turn2 :
  balanceTurn fullHtml (2, len opening + len A + 4) =
  Some (Continue (1, len opening + len A + 4 + len B + 6)).
Proof.
  unfold balanceTurn. change (0 <? 2) with true. cbv iota.
  rewrite (indexOf_split fullHtml (opening ++ A ++ lit "<div")
             (B ++ lit "</div>" ++ C ++ lit "</div>" ++ rest)
             (lit "<div")) by (regroup || lens).
  rewrite (indexOf_split fullHtml (opening ++ A ++ lit "<div")
             (B ++ lit "</div>" ++ C ++ lit "</div>" ++ rest)
             (lit "</div>")) by (regroup || lens).
  rewrite !open_over_close by assumption.
  rewrite close_before_close by assumption.
  rewrite (proj2 (Z.eqb_neq (_ + len B) (-1))) by lens.
  match goal with
  | |- context [indexOfFrom ?n rest ?i] =>
      destruct (indexOfFrom_bounds n rest i) as [->|[Hlow _]]
  end.
  - reflexivity.
  - rewrite (proj2 (Z.ltb_ge _ _)) by lens. rewrite andb_false_r.
    reflexivity.
Qed.

Lemma nested_turn3 :
  balanceTurn fullHtml (1, len opening + len A + 4 + len B + 6) =
  Some (Continue (0, len opening + len fragment + 6)).
Proof.
  unfold balanceTurn. change (0 <? 1) with true. cbv iota.
  rewrite (indexOf_split fullHtml
             (opening ++ A ++ lit "<div" ++ B ++ lit "</div>")
             (C ++ lit "</div>" ++ rest) (lit "<div")) by (regroup || lens).
  rewrite (indexOf_split fullHtml
             (opening ++ A ++ lit "<div" ++ B ++ lit "</div>")
             (C ++ lit "</div>" ++ rest) (lit "</div>")) by (regroup || lens).
  rewrite open_over_close by assumption.
  rewrite close_before_close by assumption.
  rewrite (proj2 (Z.eqb_neq (_ + len C) (-1))) by lens.
  match goal with
  | |- context [indexOfFrom ?n rest ?i] =>
      destruct (indexOfFrom_bounds n rest i) as [->|[Hlow _]]
  end.
  - cbn [negb andb]. do 3 f_equal. lens.
  - rewrite (proj2 (Z.ltb_ge _ _)) by lens. rewrite andb_false_r.
    do 3 f_equal. lens.
Qed.

Lemma nested_balance :
  balance fullHtml (len opening) = Some (0, len opening + len fragment + 6).
Proof.
  unfold balance. apply (while_more_fuel _ 4).
  - cbn [while]. rewrite nested_turn1, nested_turn2, nested_turn3.
    reflexivity.
  - unfold fullHtml. rewrite !length_app. cbn [length lit map list_ascii_of_string]. lia.
Qed.

Lemma nested_scanTurn blocks :
  scanTurn fullHtml (0, blocks) =
  Some (Continue
          (len opening + len fragment + 6,
           blocks ++ [(if includes cls (lit "r-1kt6imw") then User else Model,
                       fragment)])).
Proof.
  unfold scanTurn.
  rewrite indexOf_at_start.
  assert (Hi : indexOfFrom needle fullHtml 0 = len pre).
  { unfold fullHtml. rewrite indexOfFrom_skip, indexOfFrom_here; [lia|].
    apply (startsIn_clean 60 (tl needle) pre
             (tl needle ++ cls ++ tagEnd ++ A ++ lit "<div" ++ B ++
              lit "</div>" ++ C ++ lit "</div>" ++ rest));
      [reflexivity|exact pre_clean]. }
  rewrite Hi.
  rewrite (proj2 (Z.eqb_neq (len pre) (-1))) by lens.
  assert (Hj : indexOf fullHtml tagEnd (len pre) =
               len pre + len needle + len cls).
  { rewrite (indexOf_split fullHtml pre
               ((needle ++ cls) ++ tagEnd ++ A ++ lit "<div" ++ B ++
                lit "</div>" ++ C ++ lit "</div>" ++ rest) tagEnd)
      by (regroup || reflexivity).
    rewrite indexOfFrom_skip, indexOfFrom_here; [lens|].
    apply (startsIn_clean 34 [62] (needle ++ cls)
             ([62] ++ A ++ lit "<div" ++ B ++ lit "</div>" ++ C ++
              lit "</div>" ++ rest)); [reflexivity|exact cls_clean]. }
  rewrite Hj.
  rewrite (proj2 (Z.eqb_neq (_ + len cls) (-1))) by lens.
  assert (Hcls : slice fullHtml (len pre + len needle)
                   (len pre + len needle + len cls) = cls).
  { rewrite <- len_app.
    replace fullHtml with
      ((pre ++ needle) ++ cls ++ tagEnd ++ A ++ lit "<div" ++ B ++
       lit "</div>" ++ C ++ lit "</div>" ++ rest) by regroup.
    apply slice_middle. }
  rewrite Hcls, cls_marked. cbn [negb].
  replace (len pre + len needle + len cls + 2) with (len opening) by lens.
  rewrite nested_balance. change (0 =? 0) with true. cbv iota.
  replace (len opening + len fragment + 6 - 6)
    with (len opening + len fragment) by lia.
  replace fullHtml with (opening ++ fragment ++ lit "</div>" ++ rest)
    by regroup.
  now rewrite slice_middle.
Qed.

End Nested.

(** C3: the balanced scan over one nested container.  When the text
    starts with no earlier opening literal, the class attribute of the
    opening tag carries the marker, and the text after the tag is
    [A <div B </div> C </div> rest] with no further [<div] or [</div>]
    in [A], [B] and [C], the first block that the scanner extracts is
    the fragment [A <div B </div> C]: it runs from just after the opening
    tag to the [</div>] that balances it and includes the nested
    container's own closing tag. *)
Theorem C3_nested_container_balanced (pre cls A B C rest : jsstring) :
  occurs needle pre = false ->
  occurs tagEnd (needle ++ cls) = false ->
  includes cls (lit "r-imh66m") = true ->
  Forall (fun x => occurs (lit "<div") x = false /\
                   occurs (lit "</div>") x = false) [A; B; C] ->
  exists more,
    extractGrokBlocks
      (pre ++ needle ++ cls ++ tagEnd ++
       A ++ lit "<div" ++ B ++ lit "</div>" ++ C ++ lit "</div>" ++ rest) =
    Some ((if includes cls (lit "r-1kt6imw") then User else Model,
           A ++ lit "<div" ++ B ++ lit "</div>" ++ C) :: more).
Proof.
  intros Hpre Hcls Hmark Hclean.
  apply Forall_cons in Hclean as [[HA1 HA2] Hclean].
  apply Forall_cons in Hclean as [[HB1 HB2] Hclean].
  apply Forall_cons in Hclean as [[HC1 HC2] _].
  set (fullHtml := pre ++ _).
  destruct (scan_total fullHtml) as (blocks & Hblocks & _).
  rewrite Hblocks. unfold extractGrokBlocks in Hblocks.
  cbn [while] in Hblocks. unfold fullHtml in Hblocks at 1.
  rewrite (nested_scanTurn pre cls A B C rest Hpre Hcls Hmark
             HA1 HA2 HB1 HB2 HC1 HC2) in Hblocks.
  apply scan_blocks_prefix in Hblocks as [more ->].
  now exists more.
Qed.

Lemma C3_nested_container_balanced_witness :
  exists more,
    extractGrokBlocks
      (lit "<p>" ++ needle ++ lit "css r-imh66m r-1kt6imw" ++ tagEnd ++
       lit "Hi " ++ lit "<div" ++ lit ">in" ++ lit "</div>" ++ lit " there" ++
       lit "</div>" ++ lit "</p>") =
    Some ((if includes (lit "css r-imh66m r-1kt6imw") (lit "r-1kt6imw")
           then User else Model,
           lit "Hi " ++ lit "<div" ++ lit ">in" ++ lit "</div>" ++
           lit " there") :: more).
Proof.
  apply (C3_nested_container_balanced (lit "<p>")
           (lit "css r-imh66m r-1kt6imw") (lit "Hi ") (lit ">in")
           (lit " there") (lit "</p>")).
  - reflexivity.
  - reflexivity.
  - reflexivity.
  - repeat constructor.
Defined.

(** ** Turns as text *)

Lemma splitFrom_nonempty m prev skip cur s : splitFrom m prev skip cur s <> [].
Proof.
  revert prev skip cur; induction s as [|c s IH]; intros prev skip cur;
    [discriminate|].
  cbn [splitFrom]. destruct skip; [|apply IH].
  destruct (m prev (c :: s)) as [[|n]|]; try apply IH. discriminate.
Qed.

Lemma join_cons sep (x : jsstring) l :
  l <> [] -> join sep (x :: l) = x ++ sep ++ join sep l.
Proof. destruct l; [contradiction|reflexivity]. Qed.

Lemma join_snoc sep l (x : jsstring) :
  l <> [] -> join sep (l ++ [x]) = join sep l ++ sep ++ x.
Proof.
  induction l as [|y l IH]; [contradiction|]. intros _.
  destruct l as [|z l]; [reflexivity|].
  change ((y :: z :: l) ++ [x]) with (y :: ((z :: l) ++ [x])).
  rewrite join_cons by (destruct l; discriminate).
  rewrite IH by discriminate. rewrite (join_cons sep y (z :: l)) by discriminate.
  now rewrite <- !app_assoc.
Qed.

(** Splitting at line feeds and joining with line feeds are inverse. *)
Lemma join_split prev cur x :
  join [10] (splitFrom (literal [10]) prev 0 cur x) = cur ++ x.
Proof.
  revert prev cur; induction x as [|c x IH]; intros prev cur.
  - cbn. now rewrite app_nil_r.
  - cbn [splitFrom]. unfold literal at 1. cbn [startsWith length].
    destruct (Z.eqb_spec 10 c) as [<-|Hc]; cbn [andb].
    + rewrite join_cons by apply splitFrom_nonempty. now rewrite IH.
    + rewrite IH. now rewrite <- app_assoc.
Qed.

Lemma split_single prev cur x :
  ~ In 10 x -> splitFrom (literal [10]) prev 0 cur x = [cur ++ x].
Proof.
  revert prev cur; induction x as [|c x IH]; intros prev cur H.
  - cbn. now rewrite app_nil_r.
  - cbn [splitFrom]. unfold literal at 1. cbn [startsWith length].
    rewrite (proj2 (Z.eqb_neq 10 c)) by (intros <-; apply H; now left).
    cbn [andb]. rewrite IH by (intros Hin; apply H; now right).
    now rewrite <- app_assoc.
Qed.

(** Where no carriage return stands before a line feed, the lines that
    the parser sees are the lines between line feeds. *)
Lemma split_piece x cur prev prev' rest :
  occurs [13; 10] (x ++ [10]) = false ->
  splitFrom lineBreak prev 0 cur (x ++ 10 :: rest) =
  splitFrom (literal [10]) prev' 0 cur x ++
  splitFrom lineBreak (Some 10) 0 [] rest.
Proof.
  revert cur prev prev'; induction x as [|c x IH]; intros cur prev prev' H.
  - reflexivity.
  - cbn [app occurs] in H. apply orb_false_iff in H as [H1 H2].
    cbn [app splitFrom]. unfold lineBreak at 1, literal at 1.
    assert (Hhead : startsWith (x ++ 10 :: rest) [10] =
                    startsWith (x ++ [10]) [10]) by (destruct x; reflexivity).
    cbn [startsWith length] in *.
    rewrite Hhead, H1.
    destruct (10 =? c); cbn [andb].
    + cbn [app]. f_equal. now apply IH.
    + now apply IH.
Qed.

Lemma split_pieces lines prev :
  Forall (fun x => occurs [13; 10] (x ++ [10]) = false) lines ->
  splitFrom lineBreak prev 0 [] (flat_map (fun x => x ++ [10]) lines) =
  flat_map (split [10]) lines ++ [[]].
Proof.
  intros H; revert prev; induction H as [|x lines Hx _ IH]; intros prev;
    [reflexivity|].
  cbn [flat_map]. rewrite <- !app_assoc. cbn [app].
  rewrite (split_piece x [] prev None) by assumption.
  now rewrite IH.
Qed.

Lemma join_break (lines : list jsstring) :
  lines <> [] ->
  join [10] lines ++ [10] = flat_map (fun x => x ++ [10]) lines.
Proof.
  induction lines as [|x lines IH]; [contradiction|]. intros _.
  destruct lines as [|y lines]; [cbn; now rewrite app_nil_r|].
  rewrite join_cons by discriminate. cbn [flat_map] in *.
  rewrite <- IH by discriminate. now rewrite <- !app_assoc.
Qed.

Lemma no_cr_no_crlf x y :
  ~ In 13 x -> occurs [13; 10] (x ++ y) = occurs [13; 10] y.
Proof.
  induction x as [|c x IH]; intros H; [reflexivity|].
  cbn [app occurs startsWith].
  rewrite (proj2 (Z.eqb_neq 13 c)) by (intros <-; apply H; now left).
  cbn [andb orb]. apply IH. intros Hin; apply H; now right.
Qed.

Lemma digitsOf_digits d : Forall (fun c => 48 <= c <= 57) (digitsOf d).
Proof. induction d; cbn [digitsOf]; constructor; (lia || assumption). Qed.

Lemma turnHeader_plain i c : In c (turnHeader i) -> c <> 10 /\ c <> 13.
Proof.
  unfold turnHeader. rewrite !in_app_iff. intros [H|[H|H]].
  - cbn in H. lia.
  - pose proof (digitsOf_digits (Nat.to_uint (i + 1))) as Hd.
    rewrite List.Forall_forall in Hd. specialize (Hd c H). lia.
  - cbn in H. lia.
Qed.

Lemma turnHeader_isTurnLine i : isTurnLine (turnHeader i) = true.
Proof.
  unfold isTurnLine, turnHeader. rewrite startsWith_app_self. cbn [andb].
  unfold endsWith. rewrite !rev_app_distr. reflexivity.
Qed.

Lemma parse_question_lines ls st :
  state st = InQuestion ->
  forallb (fun line => negb (isDelimiterLine line)) ls = true ->
  fold_left parseLine ls st =
  mkParser (pairsOf st) (questionLines st ++ ls) (answerLines st) InQuestion.
Proof.
  revert st; induction ls as [|l ls IH]; intros st Hst Hls.
  - cbn. rewrite app_nil_r. destruct st; cbn in *; now subst.
  - cbn [forallb fold_left] in *. apply andb_true_iff in Hls as [Hl Hls].
    unfold isDelimiterLine in Hl. apply negb_true_iff in Hl.
    apply orb_false_iff in Hl as [Hl H3]. apply orb_false_iff in Hl as [H1 H2].
    unfold parseLine at 2. rewrite H1, H2, H3, Hst.
    rewrite IH by (reflexivity || assumption). cbn [pairsOf questionLines answerLines].
    now rewrite <- app_assoc.
Qed.

Lemma parse_answer_lines ls st :
  state st = InAnswer ->
  forallb (fun line => negb (isDelimiterLine line)) ls = true ->
  fold_left parseLine ls st =
  mkParser (pairsOf st) (questionLines st) (answerLines st ++ ls) InAnswer.
Proof.
  revert st; induction ls as [|l ls IH]; intros st Hst Hls.
  - cbn. rewrite app_nil_r. destruct st; cbn in *; now subst.
  - cbn [forallb fold_left] in *. apply andb_true_iff in Hls as [Hl Hls].
    unfold isDelimiterLine in Hl. apply negb_true_iff in Hl.
    apply orb_false_iff in Hl as [Hl H3]. apply orb_false_iff in Hl as [H1 H2].
    unfold parseLine at 2. rewrite H1, H2, H3, Hst.
    rewrite IH by (reflexivity || assumption). cbn [pairsOf questionLines answerLines].
    now rewrite <- app_assoc.
Qed.

Lemma plainText_lines s :
  plainText s = true ->
  forallb (fun line => negb (isDelimiterLine line)) (split [10] s ++ [[]]) =
  true.
Proof.
  unfold plainText. intros H. apply andb_true_iff in H as [H _].
  apply andb_true_iff in H as [H _].
  rewrite forallb_app, H. reflexivity.
Qed.

Lemma dropBreaks_rev s :
  endsWith s [10] = false -> dropBreaks (rev s) = rev s.
Proof.
  unfold endsWith. cbn [rev app startsWith].
  destruct (rev s) as [|c r]; [reflexivity|]. cbn [dropBreaks].
  rewrite Z.eqb_sym. destruct (c =? 10); [discriminate|reflexivity].
Qed.

Lemma strip_breaks s tail :
  endsWith s [10] = false -> Forall (fun c => c = 10) tail ->
  stripTrailingBreaks (s ++ tail) = s.
Proof.
  intros Hs Htail. unfold stripTrailingBreaks. rewrite rev_app_distr.
  assert (H : dropBreaks (rev tail ++ rev s) = dropBreaks (rev s)).
  { apply Forall_rev in Htail.
    induction Htail as [|c r -> _ IH]; [reflexivity|exact IH]. }
  rewrite H, dropBreaks_rev by assumption. apply rev_involutive.
Qed.

(** The text that [flush] rebuilds from the lines of a section, with the
    empty line that follows it and, for the last answer, the empty line
    after the final line feed. *)
Lemma flushed_text s :
  plainText s = true ->
  stripTrailingBreaks (join [10] (split [10] s ++ [[]])) = s /\
  stripTrailingBreaks (join [10] (split [10] s ++ [[]; []])) = s.
Proof.
  unfold plainText. intros H. apply andb_true_iff in H as [_ H].
  apply negb_true_iff in H.
  assert (H1 : join [10] (split [10] s ++ [[]]) = s ++ [10]).
  { rewrite join_snoc by apply splitFrom_nonempty.
    unfold split, splitRe. rewrite join_split. reflexivity. }
  split.
  - rewrite H1. apply strip_breaks; [assumption|repeat constructor].
  - change (split [10] s ++ [[]; []]) with (split [10] s ++ [[]] ++ [[]]).
    rewrite app_assoc, join_snoc, H1 by (destruct (split [10] s); discriminate).
    rewrite <- app_assoc. apply strip_breaks; [assumption|repeat constructor].
Qed.

Lemma flush_afterTurn done qa :
  plainText (fst qa) = true -> plainText (snd qa) = true ->
  pairsOf (flush (afterTurn done qa)) = done ++ [qa].
Proof.
  intros Hq Ha. unfold flush, afterTurn.
  cbn [pairsOf questionLines answerLines].
  rewrite (proj1 (flushed_text _ Hq)), (proj1 (flushed_text _ Ha)).
  destruct qa as [q a]. cbn [fst snd].
  destruct (split [10] q ++ [[]]) eqn:E; [|reflexivity].
  destruct (split [10] q); discriminate.
Qed.

Lemma turn_lines_split i qa :
  flat_map (split [10]) (turnLines i qa) =
  turnHeader i :: questionMark :: (split [10] (fst qa) ++ [[]]) ++
  answerMark :: (split [10] (snd qa) ++ [[]]).
Proof.
  unfold turnLines. cbn [flat_map].
  assert (Hh : split [10] (turnHeader i) = [turnHeader i]).
  { apply (split_single None []). intros H%turnHeader_plain. lia. }
  rewrite Hh. cbn [app]. rewrite <- !app_assoc. reflexivity.
Qed.

(** The lines of one turn bring the parser to [afterTurn], whatever its
    state was; what was pending is flushed by the header. *)
Lemma parse_turn i qa st :
  plainText (fst qa) = true -> plainText (snd qa) = true ->
  fold_left parseLine (flat_map (split [10]) (turnLines i qa)) st =
  afterTurn (pairsOf (flush st)) qa.
Proof.
  intros Hq Ha. rewrite turn_lines_split. cbn [fold_left].
  unfold parseLine at 3. rewrite turnHeader_isTurnLine.
  unfold parseLine at 2. change (isTurnLine questionMark) with false.
  change (isMarkLine questionMark questionMark) with true. cbv iota.
  cbn [pairsOf questionLines answerLines state flush].
  rewrite fold_left_app.
  rewrite (parse_question_lines (split [10] (fst qa) ++ [[]]))
    by (reflexivity || now apply plainText_lines).
  cbn [fold_left pairsOf questionLines answerLines app].
  unfold parseLine at 2. change (isTurnLine answerMark) with false.
  change (isMarkLine questionMark answerMark) with false.
  change (isMarkLine answerMark answerMark) with true. cbv iota.
  cbn [pairsOf questionLines answerLines state].
  rewrite (parse_answer_lines (split [10] (snd qa) ++ [[]]))
    by (reflexivity || now apply plainText_lines).
  reflexivity.
Qed.

Lemma turn_lines_ok i qa :
  plainText (fst qa) = true -> plainText (snd qa) = true ->
  Forall (fun x => occurs [13; 10] (x ++ [10]) = false) (turnLines i qa).
Proof.
  unfold plainText. intros Hq Ha.
  apply andb_true_iff in Hq as [Hq _]. apply andb_true_iff in Hq as [_ Hq].
  apply andb_true_iff in Ha as [Ha _]. apply andb_true_iff in Ha as [_ Ha].
  apply negb_true_iff in Hq, Ha.
  unfold turnLines. repeat constructor; try assumption.
  rewrite no_cr_no_crlf; [reflexivity|]. intros H%turnHeader_plain. lia.
Qed.

Lemma lines_ok i pairs :
  Forall (fun qa => plainText (fst qa) = true /\ plainText (snd qa) = true)
    pairs ->
  Forall (fun x => occurs [13; 10] (x ++ [10]) = false) (linesFrom i pairs).
Proof.
  intros H; revert i; induction H as [|qa pairs [Hq Ha] _ IH]; intros i;
    [constructor|].
  cbn [linesFrom]. apply Forall_app; split; [now apply turn_lines_ok|apply IH].
Qed.

(** The parser after the lines of a non-empty list of turns. *)
Lemma parse_turns pairs i st :
  Forall (fun qa => plainText (fst qa) = true /\ plainText (snd qa) = true)
    pairs ->
  pairs <> [] ->
  exists done qa,
    fold_left parseLine (flat_map (split [10]) (linesFrom i pairs)) st =
      afterTurn done qa /\
    done ++ [qa] = pairsOf (flush st) ++ pairs /\
    plainText (fst qa) = true /\ plainText (snd qa) = true.
Proof.
  intros H; revert i st; induction H as [|qa pairs [Hq Ha] Hrest IH];
    intros i st Hne; [contradiction|].
  cbn [linesFrom]. rewrite flat_map_app, fold_left_app, parse_turn by assumption.
  destruct pairs as [|qa' pairs].
  - exists (pairsOf (flush st)), qa. cbn. auto.
  - destruct (IH (S i) (afterTurn (pairsOf (flush st)) qa)) as
      (done & last & Hrun & Hdone & Hlast); [discriminate|].
    exists done, last. split; [exact Hrun|]. split; [|exact Hlast].
    rewrite Hdone, flush_afterTurn by assumption.
    now rewrite <- app_assoc.
Qed.

(** C1 (amended): the round trip of the turn formatter and parser.  For
    every sequence of pairs in which no question or answer has a line of
    the shape of a delimiter, none has a carriage return before a line
    feed or at its end, and none ends with a line feed, parsing the text
    that the formatter writes gives the sequence back. *)
Theorem C1_qa_round_trip (pairs : list (jsstring * jsstring)) :
  Forall (fun qa => plainText (fst qa) = true /\ plainText (snd qa) = true)
    pairs ->
  parseQaText (formatQaTxt pairs) = pairs.
Proof.
  intros H. destruct pairs as [|qa pairs]; [reflexivity|].
  unfold parseQaText, formatQaTxt, splitRe.
  rewrite join_break by (cbn; discriminate).
  rewrite split_pieces by now apply lines_ok.
  rewrite fold_left_app.
  destruct (parse_turns (qa :: pairs) 0 (mkParser [] [] [] NoSection) H)
    as (done & last & -> & Hdone & Hq & Ha); [discriminate|].
  cbn [fold_left]. unfold parseLine. change (isTurnLine []) with false.
  change (isMarkLine questionMark []) with false.
  change (isMarkLine answerMark []) with false. cbv iota.
  cbn [afterTurn state pairsOf questionLines answerLines flush].
  rewrite <- app_assoc. cbn [app].
  rewrite (proj1 (flushed_text _ Hq)), (proj2 (flushed_text _ Ha)).
  cbn [pairsOf flush questionLines answerLines] in Hdone. cbn [app] in Hdone.
  rewrite <- Hdone. destruct last as [q a]. cbn [fst snd].
  destruct (split [10] q ++ [[]]) eqn:E; [|reflexivity].
  destruct (split [10] q); discriminate.
Qed.

Lemma C1_qa_round_trip_witness :
  Forall (fun qa => plainText (fst qa) = true /\ plainText (snd qa) = true)
    sampleTurns /\
  parseQaText (formatQaTxt sampleTurns) = sampleTurns.
Proof.
  assert (H : Forall (fun qa => plainText (fst qa) = true /\
                                plainText (snd qa) = true) sampleTurns)
    by (repeat constructor; vm_compute; reflexivity).
  split; [exact H|apply (C1_qa_round_trip sampleTurns H)].
Defined.

(** C1 as stated fails: a question that ends with a line feed, and one
    that ends with a carriage return, have no line of the shape of a
    delimiter, and the parser gives them back without their last code
    unit. *)
Lemma C1_final_break_is_lost :
  Forall (fun qa =>
            forallb (fun l => negb (isDelimiterLine l))
              (splitRe lineBreak (fst qa)) = true /\
            forallb (fun l => negb (isDelimiterLine l))
              (splitRe lineBreak (snd qa)) = true)
    [(lit "a" ++ [10], lit "b"); (lit "c" ++ [13], lit "d")] /\
  parseQaText (formatQaTxt [(lit "a" ++ [10], lit "b")]) = [(lit "a", lit "b")] /\
  parseQaText (formatQaTxt [(lit "c" ++ [13], lit "d")]) = [(lit "c", lit "d")] /\
  parseQaText (formatQaTxt [(lit "a" ++ [10], lit "b")]) <>
    [(lit "a" ++ [10], lit "b")] /\
  parseQaText (formatQaTxt [(lit "c" ++ [13], lit "d")]) <>
    [(lit "c" ++ [13], lit "d")].
Proof.
  split; [repeat constructor|].
  split; [vm_compute; reflexivity|]. split; [vm_compute; reflexivity|].
  split; vm_compute; discriminate.
Qed.

(** ** The Markdown cleanup *)

(** A pattern that matches nowhere leaves the text as it is. *)
Lemma replaceFrom_quiet m repl prev s :
  firesIn m prev s = false -> replaceFrom m repl prev 0 s = s.
Proof.
  revert prev; induction s as [|c s IH]; intros prev H; [reflexivity|].
  cbn [firesIn replaceFrom] in *. apply orb_false_iff in H as [H1 H2].
  destruct (m prev (c :: s)) as [[|n]|]; try discriminate;
    now rewrite IH.
Qed.

(** What a replacement writes comes from the text or from the
    replacement. *)
Lemma replaceFrom_chars m repl prev skip s c :
  In c (replaceFrom m repl prev skip s) -> In c s \/ In c repl.
Proof.
  revert prev skip; induction s as [|d s IH]; intros prev skip H;
    [contradiction|].
  cbn [replaceFrom] in H. destruct skip as [|k].
  - destruct (m prev (d :: s)) as [[|n]|].
    + destruct H as [->|H]; [left; now left|].
      destruct (IH _ _ H); [left; now right|now right].
    + apply in_app_iff in H as [H|H]; [now right|].
      destruct (IH _ _ H); [left; now right|now right].
    + destruct H as [->|H]; [left; now left|].
      destruct (IH _ _ H); [left; now right|now right].
  - destruct (IH _ _ H); [left; now right|now right].
Qed.

Lemma trimStart_chars s c : In c (trimStart s) -> In c s.
Proof.
  induction s as [|d s IH]; [contradiction|]. cbn [trimStart].
  destruct (isWhiteSpace d); [intros H; right; now apply IH|auto].
Qed.

Lemma trim_chars s c : In c (trim s) -> In c s.
Proof.
  unfold trim, trimEnd. intros H%in_rev%trimStart_chars%in_rev.
  now apply trimStart_chars.
Qed.

(** *** Trimmed texts *)

Lemma trimStart_head s :
  match trimStart s with
  | [] => True
  | c :: _ => isWhiteSpace c = false
  end.
Proof.
  induction s as [|c s IH]; [exact I|]. cbn [trimStart].
  destruct (isWhiteSpace c) eqn:Hc; [exact IH|exact Hc].
Qed.

Lemma trimStart_fixed s :
  match s with [] => True | c :: _ => isWhiteSpace c = false end ->
  trimStart s = s.
Proof. destruct s as [|c s]; [reflexivity|]. cbn. now intros ->. Qed.

Lemma last_rev_head (c : Z) s d : List.last (rev (c :: s)) d = c.
Proof. cbn [rev]. apply last_last. Qed.

Lemma trimEnd_fixed s :
  s = [] \/ isWhiteSpace (List.last s 0) = false -> trimEnd s = s.
Proof.
  intros H. unfold trimEnd. rewrite trimStart_fixed; [apply rev_involutive|].
  destruct H as [->|H]; [exact I|].
  destruct (rev s) as [|c r] eqn:E; [exact I|].
  apply (f_equal (@rev Z)) in E. rewrite rev_involutive in E. subst s.
  now rewrite last_rev_head in H.
Qed.

Lemma trim_trimmed s : trimmed (trim s).
Proof.
  unfold trim, trimEnd, trimmed.
  pose proof (trimStart_head s) as Hs.
  pose proof (trimStart_head (rev (trimStart s))) as He.
  destruct (trimStart (rev (trimStart s))) as [|c r] eqn:E; [exact I|].
  destruct (rev (c :: r)) as [|d t] eqn:E2.
  { apply (f_equal (@length Z)) in E2. rewrite length_rev in E2. discriminate. }
  rewrite <- E2, last_rev_head. split; [|exact He].
  (* the head of the result is the head of [trimStart s] *)
  assert (Hsub : exists pre, rev (trimStart s) = pre ++ c :: r).
  { clear -E. induction (rev (trimStart s)) as [|x l IH]; [discriminate|].
    cbn [trimStart] in E. destruct (isWhiteSpace x).
    - destruct (IH E) as [pre ->]. now exists (x :: pre).
    - exists []. now rewrite <- E. }
  destruct Hsub as [pre Hpre].
  apply (f_equal (@rev Z)) in Hpre. rewrite rev_involutive in Hpre.
  rewrite rev_app_distr in Hpre. rewrite E2 in Hpre.
  rewrite Hpre in Hs. exact Hs.
Qed.

Lemma trimmed_fixed s : trimmed s -> trim s = s.
Proof.
  unfold trimmed, trim. destruct s as [|c s]; [reflexivity|].
  intros [Hh Hl]. rewrite trimStart_fixed by exact Hh.
  apply trimEnd_fixed. now right.
Qed.

Lemma trim_idempotent s : trim (trim s) = trim s.
Proof. apply trimmed_fixed, trim_trimmed. Qed.

(** *** Lines *)

Lemma splitFrom_literal_prev pat prev prev' skip cur s :
  splitFrom (literal pat) prev skip cur s =
  splitFrom (literal pat) prev' skip cur s.
Proof.
  revert prev prev' skip cur; induction s as [|c s IH];
    intros prev prev' skip cur; [reflexivity|].
  cbn [splitFrom]. destruct skip; [|apply IH].
  change (literal pat prev' (c :: s)) with (literal pat prev (c :: s)).
  destruct (literal pat prev (c :: s)) as [[|n]|];
    [apply IH|f_equal; apply IH|apply IH].
Qed.

Lemma splitFrom_break prev cur s :
  splitFrom (literal [10]) prev 0 cur (10 :: s) =
  cur :: splitFrom (literal [10]) None 0 [] s.
Proof.
  cbn [splitFrom]. unfold literal at 1. cbn [startsWith length].
  change (10 =? 10) with true. cbn [andb]. f_equal.
  apply splitFrom_literal_prev.
Qed.

Lemma splitFrom_other prev cur c s :
  c <> 10 ->
  splitFrom (literal [10]) prev 0 cur (c :: s) =
  splitFrom (literal [10]) None 0 (cur ++ [c]) s.
Proof.
  intros Hc. cbn [splitFrom]. unfold literal at 1. cbn [startsWith length].
  rewrite (proj2 (Z.eqb_neq 10 c)) by lia. cbn [andb].
  apply splitFrom_literal_prev.
Qed.

(** The lines of [x], a line feed and [rest] are the lines of [x], then
    the lines of [rest]. *)
Lemma splitFrom_app_break x cur rest :
  splitFrom (literal [10]) None 0 cur (x ++ 10 :: rest) =
  splitFrom (literal [10]) None 0 cur x ++
  splitFrom (literal [10]) None 0 [] rest.
Proof.
  revert cur; induction x as [|c x IH]; intros cur.
  - cbn [app]. now rewrite splitFrom_break.
  - cbn [app]. destruct (Z.eq_dec c 10) as [->|Hc].
    + rewrite !splitFrom_break. cbn [app]. f_equal. apply IH.
    + rewrite !splitFrom_other by assumption. apply IH.
Qed.

Lemma split_join (lines : list jsstring) :
  lines <> [] -> Forall (fun l => ~ In 10 l) lines ->
  split [10] (join [10] lines) = lines.
Proof.
  intros Hne H. unfold split, splitRe.
  induction H as [|l lines Hl Hrest IH]; [contradiction|].
  destruct lines as [|l' lines].
  - cbn [join]. now apply (split_single None []).
  - rewrite join_cons by discriminate. cbn [app].
    rewrite splitFrom_app_break, (split_single None []) by assumption.
    cbn [app]. f_equal. apply IH. discriminate.
Qed.

Lemma splitFrom_no_break cur s :
  ~ In 10 cur ->
  Forall (fun l => ~ In 10 l) (splitFrom (literal [10]) None 0 cur s).
Proof.
  revert cur; induction s as [|c s IH]; intros cur Hcur.
  - now repeat constructor.
  - destruct (Z.eq_dec c 10) as [->|Hc].
    + rewrite splitFrom_break. constructor; [assumption|]. now apply IH.
    + rewrite splitFrom_other by assumption. apply IH.
      rewrite in_app_iff. intros [?|[?|[]]]; [contradiction|lia].
Qed.

Lemma split_no_break s : Forall (fun l => ~ In 10 l) (split [10] s).
Proof. apply splitFrom_no_break. intros []. Qed.

(** What comes before the scan stays at the head of the first line. *)
Lemma splitFrom_prepend pre cur s :
  splitFrom (literal [10]) None 0 (pre ++ cur) s =
  match splitFrom (literal [10]) None 0 cur s with
  | l :: ls => (pre ++ l) :: ls
  | [] => []
  end.
Proof.
  revert cur; induction s as [|c s IH]; intros cur; [reflexivity|].
  destruct (Z.eq_dec c 10) as [->|Hc].
  - now rewrite !splitFrom_break.
  - rewrite !splitFrom_other by assumption. rewrite <- app_assoc. apply IH.
Qed.

Lemma split_chars s l c : In l (split [10] s) -> In c l -> In c s.
Proof.
  unfold split, splitRe.
  assert (H : forall cur, In l (splitFrom (literal [10]) None 0 cur s) ->
                          In c l -> In c cur \/ In c s).
  { induction s as [|d s IH]; intros cur Hl Hc.
    - destruct Hl as [<-|[]]. now left.
    - destruct (Z.eq_dec d 10) as [->|Hd].
      + rewrite splitFrom_break in Hl. destruct Hl as [<-|Hl]; [now left|].
        destruct (IH [] Hl Hc) as [[]|?]. right; now right.
      + rewrite splitFrom_other in Hl by assumption.
        destruct (IH _ Hl Hc) as [Hin|?]; [|right; now right].
        apply in_app_iff in Hin as [?|[<-|[]]]; [now left|right; now left]. }
  intros Hl Hc. destruct (H [] Hl Hc) as [[]|?]. assumption.
Qed.

Lemma join_chars (lines : list jsstring) c :
  In c (join [10] lines) -> c = 10 \/ exists l, In l lines /\ In c l.
Proof.
  induction lines as [|l lines IH]; [contradiction|].
  destruct lines as [|l' lines].
  - cbn [join]. intros H. right. exists l. split; [now left|assumption].
  - rewrite join_cons by discriminate. rewrite !in_app_iff.
    intros [H|[[<-|[]]|H]].
    + right. exists l. split; [now left|assumption].
    + now left.
    + destruct (IH H) as [?|(l0 & Hl0 & Hc)]; [now left|].
      right. exists l0. split; [now right|assumption].
Qed.

(** *** Patterns that stay within a line *)

Lemma span_app_stop f (l rest : jsstring) stop :
  f stop = false ->
  span f (l ++ stop :: rest) =
  (fst (span f l), snd (span f l) ++ stop :: rest).
Proof.
  intros Hstop. induction l as [|c l IH].
  - cbn [app span]. now rewrite Hstop.
  - cbn [app span]. destruct (f c); [|reflexivity].
    rewrite IH. destruct (span f l). reflexivity.
Qed.

Lemma span_length f (s : jsstring) :
  (length (fst (span f s)) + length (snd (span f s)) = length s)%nat.
Proof.
  induction s as [|c s IH]; [reflexivity|]. cbn [span].
  destruct (f c); [|reflexivity]. destruct (span f s). cbn in *. lia.
Qed.

Lemma firesIn_cons m prev c s :
  firesIn m prev (c :: s) = fires (m prev (c :: s)) || firesIn m (Some c) s.
Proof. reflexivity. Qed.

Section LineLocal.

Variable m : matcher.

(** The pattern does not start at a line feed, a line feed before it is
    as good as the start of the text, and it does not look beyond the
    end of the line. *)
Hypothesis at_break : forall prev rest, fires (m prev (10 :: rest)) = false.
Hypothesis after_break : forall s, m (Some 10) s = m None s.
Hypothesis within_line :
  forall prev c l rest, ~ In 10 (c :: l) ->
    m prev ((c :: l) ++ 10 :: rest) = m prev (c :: l).

Lemma firesIn_line prev cur rest :
  ~ In 10 cur ->
  firesIn m prev (cur ++ 10 :: rest) = firesIn m prev cur || firesIn m None rest.
Proof.
  revert prev; induction cur as [|c cur IH]; intros prev Hcur.
  - cbn [app]. rewrite firesIn_cons, at_break. cbn [orb firesIn].
    destruct rest as [|d rest]; [reflexivity|].
    now rewrite !firesIn_cons, after_break.
  - cbn [app]. rewrite !firesIn_cons.
    change (c :: cur ++ 10 :: rest) with ((c :: cur) ++ 10 :: rest).
    rewrite within_line by assumption.
    rewrite IH by (intros H; apply Hcur; now right).
    now rewrite orb_assoc.
Qed.

Lemma firesIn_lines_from cur s :
  ~ In 10 cur ->
  firesIn m None (cur ++ s) =
  existsb (firesIn m None) (splitFrom (literal [10]) None 0 cur s).
Proof.
  revert cur; induction s as [|c s IH]; intros cur Hcur.
  - cbn [splitFrom existsb]. now rewrite app_nil_r, orb_false_r.
  - destruct (Z.eq_dec c 10) as [->|Hc].
    + rewrite splitFrom_break. cbn [existsb].
      rewrite firesIn_line by assumption. f_equal.
      apply (IH []). intros [].
    + rewrite splitFrom_other by assumption. rewrite <- IH.
      * now rewrite <- app_assoc.
      * rewrite in_app_iff. intros [?|[?|[]]]; [contradiction|lia].
Qed.

(** The pattern matches in a text exactly when it matches in one of its
    lines. *)
Lemma firesIn_lines s :
  firesIn m None s = existsb (firesIn m None) (split [10] s).
Proof. apply (firesIn_lines_from []). intros []. Qed.

End LineLocal.

Lemma blankRun_local :
  (forall prev rest, fires (blankRun prev (10 :: rest)) = false) /\
  (forall s, blankRun (Some 10) s = blankRun None s) /\
  (forall prev c l rest, ~ In 10 (c :: l) ->
     blankRun prev ((c :: l) ++ 10 :: rest) = blankRun prev (c :: l)).
Proof.
  split; [reflexivity|]. split; [reflexivity|].
  intros prev c l rest _. unfold blankRun.
  now rewrite span_app_stop by reflexivity.
Qed.

Lemma labelDot_line l rest :
  labelDot (l ++ 10 :: rest) =
  option_map (fun t => t ++ 10 :: rest) (labelDot l).
Proof.
  unfold labelDot. rewrite span_app_stop by reflexivity.
  destruct (span isLabel l) as [[|c run] [|d after]]; cbn [fst snd app];
    try reflexivity.
  destruct (d =? 46); reflexivity.
Qed.

Lemma topLevel_line l rest :
  topLevel (l ++ 10 :: rest) =
  option_map (fun t => t ++ 10 :: rest) (topLevel l).
Proof.
  unfold topLevel. rewrite span_app_stop by reflexivity.
  destruct (span isLetter l) as [[|c [|c' run]] [|d after]];
    cbn [fst snd app]; try reflexivity.
  destruct (isWord d || (d =? 41)); reflexivity.
Qed.

Lemma domainRest_line fuel l rest :
  domainRest fuel (l ++ 10 :: rest) =
  option_map (fun t => t ++ 10 :: rest) (domainRest fuel l).
Proof.
  revert l; induction fuel as [|fuel IH]; intros l; [reflexivity|].
  cbn [domainRest]. rewrite labelDot_line.
  destruct (labelDot l) as [afterDot|]; [|reflexivity]. cbn [option_map].
  rewrite IH. destruct (domainRest fuel afterDot); [reflexivity|].
  cbn [option_map]. apply topLevel_line.
Qed.

Lemma labelDot_shorter s afterDot :
  labelDot s = Some afterDot -> (length afterDot < length s)%nat.
Proof.
  unfold labelDot. pose proof (span_length isLabel s) as H.
  destruct (span isLabel s) as [[|c run] [|d after]]; try discriminate.
  destruct (d =? 46); [|discriminate]. intros [= <-]. cbn in H. lia.
Qed.

(** Fuel beyond the length of the text changes nothing. *)
Lemma domainRest_fuel fuel fuel' s :
  (length s <= fuel)%nat -> (length s <= fuel')%nat ->
  domainRest fuel s = domainRest fuel' s.
Proof.
  revert fuel' s; induction fuel as [|fuel IH]; intros fuel' s H H'.
  - destruct s; [|cbn in H; lia]. destruct fuel'; reflexivity.
  - destruct fuel' as [|fuel'].
    + destruct s; [reflexivity|cbn in H'; lia].
    + cbn [domainRest]. destruct (labelDot s) as [afterDot|] eqn:E;
        [|reflexivity].
      apply labelDot_shorter in E.
      rewrite (IH fuel' afterDot) by lia. reflexivity.
Qed.

Lemma domainToken_local :
  (forall prev rest, fires (domainToken prev (10 :: rest)) = false) /\
  (forall s, domainToken (Some 10) s = domainToken None s) /\
  (forall prev c l rest, ~ In 10 (c :: l) ->
     domainToken prev ((c :: l) ++ 10 :: rest) = domainToken prev (c :: l)).
Proof.
  split; [|split].
  - intros prev rest. unfold domainToken.
    destruct (_ && _); [|reflexivity]. reflexivity.
  - reflexivity.
  - intros prev c l rest _. unfold domainToken.
    change ((c :: l) ++ 10 :: rest) with (c :: (l ++ 10 :: rest)) at 1.
    cbv beta iota zeta.
    destruct (_ && _); [|reflexivity].
    rewrite domainRest_line.
    rewrite (domainRest_fuel _ (length (c :: l)) (c :: l))
      by (rewrite ?length_app; cbn [length]; lia).
    destruct (domainRest (length (c :: l)) (c :: l)) as [t|];
      [|reflexivity].
    cbn [option_map]. f_equal. rewrite !length_app. cbn [length]. lia.
Qed.

(** *** Runs of line feeds *)

Lemma replaceFrom_prev m repl prev prev' skip s :
  (forall p p' t, m p t = m p' t) ->
  replaceFrom m repl prev skip s = replaceFrom m repl prev' skip s.
Proof.
  intros Hm. revert prev prev' skip; induction s as [|c s IH];
    intros prev prev' skip; [reflexivity|].
  cbn [replaceFrom]. destruct skip; [|apply IH].
  rewrite (Hm prev prev'). reflexivity.
Qed.

Lemma replaceFrom_drop m repl prev prev' skip s :
  (forall p p' t, m p t = m p' t) ->
  replaceFrom m repl prev skip s = replaceFrom m repl prev' 0 (drop skip s).
Proof.
  intros Hm. revert prev skip; induction s as [|c s IH]; intros prev skip.
  - now destruct skip.
  - destruct skip as [|k]; [now apply replaceFrom_prev|].
    cbn [replaceFrom drop]. apply IH.
Qed.

Lemma lead_cons_break s : lead (10 :: s) = S (lead s).
Proof.
  unfold lead. cbn [span]. change (10 =? 10) with true. cbv iota.
  now destruct (span (fun c => c =? 10) s).
Qed.

Lemma lead_cons_other c s : c <> 10 -> lead (c :: s) = 0%nat.
Proof.
  intros Hc. unfold lead. cbn [span].
  now rewrite (proj2 (Z.eqb_neq c 10)) by assumption.
Qed.

Lemma lead_split s :
  s = repeat 10 (lead s) ++ drop (lead s) s /\ lead (drop (lead s) s) = 0%nat.
Proof.
  induction s as [|c s [IH1 IH2]]; [split; reflexivity|].
  destruct (Z.eq_dec c 10) as [->|Hc].
  - rewrite lead_cons_break. cbn [repeat drop app]. split; [|exact IH2].
    f_equal. exact IH1.
  - rewrite lead_cons_other by assumption. split; [reflexivity|].
    cbn [drop]. now apply lead_cons_other.
Qed.

Lemma breakRun_lead prev s :
  breakRun prev s = if (3 <=? lead s)%nat then Some (lead s) else None.
Proof. reflexivity. Qed.

(** The collapse, one step at a time. *)
Lemma collapse_run prev s :
  (3 <= lead s)%nat ->
  replaceFrom breakRun [10; 10] prev 0 s =
  10 :: 10 :: replaceFrom breakRun [10; 10] None 0 (drop (lead s) s).
Proof.
  intros H. destruct s as [|c s]; [cbn in H; lia|].
  cbn [replaceFrom]. rewrite breakRun_lead.
  rewrite (proj2 (Nat.leb_le _ _)) by assumption.
  destruct (lead (c :: s)) as [|k] eqn:E; [lia|].
  cbn [app drop]. f_equal. f_equal. now apply replaceFrom_drop.
Qed.

Lemma collapse_keep prev c s :
  (lead (c :: s) < 3)%nat ->
  replaceFrom breakRun [10; 10] prev 0 (c :: s) =
  c :: replaceFrom breakRun [10; 10] None 0 s.
Proof.
  intros H. cbn [replaceFrom]. rewrite breakRun_lead.
  rewrite (proj2 (Nat.leb_gt _ _)) by assumption.
  f_equal. now apply replaceFrom_prev.
Qed.

Lemma occurs_breaks s :
  occurs [10; 10; 10] (10 :: s) =
  (2 <=? lead s)%nat || occurs [10; 10; 10] s.
Proof.
  cbn [occurs]. f_equal. cbn [startsWith]. change (10 =? 10) with true.
  cbn [andb]. destruct s as [|c s]; [reflexivity|].
  destruct (Z.eq_dec c 10) as [->|Hc].
  - rewrite lead_cons_break. change (10 =? 10) with true. cbn [andb].
    destruct s as [|d s]; [reflexivity|].
    destruct (Z.eq_dec d 10) as [->|Hd].
    + rewrite lead_cons_break. reflexivity.
    + rewrite lead_cons_other by assumption.
      now rewrite (proj2 (Z.eqb_neq 10 d)) by lia.
  - rewrite lead_cons_other by assumption.
    now rewrite (proj2 (Z.eqb_neq 10 c)) by lia.
Qed.

Lemma occurs_breaks_other c s :
  c <> 10 -> occurs [10; 10; 10] (c :: s) = occurs [10; 10; 10] s.
Proof.
  intros Hc. cbn [occurs startsWith].
  now rewrite (proj2 (Z.eqb_neq 10 c)) by lia.
Qed.

(** After the collapse no three line feeds stand together. *)
Lemma collapse_shape n s :
  (length s <= n)%nat ->
  occurs [10; 10; 10] (replaceFrom breakRun [10; 10] None 0 s) = false /\
  lead (replaceFrom breakRun [10; 10] None 0 s) = Nat.min (lead s) 2.
Proof.
  revert s; induction n as [|n IH]; intros s Hlen.
  - destruct s; [split; reflexivity|cbn in Hlen; lia].
  - destruct (le_lt_dec 3 (lead s)) as [Hrun|Hrun].
    + rewrite collapse_run by assumption.
      destruct (lead_split s) as [Hs Hrest].
      assert (Hshort : (length (drop (lead s) s) <= n)%nat)
        by (rewrite length_drop; lia).
      destruct (IH _ Hshort) as [IH1 IH2]. rewrite Hrest in IH2.
      rewrite !occurs_breaks, !lead_cons_break, IH1, IH2.
      split; [reflexivity|lia].
    + destruct s as [|c s]; [split; reflexivity|].
      rewrite collapse_keep by assumption.
      cbn [length] in Hlen. destruct (IH s ltac:(lia)) as [IH1 IH2].
      destruct (Z.eq_dec c 10) as [->|Hc].
      * rewrite lead_cons_break in *. rewrite occurs_breaks, IH1, IH2.
        split; [|rewrite ?lead_cons_break; lia].
        rewrite orb_false_r. apply Nat.leb_gt. lia.
      * rewrite occurs_breaks_other, !lead_cons_other by assumption.
        split; [exact IH1|reflexivity].
Qed.

Lemma collapse_no_run s :
  occurs [10; 10; 10] (replaceRe breakRun [10; 10] s) = false.
Proof. apply (collapse_shape (length s)). lia. Qed.

Lemma splitFrom_breaks k cur rest :
  splitFrom (literal [10]) None 0 cur (repeat 10 (S k) ++ rest) =
  cur :: repeat [] k ++ splitFrom (literal [10]) None 0 [] rest.
Proof.
  revert cur; induction k as [|k IH]; intros cur.
  - cbn [repeat app]. now rewrite splitFrom_break.
  - change (repeat 10 (S (S k)) ++ rest) with (10 :: (repeat 10 (S k) ++ rest)).
    rewrite splitFrom_break, IH. reflexivity.
Qed.

(** The collapse creates no line: each line after it was a line
    before. *)
Lemma collapse_lines n s cur :
  (length s <= n)%nat ->
  incl (splitFrom (literal [10]) None 0 cur
          (replaceFrom breakRun [10; 10] None 0 s))
       (splitFrom (literal [10]) None 0 cur s).
Proof.
  revert s cur; induction n as [|n IH]; intros s cur Hlen.
  - destruct s; [apply incl_refl|cbn in Hlen; lia].
  - destruct (le_lt_dec 3 (lead s)) as [Hrun|Hrun].
    + rewrite collapse_run by assumption.
      destruct (lead_split s) as [Hs _].
      assert (Hshort : (length (drop (lead s) s) <= n)%nat)
        by (rewrite length_drop; lia).
      specialize (IH _ [] Hshort).
      remember (drop (lead s) s) as rest eqn:Erest. clear Erest Hshort Hlen.
      destruct (lead s) as [|[|[|k]]]; try lia. subst s.
      rewrite splitFrom_breaks, !splitFrom_break.
      cbn [repeat app].
      intros l [<-|[<-|Hl]]; [now left|right; now left|].
      right. right. right. apply in_or_app. right. now apply IH.
    + destruct s as [|c s]; [apply incl_refl|].
      rewrite collapse_keep by assumption. cbn [length] in Hlen.
      destruct (Z.eq_dec c 10) as [->|Hc].
      * rewrite !splitFrom_break. intros l [<-|Hl]; [now left|right].
        apply (IH s []); [lia|assumption].
      * rewrite !splitFrom_other by assumption. apply IH. lia.
Qed.

Lemma collapse_Forall (P : jsstring -> Prop) s :
  Forall P (split [10] s) ->
  Forall P (split [10] (replaceRe breakRun [10; 10] s)).
Proof.
  rewrite !List.Forall_forall. intros H l Hl. apply H.
  now apply (collapse_lines (length s) s []).
Qed.

(** *** Trimming a text of trimmed lines *)

Lemma trimEnd_snoc s c :
  trimEnd (s ++ [c]) = if isWhiteSpace c then trimEnd s else s ++ [c].
Proof.
  unfold trimEnd. rewrite rev_app_distr. cbn [rev app trimStart].
  destruct (isWhiteSpace c); [reflexivity|].
  cbn [rev]. now rewrite rev_involutive.
Qed.

Lemma trimmed_head c s : trimmed (c :: s) -> isWhiteSpace c = false.
Proof. now intros [H _]. Qed.

Lemma trimmed_last s c : trimmed (s ++ [c]) -> isWhiteSpace c = false.
Proof.
  unfold trimmed. destruct (s ++ [c]) as [|d t] eqn:E.
  - now destruct s.
  - rewrite <- E, last_last. now intros [_ H].
Qed.

Lemma split_snoc_break s : split [10] (s ++ [10]) = split [10] s ++ [[]].
Proof. unfold split, splitRe. now rewrite splitFrom_app_break. Qed.

Lemma splitFrom_snoc_other cur s c :
  c <> 10 ->
  exists ls l,
    splitFrom (literal [10]) None 0 cur s = ls ++ [l] /\
    splitFrom (literal [10]) None 0 cur (s ++ [c]) = ls ++ [l ++ [c]].
Proof.
  intros Hc. revert cur; induction s as [|d s IH]; intros cur.
  - exists [], cur. split; [reflexivity|].
    cbn [app]. now rewrite splitFrom_other.
  - cbn [app]. destruct (Z.eq_dec d 10) as [->|Hd].
    + rewrite !splitFrom_break. destruct (IH []) as (ls & l & -> & ->).
      now exists (cur :: ls), l.
    + rewrite !splitFrom_other by assumption. apply IH.
Qed.

Lemma trimStart_lines s :
  Forall trimmed (split [10] s) ->
  incl (split [10] (trimStart s)) (split [10] s).
Proof.
  induction s as [|c s IH]; intros H; [apply incl_refl|].
  cbn [trimStart]. destruct (isWhiteSpace c) eqn:Hws; [|apply incl_refl].
  unfold split, splitRe in *.
  destruct (Z.eq_dec c 10) as [->|Hc].
  - rewrite splitFrom_break in *. apply Forall_cons in H as [_ H].
    apply incl_tl. now apply IH.
  - rewrite splitFrom_other in H by assumption.
    change ([] ++ [c]) with ([c] ++ []) in H.
    rewrite splitFrom_prepend in H.
    destruct (splitFrom (literal [10]) None 0 [] s) as [|l ls] eqn:E;
      [now apply splitFrom_nonempty in E|].
    apply Forall_cons in H as [H _]. apply trimmed_head in H. congruence.
Qed.

Lemma trimEnd_lines s :
  Forall trimmed (split [10] s) ->
  incl (split [10] (trimEnd s)) (split [10] s).
Proof.
  induction s as [|c s IH] using rev_ind; intros H; [apply incl_refl|].
  rewrite trimEnd_snoc. destruct (isWhiteSpace c) eqn:Hws; [|apply incl_refl].
  destruct (Z.eq_dec c 10) as [->|Hc].
  - rewrite split_snoc_break in *. apply Forall_app in H as [H _].
    apply incl_appl. now apply IH.
  - unfold split, splitRe in H.
    destruct (splitFrom_snoc_other [] s c Hc) as (ls & l & _ & E).
    rewrite E in H. apply Forall_app in H as [_ H].
    apply Forall_cons in H as [H _]. apply trimmed_last in H. congruence.
Qed.

Lemma incl_Forall_lines (P : jsstring -> Prop) (a b : list jsstring) :
  incl a b -> Forall P b -> Forall P a.
Proof. rewrite !List.Forall_forall. auto. Qed.

Lemma trim_lines s :
  Forall trimmed (split [10] s) ->
  incl (split [10] (trim s)) (split [10] s).
Proof.
  intros H. unfold trim.
  pose proof (trimStart_lines s H) as H1.
  eapply incl_tran; [|exact H1].
  apply trimEnd_lines. eapply incl_Forall_lines; eassumption.
Qed.

(** *** Occurrences in parts of a text *)

Lemma startsWith_app_l (a b p : jsstring) :
  startsWith a p = true -> startsWith (a ++ b) p = true.
Proof.
  revert a; induction p as [|x p IH]; intros a H; [reflexivity|].
  destruct a as [|y a]; [discriminate|]. cbn [app startsWith] in *.
  apply andb_true_iff in H as [-> H]. now apply IH.
Qed.

Lemma occurs_app_l needle (a b : jsstring) :
  occurs needle (a ++ b) = false -> occurs needle a = false.
Proof.
  induction a as [|c a IH].
  - cbn [app]. intros H. cbn [occurs]. rewrite orb_false_r.
    destruct needle; [|reflexivity]. destruct b; discriminate.
  - cbn [app occurs]. intros [H1 H2]%orb_false_iff.
    rewrite (IH H2), orb_false_r.
    destruct (startsWith (c :: a) needle) eqn:E; [|reflexivity].
    apply (startsWith_app_l _ b) in E. cbn [app] in E. congruence.
Qed.

Lemma occurs_app_r needle (a b : jsstring) :
  occurs needle (a ++ b) = false -> occurs needle b = false.
Proof.
  induction a as [|c a IH]; [auto|].
  cbn [app occurs]. intros [_ H]%orb_false_iff. auto.
Qed.

Lemma trimStart_suffix s : exists pre, s = pre ++ trimStart s.
Proof.
  induction s as [|c s [pre IH]]; [now exists []|]. cbn [trimStart].
  destruct (isWhiteSpace c); [|now exists []].
  exists (c :: pre). cbn [app]. now f_equal.
Qed.

Lemma trim_infix s : exists pre suf, s = pre ++ trim s ++ suf.
Proof.
  unfold trim, trimEnd.
  destruct (trimStart_suffix s) as [pre Hpre].
  destruct (trimStart_suffix (rev (trimStart s))) as [suf Hsuf].
  exists pre, (rev suf). rewrite <- rev_app_distr, <- Hsuf, rev_involutive.
  exact Hpre.
Qed.

Lemma occurs_trim needle s :
  occurs needle s = false -> occurs needle (trim s) = false.
Proof.
  destruct (trim_infix s) as (pre & suf & E). intros H. rewrite E in H.
  now apply occurs_app_r, occurs_app_l in H.
Qed.

(** *** Passes that have nothing to do *)

Lemma span_spec f (s : jsstring) :
  s = fst (span f s) ++ snd (span f s) /\
  Forall (fun c => f c = true) (fst (span f s)).
Proof.
  induction s as [|c s [IH1 IH2]]; [split; [reflexivity|constructor]|].
  cbn [span]. destruct (f c) eqn:Hc; [|split; [reflexivity|constructor]].
  destruct (span f s) as [run after]. cbn [fst snd app] in *.
  split; [now f_equal|now constructor].
Qed.

Lemma isBlank_isWhiteSpace c : isBlank c = true -> isWhiteSpace c = true.
Proof.
  unfold isBlank. intros [H|H]%orb_true_iff; apply Z.eqb_eq in H; now subst.
Qed.

Lemma literal_quiet c0 pat prev s :
  ~ In c0 s -> firesIn (literal (c0 :: pat)) prev s = false.
Proof.
  revert prev; induction s as [|c s IH]; intros prev H; [reflexivity|].
  rewrite firesIn_cons, IH by (intros Hin; apply H; now right).
  unfold literal. cbn [startsWith].
  rewrite (proj2 (Z.eqb_neq c0 c)) by (intros ->; apply H; now left).
  reflexivity.
Qed.

Lemma breakRun_quiet prev s :
  occurs [10; 10; 10] s = false -> firesIn breakRun prev s = false.
Proof.
  revert prev; induction s as [|c s IH]; intros prev H; [reflexivity|].
  rewrite firesIn_cons. destruct (Z.eq_dec c 10) as [->|Hc].
  - rewrite occurs_breaks in H. apply orb_false_iff in H as [H1 H2].
    rewrite (IH _ H2), orb_false_r, breakRun_lead, lead_cons_break.
    apply Nat.leb_gt in H1.
    now rewrite (proj2 (Nat.leb_gt 3 (S (lead s)))) by lia.
  - rewrite occurs_breaks_other in H by assumption.
    rewrite (IH _ H), orb_false_r, breakRun_lead, lead_cons_other
      by assumption.
    reflexivity.
Qed.

Lemma blanks_quiet prev cur s :
  Forall trimmed (splitFrom (literal [10]) None 0 cur s) ->
  firesIn blanksBeforeBreak prev s = false.
Proof.
  revert prev cur; induction s as [|c s IH]; intros prev cur H;
    [reflexivity|].
  rewrite firesIn_cons. apply orb_false_iff. split.
  - unfold blanksBeforeBreak.
    destruct (span_spec isBlank (c :: s)) as [Hs Hrun].
    destruct (span isBlank (c :: s)) as [[|b run] [|d after]];
      try reflexivity.
    destruct (Z.eqb_spec d 10) as [->|Hd]; [exfalso|reflexivity].
    cbn [fst snd] in Hs, Hrun. rewrite Hs in H.
    assert (Hnb : ~ In 10 (b :: run)).
    { intros Hin. rewrite List.Forall_forall in Hrun.
      now specialize (Hrun _ Hin). }
    rewrite splitFrom_app_break, (split_single None cur) in H by assumption.
    apply Forall_app in H as [H _]. apply Forall_cons in H as [H _].
    destruct (exists_last (l := b :: run)) as (init & e & E); [discriminate|].
    rewrite E in H, Hrun. rewrite app_assoc in H. apply trimmed_last in H.
    apply Forall_app in Hrun as [_ Hrun]. apply Forall_cons in Hrun as [He _].
    apply isBlank_isWhiteSpace in He. congruence.
  - destruct (Z.eq_dec c 10) as [->|Hc].
    + rewrite splitFrom_break in H. apply Forall_cons in H as [_ H].
      now apply (IH _ []).
    + rewrite splitFrom_other in H by assumption. now apply (IH _ _ H).
Qed.

Lemma text_chars s c :
  In c s -> c = 10 \/ exists l, In l (split [10] s) /\ In c l.
Proof.
  intros H. apply join_chars. unfold split, splitRe.
  now rewrite join_split.
Qed.

(** *** Clean lines and clean texts *)

Lemma cleanLine_trimmed l : cleanLine l = [l] -> trimmed l.
Proof.
  unfold cleanLine. pose proof (trim_trimmed l) as H.
  destruct (trim l) as [|c t] eqn:E.
  - now intros [= <-].
  - destruct (isNoise (c :: t)); [discriminate|]. now intros [= <-].
Qed.

Lemma cleanLine_pushed line l : In l (cleanLine line) -> cleanLine l = [l].
Proof.
  unfold cleanLine at 1. destruct (trim line) as [|c t] eqn:E.
  - intros [<-|[]]. reflexivity.
  - destruct (isNoise (c :: t)) eqn:Hn; [intros []|].
    intros [<-|[]]. unfold cleanLine.
    rewrite <- E, trim_idempotent, E, Hn. reflexivity.
Qed.

Lemma cleanLine_chars line l c : In l (cleanLine line) -> In c l -> In c line.
Proof.
  unfold cleanLine. destruct (trim line) as [|d t] eqn:E.
  - intros [<-|[]] [].
  - destruct (isNoise (d :: t)); [intros []|].
    intros [<-|[]] H. apply trim_chars. now rewrite E.
Qed.

Lemma cleanedText_lines_trimmed s :
  Forall cleanedLine (split [10] s) -> Forall trimmed (split [10] s).
Proof.
  apply List.Forall_impl. intros l (H & _). now apply cleanLine_trimmed.
Qed.

(** A clean text is a fixed point of every pass but the last: the
    cleanup trims it. *)
Lemma cleanedText_fixed s : cleanedText s -> cleanGlmMarkdown s = trim s.
Proof.
  intros [Hlines Hrun].
  assert (Hcr : ~ In 13 s).
  { intros [?|(l & Hl & Hc)]%text_chars; [lia|].
    rewrite List.Forall_forall in Hlines.
    now destruct (Hlines l Hl) as (_ & H & _). }
  assert (Hfirst : cleanedLines s = s).
  { unfold cleanedLines, replaceAll, replaceRe.
    rewrite (replaceFrom_quiet (literal [13; 10])) by now apply literal_quiet.
    rewrite (replaceFrom_quiet (literal [13])) by now apply literal_quiet.
    rewrite (replaceFrom_quiet blanksBeforeBreak)
      by (apply (blanks_quiet None []); now apply cleanedText_lines_trimmed).
    rewrite (replaceFrom_quiet breakRun) by now apply breakRun_quiet.
    assert (Hkeep : flat_map cleanLine (split [10] s) = split [10] s).
    { induction Hlines as [|l ls (Hl & _) _ IH]; [reflexivity|].
      cbn [flat_map]. now rewrite Hl, IH. }
    fold (splitRe (literal [10]) s). fold (split [10] s). rewrite Hkeep.
    unfold split, splitRe. apply join_split. }
  unfold cleanGlmMarkdown. rewrite Hfirst. unfold replaceRe.
  destruct domainToken_local as (D1 & D2 & D3).
  destruct blankRun_local as (B1 & B2 & B3).
  rewrite (replaceFrom_quiet domainToken).
  2:{ rewrite (firesIn_lines domainToken D1 D2 D3).
      apply not_true_iff_false. intros (l & Hl & Hf)%existsb_exists.
      rewrite List.Forall_forall in Hlines.
      destruct (Hlines l Hl) as (_ & _ & H & _). congruence. }
  rewrite (replaceFrom_quiet blankRun).
  2:{ rewrite (firesIn_lines blankRun B1 B2 B3).
      apply not_true_iff_false. intros (l & Hl & Hf)%existsb_exists.
      rewrite List.Forall_forall in Hlines.
      destruct (Hlines l Hl) as (_ & _ & _ & H). congruence. }
  now rewrite (replaceFrom_quiet breakRun) by now apply breakRun_quiet.
Qed.

(** *** What the first half of the cleanup leaves *)

Lemma normalized_no_return s :
  ~ In 13 (replaceAll [13] [10] s).
Proof.
  unfold replaceAll, replaceRe. rewrite replaceFrom_single.
  intros (c & _ & H)%in_flat_map.
  destruct (Z.eqb_spec 13 c) as [E|Hc]; destruct H as [H|[]]; lia.
Qed.

Lemma cleanedLines_pushed x l :
  In l (flat_map cleanLine
          (split [10]
             (replaceRe breakRun [10; 10]
                (replaceRe blanksBeforeBreak [10]
                   (replaceAll [13] [10] (replaceAll [13; 10] [10] x)))))) ->
  cleanLine l = [l] /\ ~ In 13 l /\ ~ In 10 l.
Proof.
  intros (line & Hline & Hl)%in_flat_map. split; [|split].
  - now apply (cleanLine_pushed line).
  - intros H%(cleanLine_chars line l 13 Hl)%(split_chars _ line 13 Hline).
    apply replaceFrom_chars in H as [H|[H|[H|[]]]]; try lia.
    apply replaceFrom_chars in H as [H|[H|[]]]; try lia.
    now apply normalized_no_return in H.
  - intros H%(cleanLine_chars line l 10 Hl).
    pose proof (split_no_break
      (replaceRe breakRun [10; 10]
         (replaceRe blanksBeforeBreak [10]
            (replaceAll [13] [10] (replaceAll [13; 10] [10] x))))) as Hno.
    rewrite List.Forall_forall in Hno. now apply (Hno line).
Qed.

Lemma settled_lines s l :
  settled s = true -> In l (split [10] s) ->
  firesIn domainToken None l = false /\ firesIn blankRun None l = false.
Proof.
  unfold settled. intros [Hd Hb]%andb_true_iff Hl.
  apply negb_true_iff in Hd, Hb.
  destruct domainToken_local as (D1 & D2 & D3).
  destruct blankRun_local as (B1 & B2 & B3).
  rewrite (firesIn_lines domainToken D1 D2 D3) in Hd.
  rewrite (firesIn_lines blankRun B1 B2 B3) in Hb.
  split; apply not_true_iff_false; intros Hf.
  - assert (existsb (firesIn domainToken None) (split [10] s) = true)
      by (apply existsb_exists; eauto).
    congruence.
  - assert (existsb (firesIn blankRun None) (split [10] s) = true)
      by (apply existsb_exists; eauto).
    congruence.
Qed.

Lemma cleanedLines_lines x :
  settled (cleanedLines x) = true ->
  Forall cleanedLine (split [10] (cleanedLines x)).
Proof.
  intros Hs. apply List.Forall_forall. intros l Hl.
  destruct (settled_lines _ l Hs Hl) as [Hd Hb].
  split; [|split; [|split]]; try assumption; revert Hl;
    unfold cleanedLines;
    pose proof (cleanedLines_pushed x) as Hp;
    destruct (flat_map cleanLine _) as [|l0 ls] eqn:E.
  1,3: intros [<-|[]]; [reflexivity || (intros [])].
  all: rewrite split_join;
    [|discriminate|apply List.Forall_forall; intros l' Hl'; now apply Hp].
  all: intros Hl; now apply Hp.
Qed.

Lemma settled_second_half x :
  settled (cleanedLines x) = true ->
  cleanGlmMarkdown x = trim (replaceRe breakRun [10; 10] (cleanedLines x)).
Proof.
  unfold settled. intros [Hd Hb]%andb_true_iff.
  apply negb_true_iff in Hd, Hb. unfold cleanGlmMarkdown.
  unfold replaceRe at 3. rewrite (replaceFrom_quiet domainToken) by exact Hd.
  unfold replaceRe at 2. now rewrite (replaceFrom_quiet blankRun) by exact Hb.
Qed.

Lemma collapse_trim_cleaned y :
  Forall cleanedLine (split [10] y) ->
  cleanedText (trim (replaceRe breakRun [10; 10] y)).
Proof.
  intros H. split.
  - apply (collapse_Forall cleanedLine) in H.
    pose proof (trim_lines _ (cleanedText_lines_trimmed _ H)) as Hincl.
    rewrite List.Forall_forall in *. auto.
  - apply occurs_trim, collapse_no_run.
Qed.

(** *** The final line feed of the file writer *)

Lemma lead_snoc_break s c :
  c <> 10 -> lead (s ++ [c; 10]) = lead (s ++ [c]).
Proof.
  intros Hc. induction s as [|d s IH].
  - cbn [app]. now rewrite !lead_cons_other.
  - cbn [app]. destruct (Z.eq_dec d 10) as [->|Hd].
    + now rewrite !lead_cons_break, IH.
    + now rewrite !lead_cons_other.
Qed.

Lemma occurs_snoc_break s c :
  c <> 10 ->
  occurs [10; 10; 10] (s ++ [c; 10]) = occurs [10; 10; 10] (s ++ [c]).
Proof.
  intros Hc. induction s as [|d s IH].
  - cbn [app]. rewrite (occurs_breaks_other c [10]), (occurs_breaks_other c [])
      by assumption.
    reflexivity.
  - cbn [app]. destruct (Z.eq_dec d 10) as [->|Hd].
    + now rewrite !occurs_breaks, lead_snoc_break, IH.
    + now rewrite !occurs_breaks_other.
Qed.

Lemma cleanedText_with_break z :
  cleanedText z -> trimmed z -> z <> [] ->
  cleanedText (z ++ [10]) /\ trim (z ++ [10]) = z.
Proof.
  intros [Hlines Hrun] Ht Hne.
  destruct (exists_last Hne) as (init & c & ->).
  pose proof (trimmed_last _ _ Ht) as Hc.
  assert (Hc10 : c <> 10) by (intros ->; discriminate Hc).
  split; [split|].
  - rewrite split_snoc_break. apply Forall_app. split; [assumption|].
    repeat constructor; intros [].
  - rewrite <- app_assoc. cbn [app]. now rewrite occurs_snoc_break.
  - unfold trim. rewrite trimStart_fixed.
    + rewrite trimEnd_snoc. cbn [isWhiteSpace].
      change (isWhiteSpace 10) with true. cbv iota.
      apply trimEnd_fixed. right. now rewrite last_last.
    + destruct init as [|d init]; cbn [app] in *; now destruct Ht.
Qed.

(** C2 (amended): the Markdown cleanup is idempotent on every text whose
    filtered lines hold no domain token to erase and no run of two or
    more blanks to collapse; on such a text the first application leaves
    trimmed, kept lines and no run of three line feeds, and the second
    application has nothing to do.  The same holds with the final line
    feed that the file writer appends to a non-empty result. *)
Theorem C2_cleanup_idempotent_when_settled (x : jsstring) :
  settled (cleanedLines x) = true ->
  cleanGlmMarkdown (cleanGlmMarkdown x) = cleanGlmMarkdown x /\
  cleanMarkdown (cleanMarkdown x) = cleanMarkdown x.
Proof.
  intros Hs.
  pose proof (collapse_trim_cleaned _ (cleanedLines_lines x Hs)) as Hz.
  assert (Ht : trimmed (cleanGlmMarkdown x))
    by (rewrite (settled_second_half x Hs); apply trim_trimmed).
  rewrite <- (settled_second_half x Hs) in Hz.
  assert (Hfix : cleanGlmMarkdown (cleanGlmMarkdown x) = cleanGlmMarkdown x)
    by (rewrite (cleanedText_fixed _ Hz); now apply trimmed_fixed).
  split; [exact Hfix|].
  unfold cleanMarkdown at 2 3.
  destruct (cleanGlmMarkdown x) as [|c z] eqn:E; [reflexivity|].
  destruct (cleanedText_with_break (c :: z) Hz Ht) as [Hb Htrim];
    [discriminate|].
  unfold cleanMarkdown. rewrite (cleanedText_fixed _ Hb), Htrim.
  reflexivity.
Qed.

Lemma C2_cleanup_idempotent_when_settled_witness :
  settled (cleanedLines (lit "Intro text  " ++ [13; 10; 10; 10; 10]
                         ++ lit "thought process" ++ [10]
                         ++ lit " a.com " ++ [10] ++ lit "12" ++ [10] ++ lit "End" ++ [10]))
    = true /\
  cleanGlmMarkdown
    (cleanGlmMarkdown (lit "Intro text  " ++ [13; 10; 10; 10; 10]
                       ++ lit "thought process" ++ [10]
                       ++ lit " a.com " ++ [10] ++ lit "12" ++ [10] ++ lit "End" ++ [10]))
  = cleanGlmMarkdown (lit "Intro text  " ++ [13; 10; 10; 10; 10]
                      ++ lit "thought process" ++ [10]
                      ++ lit " a.com " ++ [10] ++ lit "12" ++ [10] ++ lit "End" ++ [10]).
Proof.
  split; [vm_compute; reflexivity|].
  apply (C2_cleanup_idempotent_when_settled
           (lit "Intro text  " ++ [13; 10; 10; 10; 10]
            ++ lit "thought process" ++ [10]
            ++ lit " a.com " ++ [10] ++ lit "12" ++ [10] ++ lit "End" ++ [10])).
  vm_compute; reflexivity.
Defined.

(** C2 (as stated): a second application changes the result.  The first
    application erases the domain token of the line and leaves a short
    number, which the second application drops as a line of its own. *)
Lemma C2_second_cleanup_changes_result :
  cleanGlmMarkdown (lit "1 a.com") = lit "1" /\
  cleanGlmMarkdown (cleanGlmMarkdown (lit "1 a.com")) = [] /\
  cleanMarkdown (lit "1 a.com") = lit "1" ++ [10] /\
  cleanMarkdown (cleanMarkdown (lit "1 a.com")) = [].
Proof. vm_compute. repeat split. Qed.

(** ** Base64 *)

(** Induction over a byte sequence, three bytes at a time. *)
Lemma triples_ind (P : list Z -> Prop) :
  P [] -> (forall a, P [a]) -> (forall a b, P [a; b]) ->
  (forall a b c rest, P rest -> P (a :: b :: c :: rest)) ->
  forall bytes, P bytes.
Proof.
  intros H0 H1 H2 H3 bytes.
  assert (H : forall n l, (length l <= n)%nat -> P l).
  { induction n as [|n IH]; intros l Hl.
    - destruct l; [exact H0|cbn in Hl; lia].
    - destruct l as [|a [|b [|c rest]]]; auto.
      apply H3, IH. cbn in Hl. lia. }
  apply (H (length bytes)). lia.
Qed.

Lemma sextets_range bytes :
  Forall isByte bytes -> Forall isSextet (sextets bytes).
Proof.
  unfold isByte, isSextet.
  induction bytes as [| a | a b | a b c rest IH] using triples_ind; intros H.
  - constructor.
  - apply Forall_cons in H as [Ha _]. cbn [sextets].
    repeat constructor;
      try (apply Z.mod_pos_bound; lia);
      try (apply Z.div_pos; lia);
      try (apply Z.div_lt_upper_bound; lia).
  - apply Forall_cons in H as [Ha H]. apply Forall_cons in H as [Hb _].
    cbn [sextets].
    repeat constructor;
      try (apply Z.mod_pos_bound; lia);
      try (apply Z.div_pos; lia);
      try (apply Z.div_lt_upper_bound; lia).
  - apply Forall_cons in H as [Ha H]. apply Forall_cons in H as [Hb H].
    apply Forall_cons in H as [Hc H]. cbn [sextets].
    repeat (constructor; [split|]);
      try (apply Z.mod_pos_bound; lia);
      try (apply Z.div_pos; lia);
      try (apply Z.div_lt_upper_bound; lia).
    now apply IH.
Qed.

Lemma base64Char_value v :
  isSextet v ->
  base64Value (base64Char v) = Some v /\ base64Char v <> 61 /\
  isWhiteSpace (base64Char v) = false.
Proof.
  unfold isSextet. intros Hv.
  assert (Hcases : In v (map Z.of_nat (seq 0 64))).
  { replace v with (Z.of_nat (Z.to_nat v)) by lia.
    apply in_map, in_seq. lia. }
  cbn in Hcases.
  repeat (destruct Hcases as [<-|Hcases];
          [split; [reflexivity|split; [discriminate|reflexivity]]|]).
  contradiction.
Qed.

Lemma startsWith_app_long (s t p : jsstring) :
  (length p <= length s)%nat -> startsWith (s ++ t) p = startsWith s p.
Proof.
  revert s; induction p as [|a p IH]; intros s H; [reflexivity|].
  destruct s as [|b s]; [cbn in H; lia|].
  cbn [app startsWith]. rewrite IH by (cbn in H; lia). reflexivity.
Qed.

Lemma endsWith_app_long (p s e : jsstring) :
  (length e <= length s)%nat -> endsWith (p ++ s) e = endsWith s e.
Proof.
  intros H. unfold endsWith. rewrite rev_app_distr.
  apply startsWith_app_long. now rewrite !length_rev.
Qed.

Lemma length_btoa bytes : exists k, length (btoa bytes) = (4 * k)%nat.
Proof.
  induction bytes as [| a | a b | a b c rest [k IH]] using triples_ind.
  - now exists 0%nat.
  - now exists 1%nat.
  - now exists 1%nat.
  - exists (S k). cbn [btoa length]. rewrite IH. lia.
Qed.

Lemma stripPadding_group x1 x2 x3 x4 (s : jsstring) :
  (exists k, length s = (4 * S k)%nat) ->
  stripPadding (x1 :: x2 :: x3 :: x4 :: s) =
  x1 :: x2 :: x3 :: x4 :: stripPadding s.
Proof.
  intros [k Hk]. unfold stripPadding.
  assert (H4 : (length (x1 :: x2 :: x3 :: x4 :: s) mod 4 = 0)%nat).
  { cbn [length]. rewrite Hk.
    replace (S (S (S (S (4 * S k)))))%nat with ((S (S k)) * 4)%nat by lia.
    apply Nat.Div0.mod_mul. }
  assert (H4' : (length s mod 4 = 0)%nat).
  { rewrite Hk, Nat.mul_comm. apply Nat.Div0.mod_mul. }
  rewrite H4, H4'. cbn [Nat.eqb].
  change (x1 :: x2 :: x3 :: x4 :: s) with ([x1; x2; x3; x4] ++ s).
  rewrite !endsWith_app_long by (cbn [length]; lia).
  rewrite !length_app. cbn [length].
  replace (4 + length s - 2)%nat with (4 + (length s - 2))%nat by lia.
  replace (4 + length s - 1)%nat with (4 + (length s - 1))%nat by lia.
  destruct (endsWith s [61; 61]); [|destruct (endsWith s [61])];
    try reflexivity; now rewrite take_app_add'.
Qed.

Lemma stripPadding_btoa bytes :
  Forall isByte bytes ->
  stripPadding (btoa bytes) = map base64Char (sextets bytes).
Proof.
  induction bytes as [| a | a b | a b c rest IH] using triples_ind; intros H.
  - reflexivity.
  - pose proof (sextets_range _ H) as Hs. cbn [sextets] in Hs.
    apply Forall_cons in Hs as [_ Hs]. apply Forall_cons in Hs as [H2 _].
    destruct (base64Char_value _ H2) as (_ & Hne & _). reflexivity.
  - pose proof (sextets_range _ H) as Hs. cbn [sextets] in Hs.
    apply Forall_cons in Hs as [_ Hs]. apply Forall_cons in Hs as [_ Hs].
    apply Forall_cons in Hs as [H3 _].
    destruct (base64Char_value _ H3) as (_ & Hne & _).
    unfold stripPadding. cbn [btoa length Nat.modulo Nat.eqb].
    unfold endsWith. cbn [rev app startsWith].
    change (61 =? 61) with true.
    rewrite (proj2 (Z.eqb_neq 61 _)) by (intros E; apply Hne; now symmetry).
    reflexivity.
  - pose proof (sextets_range _ H) as Hs. cbn [sextets] in Hs.
    apply Forall_cons in Hs as [_ Hs]. apply Forall_cons in Hs as [_ Hs].
    apply Forall_cons in Hs as [H3 Hs]. apply Forall_cons in Hs as [H4 _].
    destruct (base64Char_value _ H3) as (_ & Hne3 & _).
    destruct (base64Char_value _ H4) as (_ & Hne4 & _).
    do 3 apply Forall_cons in H as [_ H].
    cbn [btoa sextets map]. destruct (length_btoa rest) as [[|k] Hk].
    + destruct (btoa rest) as [|? ?] eqn:E; [|discriminate Hk].
      rewrite <- (IH H). cbn [stripPadding].
      unfold stripPadding. cbn [length Nat.modulo Nat.eqb].
      unfold endsWith. cbn [rev app startsWith].
      rewrite (proj2 (Z.eqb_neq 61 _)) by (intros E'; apply Hne4; now symmetry).
      reflexivity.
    + rewrite stripPadding_group by eauto. now rewrite IH.
Qed.

Lemma base64Values_sextets vs :
  Forall isSextet vs -> base64Values (map base64Char vs) = Some vs.
Proof.
  induction 1 as [|v vs Hv _ IH]; [reflexivity|].
  cbn [map base64Values].
  destruct (base64Char_value v Hv) as (-> & _). now rewrite IH.
Qed.

Lemma length_sextets bytes :
  (length (sextets bytes) mod 4 <> 1)%nat /\
  (length (sextets bytes) <= 4 * length bytes)%nat.
Proof.
  induction bytes as [| a | a b | a b c rest [IH1 IH2]] using triples_ind;
    try (cbn; split; [discriminate|lia]).
  cbn [sextets length]. split; [|lia].
  replace (S (S (S (S (length (sextets rest))))))
    with (length (sextets rest) + 1 * 4)%nat by lia.
  now rewrite Nat.Div0.mod_add.
Qed.

Lemma base64Groups_sextets fuel bytes :
  Forall isByte bytes -> (length bytes <= 3 * fuel)%nat ->
  base64Groups fuel (sextets bytes) = bytes.
Proof.
  unfold isByte. revert fuel.
  induction bytes as [| a | a b | a b c rest IH] using triples_ind;
    intros fuel H Hfuel.
  - now destruct fuel.
  - apply Forall_cons in H as [Ha _].
    assert (E : base64Groups fuel (sextets [a]) =
                [((a * 16 / 64) * 64 + (a * 16) mod 64) / 16])
      by now destruct fuel.
    rewrite E. f_equal.
    rewrite (Z.mul_comm (a * 16 / 64)), <- Z.div_mod by lia.
    apply Z.div_mul; lia.
  - apply Forall_cons in H as [Ha H]. apply Forall_cons in H as [Hb _].
    set (n := a * 1024 + b * 4).
    assert (E : base64Groups fuel (sextets [a; b]) =
                [(n / 4096 * 4096 + (n / 64) mod 64 * 64 + n mod 64) / 1024;
                 ((n / 4096 * 4096 + (n / 64) mod 64 * 64 + n mod 64) / 4)
                   mod 256])
      by now destruct fuel.
    rewrite E.
    assert (Hn : n / 4096 * 4096 + (n / 64) mod 64 * 64 + n mod 64 = n).
    { pose proof (Z.div_mod n 64 ltac:(lia)).
      pose proof (Z.div_mod (n / 64) 64 ltac:(lia)).
      replace (n / 64 / 64) with (n / 4096) in *
        by (rewrite Z.div_div by lia; reflexivity).
      lia. }
    rewrite Hn. subst n. f_equal; [|f_equal].
    + symmetry. apply Z.div_unique with (r := b * 4); lia.
    + replace (a * 1024 + b * 4) with ((a * 256 + b) * 4) by lia.
      rewrite Z.div_mul by lia.
      rewrite Z.add_comm, Z.mod_add by lia. apply Z.mod_small; lia.
  - apply Forall_cons in H as [Ha H]. apply Forall_cons in H as [Hb H].
    apply Forall_cons in H as [Hc H].
    destruct fuel as [|fuel]; [cbn in Hfuel; lia|].
    cbn [sextets base64Groups].
    rewrite IH by (try assumption; cbn [length] in Hfuel; lia).
    set (n := a * 65536 + b * 256 + c).
    assert (Hn : n / 262144 * 262144 + (n / 4096) mod 64 * 4096 +
                 (n / 64) mod 64 * 64 + n mod 64 = n).
    { pose proof (Z.div_mod n 64 ltac:(lia)).
      pose proof (Z.div_mod (n / 64) 64 ltac:(lia)).
      pose proof (Z.div_mod (n / 4096) 64 ltac:(lia)).
      replace (n / 64 / 64) with (n / 4096) in *
        by (rewrite Z.div_div by lia; reflexivity).
      replace (n / 4096 / 64) with (n / 262144) in *
        by (rewrite Z.div_div by lia; reflexivity).
      lia. }
    rewrite Hn. subst n. f_equal; [|f_equal; [|f_equal]].
    + symmetry. apply Z.div_unique with (r := b * 256 + c); lia.
    + replace (a * 65536 + b * 256 + c) with (c + (a * 256 + b) * 256) by lia.
      rewrite Z.div_add, Z.div_small by lia.
      rewrite Z.add_0_l, Z.add_comm, Z.mod_add by lia.
      apply Z.mod_small; lia.
    + replace (a * 65536 + b * 256 + c) with (c + (a * 256 + b) * 256) by lia.
      rewrite Z.mod_add by lia. apply Z.mod_small; lia.
Qed.

Lemma btoa_no_white_space bytes :
  Forall isByte bytes ->
  List.filter (fun c => negb (isWhiteSpace c)) (btoa bytes) = btoa bytes.
Proof.
  intros H. apply forallb_filter_id, forallb_forall. intros c Hc.
  assert (Hall : forall bs, Forall isByte bs ->
            Forall (fun c => isWhiteSpace c = false) (btoa bs)).
  { clear. induction bs as [| a | a b | a b c rest IH] using triples_ind;
      intros H; [constructor| | |].
    - pose proof (sextets_range _ H) as Hs. cbn [sextets] in Hs.
      apply Forall_cons in Hs as [H1 Hs]. apply Forall_cons in Hs as [H2 _].
      cbn [btoa]. repeat constructor; now apply base64Char_value.
    - pose proof (sextets_range _ H) as Hs. cbn [sextets] in Hs.
      apply Forall_cons in Hs as [H1 Hs]. apply Forall_cons in Hs as [H2 Hs].
      apply Forall_cons in Hs as [H3 _].
      cbn [btoa]. repeat constructor; now apply base64Char_value.
    - pose proof (sextets_range _ H) as Hs. cbn [sextets] in Hs.
      apply Forall_cons in Hs as [H1 Hs]. apply Forall_cons in Hs as [H2 Hs].
      apply Forall_cons in Hs as [H3 Hs]. apply Forall_cons in Hs as [H4 _].
      do 3 apply Forall_cons in H as [_ H].
      cbn [btoa]. repeat (constructor; [now apply base64Char_value|]).
      now apply IH. }
  specialize (Hall _ H). rewrite List.Forall_forall in Hall.
  now rewrite (Hall c Hc).
Qed.

(** X1: base64 round trip.  Decoding the base64 text of a byte sequence
    gives the bytes back, and so does decoding any text that is this
    encoding with white space (such as line breaks) put anywhere in
    it. *)
Theorem X1_base64_round_trip (data : list Z) :
  Forall isByte data ->
  base64ToBytes (bytesToBase64 data) = Some data /\
  forall text,
    List.filter (fun c => negb (isWhiteSpace c)) text = bytesToBase64 data ->
    base64ToBytes text = Some data.
Proof.
  intros H.
  assert (Hatob : atob (btoa data) = Some data).
  { unfold atob. rewrite stripPadding_btoa by assumption.
    rewrite length_map.
    destruct (length_sextets data) as [Hmod Hlen].
    rewrite (proj2 (Nat.eqb_neq _ _) Hmod).
    rewrite base64Values_sextets by now apply sextets_range.
    rewrite base64Groups_sextets; [reflexivity|assumption|].
    assert (length data <= length (sextets data))%nat; [|lia].
    clear. induction data as [| a | a b | a b c rest IH] using triples_ind;
      cbn [sextets length]; lia. }
  unfold base64ToBytes, bytesToBase64. split.
  - now rewrite btoa_no_white_space.
  - intros text ->. exact Hatob.
Qed.

Lemma X1_base64_round_trip_witness :
  base64ToBytes (lit "SGVs" ++ [13; 10] ++ lit "bG8h/w==" ++ [10]) =
  Some [72; 101; 108; 108; 111; 33; 255].
Proof.
  apply (X1_base64_round_trip [72; 101; 108; 108; 111; 33; 255]).
  - repeat constructor; unfold isByte; lia.
  - vm_compute. reflexivity.
Defined.

(** ** Decoded bodies *)

Lemma hexVal_range c : isHexDigit c = true -> 0 <= hexVal c < 16.
Proof.
  unfold isHexDigit, hexVal. intros H.
  repeat (apply orb_true_iff in H as [H|H]);
    apply andb_true_iff in H as [H1 H2];
    apply Z.leb_le in H1; apply Z.leb_le in H2;
    repeat match goal with
           | |- context [?a <=? ?b] => destruct (Z.leb_spec a b)
           end; lia.
Qed.

Lemma low_byte c : isByte (Z.land c 255).
Proof.
  unfold isByte. change 255 with (Z.ones 8). rewrite Z.land_ones by lia.
  apply Z.mod_pos_bound. lia.
Qed.

Lemma qpDecodeFrom_bytes skip src : Forall isByte (qpDecodeFrom skip src).
Proof.
  revert skip; induction src as [|ch rest IH]; intros skip; [constructor|].
  cbn [qpDecodeFrom]. destruct skip as [|k]; [|apply IH].
  destruct ((ch =? 61) && (2 <=? length rest)%nat && isHexPair (take 2 rest))
    eqn:E.
  - constructor; [|apply IH].
    apply andb_true_iff in E as [_ E]. unfold isHexPair in E.
    destruct (take 2 rest) as [|h1 [|h2 [|? ?]]]; try discriminate.
    apply andb_true_iff in E as [H1 H2]. cbn [parseHexPair].
    apply hexVal_range in H1, H2. unfold isByte. lia.
  - constructor; [apply low_byte|apply IH].
Qed.

Lemma latin1ToBytes_bytes text : Forall isByte (latin1ToBytes text).
Proof. apply Forall_map, Forall_forall. intros; apply low_byte. Qed.

Lemma base64Value_range c v : base64Value c = Some v -> isSextet v.
Proof.
  unfold base64Value, isSextet.
  repeat match goal with
         | |- context [if ?b then _ else _] => destruct b eqn:?
         end; intros [= <-];
    repeat match goal with
           | H : (_ && _) = true |- _ => apply andb_true_iff in H as [? ?]
           | H : (_ <=? _) = true |- _ => apply Z.leb_le in H
           end; lia.
Qed.

Lemma base64Values_range s vs :
  base64Values s = Some vs -> Forall isSextet vs.
Proof.
  revert vs; induction s as [|c s IH]; intros vs; cbn [base64Values].
  - intros [= <-]. constructor.
  - destruct (base64Value c) as [v|] eqn:Hv; [|discriminate].
    destruct (base64Values s) as [vs'|]; [|discriminate].
    intros [= <-]. constructor; [now apply (base64Value_range c)|now apply IH].
Qed.

Lemma base64Groups_bytes fuel vs :
  Forall isSextet vs -> Forall isByte (base64Groups fuel vs).
Proof.
  unfold isSextet, isByte. revert vs.
  induction fuel as [|fuel IH]; intros vs H;
    destruct vs as [|a [|b [|c [|d rest]]]]; cbn [base64Groups];
    repeat match goal with
           | H : Forall _ (_ :: _) |- _ => apply Forall_cons in H as [? H]
           end;
    repeat (constructor;
            [first [ split; [apply Z.div_pos; lia
                            |apply Z.div_lt_upper_bound; lia]
                   | apply Z.mod_pos_bound; lia ]|]);
    try constructor.
  now apply IH.
Qed.

Lemma base64ToBytes_bytes text data :
  base64ToBytes text = Some data -> Forall isByte data.
Proof.
  unfold base64ToBytes, atob.
  destruct (_ =? 1)%nat; [discriminate|].
  destruct (base64Values _) as [vs|] eqn:E; [|discriminate].
  intros [= <-]. apply base64Groups_bytes. now apply base64Values_range in E.
Qed.

Lemma lowerUnit_lower c :
  Forall (fun d => ~ 65 <= d <= 90) (lowerUnit c) /\
  (c <> 59 -> ~ In 59 (lowerUnit c)) /\
  (c <> 58 -> ~ In 58 (lowerUnit c)).
Proof.
  unfold lowerUnit.
  repeat match goal with
         | |- context [if ?b then _ else _] => destruct b eqn:?
         end;
    repeat match goal with
           | H : (_ && _) = true |- _ => apply andb_true_iff in H as [? ?]
           | H : (_ || _) = true |- _ => apply orb_true_iff in H as [?|?]
           | H : (_ && _) = false |- _ => apply andb_false_iff in H
           | H : (_ <=? _) = true |- _ => apply Z.leb_le in H
           | H : (_ =? _) = true |- _ => apply Z.eqb_eq in H
           end;
    (split; [repeat constructor; try lia|split; intros ? Hin; cbn in Hin; lia]).
Qed.

Lemma toLowerCase_lower s : Forall (fun d => ~ 65 <= d <= 90) (toLowerCase s).
Proof.
  unfold toLowerCase. induction s as [|c s IH]; [constructor|].
  cbn [flat_map]. apply Forall_app. split; [apply lowerUnit_lower|exact IH].
Qed.

Lemma toLowerCase_keeps_out (x : Z) s :
  x = 59 \/ x = 58 -> ~ In x s -> ~ In x (toLowerCase s).
Proof.
  intros Hx Hs. unfold toLowerCase. intros (c & Hc & Hin)%in_flat_map.
  assert (c <> x) by (intros ->; contradiction).
  destruct (lowerUnit_lower c) as (_ & H59 & H58).
  destruct Hx as [->| ->]; [now apply H59|now apply H58].
Qed.

Lemma splitFrom_no_separator c0 prev cur s :
  ~ In c0 cur ->
  Forall (fun l => ~ In c0 l) (splitFrom (literal [c0]) prev 0 cur s).
Proof.
  revert prev cur; induction s as [|c s IH]; intros prev cur Hcur.
  - now repeat constructor.
  - cbn [splitFrom]. unfold literal at 1. cbn [startsWith length].
    destruct (Z.eqb_spec c0 c) as [->|Hc]; cbn [andb].
    + constructor; [assumption|]. apply IH. intros [].
    + apply IH. rewrite in_app_iff. intros [H|[H|[]]]; [contradiction|].
      now apply Hc.
Qed.

Lemma first_piece_no_separator c0 s : ~ In c0 (hd [] (split [c0] s)).
Proof.
  pose proof (splitFrom_no_separator c0 None [] s) as H.
  unfold split, splitRe.
  destruct (splitFrom (literal [c0]) None 0 [] s) as [|l ls]; [intros []|].
  apply Forall_cons in H as [H _]; [exact H|intros []].
Qed.

Lemma parseSection_part sec part :
  parseSection sec = Returned (Some part) ->
  Forall isByte (bytes part) /\ ~ In 59 (contentType part) /\
  Forall (fun d => ~ 65 <= d <= 90) (contentType part).
Proof.
  unfold parseSection.
  destruct (sectionSplit sec) as [[pHeaders pBody]|]; [|discriminate].
  destruct (if includes (transferEncoding pHeaders) (lit "base64")
            then base64ToBytes pBody
            else if includes (transferEncoding pHeaders)
                      (lit "quoted-printable")
                 then Some (qpDecodeToBytes pBody)
                 else Some (latin1ToBytes pBody)) as [pBytes|] eqn:E;
    [|discriminate].
  intros [= <-]. cbn [bytes contentType]. split; [|split].
  - destruct (includes (transferEncoding pHeaders) (lit "base64")).
    + now apply base64ToBytes_bytes in E.
    + destruct (includes (transferEncoding pHeaders) (lit "quoted-printable"));
        injection E as <-;
        [apply qpDecodeFrom_bytes|apply latin1ToBytes_bytes].
  - apply toLowerCase_keeps_out; [now left|].
    intros H%trim_chars. now apply first_piece_no_separator in H.
  - apply toLowerCase_lower.
Qed.

Lemma parseSections_parts (P : Part -> Prop) sections :
  (forall sec part, parseSection sec = Returned (Some part) -> P part) ->
  forall parts parts',
    Forall P parts -> parseSections sections parts = Returned parts' ->
    Forall P parts'.
Proof.
  intros HP. induction sections as [|sec rest IH]; intros parts parts' H.
  - now intros [= <-].
  - cbn [parseSections].
    destruct (parseSection sec) as [[part|]|e] eqn:E; [| |discriminate].
    + apply IH, Forall_app. split; [assumption|].
      constructor; [now apply (HP sec)|constructor].
    + now apply IH.
Qed.

(** X2: the parts that the multipart reader returns.  The body of every
    part is a sequence of bytes, whatever its transfer encoding, and its
    content type is stored without parameters and in lower case, so that
    comparing it with a constant such as text/html does not depend on
    how the file spells it. *)
Theorem X2_parts_well_formed (input : list Z) (parts : list Part) :
  parseMhtmlParts input = Returned parts ->
  Forall (fun part =>
            Forall isByte (bytes part) /\ ~ In 59 (contentType part) /\
            Forall (fun d => ~ 65 <= d <= 90) (contentType part)) parts.
Proof.
  unfold parseMhtmlParts. cbv zeta.
  destruct (_ <? 0); [discriminate|].
  destruct (negb _); [discriminate|].
  apply parseSections_parts; [apply parseSection_part|constructor].
Qed.

Lemma X2_parts_well_formed_witness :
  exists parts,
    parseMhtmlParts sampleFile = Returned parts /\
    map contentType parts = [lit "text/html"; lit "image/png"] /\
    Forall (fun part =>
              Forall isByte (bytes part) /\ ~ In 59 (contentType part) /\
              Forall (fun d => ~ 65 <= d <= 90) (contentType part)) parts.
Proof.
  destruct (parseMhtmlParts sampleFile) as [parts|e] eqn:E;
    [|vm_compute in E; discriminate E].
  exists parts. split; [reflexivity|]. split.
  - vm_compute in E. injection E as <-. reflexivity.
  - apply (X2_parts_well_formed sampleFile parts E).
Defined.

(** X3: a body without an equals sign.  On a text in which [=] does not
    occur the quoted-printable decoder has nothing to decode: it gives
    the bytes that the identity encodings (7bit, 8bit, binary) give. *)
Theorem X3_qp_without_escape (text : jsstring) :
  ~ In 61 text -> qpDecodeToBytes text = latin1ToBytes text.
Proof.
  intros H. unfold qpDecodeToBytes, replaceRe.
  rewrite replaceFrom_quiet.
  - unfold latin1ToBytes. induction text as [|ch rest IH]; [reflexivity|].
    cbn [qpDecodeFrom map].
    rewrite (proj2 (Z.eqb_neq ch 61)) by (intros ->; apply H; now left).
    cbn [andb]. f_equal. apply IH. intros Hin. apply H. now right.
  - generalize (@None Z) as prev.
    induction text as [|ch rest IH]; intros prev; [reflexivity|].
    rewrite firesIn_cons, IH by (intros Hin; apply H; now right).
    unfold softBreak. cbn [startsWith].
    rewrite (proj2 (Z.eqb_neq 61 ch)) by (intros <-; apply H; now left).
    reflexivity.
Qed.

Lemma X3_qp_without_escape_witness :
  qpDecodeToBytes (lit "plain text" ++ [13; 10; 233]) =
  latin1ToBytes (lit "plain text" ++ [13; 10; 233]).
Proof.
  apply (X3_qp_without_escape (lit "plain text" ++ [13; 10; 233])).
  vm_compute. intros H. repeat (destruct H as [H|H]; [discriminate H|]).
  exact H.
Defined.

Lemma single_byte_survives b :
  isByte b ->
  Z.land (decodeSingleByte b) 255 = b <->
  b < 128 \/ 160 <= b \/ In b [129; 141; 143; 144; 157].
Proof.
  unfold isByte. intros Hb.
  destruct (Z.ltb_spec b 128) as [Hlow|Hlow];
    [|destruct (Z.leb_spec 160 b) as [Hhigh|Hhigh]].
  - unfold decodeSingleByte.
    rewrite (proj2 (Z.leb_gt 128 b)) by lia. cbn [andb].
    change 255 with (Z.ones 8). rewrite Z.land_ones, Z.mod_small by lia.
    tauto.
  - unfold decodeSingleByte.
    rewrite (proj2 (Z.ltb_ge b 160)), andb_false_r by lia.
    change 255 with (Z.ones 8). rewrite Z.land_ones, Z.mod_small by lia.
    tauto.
  - assert (Hcases : In b (map Z.of_nat (seq 128 32))).
    { replace b with (Z.of_nat (Z.to_nat b)) by lia.
      apply in_map, in_seq. lia. }
    cbn in Hcases.
    repeat (destruct Hcases as [<-|Hcases];
            [vm_compute; split;
             [try discriminate; intros _; right; right; tauto
             |try reflexivity;
              intros [H|[H|H]]; try discriminate H;
              repeat (destruct H as [H|H]; [discriminate H|]);
              contradiction]|]).
    contradiction.
Qed.

(** X4: which bodies survive the reading.  The file is read with the
    decoder that the label iso-8859-1 names, which is windows-1252, and
    a body without transfer encoding is turned back into bytes by
    keeping the low eight bits.  This gives the bytes of the file back
    exactly when none of them is one of the 27 bytes between 0x80 and
    0x9F that windows-1252 maps to a code point above 0xFF. *)
Theorem X4_identity_body_survives (data : list Z) :
  Forall isByte data ->
  latin1ToBytes (decodeLatin1 data) = data <->
  Forall (fun b => b < 128 \/ 160 <= b \/ In b [129; 141; 143; 144; 157])
    data.
Proof.
  unfold latin1ToBytes, decodeLatin1. rewrite map_map.
  induction 1 as [|b data Hb _ IH]; [split; [constructor|reflexivity]|].
  cbn [map]. rewrite Forall_cons, <- IH, <- (single_byte_survives b Hb).
  split; [intros [= H1 H2]; now split|intros [-> ->]; reflexivity].
Qed.

Lemma X4_identity_body_survives_witness :
  (latin1ToBytes (decodeLatin1 [72; 105; 233; 129; 255]) =
   [72; 105; 233; 129; 255] <->
   Forall (fun b => b < 128 \/ 160 <= b \/ In b [129; 141; 143; 144; 157])
     [72; 105; 233; 129; 255]) /\
  latin1ToBytes (decodeLatin1 [128]) = [172].
Proof.
  split; [|reflexivity].
  apply (X4_identity_body_survives [72; 105; 233; 129; 255]).
  repeat constructor; unfold isByte; lia.
Defined.

(** ** Header blocks *)

Lemma indexOfFrom_char c s i :
  (indexOfFrom [c] s i = -1 /\ ~ In c s) \/
  (exists name rest,
     s = name ++ c :: rest /\ ~ In c name /\
     indexOfFrom [c] s i = i + len name).
Proof.
  revert i; induction s as [|d s IH]; intros i.
  - left. split; [reflexivity|intros []].
  - cbn [indexOfFrom startsWith].
    destruct (Z.eqb_spec c d) as [<-|Hd]; cbn [andb].
    + right. exists [], s. repeat split; [intros []|]. unfold len. cbn. lia.
    + destruct (IH (i + 1)) as [[Hi Hs]|(name & rest & -> & Hname & Hi)].
      * left. split; [exact Hi|]. intros [H|H]; [now apply Hd|contradiction].
      * right. exists (d :: name), rest. repeat split.
        -- intros [H|H]; [now apply Hd|contradiction].
        -- rewrite Hi. unfold len. cbn [length]. lia.
Qed.

Lemma slice_prefix (name s : jsstring) : slice (name ++ s) 0 (len name) = name.
Proof.
  pose proof (slice_middle [] name s) as H. cbn [app] in H.
  change (len []) with 0 in H. now rewrite Z.add_0_l in H.
Qed.

Lemma sliceFrom_suffix (p s : jsstring) : sliceFrom (p ++ s) (len p) = s.
Proof.
  pose proof (slice_middle p s []) as H. rewrite app_nil_r in H.
  unfold sliceFrom. now rewrite len_app.
Qed.

(** Where a header line is cut. *)
Lemma first_colon line :
  (indexOf line [58] 0 <? 0) = false ->
  exists name value,
    line = name ++ 58 :: value /\ ~ In 58 name /\
    slice line 0 (indexOf line [58] 0) = name /\
    sliceFrom line (indexOf line [58] 0 + 1) = value.
Proof.
  rewrite indexOf_at_start.
  destruct (indexOfFrom_char 58 line 0)
    as [[Hi _]|(name & value & -> & Hname & Hi)]; rewrite Hi.
  - discriminate.
  - intros _. exists name, value. rewrite Z.add_0_l.
    repeat split; [assumption|apply slice_prefix|].
    replace (name ++ 58 :: value) with ((name ++ [58]) ++ value)
      by now rewrite <- app_assoc.
    replace (len name + 1) with (len (name ++ [58]))
      by (rewrite len_app; reflexivity).
    apply sliceFrom_suffix.
Qed.

Lemma headerLine_names (P : jsstring -> Prop) st line :
  (forall name, ~ In 58 name -> P (toLowerCase (trim name))) ->
  (forall k v, fst st !! k = Some v -> P k) ->
  (forall k, snd st = Some k -> k <> [] -> P k) ->
  (forall k v, fst (headerLine st line) !! k = Some v -> P k) /\
  (forall k, snd (headerLine st line) = Some k -> k <> [] -> P k).
Proof.
  intros HP Hout Hkey. destruct st as [out key]. cbn [fst snd] in *.
  unfold headerLine. destruct (trim line) as [|c t] eqn:E; [now split|].
  destruct ((startsWith line [32] || startsWith line [9]) && truthy key) eqn:C.
  - apply andb_true_iff in C as [_ C].
    destruct key as [[|d k]|]; try discriminate C. cbn [orElse fst snd].
    split; [|exact Hkey]. intros k' v. unfold setProperty.
    destruct (bool_decide (d :: k = lit "__proto__")); [apply Hout|].
    destruct (decide (k' = d :: k)) as [->|Hne].
    + intros _. now apply Hkey.
    + rewrite lookup_insert_ne by congruence. apply Hout.
  - destruct (indexOf line [58] 0 <? 0) eqn:Hidx; [now split|].
    destruct (first_colon line Hidx) as (name & value & _ & Hname & -> & _).
    cbn [fst snd]. split.
    + intros k' v. unfold setProperty.
      destruct (bool_decide (toLowerCase (trim name) = lit "__proto__"));
        [apply Hout|].
      destruct (decide (k' = toLowerCase (trim name))) as [->|Hne].
      * intros _. now apply HP.
      * rewrite lookup_insert_ne by congruence. apply Hout.
    + intros k' [= <-] _. now apply HP.
Qed.

(** X5: the names under which headers are stored.  Every name in the
    object that [parseHeaders] returns is in lower case and holds no
    colon: a header is found under the lower-case spelling of its name
    and under no other. *)
Theorem X5_header_names (headerText name value : jsstring) :
  parseHeaders headerText !! name = Some value ->
  Forall (fun d => ~ 65 <= d <= 90) name /\ ~ In 58 name.
Proof.
  unfold parseHeaders.
  set (P := fun k : jsstring => Forall (fun d => ~ 65 <= d <= 90) k /\ ~ In 58 k).
  assert (H : forall lines st,
            (forall k v, fst st !! k = Some v -> P k) ->
            (forall k, snd st = Some k -> k <> [] -> P k) ->
            forall k v, fst (fold_left headerLine lines st) !! k = Some v ->
                        P k).
  { induction lines as [|line lines IH]; intros st Hout Hkey; [exact Hout|].
    cbn [fold_left].
    destruct (headerLine_names P st line) as [H1 H2]; try assumption;
      [|now apply IH].
    intros nm Hnm. split; [apply toLowerCase_lower|].
    apply toLowerCase_keeps_out; [now right|].
    intros Hin%trim_chars. contradiction. }
  apply H; cbn [fst snd]; [|discriminate].
  intros k v. rewrite lookup_empty. discriminate.
Qed.

Lemma X5_header_names_witness :
  parseHeaders (lit "Content-Type: text/html") !! lit "content-type" =
    Some (lit "text/html") /\
  parseHeaders (lit "Content-Type: text/html") !! lit "Content-Type" = None /\
  Forall (fun d => ~ 65 <= d <= 90) (lit "content-type") /\
  ~ In 58 (lit "content-type").
Proof.
  assert (H : parseHeaders (lit "Content-Type: text/html")
                !! lit "content-type" = Some (lit "text/html"))
    by (vm_compute; reflexivity).
  split; [exact H|]. split; [vm_compute; reflexivity|].
  apply (X5_header_names _ _ _ H).
Defined.

Lemma first_occurrence_unique (c : Z) (a b a' b' : jsstring) :
  ~ In c a -> ~ In c a' -> a ++ c :: b = a' ++ c :: b' -> a = a' /\ b = b'.
Proof.
  revert a'; induction a as [|x a IH]; intros [|x' a'] Ha Ha' E;
    cbn [app] in E.
  - now injection E as ->.
  - injection E as <- _. exfalso. apply Ha'. now left.
  - injection E as -> _. exfalso. apply Ha. now left.
  - injection E as <- E. destruct (IH a') as [-> ->]; auto.
    + intros H. apply Ha. now right.
    + intros H. apply Ha'. now right.
Qed.

Lemma trimStart_nil s :
  trimStart s = [] -> Forall (fun c => isWhiteSpace c = true) s.
Proof.
  induction s as [|c s IH]; [constructor|]. cbn [trimStart].
  destruct (isWhiteSpace c) eqn:E; [|discriminate].
  intros H. constructor; auto.
Qed.

Lemma trim_nil s : trim s = [] -> Forall (fun c => isWhiteSpace c = true) s.
Proof.
  unfold trim, trimEnd. intros H.
  apply (f_equal (@rev Z)) in H. rewrite rev_involutive in H. cbn [rev] in H.
  apply trimStart_nil, Forall_rev in H. rewrite rev_involutive in H.
  pose proof (trimStart_head s) as Hh.
  destruct (trimStart s) as [|c t] eqn:E; [now apply trimStart_nil|].
  apply Forall_cons in H as [H _]. congruence.
Qed.

Lemma breaks_quiet prev s :
  ~ In 10 s -> firesIn (literal [13; 10]) prev s = false.
Proof.
  revert prev; induction s as [|c s IH]; intros prev H; [reflexivity|].
  rewrite firesIn_cons, IH by (intros Hin; apply H; now right).
  unfold literal. cbn [startsWith].
  destruct s as [|d s]; [now rewrite andb_false_r|].
  rewrite (proj2 (Z.eqb_neq 10 d)) by (intros <-; apply H; right; now left).
  now rewrite andb_false_r.
Qed.

(** The last line of a text stays the last line when the line breaks
    are normalized. *)
Lemma normalized_last_line t l prev skip :
  ~ In 10 l -> (skip <= length t)%nat ->
  exists r,
    replaceFrom (literal [13; 10]) [10] prev skip (t ++ 10 :: l) =
    r ++ 10 :: l.
Proof.
  intros Hl. revert prev skip; induction t as [|c t IH]; intros prev skip Hs.
  - destruct skip; [|cbn in Hs; lia]. exists []. cbn [app replaceFrom].
    unfold literal at 1. cbn [startsWith]. change (13 =? 10) with false.
    cbn [andb]. f_equal. now apply replaceFrom_quiet, breaks_quiet.
  - cbn [app replaceFrom]. destruct skip as [|k].
    + unfold literal at 1. cbn [startsWith length].
      destruct (Z.eqb_spec 13 c) as [<-|Hc]; cbn [andb].
      * destruct t as [|d t]; cbn [app startsWith].
        -- change (10 =? 10) with true. cbn [andb replaceFrom].
           exists []. cbn [app]. f_equal.
           now apply replaceFrom_quiet, breaks_quiet.
        -- destruct (Z.eqb_spec 10 d) as [<-|Hd]; cbn [andb].
           ++ destruct (IH (Some 13) 1%nat) as [r Hr]; [cbn; lia|].
              cbn [app] in Hr. rewrite Hr. now exists (10 :: r).
           ++ destruct (IH (Some 13) 0%nat) as [r Hr]; [lia|].
              cbn [app] in Hr. rewrite Hr. now exists (13 :: r).
      * destruct (IH (Some c) 0%nat) as [r Hr]; [lia|].
        rewrite Hr. now exists (c :: r).
    + destruct (IH (Some c) k) as [r Hr]; [cbn in Hs; lia|].
      rewrite Hr. now exists r.
Qed.

Lemma headerLine_lookup st name value :
  trimmed name -> ~ In 58 name -> toLowerCase name <> lit "__proto__" ->
  fst (headerLine st (name ++ 58 :: value)) !! toLowerCase name =
  Some (trim value).
Proof.
  intros Ht Hname Hproto. destruct st as [out key]. unfold headerLine.
  destruct (trim (name ++ 58 :: value)) as [|c t] eqn:E.
  { apply trim_nil, Forall_app in E as [_ E].
    apply Forall_cons in E as [E _]. discriminate E. }
  assert (Hstart : startsWith (name ++ 58 :: value) [32] ||
                   startsWith (name ++ 58 :: value) [9] = false).
  { destruct name as [|d name]; [reflexivity|].
    apply trimmed_head in Ht. cbn [app startsWith].
    destruct (Z.eqb_spec 32 d) as [<-|_]; [discriminate Ht|].
    destruct (Z.eqb_spec 9 d) as [<-|_]; [discriminate Ht|]. reflexivity. }
  rewrite Hstart. cbn [andb].
  destruct (indexOf (name ++ 58 :: value) [58] 0 <? 0) eqn:Hidx.
  { rewrite indexOf_negative, includes_occurs in Hidx.
    apply negb_true_iff in Hidx.
    assert (occurs [58] (name ++ 58 :: value) = true); [|congruence].
    clear. induction name as [|d name IH]; cbn [app occurs startsWith].
    - reflexivity.
    - rewrite IH. apply orb_true_r. }
  destruct (first_colon _ Hidx) as (name' & value' & Hline & Hname' & -> & ->).
  destruct (first_occurrence_unique _ _ _ _ _ Hname Hname' Hline) as [<- <-].
  cbn [fst]. rewrite (trimmed_fixed name Ht). unfold setProperty.
  rewrite bool_decide_eq_false_2 by assumption. apply lookup_insert_eq.
Qed.

(** X6: the last line of a header block.  The header text is decoded
    from the bytes of the file, one code unit per byte.  A line
    [name:value] that ends the block, whose name is decoded from bytes,
    is trimmed, holds no colon and is not [__proto__] in lower case, is
    stored under the lower-case name with its value trimmed, whatever
    came before; an earlier header of the same name is overwritten. *)
Theorem X6_last_header_line (headerText : jsstring) (nameBytes : list Z)
    (value : jsstring) :
  Forall isByte nameBytes ->
  trimmed (decodeLatin1 nameBytes) ->
  ~ In 58 (decodeLatin1 nameBytes) ->
  ~ In 10 (decodeLatin1 nameBytes ++ 58 :: value) ->
  toLowerCase (decodeLatin1 nameBytes) <> lit "__proto__" ->
  parseHeaders (headerText ++ 10 :: decodeLatin1 nameBytes ++ 58 :: value)
    !! toLowerCase (decodeLatin1 nameBytes) = Some (trim value) /\
  parseHeaders (decodeLatin1 nameBytes ++ 58 :: value)
    !! toLowerCase (decodeLatin1 nameBytes) = Some (trim value).
Proof.
  generalize (decodeLatin1 nameBytes) as name.
  intros name _ Ht Hname Hline Hproto.
  unfold parseHeaders, replaceAll, replaceRe. split.
  - destruct (normalized_last_line headerText _ None 0%nat Hline) as [r ->];
      [lia|].
    unfold split, splitRe.
    rewrite splitFrom_app_break,
      (split_single None [] (name ++ 58 :: value)) by assumption.
    rewrite fold_left_app. cbn [app fold_left]. now apply headerLine_lookup.
  - rewrite replaceFrom_quiet by now apply breaks_quiet.
    unfold split, splitRe. rewrite (split_single None []) by assumption.
    cbn [app fold_left]. now apply headerLine_lookup.
Qed.

Lemma X6_last_header_line_witness :
  parseHeaders (lit "Content-Type: text/plain" ++ [13; 10] ++
                lit "X-Other: 1" ++ [13] ++
                10 :: decodeLatin1 (lit "Content-Type") ++
                58 :: lit " text/html ")
    !! toLowerCase (decodeLatin1 (lit "Content-Type")) =
    Some (trim (lit " text/html ")) /\
  parseHeaders (decodeLatin1 (lit "Content-Type") ++ 58 :: lit " text/html ")
    !! toLowerCase (decodeLatin1 (lit "Content-Type")) =
    Some (trim (lit " text/html ")).
Proof.
  apply (X6_last_header_line
           (lit "Content-Type: text/plain" ++ [13; 10] ++
            lit "X-Other: 1" ++ [13])
           (lit "Content-Type") (lit " text/html ")).
  - apply List.Forall_forall. intros b Hb. cbn in Hb. unfold isByte.
    repeat (destruct Hb as [<-|Hb]; [lia|]). contradiction.
  - vm_compute. split; reflexivity.
  - vm_compute. intros H.
    repeat (destruct H as [H|H]; [discriminate H|]). exact H.
  - vm_compute. intros H.
    repeat (destruct H as [H|H]; [discriminate H|]). exact H.
  - vm_compute. discriminate.
Defined.

(** ** Header parameters *)

Lemma span_all f (l : jsstring) :
  Forall (fun c => f c = true) l -> span f l = (l, []).
Proof.
  induction 1 as [|c l Hc _ IH]; [reflexivity|].
  cbn [span]. now rewrite Hc, IH.
Qed.

Lemma span_run f (l rest : jsstring) stop :
  Forall (fun c => f c = true) l -> f stop = false ->
  span f (l ++ stop :: rest) = (l, stop :: rest).
Proof.
  intros Hl Hstop. rewrite span_app_stop by assumption.
  now rewrite span_all.
Qed.

Lemma span_stops f (s : jsstring) :
  match snd (span f s) with
  | c :: _ => f c = false /\ In c s
  | [] => True
  end.
Proof.
  induction s as [|c s IH]; [exact I|]. cbn [span].
  destruct (f c) eqn:Hc; [|split; [assumption|now left]].
  destruct (span f s) as [run after]. cbn [snd] in *.
  destruct after; [exact I|]. split; [apply IH|right; apply IH].
Qed.

Lemma In_drop (x : Z) n (l : jsstring) : In x (drop n l) -> In x l.
Proof.
  revert l; induction n as [|n IH]; intros [|c l]; cbn [drop]; auto.
  intros H. right. now apply IH.
Qed.

Lemma paramValueAt_equals key s v :
  paramValueAt key s = Some v -> In 61 s.
Proof.
  unfold paramValueAt. destruct (startsWithIgnoreCase s key); [|discriminate].
  pose proof (span_stops isWhiteSpace (drop (length key) s)) as H.
  destruct (snd (span isWhiteSpace (drop (length key) s))) as [|c afterEq];
    [discriminate|].
  destruct (Z.eqb_spec c 61) as [->|_]; [|discriminate].
  intros _. destruct H as [_ H]. now apply In_drop in H.
Qed.

(** X7: a header value without parameters.  When no equals sign occurs
    in a header value, [getParam] finds no parameter in it, whatever
    name of letters, digits, hyphens and underscores is asked for. *)
Theorem X7_no_parameter (headerValue key : jsstring) :
  plainKey key = true ->
  ~ In 61 headerValue -> getParam headerValue key = None.
Proof.
  intros _ H. unfold getParam. destruct headerValue as [|c s]; [reflexivity|].
  assert (Hs : paramSearch key (c :: s) = None); [|now rewrite Hs].
  revert H. generalize (c :: s) as t. clear.
  induction t as [|c t IH]; intros H; cbn [paramSearch].
  - destruct (paramValueAt key []) eqn:E; [|reflexivity].
    now apply paramValueAt_equals in E.
  - destruct (paramValueAt key (c :: t)) eqn:E.
    + now apply paramValueAt_equals in E.
    + apply IH. intros Hin. apply H. now right.
Qed.

Lemma X7_no_parameter_witness :
  getParam (lit "text/html; charset") (lit "charset") = None.
Proof.
  apply (X7_no_parameter (lit "text/html; charset") (lit "charset"));
    [reflexivity|].
  vm_compute. intros H. repeat (destruct H as [H|H]; [discriminate H|]).
  exact H.
Defined.

Lemma startsWithIgnoreCase_spelling (name key s : jsstring) :
  map canonicalize name = map canonicalize key ->
  startsWithIgnoreCase (name ++ s) key = true.
Proof.
  revert name; induction key as [|a key IH]; intros name H; [reflexivity|].
  destruct name as [|b name]; [discriminate|]. injection H as H1 H2.
  cbn [app startsWithIgnoreCase]. rewrite H1, Z.eqb_refl. now apply IH.
Qed.

Lemma first_stop (u t : jsstring) x :
  In x u -> isWhiteSpace x = false ->
  exists c rest,
    snd (span isWhiteSpace (u ++ t)) = c :: rest /\ In c u.
Proof.
  induction u as [|d u IH]; intros Hin Hx; [contradiction|].
  cbn [app span]. destruct (isWhiteSpace d) eqn:Hd.
  - destruct Hin as [->|Hin]; [congruence|].
    destruct (IH Hin Hx) as (c & rest & E & Hc).
    destruct (span isWhiteSpace (u ++ t)) as [run after]. cbn [snd] in *.
    exists c, rest. split; [exact E|now right].
  - exists d, (u ++ t). split; [reflexivity|now left].
Qed.

(** Before the name, no attempt of the expression succeeds. *)
Lemma attempt_fails key (suf name t : jsstring) :
  length name = length key -> suf <> [] -> name <> [] ->
  Forall (fun c => isWhiteSpace c = false /\ c <> 61) name ->
  ~ In 61 suf ->
  paramValueAt key (suf ++ name ++ t) = None.
Proof.
  intros Hlen Hsuf Hne Hname Hpre. unfold paramValueAt.
  destruct (startsWithIgnoreCase (suf ++ name ++ t) key); [|reflexivity].
  destruct (exists_last Hne) as (init & z & ->).
  apply Forall_app in Hname as [Hinit Hz0].
  assert (Hz : isWhiteSpace z = false)
    by now apply Forall_cons in Hz0 as [[Hz _] _].
  assert (E : drop (length key) (suf ++ (init ++ [z]) ++ t) =
              (drop (length key) (suf ++ init) ++ [z]) ++ t).
  { replace (suf ++ (init ++ [z]) ++ t) with (((suf ++ init) ++ [z]) ++ t)
      by now rewrite <- !app_assoc.
    assert (Hn : (length key <= length (suf ++ init))%nat).
    { rewrite <- Hlen, !length_app. cbn [length].
      destruct suf; [contradiction|cbn [length]; lia]. }
    rewrite drop_app_le by (rewrite length_app; lia).
    now rewrite drop_app_le by exact Hn. }
  rewrite E.
  destruct (first_stop (drop (length key) (suf ++ init) ++ [z]) t z)
    as (c & rest & -> & Hc); [rewrite in_app_iff; right; now left|exact Hz|].
  destruct (Z.eqb_spec c 61) as [->|_]; [exfalso|reflexivity].
  apply in_app_iff in Hc as [Hc|[Hc|[]]].
  - apply In_drop, in_app_iff in Hc as [Hc|Hc]; [contradiction|].
    rewrite List.Forall_forall in Hinit. now destruct (Hinit _ Hc).
  - subst z. apply Forall_cons in Hz0 as [[_ Hz0] _]. now apply Hz0.
Qed.

Lemma paramSearch_skip key (pre name t : jsstring) :
  length name = length key -> name <> [] ->
  Forall (fun c => isWhiteSpace c = false /\ c <> 61) name ->
  ~ In 61 pre ->
  paramSearch key (pre ++ name ++ t) = paramSearch key (name ++ t).
Proof.
  intros Hlen Hne Hname. induction pre as [|c pre IH]; intros Hpre;
    [reflexivity|].
  cbn [app paramSearch].
  change (c :: pre ++ name ++ t) with ((c :: pre) ++ name ++ t).
  rewrite attempt_fails by (try assumption; discriminate).
  apply IH. intros H. apply Hpre. now right.
Qed.

(** What the expression finds after the name: the text after the equals
    sign and the white space around it. *)
Lemma paramValueAt_name key (name ws1 ws2 value : jsstring) x :
  map canonicalize name = map canonicalize key ->
  Forall (fun c => isWhiteSpace c = true) ws1 ->
  Forall (fun c => isWhiteSpace c = true) ws2 ->
  isWhiteSpace x = false ->
  paramValueAt key (name ++ ws1 ++ 61 :: ws2 ++ x :: value) =
  let bare := fst (span (fun c => negb ((c =? 59) || isWhiteSpace c))
                     (x :: value)) in
  let bareMatch := match bare with [] => None | _ => Some bare end in
  if x =? 34 then
    match span (fun c => negb (c =? 34)) value with
    | (c1 :: run, q' :: _) =>
        if q' =? 34 then Some (c1 :: run) else bareMatch
    | _ => bareMatch
    end
  else bareMatch.
Proof.
  intros Hkey H1 H2 Hx. unfold paramValueAt.
  rewrite startsWithIgnoreCase_spelling by assumption.
  assert (Hlen : length key = length name)
    by (apply (f_equal (@length Z)) in Hkey; now rewrite !length_map in Hkey).
  rewrite Hlen, drop_app_length.
  rewrite (span_run isWhiteSpace ws1) by (assumption || reflexivity).
  cbn [snd]. change (61 =? 61) with true. cbv iota.
  rewrite (span_run isWhiteSpace ws2) by assumption.
  reflexivity.
Qed.

(** X8: a parameter without quotes.  The key is made of letters,
    digits, hyphens and underscores.  When the name of the parameter,
    in any spelling of upper and lower case, first comes after a text
    without equals sign and is followed by an equals sign (with white
    space around it or not) and a value without white space or
    semicolon that does not start with a quote, [getParam] answers this
    value: it ends at the next semicolon or white space. *)
Theorem X8_bare_parameter (pre name ws1 ws2 v rest key : jsstring) :
  plainKey key = true ->
  map canonicalize name = map canonicalize key ->
  name <> [] ->
  Forall (fun c => isWhiteSpace c = false /\ c <> 61) name ->
  ~ In 61 pre ->
  Forall (fun c => isWhiteSpace c = true) (ws1 ++ ws2) ->
  v <> [] -> hd 0 v <> 34 ->
  Forall (fun c => isWhiteSpace c = false /\ c <> 59) v ->
  match rest with
  | [] => True
  | c :: _ => c = 59 \/ isWhiteSpace c = true
  end ->
  getParam (pre ++ name ++ ws1 ++ 61 :: ws2 ++ v ++ rest) key = Some v.
Proof.
  intros _ Hkey Hne Hname Hpre Hws Hv Hq Hvalue Hrest.
  apply Forall_app in Hws as [H1 H2].
  assert (Hlen : length name = length key)
    by (apply (f_equal (@length Z)) in Hkey; now rewrite !length_map in Hkey).
  unfold getParam.
  destruct (pre ++ name ++ ws1 ++ 61 :: ws2 ++ v ++ rest) eqn:E.
  { destruct pre, name; try discriminate E. contradiction. }
  rewrite <- E. rewrite paramSearch_skip by assumption.
  destruct v as [|x v]; [contradiction|]. cbn [hd] in Hq.
  pose proof Hvalue as Hvalue'.
  apply Forall_cons in Hvalue' as [[Hx _] _].
  assert (Hat : paramValueAt key
                  (name ++ ws1 ++ 61 :: ws2 ++ (x :: v) ++ rest) =
                Some (x :: v)).
  { cbn [app]. rewrite paramValueAt_name by assumption. cbv zeta.
    rewrite (proj2 (Z.eqb_neq x 34)) by assumption.
    assert (Hspan : fst (span (fun c => negb ((c =? 59) || isWhiteSpace c))
                           (x :: v ++ rest)) = x :: v).
    { change (x :: v ++ rest) with ((x :: v) ++ rest).
      assert (Hok : Forall (fun c => negb ((c =? 59) || isWhiteSpace c) = true)
                      (x :: v)).
      { eapply List.Forall_impl; [|exact Hvalue]. intros c [Hc1 Hc2].
        cbv beta. now rewrite Hc1, (proj2 (Z.eqb_neq c 59)). }
      destruct rest as [|c rest].
      - now rewrite app_nil_r, span_all.
      - rewrite span_run; [reflexivity|assumption|].
        destruct Hrest as [->|Hc]; [reflexivity|].
        now rewrite Hc, orb_true_r. }
    now rewrite Hspan. }
  destruct (name ++ ws1 ++ 61 :: ws2 ++ (x :: v) ++ rest) as [|c0 t0] eqn:E0;
    [destruct name; [contradiction|discriminate E0]|].
  cbn [paramSearch]. rewrite Hat. f_equal. apply trimmed_fixed.
  unfold trimmed. split; [exact Hx|].
  destruct (exists_last (l := x :: v)) as (init & y & Ey); [discriminate|].
  rewrite Ey, last_last. rewrite Ey in Hvalue.
  apply Forall_app in Hvalue as [_ Hy]. now apply Forall_cons in Hy as [[Hy _] _].
Qed.

Lemma X8_bare_parameter_witness :
  getParam (lit "multipart/related; " ++ lit "Boundary" ++ [32] ++
            61 :: [] ++ lit "QQ" ++ lit "; type=text/html")
    (lit "boundary") = Some (lit "QQ").
Proof.
  apply (X8_bare_parameter (lit "multipart/related; ") (lit "Boundary") [32]
           [] (lit "QQ") (lit "; type=text/html") (lit "boundary")).
  - reflexivity.
  - reflexivity.
  - discriminate.
  - repeat constructor; try reflexivity; discriminate.
  - vm_compute. intros H. repeat (destruct H as [H|H]; [discriminate H|]).
    exact H.
  - repeat constructor.
  - discriminate.
  - discriminate.
  - repeat constructor; try reflexivity; discriminate.
  - now left.
Defined.

(** X9: a parameter in quotes.  For a key of letters, digits, hyphens
    and underscores and a name in the same place, a value between
    double quotes that is not empty and holds no double quote is
    answered without the quotes and trimmed; it may hold semicolons and
    white space. *)
Theorem X9_quoted_parameter (pre name ws1 ws2 v rest key : jsstring) :
  plainKey key = true ->
  map canonicalize name = map canonicalize key ->
  name <> [] ->
  Forall (fun c => isWhiteSpace c = false /\ c <> 61) name ->
  ~ In 61 pre ->
  Forall (fun c => isWhiteSpace c = true) (ws1 ++ ws2) ->
  v <> [] -> ~ In 34 v ->
  getParam (pre ++ name ++ ws1 ++ 61 :: ws2 ++ 34 :: v ++ 34 :: rest) key =
  Some (trim v).
Proof.
  intros _ Hkey Hne Hname Hpre Hws Hv Hq.
  apply Forall_app in Hws as [H1 H2].
  assert (Hlen : length name = length key)
    by (apply (f_equal (@length Z)) in Hkey; now rewrite !length_map in Hkey).
  unfold getParam.
  destruct (pre ++ name ++ ws1 ++ 61 :: ws2 ++ 34 :: v ++ 34 :: rest) eqn:E.
  { destruct pre, name; try discriminate E. contradiction. }
  rewrite <- E. rewrite paramSearch_skip by assumption.
  assert (Hat : paramValueAt key
                  (name ++ ws1 ++ 61 :: ws2 ++ 34 :: v ++ 34 :: rest) =
                Some v).
  { rewrite paramValueAt_name by (assumption || reflexivity). cbv zeta.
    change (34 =? 34) with true. cbv iota.
    rewrite span_run.
    - destruct v; [contradiction|]. now change (34 =? 34) with true.
    - apply List.Forall_forall. intros c Hc.
      destruct (Z.eqb_spec c 34) as [->|_]; [contradiction|reflexivity].
    - reflexivity. }
  destruct (name ++ ws1 ++ 61 :: ws2 ++ 34 :: v ++ 34 :: rest) as [|c0 t0]
    eqn:E0; [destruct name; [contradiction|discriminate E0]|].
  cbn [paramSearch]. now rewrite Hat.
Qed.

Lemma X9_quoted_parameter_witness :
  getParam (lit "multipart/related;" ++ [13; 10; 9] ++ lit "boundary" ++ [] ++
            61 :: [] ++ 34 :: lit "--= part; 1 " ++ 34 :: lit "; x=y")
    (lit "boundary") = Some (trim (lit "--= part; 1 ")).
Proof.
  apply (X9_quoted_parameter (lit "multipart/related;" ++ [13; 10; 9])
           (lit "boundary") [] [] (lit "--= part; 1 ") (lit "; x=y")
           (lit "boundary")).
  - reflexivity.
  - reflexivity.
  - discriminate.
  - repeat constructor; try reflexivity; discriminate.
  - vm_compute. intros H. repeat (destruct H as [H|H]; [discriminate H|]).
    exact H.
  - constructor.
  - discriminate.
  - vm_compute. intros H. repeat (destruct H as [H|H]; [discriminate H|]).
    exact H.
Defined.

(** ** The content-id map *)

Lemma registerPart_unfold cidMap part :
  registerPart cidMap part =
  let m := match contentId part with
           | [] => cidMap
           | _ => <[normalizeCid (contentId part) := part]> cidMap
           end in
  if startsWith (contentLoc part) (lit "cid:")
  then <[normalizeCid (contentLoc part) := part]> m
  else m.
Proof. reflexivity. Qed.

Lemma registerPart_lookup cidMap part k p :
  registerPart cidMap part !! k = Some p ->
  cidMap !! k = Some p \/
  p = part /\
  (contentId part <> [] /\ k = normalizeCid (contentId part) \/
   startsWith (contentLoc part) (lit "cid:") = true /\
   k = normalizeCid (contentLoc part)).
Proof.
  rewrite registerPart_unfold. cbv zeta.
  destruct (startsWith (contentLoc part) (lit "cid:")) eqn:Hloc.
  - destruct (decide (k = normalizeCid (contentLoc part))) as [->|Hk].
    + rewrite lookup_insert_eq. intros [= <-]. right. auto.
    + rewrite lookup_insert_ne by congruence.
      destruct (contentId part) as [|c s] eqn:Hid; [now left|].
      destruct (decide (k = normalizeCid (c :: s))) as [->|Hk'].
      * rewrite lookup_insert_eq. intros [= <-]. right.
        split; [reflexivity|]. left. split; [discriminate|reflexivity].
      * rewrite lookup_insert_ne by congruence. now left.
  - destruct (contentId part) as [|c s] eqn:Hid; [now left|].
    destruct (decide (k = normalizeCid (c :: s))) as [->|Hk'].
    + rewrite lookup_insert_eq. intros [= <-]. right.
      split; [reflexivity|]. left. split; [discriminate|reflexivity].
    + rewrite lookup_insert_ne by congruence. now left.
Qed.

(** X10: what the content-id map holds.  Every entry of the map maps
    the normalized content id of one of the parts, or its normalized
    content location when that starts with cid, to this part; a list of
    parts without such headers gives the empty map. *)
Theorem X10_cid_map_entries (parts : list Part) (k : jsstring) (p : Part) :
  buildCidMap parts !! k = Some p ->
  In p parts /\
  (contentId p <> [] /\ k = normalizeCid (contentId p) \/
   startsWith (contentLoc p) (lit "cid:") = true /\
   k = normalizeCid (contentLoc p)).
Proof.
  unfold buildCidMap.
  assert (H : forall m : gmap (list Z) Part,
            fold_left registerPart parts m !! k = Some p ->
            m !! k = Some p \/
            In p parts /\
            (contentId p <> [] /\ k = normalizeCid (contentId p) \/
             startsWith (contentLoc p) (lit "cid:") = true /\
             k = normalizeCid (contentLoc p))).
  { induction parts as [|part parts IH]; intros m; [now left|].
    cbn [fold_left]. intros [H|[Hin Hk]]%IH.
    - apply registerPart_lookup in H as [H|[-> Hk]]; [now left|].
      right. split; [now left|exact Hk].
    - right. split; [now right|exact Hk]. }
  intros [Hm|Hp]%H; [|exact Hp]. rewrite lookup_empty in Hm. discriminate.
Qed.

Lemma X10_cid_map_entries_witness :
  In pngPart [pngPart] /\
  (contentId pngPart <> [] /\ lit "img1" = normalizeCid (contentId pngPart) \/
   startsWith (contentLoc pngPart) (lit "cid:") = true /\
   lit "img1" = normalizeCid (contentLoc pngPart)).
Proof.
  apply (X10_cid_map_entries [pngPart] (lit "img1") pngPart).
  vm_compute. reflexivity.
Defined.

(** X11: the last part wins.  A part with a content id is found under
    its normalized id in the map of any list of parts that it ends, and
    under its normalized content location when that starts with cid;
    earlier parts with the same key are overwritten. *)
Theorem X11_last_part_wins (parts : list Part) (p : Part) :
  (contentId p <> [] ->
   buildCidMap (parts ++ [p]) !! normalizeCid (contentId p) = Some p) /\
  (startsWith (contentLoc p) (lit "cid:") = true ->
   buildCidMap (parts ++ [p]) !! normalizeCid (contentLoc p) = Some p).
Proof.
  unfold buildCidMap. rewrite fold_left_app. cbn [fold_left].
  generalize (fold_left registerPart parts ∅) as m. intros m.
  rewrite registerPart_unfold. cbv zeta. split.
  - intros Hid. destruct (contentId p) as [|c s] eqn:E; [contradiction|].
    destruct (startsWith (contentLoc p) (lit "cid:")).
    + destruct (decide (normalizeCid (c :: s) = normalizeCid (contentLoc p)))
        as [->|Hk].
      * apply lookup_insert_eq.
      * rewrite lookup_insert_ne by congruence. apply lookup_insert_eq.
    + apply lookup_insert_eq.
  - intros ->. apply lookup_insert_eq.
Qed.

Lemma stripAngleBrackets_plain s :
  startsWith s [60] = false -> endsWith s [62] = false ->
  stripAngleBrackets s = s.
Proof.
  unfold stripAngleBrackets. intros H1 H2.
  assert (E : match s with
              | c :: rest => if c =? 60 then rest else s
              | [] => []
              end = s).
  { destruct s as [|c s]; [reflexivity|]. cbn [startsWith] in H1.
    rewrite andb_true_r in H1. rewrite Z.eqb_sym. now rewrite H1. }
  rewrite E. now rewrite H2.
Qed.

(** X12: the spellings of a content id.  For an id that is trimmed,
    neither starts with an opening nor ends with a closing angle
    bracket, and does not itself start with cid, the header value in
    angle brackets, the reference with the cid scheme and the bare id
    all normalize to the id: a reference finds the part that carries
    the id in its header. *)
Theorem X12_cid_spellings (id : jsstring) :
  trimmed id ->
  startsWith id [60] = false -> endsWith id [62] = false ->
  startsWith id (lit "cid:") = false ->
  normalizeCid (60 :: id ++ [62]) = id /\
  normalizeCid (lit "cid:" ++ id) = id /\
  normalizeCid id = id.
Proof.
  intros Ht H1 H2 H3. unfold normalizeCid. split; [|split].
  - change (startsWith (60 :: id ++ [62]) (lit "cid:")) with false. cbv iota.
    rewrite trimmed_fixed.
    + unfold stripAngleBrackets. change (60 =? 60) with true. cbv iota.
      unfold endsWith. rewrite rev_app_distr. cbn [rev app startsWith].
      change (62 =? 62) with true. cbn [andb].
      rewrite length_app. cbn [length].
      replace (length id + 1 - 1)%nat with (length id) by lia.
      now rewrite take_app_length.
    + unfold trimmed. split; [reflexivity|].
      change (60 :: id ++ [62]) with ((60 :: id) ++ [62]).
      now rewrite last_last.
  - rewrite startsWith_app_self.
    change 4 with (len (lit "cid:")). rewrite sliceFrom_suffix.
    rewrite trimmed_fixed by assumption. now apply stripAngleBrackets_plain.
  - rewrite H3, trimmed_fixed by assumption.
    now apply stripAngleBrackets_plain.
Qed.

Lemma X12_cid_spellings_witness :
  normalizeCid (60 :: lit "img1@example" ++ [62]) = lit "img1@example" /\
  normalizeCid (lit "cid:" ++ lit "img1@example") = lit "img1@example" /\
  normalizeCid (lit "img1@example") = lit "img1@example".
Proof.
  apply (X12_cid_spellings (lit "img1@example")).
  - vm_compute. split; reflexivity.
  - reflexivity.
  - reflexivity.
  - reflexivity.
Defined.

Lemma X11_last_part_wins_witness :
  contentId pngPart <> [] /\
  buildCidMap ([] ++ [pngPart]) !! normalizeCid (contentId pngPart) =
  Some pngPart.
Proof.
  assert (H : contentId pngPart <> []) by (vm_compute; discriminate).
  split; [exact H|]. exact (proj1 (X11_last_part_wins [] pngPart) H).
Defined.

(** ** References in style sheets *)

(** A callback that answers the match leaves the text as it is. *)
Lemma rewriteFrom_same (m : rewriter) :
  (forall prev s n repl, m prev s = Some (n, repl) -> repl = take n s) ->
  forall s prev skip, rewriteFrom m prev skip s = drop skip s.
Proof.
  intros Hm. induction s as [|c s IH]; intros prev skip.
  - now destruct skip.
  - cbn [rewriteFrom]. destruct skip as [|k]; [|apply IH].
    destruct (m prev (c :: s)) as [[[|n] repl]|] eqn:E.
    + now rewrite IH.
    + apply Hm in E as ->. rewrite IH. cbn [take drop app]. f_equal.
      apply take_drop.
    + now rewrite IH.
Qed.

Lemma cssUrl_unresolved prev s n repl :
  cssUrl ∅ prev s = Some (n, repl) -> repl = take n s.
Proof.
  unfold cssUrl.
  repeat first
    [ rewrite lookup_empty
    | match goal with
      | |- context [if ?b then _ else _] => destruct b; try discriminate
      | |- context [match ?x with _ => _ end] => destruct x; try discriminate
      end ].
  all: now intros [= <- <-].
Qed.

Lemma cssImport_unresolved prev s n repl :
  cssImport ∅ prev s = Some (n, repl) -> repl = take n s.
Proof.
  unfold cssImport.
  repeat first
    [ rewrite lookup_empty
    | match goal with
      | |- context [if ?b then _ else _] => destruct b; try discriminate
      | |- context [match ?x with _ => _ end] => destruct x; try discriminate
      end ].
  all: now intros [= <- <-].
Qed.

(** X13: references that do not resolve.  With no part to refer to, the
    rewriting of a style sheet changes nothing: every [url(cid:...)] and
    every import of a cid reference is put back as it was matched. *)
Theorem X13_unresolved_css_unchanged (cssText : jsstring) :
  replaceCidUrlsInCss cssText ∅ = cssText.
Proof.
  unfold replaceCidUrlsInCss.
  rewrite (rewriteFrom_same (cssUrl ∅) cssUrl_unresolved).
  now rewrite (rewriteFrom_same (cssImport ∅) cssImport_unresolved).
Qed.

Lemma occursIgnoreCase_app needle (k t : jsstring) :
  occursIgnoreCase needle (k ++ t) = false ->
  startsWithIgnoreCase t needle = false.
Proof.
  induction k as [|c k IH]; cbn [app].
  - destruct t; cbn [occursIgnoreCase]; now intros [H _]%orb_false_iff.
  - cbn [occursIgnoreCase]. intros [_ H]%orb_false_iff. now apply IH.
Qed.

Lemma rewriteFrom_none (m : rewriter) s :
  (forall k t prev, s = k ++ t -> m prev t = None) ->
  forall prev, rewriteFrom m prev 0 s = s.
Proof.
  induction s as [|c s IH]; intros Hm prev; [reflexivity|].
  cbn [rewriteFrom]. rewrite (Hm [] (c :: s)) by reflexivity.
  f_equal. apply IH. intros k t prev' ->. now apply (Hm (c :: k)).
Qed.

Lemma optionalQuote_suffix s : exists k, s = k ++ optionalQuote s.
Proof.
  destruct s as [|c s]; [now exists []|]. cbn [optionalQuote].
  destruct ((c =? 39) || (c =? 34)); [now exists [c]|now exists []].
Qed.

Lemma cssUrl_quiet cidMap prev s :
  occursIgnoreCase (lit "cid:") s = false -> cssUrl cidMap prev s = None.
Proof.
  intros H. unfold cssUrl.
  destruct (startsWithIgnoreCase s (lit "url(")); [|reflexivity].
  destruct (optionalQuote_suffix (drop 4 s)) as [k Hk].
  assert (E : startsWithIgnoreCase (optionalQuote (drop 4 s)) (lit "cid:")
              = false).
  { apply (occursIgnoreCase_app _ (take 4 s ++ k)).
    now rewrite <- app_assoc, <- Hk, take_drop. }
  cbv zeta. now rewrite E.
Qed.

Lemma cssImport_quiet cidMap prev s :
  occursIgnoreCase (lit "cid:") s = false -> cssImport cidMap prev s = None.
Proof.
  intros H. unfold cssImport.
  destruct (startsWithIgnoreCase s (lit "@import")); [|reflexivity].
  destruct (span_spec isWhiteSpace (drop 7 s)) as [Hs _].
  destruct (span isWhiteSpace (drop 7 s)) as [[|w ws] [|q s2]];
    try reflexivity.
  cbn [fst snd] in Hs.
  assert (E : startsWithIgnoreCase s2 (lit "cid:") = false).
  { apply (occursIgnoreCase_app _ (take 7 s ++ (w :: ws) ++ [q])).
    rewrite <- !app_assoc. cbn [app] in *. now rewrite <- Hs, take_drop. }
  now rewrite E, andb_false_r.
Qed.

(** X14: a style sheet without references.  A style sheet in which
    [cid:] occurs in no spelling of upper and lower case is left as it
    is, whatever the parts of the file are. *)
Theorem X14_css_without_reference (cssText : jsstring)
    (cidMap : gmap (list Z) Part) :
  occursIgnoreCase (lit "cid:") cssText = false ->
  replaceCidUrlsInCss cssText cidMap = cssText.
Proof.
  intros H. unfold replaceCidUrlsInCss.
  assert (Hsuf : forall k t, cssText = k ++ t ->
                   occursIgnoreCase (lit "cid:") t = false).
  { intros k t ->. clear -H. induction k as [|c k IH]; [exact H|].
    cbn [app occursIgnoreCase] in H. apply orb_false_iff in H as [_ H].
    now apply IH. }
  rewrite (rewriteFrom_none (cssUrl cidMap)).
  - apply rewriteFrom_none. intros k t prev Ht.
    apply cssImport_quiet. now apply (Hsuf k).
  - intros k t prev Ht. apply cssUrl_quiet. now apply (Hsuf k).
Qed.

Lemma X14_css_without_reference_witness :
  replaceCidUrlsInCss (lit "@import 'a.css'; p { background: url(x.png) }")
    {[ lit "img1" := pngPart ]} =
  lit "@import 'a.css'; p { background: url(x.png) }".
Proof.
  apply (X14_css_without_reference
           (lit "@import 'a.css'; p { background: url(x.png) }")).
  vm_compute. reflexivity.
Defined.

(** ** The scanner at the edges *)

Lemma indexOf_missing s needle0 :
  occurs needle0 s = false -> indexOf s needle0 0 = -1.
Proof.
  intros H. pose proof (indexOf_negative s needle0) as Hneg.
  rewrite includes_occurs, H in Hneg. apply Z.ltb_lt in Hneg.
  destruct (indexOf_bounds s needle0 0) as [E|[E _]];
    [pose proof (len_nonneg s); lia|exact E|lia].
Qed.

(** X15: a text without message container.  When the literal that opens
    a container occurs nowhere, the scanner returns no block. *)
Theorem X15_no_container (fullHtml : jsstring) :
  occurs needle fullHtml = false -> extractGrokBlocks fullHtml = Some [].
Proof.
  intros H. unfold extractGrokBlocks. cbn [while]. unfold scanTurn.
  now rewrite indexOf_missing.
Qed.

Lemma X15_no_container_witness :
  extractGrokBlocks (lit "<div class=x>hello</div>") = Some [].
Proof.
  apply (X15_no_container (lit "<div class=x>hello</div>")).
  vm_compute. reflexivity.
Defined.

Lemma indexOf_at_end s needle0 :
  needle0 <> [] -> indexOf s needle0 (len s) = -1.
Proof.
  intros Hne. unfold indexOf.
  rewrite Z.max_l, Z.min_id by apply len_nonneg.
  unfold len. rewrite Nat2Z.id, drop_all. cbn [indexOfFrom].
  now destruct needle0.
Qed.

(** The opening tag of the first container. *)
Lemma opening_found (pre cls t : jsstring) :
  occurs needle pre = false ->
  occurs tagEnd (needle ++ cls) = false ->
  let fullHtml := pre ++ needle ++ cls ++ tagEnd ++ t in
  indexOf fullHtml needle 0 = len pre /\
  indexOf fullHtml tagEnd (len pre) = len pre + len needle + len cls /\
  slice fullHtml (len pre + len needle) (len pre + len needle + len cls) = cls.
Proof.
  intros Hpre Hcls fullHtml. split; [|split].
  - rewrite indexOf_at_start. unfold fullHtml.
    rewrite indexOfFrom_skip, indexOfFrom_here; [lia|].
    apply (startsIn_clean 60 (tl needle) pre
             (tl needle ++ cls ++ tagEnd ++ t)); [reflexivity|exact Hpre].
  - rewrite (indexOf_split fullHtml pre ((needle ++ cls) ++ tagEnd ++ t)
               tagEnd)
      by (unfold fullHtml; rewrite <- ?app_assoc; reflexivity).
    rewrite indexOfFrom_skip, indexOfFrom_here; [rewrite len_app; lia|].
    apply (startsIn_clean 34 [62] (needle ++ cls) ([62] ++ t));
      [reflexivity|exact Hcls].
  - rewrite <- len_app.
    replace fullHtml with ((pre ++ needle) ++ cls ++ tagEnd ++ t)
      by (unfold fullHtml; rewrite <- ?app_assoc; reflexivity).
    apply slice_middle.
Qed.

(** X16: a container that is never closed.  When no closing tag follows
    the opening tag of a marked container, the scanner does not give
    up: it returns one block, whose fragment is the text from the end of
    the opening tag to the end of the input. *)
Theorem X16_unclosed_container (pre cls A : jsstring) :
  occurs needle pre = false ->
  occurs tagEnd (needle ++ cls) = false ->
  includes cls (lit "r-imh66m") = true ->
  occurs (lit "</div>") A = false ->
  extractGrokBlocks (pre ++ needle ++ cls ++ tagEnd ++ A) =
  Some [(if includes cls (lit "r-1kt6imw") then User else Model, A)].
Proof.
  intros Hpre Hcls Hmark HA.
  destruct (opening_found pre cls A Hpre Hcls) as (Hi & Hj & Hslice).
  set (fullHtml := pre ++ needle ++ cls ++ tagEnd ++ A) in *.
  assert (Hlen : len fullHtml =
                 len pre + len needle + len cls + 2 + len A).
  { unfold fullHtml. rewrite !len_app. change (len tagEnd) with 2. lia. }
  pose proof (len_nonneg pre). pose proof (len_nonneg cls).
  pose proof (len_nonneg A).
  assert (Hneedle : len needle = 22) by reflexivity.
  assert (Hbal : balance fullHtml (len pre + len needle + len cls + 2) =
                 Some (1, len fullHtml)).
  { unfold balance. cbn [while]. unfold balanceTurn.
    change (0 <? 1) with true. cbv iota.
    rewrite (indexOf_split fullHtml (pre ++ needle ++ cls ++ tagEnd) A
               (lit "</div>"))
      by (try (unfold fullHtml; rewrite <- ?app_assoc; reflexivity);
          rewrite !len_app; change (len tagEnd) with 2; lia).
    assert (Hc : indexOfFrom (lit "</div>") A
                   (len pre + len needle + len cls + 2) = -1).
    { pose proof (indexOfFrom_occurs (lit "</div>") A
                    (len pre + len needle + len cls + 2) ltac:(lia)) as Ho.
      rewrite HA in Ho. apply Z.leb_gt in Ho.
      destruct (indexOfFrom_bounds (lit "</div>") A
                  (len pre + len needle + len cls + 2)) as [E|[E _]];
        [exact E|lia]. }
    now rewrite Hc. }
  unfold extractGrokBlocks.
  apply (while_more_fuel _ 2);
    [|unfold fullHtml; rewrite !length_app;
      cbn [length needle lit map list_ascii_of_string app]; lia].
  cbn [while]. unfold scanTurn at 1. rewrite Hi.
  rewrite (proj2 (Z.eqb_neq (len pre) (-1))) by lia.
  rewrite Hj. rewrite (proj2 (Z.eqb_neq (_ + len cls) (-1))) by lia.
  rewrite Hslice, Hmark. cbn [negb]. rewrite Hbal.
  change (1 =? 0) with false. cbv iota.
  unfold scanTurn. rewrite indexOf_at_end by discriminate.
  change (-1 =? -1) with true. cbv iota. cbn [app]. do 3 f_equal.
  replace fullHtml with ((pre ++ needle ++ cls ++ tagEnd) ++ A ++ [])
    by (unfold fullHtml; rewrite <- ?app_assoc, app_nil_r; reflexivity).
  replace (len pre + len needle + len cls + 2)
    with (len (pre ++ needle ++ cls ++ tagEnd))
    by (rewrite !len_app; change (len tagEnd) with 2; lia).
  replace (len ((pre ++ needle ++ cls ++ tagEnd) ++ A ++ []))
    with (len (pre ++ needle ++ cls ++ tagEnd) + len A)
    by (rewrite !len_app; change (len []) with 0; lia).
  apply slice_middle.
Qed.

Lemma X16_unclosed_container_witness :
  extractGrokBlocks
    (lit "<p>" ++ needle ++ lit "css-1 r-imh66m r-1kt6imw" ++ tagEnd ++
     lit "Hi <div>there") =
  Some [(if includes (lit "css-1 r-imh66m r-1kt6imw") (lit "r-1kt6imw")
         then User else Model, lit "Hi <div>there")].
Proof.
  apply (X16_unclosed_container (lit "<p>") (lit "css-1 r-imh66m r-1kt6imw")
           (lit "Hi <div>there")); vm_compute; reflexivity.
Defined.

Lemma slice_infix (s : jsstring) a b :
  exists pre post, s = pre ++ slice s a b ++ post.
Proof.
  unfold slice.
  exists (take (Z.to_nat (clampIndex (len s) a)) s),
    (drop (Z.to_nat (clampIndex (len s) b - clampIndex (len s) a))
       (drop (Z.to_nat (clampIndex (len s) a)) s)).
  now rewrite !take_drop.
Qed.

(** X17: fragments are pieces of the input.  Every fragment that the
    scanner returns is a contiguous piece of the text that it was
    given: nothing is added, dropped or reordered inside a block. *)
Theorem X17_fragments_are_pieces (fullHtml : jsstring)
    (blocks : list (role * jsstring)) :
  extractGrokBlocks fullHtml = Some blocks ->
  Forall (fun block => exists pre post, fullHtml = pre ++ snd block ++ post)
    blocks.
Proof.
  unfold extractGrokBlocks.
  apply (while_result (scanTurn fullHtml)
           (fun st => Forall (fun block => exists pre post,
                                fullHtml = pre ++ snd block ++ post) (snd st))
           (fun r => Forall (fun block => exists pre post,
                               fullHtml = pre ++ snd block ++ post) r));
    [| |constructor].
  - intros [pos bs] [pos' bs'] Hinv. cbn [snd] in *. unfold scanTurn.
    repeat match goal with
           | |- context [if ?b then _ else _] => destruct b
           end; try discriminate; try (intros [= <- <-]; exact Hinv).
    all: destruct (balance fullHtml _) as [[depth k]|]; [|discriminate].
    all: intros [= <- <-]; apply Forall_app; split; [exact Hinv|].
    all: constructor; [|constructor]; cbn [snd].
    all: destruct (depth =? 0); apply slice_infix.
  - intros [pos bs] r Hinv. cbn [snd] in *. unfold scanTurn.
    repeat match goal with
           | |- context [if ?b then _ else _] => destruct b
           end; try discriminate; try (intros [= <-]; exact Hinv).
    all: destruct (balance fullHtml _) as [[depth k]|]; discriminate.
Qed.

Lemma X17_fragments_are_pieces_witness :
  Forall (fun block => exists pre post,
            lit "<p>" ++ needle ++ lit "r-imh66m" ++ tagEnd ++
            lit "Hi</div>" = pre ++ snd block ++ post)
    [(Model, lit "Hi")].
Proof.
  apply (X17_fragments_are_pieces
           (lit "<p>" ++ needle ++ lit "r-imh66m" ++ tagEnd ++ lit "Hi</div>")
           [(Model, lit "Hi")]).
  vm_compute. reflexivity.
Defined.

(** ** The parser of turns, on any text *)

Lemma dropBreaks_head s : startsWith (dropBreaks s) [10] = false.
Proof.
  induction s as [|c s IH]; [reflexivity|]. cbn [dropBreaks].
  destruct (Z.eqb_spec c 10) as [->|Hc]; [exact IH|].
  cbn [startsWith]. rewrite (proj2 (Z.eqb_neq 10 c)) by lia. reflexivity.
Qed.

Lemma stripTrailingBreaks_end s :
  endsWith (stripTrailingBreaks s) [10] = false.
Proof.
  unfold endsWith, stripTrailingBreaks. rewrite rev_involutive.
  apply dropBreaks_head.
Qed.

Lemma flush_stripped (P : jsstring * jsstring -> Prop) st :
  (forall q a, P (stripTrailingBreaks q, stripTrailingBreaks a)) ->
  Forall P (pairsOf st) -> Forall P (pairsOf (flush st)).
Proof.
  intros HP H. unfold flush. cbn [pairsOf].
  destruct (questionLines st), (answerLines st); try exact H;
    (apply Forall_app; split; [exact H|constructor; [apply HP|constructor]]).
Qed.

Lemma parseLine_stripped (P : jsstring * jsstring -> Prop) st line :
  (forall q a, P (stripTrailingBreaks q, stripTrailingBreaks a)) ->
  Forall P (pairsOf st) -> Forall P (pairsOf (parseLine st line)).
Proof.
  intros HP H. unfold parseLine.
  destruct (isTurnLine line); [now apply flush_stripped|].
  destruct (isMarkLine questionMark line); [exact H|].
  destruct (isMarkLine answerMark line); [exact H|].
  now destruct (state st).
Qed.

(** X18: what the parser of turns returns.  Whatever the text, no
    question and no answer of the pairs that [parseQaText] returns ends
    with a line feed: the empty lines that close a section in the file
    are not part of it. *)
Theorem X18_pairs_without_final_break (text : jsstring) :
  Forall (fun qa => endsWith (fst qa) [10] = false /\
                    endsWith (snd qa) [10] = false)
    (parseQaText text).
Proof.
  unfold parseQaText.
  set (P := fun qa : jsstring * jsstring =>
              endsWith (fst qa) [10] = false /\
              endsWith (snd qa) [10] = false).
  assert (HP : forall q a, P (stripTrailingBreaks q, stripTrailingBreaks a))
    by (intros q a; split; apply stripTrailingBreaks_end).
  apply flush_stripped; [exact HP|].
  generalize (splitRe lineBreak text) as lines.
  assert (H : forall lines st, Forall P (pairsOf st) ->
                Forall P (pairsOf (fold_left parseLine lines st))).
  { induction lines as [|line lines IH]; intros st Hst; [exact Hst|].
    cbn [fold_left]. now apply IH, parseLine_stripped. }
  intros lines. apply H. constructor.
Qed.

(** X19: a text without section marks.  When no line of the text is the
    mark of a question or of an answer, the parser collects nothing,
    whatever turn headers and other lines the text holds: it returns no
    pair. *)
Theorem X19_no_mark_no_pair (text : jsstring) :
  Forall (fun line => isMarkLine questionMark line = false /\
                      isMarkLine answerMark line = false)
    (splitRe lineBreak text) ->
  parseQaText text = [].
Proof.
  unfold parseQaText. generalize (splitRe lineBreak text) as lines.
  intros lines H.
  assert (E : fold_left parseLine lines (mkParser [] [] [] NoSection) =
              mkParser [] [] [] NoSection); [|now rewrite E].
  induction H as [|line lines [Hq Ha] _ IH]; [reflexivity|].
  cbn [fold_left]. unfold parseLine at 2. rewrite Hq, Ha.
  now destruct (isTurnLine line).
Qed.

Lemma X19_no_mark_no_pair_witness :
  parseQaText (lit "[Turn 1]" ++ [13; 10] ++ lit "Q: hello" ++ [10] ++
               lit "A: world" ++ [10]) = [].
Proof.
  apply (X19_no_mark_no_pair
           (lit "[Turn 1]" ++ [13; 10] ++ lit "Q: hello" ++ [10] ++
            lit "A: world" ++ [10])).
  vm_compute. repeat constructor.
Defined.

(** ** The page and the name of the output *)

(** X20: the page of an archive.  [getMainHtmlPart] returns the first
    part whose type is text/html, and it throws exactly when no part has
    this type. *)
Theorem X20_main_part_is_first_page (parts : list Part) :
  (forall p, getMainHtmlPart parts = Returned p <->
             exists before after,
               parts = before ++ p :: after /\
               contentType p = lit "text/html" /\
               Forall (fun q => contentType q <> lit "text/html") before) /\
  (getMainHtmlPart parts = Thrown NoHtmlPart <->
   Forall (fun q => contentType q <> lit "text/html") parts).
Proof.
  unfold getMainHtmlPart. induction parts as [|q parts [IH1 IH2]].
  - split; [intros p|]; (split; [try discriminate|]).
    + intros ([|? ?] & after & E & _); discriminate E.
    + constructor.
    + reflexivity.
  - cbn [List.filter]. destruct (bool_decide_reflect (contentType q = lit "text/html")) as [Hq|Hq].
    + split; [intros p|]; split.
      * intros [= <-]. exists [], parts. repeat split; [exact Hq|constructor].
      * intros ([|q' before] & after & E & Hp & Hbefore).
        -- now injection E as ->.
        -- injection E as -> _. apply Forall_cons in Hbefore as [Hne _].
           contradiction.
      * discriminate.
      * intros [Hne _]%Forall_cons. contradiction.
    + split; [intros p|]; split.
      * intros (before & after & -> & Hp & Hbefore)%IH1.
        exists (q :: before), after. repeat split; [exact Hp|].
        now constructor.
      * intros ([|q' before] & after & E & Hp & Hbefore).
        -- injection E as -> _. contradiction.
        -- injection E as -> ->. apply Forall_cons in Hbefore as [_ Hbefore].
           apply IH1. now exists before, after.
      * intros H%IH2. now constructor.
      * intros [_ H]%Forall_cons. now apply IH2.
Qed.

Lemma extension_dot prev s :
  fires (extension prev s) = true ->
  exists e, s = 46 :: e /\ e <> [] /\ ~ In 46 e /\
            extension prev s = Some (length s).
Proof.
  unfold extension. destruct s as [|c [|d rest]]; try discriminate.
  destruct ((c =? 46) && forallb (fun x => negb (x =? 46)) (d :: rest))
    eqn:E; [|discriminate].
  intros _. apply andb_true_iff in E as [Hc He]. apply Z.eqb_eq in Hc as ->.
  exists (d :: rest). repeat split; [discriminate|].
  intros Hin. rewrite forallb_forall in He. specialize (He _ Hin).
  discriminate He.
Qed.

Lemma extension_none prev s :
  (forall e, s = 46 :: e -> e = [] \/ In 46 e) -> extension prev s = None.
Proof.
  intros H. destruct (extension prev s) as [[|n]|] eqn:E; try reflexivity.
  - unfold extension in E. destruct s as [|c [|d rest]]; try discriminate.
    destruct (_ && _); discriminate.
  - destruct (extension_dot prev s) as (e & -> & He & Hin & _);
      [now rewrite E|].
    destruct (H e eq_refl); contradiction.
Qed.

Lemma replaceFirstFrom_none (m : matcher) repl s :
  (forall k t prev, s = k ++ t -> m prev t = None) ->
  forall prev, replaceFirstFrom m repl prev s = s.
Proof.
  induction s as [|c s IH]; intros Hm prev; [reflexivity|].
  cbn [replaceFirstFrom]. rewrite (Hm [] (c :: s)) by reflexivity.
  f_equal. apply IH. intros k t prev' ->. now apply (Hm (c :: k)).
Qed.

(** X21: the name of the output.  [makeOutputName] replaces the last
    extension of the name of the input by the extension of the
    converter; a name without dot, and a name that ends with a dot, is
    kept whole and the extension is put after it. *)
Theorem X21_output_name (base e ext : jsstring) :
  (e <> [] -> ~ In 46 e -> makeOutputName (base ++ 46 :: e) ext = base ++ ext)
  /\ (~ In 46 base -> makeOutputName base ext = base ++ ext)
  /\ makeOutputName (base ++ [46]) ext = base ++ [46] ++ ext.
Proof.
  unfold makeOutputName, replaceFirst. split; [|split].
  - intros He Hin. f_equal. generalize (@None Z) as prev.
    induction base as [|c base IH]; intros prev.
    + cbn [app replaceFirstFrom]. unfold extension.
      destruct e as [|d rest]; [contradiction|].
      change (46 =? 46) with true.
      assert (Hall : forallb (fun x => negb (x =? 46)) (d :: rest) = true).
      { apply forallb_forall. intros x Hx.
        destruct (Z.eqb_spec x 46) as [->|_]; [contradiction|reflexivity]. }
      rewrite Hall. cbn [andb length drop app]. apply drop_all.
    + cbn [app replaceFirstFrom]. rewrite extension_none; [now rewrite IH|].
      intros e' E. right. injection E as -> E.
      assert (Hin' : In 46 (base ++ 46 :: e))
        by (rewrite in_app_iff; right; now left).
      now rewrite E in Hin'.
  - intros Hbase. f_equal. apply replaceFirstFrom_none.
    intros k t prev ->. apply extension_none. intros e' ->.
    exfalso. apply Hbase. rewrite in_app_iff. right. now left.
  - rewrite (app_assoc base [46] ext). f_equal. apply replaceFirstFrom_none.
    intros k t prev E. apply extension_none. intros e' ->.
    destruct e' as [|d e'] using rev_ind; [now left|right].
    clear IHe'. change (k ++ 46 :: e' ++ [d]) with (k ++ (46 :: e') ++ [d]) in E.
    rewrite (app_assoc k (46 :: e') [d]) in E.
    apply app_inj_tail in E as [_ <-]. rewrite in_app_iff. right. now left.
Qed.

Lemma X21_output_name_witness :
  makeOutputName (lit "chat.2024" ++ 46 :: lit "mhtml") (lit ".qa.txt") =
    lit "chat.2024" ++ lit ".qa.txt" /\
  makeOutputName (lit "README") (lit ".md") = lit "README" ++ lit ".md".
Proof.
  split.
  - apply (proj1 (X21_output_name (lit "chat.2024") (lit "mhtml")
                    (lit ".qa.txt"))); [discriminate|].
    vm_compute. intros H. repeat (destruct H as [H|H]; [discriminate H|]).
    exact H.
  - apply (proj1 (proj2 (X21_output_name (lit "README") [] (lit ".md")))).
    vm_compute. intros H. repeat (destruct H as [H|H]; [discriminate H|]).
    exact H.
Defined.

(** ** Entities *)

Lemma replaced_chars c0 repl (s : jsstring) x :
  In x (replaceAll [c0] repl s) -> x <> c0 /\ In x s \/ In x repl.
Proof.
  unfold replaceAll, replaceRe. rewrite replaceFrom_single.
  intros (c & Hc & Hx)%in_flat_map.
  destruct (Z.eqb_spec c0 c) as [->|Hne]; [now right|].
  destruct Hx as [<-|[]]. left. split; [congruence|exact Hc].
Qed.

(** X22: what [escapeHtml] never writes.  The text that it returns
    holds none of the characters that open or close a tag or an
    attribute value: no angle bracket and no quote, single or double. *)
Theorem X22_escaped_text_is_inert (text : jsstring) :
  Forall (fun c => c <> 60 /\ c <> 62 /\ c <> 34 /\ c <> 39)
    (escapeHtml text).
Proof.
  apply List.Forall_forall. intros x Hx. unfold escapeHtml in Hx.
  assert (Hlit : forall e, In e [lit "&#39;"; lit "&quot;"; lit "&gt;";
                                lit "&lt;"; lit "&amp;"] ->
                 In x e -> x <> 60 /\ x <> 62 /\ x <> 34 /\ x <> 39).
  { intros e He Hin. cbn in He.
    repeat (destruct He as [<-|He];
            [cbn in Hin;
             repeat (destruct Hin as [<-|Hin]; [repeat split; discriminate|]);
             contradiction|]).
    contradiction. }
  apply replaced_chars in Hx as [[H39 Hx]|Hx];
    [|apply (Hlit (lit "&#39;")); [now left|exact Hx]].
  apply replaced_chars in Hx as [[H34 Hx]|Hx];
    [|apply (Hlit (lit "&quot;")); [right; now left|exact Hx]].
  apply replaced_chars in Hx as [[H62 Hx]|Hx];
    [|apply (Hlit (lit "&gt;")); [do 2 right; now left|exact Hx]].
  apply replaced_chars in Hx as [[H60 Hx]|Hx];
    [|apply (Hlit (lit "&lt;")); [do 3 right; now left|exact Hx]].
  auto.
Qed.

Lemma flat_map_twice (f g : Z -> jsstring) (t : jsstring) :
  flat_map g (flat_map f t) = flat_map (fun c => flat_map g (f c)) t.
Proof.
  induction t as [|c t IH]; [reflexivity|].
  cbn [flat_map]. now rewrite flat_map_app, IH.
Qed.

Lemma escapeHtml_entities text : escapeHtml text = flat_map entity text.
Proof.
  unfold escapeHtml, replaceAll, replaceRe.
  rewrite !replaceFrom_single, !flat_map_twice.
  apply flat_map_ext. intros c. unfold entity.
  destruct (Z.eqb_spec c 38) as [->|H38]; [reflexivity|].
  destruct (Z.eqb_spec c 60) as [->|H60]; [reflexivity|].
  destruct (Z.eqb_spec c 62) as [->|H62]; [reflexivity|].
  destruct (Z.eqb_spec c 34) as [->|H34]; [reflexivity|].
  destruct (Z.eqb_spec c 39) as [->|H39]; [reflexivity|].
  rewrite (proj2 (Z.eqb_neq 38 c)) by congruence. cbn [flat_map app].
  rewrite (proj2 (Z.eqb_neq 60 c)) by congruence. cbn [flat_map app].
  rewrite (proj2 (Z.eqb_neq 62 c)) by congruence. cbn [flat_map app].
  rewrite (proj2 (Z.eqb_neq 34 c)) by congruence. cbn [flat_map app].
  now rewrite (proj2 (Z.eqb_neq 39 c)) by congruence.
Qed.

Lemma differs_startsWith (v pat rest : jsstring) :
  differs v pat = true -> startsWith (v ++ rest) pat = false.
Proof.
  revert pat; induction v as [|a v IH]; intros [|b pat]; try discriminate.
  cbn [differs app startsWith]. rewrite (Z.eqb_sym b a).
  destruct (a =? b); cbn [negb orb andb]; [apply IH|reflexivity].
Qed.

Lemma quiet_token pat repl (tok rest : jsstring) prev :
  allDiffer tok pat = true ->
  replaceFrom (literal pat) repl prev 0 (tok ++ rest) =
  tok ++ replaceFrom (literal pat) repl None 0 rest.
Proof.
  revert prev; induction tok as [|c tok IH]; intros prev H.
  - now apply replaceFrom_prev.
  - cbn [allDiffer] in H. apply andb_true_iff in H as [H1 H2].
    cbn [app replaceFrom]. unfold literal at 1.
    change (c :: tok ++ rest) with ((c :: tok) ++ rest).
    rewrite differs_startsWith by exact H1. cbn [app]. f_equal. now apply IH.
Qed.

Lemma matched_token pat repl (rest : jsstring) prev :
  pat <> [] ->
  replaceFrom (literal pat) repl prev 0 (pat ++ rest) =
  repl ++ replaceFrom (literal pat) repl None 0 rest.
Proof.
  intros Hne. destruct pat as [|a pat]; [contradiction|].
  cbn [app replaceFrom]. unfold literal at 1.
  change (a :: pat ++ rest) with ((a :: pat) ++ rest).
  rewrite startsWith_app_self. cbn [length]. f_equal.
  rewrite (replaceFrom_drop _ _ _ None) by reflexivity.
  now rewrite drop_app_length.
Qed.

(** A pass of [htmlUnescape] over a text made of tokens. *)
Lemma token_pass pat repl (g g' : Z -> jsstring) (t : jsstring) :
  pat <> [] ->
  (forall c, g c = pat /\ g' c = repl \/
             allDiffer (g c) pat = true /\ g' c = g c) ->
  replaceAll pat repl (flat_map g t) = flat_map g' t.
Proof.
  intros Hne Hg. unfold replaceAll, replaceRe.
  induction t as [|c t IH]; [reflexivity|]. cbn [flat_map].
  destruct (Hg c) as [[-> ->]|[Hd ->]].
  - now rewrite matched_token, IH.
  - now rewrite quiet_token, IH.
Qed.

Ltac token_cases :=
  intros c; unfold entityAfter;
  destruct (Z.eqb_spec c 60) as [->|?];
    [first [left; split; reflexivity|right; split; reflexivity]|];
  destruct (Z.eqb_spec c 62) as [->|?];
    [first [left; split; reflexivity|right; split; reflexivity]|];
  destruct (Z.eqb_spec c 34) as [->|?];
    [first [left; split; reflexivity|right; split; reflexivity]|];
  destruct (Z.eqb_spec c 39) as [->|?];
    [first [left; split; reflexivity|right; split; reflexivity]|];
  destruct (Z.eqb_spec c 38) as [->|?];
    [first [left; split; reflexivity|right; split; reflexivity]|];
  right; split; [|reflexivity];
  cbn [allDiffer differs lit map list_ascii_of_string];
  rewrite (proj2 (Z.eqb_neq c _)) by assumption; reflexivity.

(** X23: unescaping what was escaped.  [htmlUnescape] gives back every
    text that [escapeHtml] has escaped: the ampersand is escaped first
    and unescaped last, so that no entity of the text itself is
    unescaped. *)
Theorem X23_unescape_escaped (text : jsstring) :
  htmlUnescape (escapeHtml text) = text.
Proof.
  rewrite escapeHtml_entities. unfold htmlUnescape.
  assert (E0 : flat_map entity text = flat_map (entityAfter 0) text).
  { apply flat_map_ext. intros c. unfold entity, entityAfter. cbn [Nat.leb].
    destruct (c =? 38) eqn:E38; [apply Z.eqb_eq in E38 as ->; reflexivity|].
    reflexivity. }
  rewrite E0.
  rewrite (token_pass (lit "&nbsp;") [32] (entityAfter 0) (entityAfter 0))
    by (discriminate || token_cases).
  rewrite (token_pass (lit "&lt;") [60] (entityAfter 0) (entityAfter 1))
    by (discriminate || token_cases).
  rewrite (token_pass (lit "&gt;") [62] (entityAfter 1) (entityAfter 2))
    by (discriminate || token_cases).
  rewrite (token_pass (lit "&quot;") [34] (entityAfter 2) (entityAfter 3))
    by (discriminate || token_cases).
  rewrite (token_pass (lit "&#39;") [39] (entityAfter 3) (entityAfter 4))
    by (discriminate || token_cases).
  rewrite (token_pass (lit "&amp;") [38] (entityAfter 4) (entityAfter 5))
    by (discriminate || token_cases).
  assert (E5 : flat_map (entityAfter 5) text = flat_map (fun c => [c]) text).
  { apply flat_map_ext. intros c. unfold entityAfter. cbn [Nat.leb].
    repeat match goal with
           | |- context [?a =? ?b] =>
               destruct (Z.eqb_spec a b) as [->|?]; try reflexivity
           end. }
  rewrite E5. clear. induction text as [|c t IH]; [reflexivity|].
  cbn [flat_map app]. now rewrite IH.
Qed.

(** ** Turns as Markdown *)

Lemma trimEnd_prefix s : exists suf, s = trimEnd s ++ suf.
Proof.
  unfold trimEnd. destruct (trimStart_suffix (rev s)) as [pre E].
  exists (rev pre). rewrite <- rev_app_distr, <- E. now rewrite rev_involutive.
Qed.

Lemma trim_head c s :
  isWhiteSpace c = false -> exists r, trim (c :: s) = c :: r.
Proof.
  intros Hc. unfold trim. cbn [trimStart]. rewrite Hc.
  destruct (trimEnd_prefix (c :: s)) as [suf E].
  destruct (trimEnd (c :: s)) as [|x r] eqn:Et.
  - exfalso. unfold trimEnd in Et.
    apply (f_equal (@rev Z)) in Et. rewrite rev_involutive in Et.
    change (rev []) with (@nil Z) in Et.
    apply trimStart_nil, Forall_rev in Et.
    rewrite rev_involutive in Et. apply Forall_cons in Et as [Et _].
    congruence.
  - injection E as <- _. now exists r.
Qed.

(** The end of both formatters: runs of line feeds are collapsed, the
    text is trimmed, and a line feed is put after it. *)
Lemma finished_markdown c s :
  isWhiteSpace c = false ->
  exists body,
    trim (replaceRe breakRun [10; 10] (c :: s)) ++ [10] = c :: body ++ [10] /\
    trimmed (c :: body) /\
    occurs [10; 10; 10] (c :: body ++ [10]) = false.
Proof.
  intros Hc.
  assert (Hc10 : c <> 10) by (intros ->; discriminate Hc).
  assert (Hkeep : replaceRe breakRun [10; 10] (c :: s) =
                  c :: replaceFrom breakRun [10; 10] None 0 s).
  { apply collapse_keep. rewrite lead_cons_other by assumption. lia. }
  destruct (trim_head c (replaceFrom breakRun [10; 10] None 0 s) Hc)
    as [body Hbody].
  exists body. rewrite Hkeep, Hbody. split; [reflexivity|].
  pose proof (trim_trimmed (c :: replaceFrom breakRun [10; 10] None 0 s))
    as Ht.
  rewrite Hbody in Ht. split; [exact Ht|].
  pose proof (collapse_no_run (c :: s)) as Hrun.
  rewrite Hkeep in Hrun. apply occurs_trim in Hrun. rewrite Hbody in Hrun.
  destruct (exists_last (l := c :: body)) as (init & z & E); [discriminate|].
  change (c :: body ++ [10]) with ((c :: body) ++ [10]).
  rewrite E in *. rewrite <- app_assoc. cbn [app].
  rewrite occurs_snoc_break; [exact Hrun|].
  apply trimmed_last in Ht. intros ->. discriminate Ht.
Qed.

(** X24: the shape of a Markdown file of turns.  Whatever the pairs and
    the title, the text that [makeTurnsMarkdown] returns starts with the
    number sign of the title line, ends with one line feed after a
    character that is not white space, and holds no run of three line
    feeds; the same holds for [makeMd] of the command line build. *)
Theorem X24_markdown_file_shape (pairs : list (jsstring * jsstring))
    (title : jsstring) :
  (exists body,
     makeTurnsMarkdown pairs title = 35 :: body ++ [10] /\
     trimmed (35 :: body) /\
     occurs [10; 10; 10] (35 :: body ++ [10]) = false) /\
  (exists body,
     makeMd pairs title = 35 :: body ++ [10] /\
     trimmed (35 :: body) /\
     occurs [10; 10; 10] (35 :: body ++ [10]) = false).
Proof.
  split.
  - unfold makeTurnsMarkdown. cbv zeta.
    rewrite join_cons by discriminate.
    assert (E : exists r,
              (if truthy (Some title) then lit "# " ++ title
               else defaultTitleLine) = 35 :: r)
      by (destruct title; cbn [truthy]; eexists; reflexivity).
    destruct E as [r ->]. cbn [app].
    apply (finished_markdown 35). reflexivity.
  - unfold makeMd. cbv zeta. rewrite join_cons by discriminate.
    change (lit "# " ++ title) with (35 :: 32 :: title). cbn [app].
    apply (finished_markdown 35). reflexivity.
Qed.

(** ** Blocks into turns *)

Section TurnsFacts.

Variable fragmentToMarkdown : jsstring -> jsstring.

(** The questions so far, the pending one included. *)
Let questionsOf (st : turnsState) : list jsstring :=
  let '(turns, q, _) := st in
  map fst turns ++ match q with Some q0 => [q0] | None => [] end.

Lemma pushTurn_questions turns q answers :
  map fst (pushTurn turns q answers) = questionsOf (turns, q, answers).
Proof.
  unfold pushTurn, questionsOf. destruct q as [q0|].
  - now rewrite map_app.
  - now rewrite app_nil_r.
Qed.

Lemma turnStep_skipped st block :
  keptTexts fragmentToMarkdown [block] = [] ->
  turnStep fragmentToMarkdown st block = st.
Proof.
  unfold keptTexts, turnStep. cbn [map List.filter snd].
  destruct st as [[turns q] answers].
  destruct (truthy (Some (fragmentToMarkdown (snd block)))); cbn [negb andb];
    [|reflexivity].
  destruct (inList (fragmentToMarkdown (snd block)) shortcutNotices);
    cbn [negb]; [reflexivity|discriminate].
Qed.

Lemma turnStep_kept turns q answers block :
  keptTexts fragmentToMarkdown [block] <> [] ->
  exists turns' q0 answers',
    turnStep fragmentToMarkdown (turns, q, answers) block =
      (turns', Some q0, answers') /\
    questionsOf (turns', Some q0, answers') =
    match fst block, q with
    | User, _ =>
        questionsOf (turns, q, answers) ++ [fragmentToMarkdown (snd block)]
    | Model, Some _ => questionsOf (turns, q, answers)
    | Model, None => questionsOf (turns, q, answers) ++ [noQuestion]
    end.
Proof.
  unfold keptTexts, turnStep. cbn [map List.filter snd fst].
  destruct (truthy (Some (fragmentToMarkdown (snd block)))); cbn [negb andb];
    [|contradiction].
  destruct (inList (fragmentToMarkdown (snd block)) shortcutNotices);
    cbn [negb]; [contradiction|]. intros _.
  destruct (fst block).
  - eexists _, _, _. split; [reflexivity|]. unfold questionsOf.
    now rewrite pushTurn_questions.
  - eexists _, _, _. split; [reflexivity|]. unfold questionsOf.
    destruct q; [reflexivity|now rewrite app_nil_r].
Qed.

Lemma keptTexts_cons block blocks :
  keptTexts fragmentToMarkdown (block :: blocks) =
  keptTexts fragmentToMarkdown [block] ++ keptTexts fragmentToMarkdown blocks.
Proof.
  unfold keptTexts. cbn [map List.filter].
  now destruct (_ && _).
Qed.

Lemma keptTexts_single block :
  keptTexts fragmentToMarkdown [block] = [] \/
  keptTexts fragmentToMarkdown [block] =
  [(fst block, fragmentToMarkdown (snd block))].
Proof.
  unfold keptTexts. cbn [map List.filter]. destruct (_ && _); auto.
Qed.

(** Once a question is pending, every kept block of the user opens a
    turn and no other block does. *)
Lemma questions_pending blocks : forall turns q0 answers,
  questionsOf (fold_left (turnStep fragmentToMarkdown) blocks
                 (turns, Some q0, answers)) =
  questionsOf (turns, Some q0, answers) ++
  userTexts (keptTexts fragmentToMarkdown blocks).
Proof.
  induction blocks as [|block blocks IH]; intros turns q0 answers.
  - cbn [fold_left]. unfold keptTexts, userTexts. cbn. now rewrite app_nil_r.
  - cbn [fold_left]. rewrite keptTexts_cons.
    destruct (keptTexts_single block) as [E|E].
    + rewrite turnStep_skipped, E by exact E. apply IH.
    + destruct (turnStep_kept turns (Some q0) answers block)
        as (turns' & q1 & answers' & -> & Hq); [rewrite E; discriminate|].
      rewrite IH, Hq, E. unfold userTexts. cbn [app List.filter fst].
      destruct (fst block); cbn [map snd app].
      * now rewrite <- app_assoc.
      * reflexivity.
Qed.

Lemma questions_from_start blocks :
  questionsOf (fold_left (turnStep fragmentToMarkdown) blocks ([], None, []))
  = match keptTexts fragmentToMarkdown blocks with
    | (Model, _) :: _ => [noQuestion]
    | _ => []
    end ++ userTexts (keptTexts fragmentToMarkdown blocks).
Proof.
  induction blocks as [|block blocks IH]; [reflexivity|].
  cbn [fold_left]. rewrite keptTexts_cons.
  destruct (keptTexts_single block) as [E|E].
  - rewrite turnStep_skipped, E by exact E. exact IH.
  - destruct (turnStep_kept [] None [] block)
      as (turns' & q1 & answers' & -> & Hq); [rewrite E; discriminate|].
    rewrite questions_pending, Hq, E. unfold userTexts.
    cbn [app List.filter fst].
    destruct (fst block); reflexivity.
Qed.

End TurnsFacts.

(** X25: the questions of the turns.  [buildTurns] opens one turn for
    every block of the user whose text is not empty and is not one of
    the notices about keyboard shortcuts, in the order of the blocks,
    with that text as its question; when the first such block is a
    block of the model, a turn with the words for a missing question
    comes before them.  Blocks of the model open no other turn. *)
Theorem X25_questions_of_turns (fragmentToMarkdown : jsstring -> jsstring)
    (blocks : list (role * jsstring)) :
  map fst (buildTurns fragmentToMarkdown blocks) =
  match keptTexts fragmentToMarkdown blocks with
  | (Model, _) :: _ => [noQuestion]
  | _ => []
  end ++ userTexts (keptTexts fragmentToMarkdown blocks).
Proof.
  unfold buildTurns.
  pose proof (questions_from_start fragmentToMarkdown blocks) as H.
  destruct (fold_left (turnStep fragmentToMarkdown) blocks ([], None, []))
    as [[turns q] answers].
  rewrite pushTurn_questions. exact H.
Qed.

Lemma joinAnswers_single a : joinAnswers [a] = trim a.
Proof.
  unfold joinAnswers. cbn [List.filter].
  destruct (trim a) as [|c t] eqn:E; cbn [truthy join].
  - reflexivity.
  - exact E.
Qed.

Lemma turnStep_text (fragmentToMarkdown : jsstring -> jsstring) st block :
  truthy (Some (fragmentToMarkdown (snd block))) = true ->
  inList (fragmentToMarkdown (snd block)) shortcutNotices = false ->
  turnStep fragmentToMarkdown st block =
  let '(turns, q, answers) := st in
  match fst block with
  | User =>
      (pushTurn turns q answers, Some (fragmentToMarkdown (snd block)), [])
  | Model =>
      (turns, Some (match q with Some q0 => q0 | None => noQuestion end),
       answers ++ [fragmentToMarkdown (snd block)])
  end.
Proof.
  intros H1 H2. unfold turnStep. destruct st as [[turns q] answers].
  now rewrite H1, H2.
Qed.

(** X26: a conversation in which the user and the model take turns.
    When every fragment has a text that is kept, [buildTurns] returns
    one turn for each exchange, in order: the text of the block of the
    user as the question and the trimmed text of the block of the model
    as the answer. *)
Theorem X26_alternating_conversation
    (fragmentToMarkdown : jsstring -> jsstring)
    (exchanges : list (jsstring * jsstring)) :
  Forall (fun block =>
            truthy (Some (fragmentToMarkdown (snd block))) = true /\
            inList (fragmentToMarkdown (snd block)) shortcutNotices = false)
    (exchangeBlocks exchanges) ->
  buildTurns fragmentToMarkdown (exchangeBlocks exchanges) =
  map (fun e => (fragmentToMarkdown (fst e), trim (fragmentToMarkdown (snd e))))
    exchanges.
Proof.
  unfold buildTurns. intros H.
  assert (Hgen : forall turns q answers,
            (let '(turns', q', answers') :=
               fold_left (turnStep fragmentToMarkdown)
                 (exchangeBlocks exchanges) (turns, q, answers) in
             pushTurn turns' q' answers') =
            pushTurn turns q answers ++
            map (fun e => (fragmentToMarkdown (fst e),
                           trim (fragmentToMarkdown (snd e)))) exchanges).
  { induction exchanges as [|[f g] rest IH]; intros turns q answers.
    - cbn. now rewrite app_nil_r.
    - unfold exchangeBlocks in *. cbn [flat_map app fst snd] in *.
      apply Forall_cons in H as [[Hf1 Hf2] H].
      apply Forall_cons in H as [[Hg1 Hg2] H].
      cbn [fold_left].
      rewrite (turnStep_text _ (turns, q, answers) (User, f)) by assumption.
      cbn [fst snd].
      rewrite (turnStep_text _ _ (Model, g)) by assumption.
      cbn [fst snd app]. rewrite (IH H). cbn [map fst snd pushTurn].
      rewrite joinAnswers_single, <- app_assoc. reflexivity. }
  apply (Hgen [] None []).
Qed.

Lemma X26_alternating_conversation_witness :
  buildTurns (fun fragment => fragment)
    (exchangeBlocks [(lit "Hi", lit " Hello! "); (lit "Bye", lit "See you")]) =
  map (fun e => (fst e, trim (snd e)))
    [(lit "Hi", lit " Hello! "); (lit "Bye", lit "See you")].
Proof.
  apply (X26_alternating_conversation (fun fragment => fragment)
           [(lit "Hi", lit " Hello! "); (lit "Bye", lit "See you")]).
  repeat constructor.
Defined.

(** ** The Markdown of a fragment, normalized *)

Lemma lastOf_snoc last (x : jsstring) z : lastOf last (x ++ [z]) = Some z.
Proof. revert last; induction x as [|c x IH]; intros last; [reflexivity|apply IH]. Qed.

Lemma pairFreeAfter_app a b last (x y : jsstring) :
  pairFreeAfter a b last (x ++ y) =
  pairFreeAfter a b last x && pairFreeAfter a b (lastOf last x) y.
Proof.
  revert last; induction x as [|c x IH]; intros last; [reflexivity|].
  cbn [app pairFreeAfter lastOf]. rewrite IH. now rewrite andb_assoc.
Qed.

Lemma pairFreeAfter_start a b last s :
  pairFreeAfter a b last s = true -> pairFreeAfter a b None s = true.
Proof.
  destruct s as [|c s]; [reflexivity|]. cbn [pairFreeAfter].
  now intros [_ H]%andb_true_iff.
Qed.

Lemma pairFreeAfter_piece a b (pre z suf : jsstring) :
  pairFreeAfter a b None (pre ++ z ++ suf) = true ->
  pairFreeAfter a b None z = true.
Proof.
  rewrite !pairFreeAfter_app.
  intros [_ [H _]%andb_true_iff]%andb_true_iff.
  now apply pairFreeAfter_start in H.
Qed.

(** A run that cannot be the second of a forbidden pair, nor the first
    before what follows it. *)
Lemma pairFreeAfter_run a b last (run out : jsstring) :
  Forall (fun c => b c = false) run ->
  pairFreeAfter a b (lastOf last run) out = true ->
  pairFreeAfter a b last (run ++ out) = true.
Proof.
  intros Hrun Hout. rewrite pairFreeAfter_app, Hout, andb_true_r.
  clear Hout. revert last; induction Hrun as [|c run Hc _ IH]; intros last;
    [reflexivity|].
  cbn [pairFreeAfter]. rewrite IH, andb_true_r.
  destruct last; [|reflexivity]. now rewrite Hc, andb_false_r.
Qed.

(** *** Texts on which a pass has nothing to do *)

Lemma trailing_blanks_quiet prev last s :
  pairFreeAfter isBlank isLineFeed last s = true ->
  firesIn blanksBeforeBreak prev s = false.
Proof.
  revert prev last; induction s as [|c s IH]; intros prev last H;
    [reflexivity|].
  rewrite firesIn_cons. apply orb_false_iff. split.
  - unfold blanksBeforeBreak.
    destruct (span_spec isBlank (c :: s)) as [Hs Hrun].
    destruct (span isBlank (c :: s)) as [[|b run] [|d after]];
      try reflexivity.
    destruct (Z.eqb_spec d 10) as [->|Hd]; [exfalso|reflexivity].
    cbn [fst snd] in Hs, Hrun.
    destruct (exists_last (l := b :: run)) as (init & z & E); [discriminate|].
    rewrite E in Hs, Hrun. rewrite Hs, pairFreeAfter_app, lastOf_snoc in H.
    apply andb_true_iff in H as [_ H]. cbn [pairFreeAfter] in H.
    apply andb_true_iff in H as [H _].
    apply Forall_app in Hrun as [_ Hz]. apply Forall_cons in Hz as [Hz _].
    rewrite Hz in H. discriminate H.
  - cbn [pairFreeAfter] in H. apply andb_true_iff in H as [_ H].
    now apply (IH _ (Some c)).
Qed.

Lemma leading_blanks_quiet prev last s :
  pairFreeAfter isLineFeed isBlank last s = true ->
  firesIn blanksAfterBreak prev s = false.
Proof.
  revert prev last; induction s as [|c s IH]; intros prev last H;
    [reflexivity|].
  rewrite firesIn_cons. cbn [pairFreeAfter] in H.
  apply andb_true_iff in H as [_ H]. rewrite (IH _ _ H), orb_false_r.
  unfold blanksAfterBreak. destruct (Z.eqb_spec c 10) as [->|_];
    [|reflexivity].
  destruct s as [|d s]; [reflexivity|]. cbn [span]. cbn [pairFreeAfter] in H.
  apply andb_true_iff in H as [H _]. change (isLineFeed 10) with true in H.
  cbn [andb] in H. apply negb_true_iff in H. rewrite H. reflexivity.
Qed.

Lemma blank_pairs_quiet prev last s :
  pairFreeAfter isBlank isBlank last s = true ->
  firesIn blankRun prev s = false.
Proof.
  revert prev last; induction s as [|c s IH]; intros prev last H;
    [reflexivity|].
  rewrite firesIn_cons. cbn [pairFreeAfter] in H.
  apply andb_true_iff in H as [_ H]. rewrite (IH _ _ H), orb_false_r.
  unfold blankRun. cbn [span]. destruct (isBlank c) eqn:Hc; [|reflexivity].
  destruct s as [|d s]; [reflexivity|]. cbn [pairFreeAfter] in H.
  apply andb_true_iff in H as [H _]. rewrite Hc in H. cbn [andb] in H.
  apply negb_true_iff in H. cbn [span]. rewrite H. reflexivity.
Qed.

(** *** The passes, one match at a time *)

Lemma span_drop f (s : jsstring) :
  snd (span f s) = drop (length (fst (span f s))) s.
Proof.
  induction s as [|c s IH]; [reflexivity|]. cbn [span].
  destruct (f c); [|reflexivity].
  destruct (span f s) as [run after]. cbn [fst snd length drop] in *.
  exact IH.
Qed.

Lemma span_rest_shorter f (s : jsstring) :
  (length (snd (span f s)) <= length s)%nat.
Proof. pose proof (span_length f s). lia. Qed.

Lemma span_blank_cons c s :
  isBlank c = true ->
  span isBlank (c :: s) = (c :: fst (span isBlank s), snd (span isBlank s)).
Proof. intros H. cbn [span]. rewrite H. now destruct (span isBlank s). Qed.

Lemma span_other_cons c s :
  isBlank c = false -> span isBlank (c :: s) = ([], c :: s).
Proof. intros H. cbn [span]. now rewrite H. Qed.

Lemma replaceFrom_miss (m : matcher) repl prev c s :
  (forall p p' t, m p t = m p' t) ->
  fires (m prev (c :: s)) = false ->
  replaceFrom m repl prev 0 (c :: s) = c :: replaceFrom m repl None 0 s.
Proof.
  intros Hm H. cbn [replaceFrom].
  destruct (m prev (c :: s)) as [[|n]|]; try discriminate H;
    f_equal; now apply replaceFrom_prev.
Qed.

Lemma replaceFrom_hit (m : matcher) repl prev c s n :
  (forall p p' t, m p t = m p' t) ->
  m prev (c :: s) = Some (S n) ->
  replaceFrom m repl prev 0 (c :: s) =
  repl ++ replaceFrom m repl None 0 (drop n s).
Proof.
  intros Hm H. cbn [replaceFrom]. rewrite H. f_equal.
  now apply replaceFrom_drop.
Qed.

(** The blanks before a line feed. *)
Lemma trailing_fires prev c s :
  fires (blanksBeforeBreak prev (c :: s)) = isBlank c && breakAhead (c :: s).
Proof.
  unfold blanksBeforeBreak, breakAhead. cbn [span].
  destruct (isBlank c) eqn:Hc; [|reflexivity].
  destruct (span isBlank s) as [run [|d after]]; [reflexivity|].
  cbn [snd andb]. now destruct (d =? 10).
Qed.

Lemma trailing_hit prev c s :
  isBlank c = true -> breakAhead (c :: s) = true ->
  exists rest,
    snd (span isBlank (c :: s)) = 10 :: rest /\
    replaceFrom blanksBeforeBreak [10] prev 0 (c :: s) =
    10 :: replaceFrom blanksBeforeBreak [10] None 0 rest /\
    (length rest < length (c :: s))%nat.
Proof.
  intros Hc Hb. unfold breakAhead in Hb.
  pose proof (span_drop isBlank (c :: s)) as Hd.
  pose proof (span_length isBlank (c :: s)) as Hl.
  rewrite span_blank_cons in * by assumption. cbn [fst snd] in *.
  destruct (snd (span isBlank s)) as [|d rest] eqn:E; [discriminate|].
  apply Z.eqb_eq in Hb as ->. exists rest. split; [reflexivity|]. split.
  - rewrite (replaceFrom_hit _ _ _ _ _ (S (length (fst (span isBlank s)))))
      by (try reflexivity; unfold blanksBeforeBreak;
          rewrite span_blank_cons, E by assumption; reflexivity).
    cbn [app]. f_equal. f_equal. cbn [length drop] in Hd.
    replace (S (length (fst (span isBlank s))))
      with (length (fst (span isBlank s)) + 1)%nat by lia.
    rewrite <- drop_drop, <- Hd. reflexivity.
  - cbn [length] in *. lia.
Qed.

Lemma breakAhead_other c s :
  isBlank c = false -> breakAhead (c :: s) = (c =? 10).
Proof. intros H. unfold breakAhead. now rewrite span_other_cons. Qed.

Lemma breakAhead_blank c s :
  isBlank c = true -> breakAhead (c :: s) = breakAhead s.
Proof. intros H. unfold breakAhead. now rewrite span_blank_cons. Qed.

(** After the first pass no blank stands before a line feed. *)
Lemma trailing_removed n : forall s last,
  (length s <= n)%nat ->
  (before isBlank last = true -> breakAhead s = false) ->
  pairFreeAfter isBlank isLineFeed last
    (replaceFrom blanksBeforeBreak [10] None 0 s) = true.
Proof.
  induction n as [|n IH]; intros [|c s] last Hlen Hinv;
    try reflexivity; [cbn in Hlen; lia|].
  destruct (isBlank c) eqn:Hc.
  - destruct (breakAhead (c :: s)) eqn:Hb.
    + destruct (trailing_hit None c s Hc Hb) as (rest & _ & -> & Hshort).
      cbn [pairFreeAfter]. apply andb_true_iff. split.
      * destruct last as [x|]; [|reflexivity]. cbn [before] in Hinv.
        destruct (isBlank x); [now specialize (Hinv eq_refl)|reflexivity].
      * apply IH; [cbn [length] in *; lia|discriminate].
    + rewrite replaceFrom_miss
        by (reflexivity || (rewrite trailing_fires, Hb; apply andb_false_r)).
      cbn [pairFreeAfter]. apply andb_true_iff. split.
      * destruct last as [x|]; [|reflexivity].
        assert (E : isLineFeed c = false)
          by (unfold isLineFeed; unfold isBlank in Hc;
              destruct (Z.eqb_spec c 10) as [->|]; [discriminate Hc|reflexivity]).
        now rewrite E, andb_false_r.
      * apply IH; [cbn [length] in Hlen; lia|]. intros _.
        now rewrite <- (breakAhead_blank c s Hc).
  - rewrite replaceFrom_miss
      by (reflexivity || (rewrite trailing_fires, Hc; reflexivity)).
    cbn [pairFreeAfter]. apply andb_true_iff. split.
    + destruct last as [x|]; [|reflexivity]. cbn [before] in Hinv.
      destruct (isBlank x); [|reflexivity].
      specialize (Hinv eq_refl). rewrite breakAhead_other in Hinv by assumption.
      unfold isLineFeed. now rewrite Hinv.
    + apply IH; [cbn [length] in Hlen; lia|]. cbn [before]. congruence.
Qed.

(** The blanks after a line feed. *)
Lemma leading_step prev s :
  replaceFrom blanksAfterBreak [10] prev 0 (10 :: s) =
  10 :: replaceFrom blanksAfterBreak [10] None 0 (snd (span isBlank s)).
Proof.
  pose proof (span_drop isBlank s) as Hd.
  destruct (fst (span isBlank s)) as [|b run] eqn:E.
  - cbn [length] in Hd. rewrite drop_0 in Hd. rewrite Hd.
    apply replaceFrom_miss; [reflexivity|].
    unfold blanksAfterBreak. change (10 =? 10) with true. now rewrite E.
  - rewrite (replaceFrom_hit _ _ _ _ _ (S (length run)))
      by (try reflexivity; unfold blanksAfterBreak;
          change (10 =? 10) with true; now rewrite E).
    cbn [app]. now rewrite Hd.
Qed.

Lemma leading_other prev c s :
  c <> 10 ->
  replaceFrom blanksAfterBreak [10] prev 0 (c :: s) =
  c :: replaceFrom blanksAfterBreak [10] None 0 s.
Proof.
  intros Hc. apply replaceFrom_miss; [reflexivity|].
  unfold blanksAfterBreak. now rewrite (proj2 (Z.eqb_neq c 10)).
Qed.

Lemma noBlankFirst_rest s : noBlankFirst (snd (span isBlank s)) = true.
Proof.
  pose proof (span_stops isBlank s) as H. unfold noBlankFirst.
  destruct (snd (span isBlank s)) as [|c t]; [reflexivity|].
  destruct H as [H _]. now rewrite H.
Qed.

(** After the second pass no blank stands after a line feed. *)
Lemma leading_removed n : forall s last,
  (length s <= n)%nat ->
  (before isLineFeed last = true -> noBlankFirst s = true) ->
  pairFreeAfter isLineFeed isBlank last
    (replaceFrom blanksAfterBreak [10] None 0 s) = true.
Proof.
  induction n as [|n IH]; intros [|c s] last Hlen Hinv;
    try reflexivity; [cbn in Hlen; lia|].
  destruct (Z.eq_dec c 10) as [->|Hc].
  - rewrite leading_step. cbn [pairFreeAfter]. apply andb_true_iff. split.
    + destruct last as [x|]; [|reflexivity].
      change (isBlank 10) with false. now rewrite andb_false_r.
    + apply IH.
      * pose proof (span_rest_shorter isBlank s). cbn [length] in Hlen. lia.
      * intros _. apply noBlankFirst_rest.
  - rewrite leading_other by assumption. cbn [pairFreeAfter].
    apply andb_true_iff. split.
    + destruct last as [x|]; [|reflexivity]. cbn [before] in Hinv.
      destruct (isLineFeed x); [|reflexivity].
      specialize (Hinv eq_refl). cbn [noBlankFirst] in Hinv.
      apply negb_true_iff in Hinv. now rewrite Hinv.
    + apply IH; [cbn [length] in Hlen; lia|]. cbn [before]. unfold isLineFeed.
      now rewrite (proj2 (Z.eqb_neq c 10)).
Qed.

(** The second pass brings no blank before a line feed. *)
Lemma leading_keeps_trailing n : forall s last prevIn,
  (length s <= n)%nat ->
  (before isBlank last = true -> before isBlank prevIn = true) ->
  pairFreeAfter isBlank isLineFeed prevIn s = true ->
  pairFreeAfter isBlank isLineFeed last
    (replaceFrom blanksAfterBreak [10] None 0 s) = true.
Proof.
  induction n as [|n IH]; intros [|c s] last prevIn Hlen Hinv Hin;
    try reflexivity; [cbn in Hlen; lia|].
  cbn [pairFreeAfter] in Hin. apply andb_true_iff in Hin as [Hok Hin].
  destruct (Z.eq_dec c 10) as [->|Hc].
  - rewrite leading_step. cbn [pairFreeAfter]. apply andb_true_iff. split.
    + destruct last as [x|]; [|reflexivity]. cbn [before] in Hinv.
      destruct (isBlank x); [|reflexivity]. specialize (Hinv eq_refl).
      destruct prevIn as [y|]; [|discriminate Hinv]. cbn [before] in Hinv.
      rewrite Hinv in Hok. exact Hok.
    + destruct (span_spec isBlank s) as [Hs _].
      rewrite Hs, pairFreeAfter_app in Hin.
      apply andb_true_iff in Hin as [_ Hin].
      apply (IH _ _ (lastOf (Some 10) (fst (span isBlank s)))).
      * pose proof (span_rest_shorter isBlank s). cbn [length] in Hlen. lia.
      * discriminate.
      * exact Hin.
  - rewrite leading_other by assumption. cbn [pairFreeAfter].
    apply andb_true_iff. split.
    + destruct last as [x|]; [|reflexivity]. unfold isLineFeed.
      now rewrite (proj2 (Z.eqb_neq c 10)), andb_false_r.
    + apply (IH _ _ (Some c)); [cbn [length] in Hlen; lia|auto|exact Hin].
Qed.

Lemma lastOf_breaks last k : lastOf last (repeat 10 (S k)) = Some 10.
Proof.
  revert last; induction k as [|k IH]; intros last; [reflexivity|].
  cbn [repeat lastOf] in *. apply (IH (Some 10)).
Qed.

(** The collapse of the runs of line feeds brings no new pair. *)
Lemma collapse_keeps_pairs a b n : forall s prev,
  (length s <= n)%nat ->
  pairFreeAfter a b prev s = true ->
  pairFreeAfter a b prev (replaceFrom breakRun [10; 10] None 0 s) = true.
Proof.
  induction n as [|n IH]; intros [|c s] prev Hlen Hin;
    try reflexivity; [cbn in Hlen; lia|].
  destruct (Nat.leb_spec 3 (lead (c :: s))) as [Hrun|Hrun].
  - rewrite collapse_run by assumption.
    destruct (lead_split (c :: s)) as [Hs _].
    destruct (lead (c :: s)) as [|[|[|k]]] eqn:E; try lia.
    rewrite Hs in Hin.
    change (repeat 10 (S (S (S k)))) with ([10; 10] ++ repeat 10 (S k)) in Hin.
    rewrite <- app_assoc, !pairFreeAfter_app in Hin.
    apply andb_true_iff in Hin as [H2 Hin].
    apply andb_true_iff in Hin as [_ Hin].
    rewrite lastOf_breaks in Hin.
    cbn [pairFreeAfter] in H2 |- *.
    apply andb_true_iff in H2 as [H21 H22].
    apply andb_true_iff in H22 as [H22 _].
    rewrite H21, H22. cbn [andb].
    apply IH; [|exact Hin].
    rewrite length_drop. cbn [length] in *. lia.
  - rewrite collapse_keep by assumption. cbn [pairFreeAfter] in *.
    apply andb_true_iff in Hin as [H1 Hin]. rewrite H1. cbn [andb].
    apply IH; [cbn [length] in Hlen; lia|exact Hin].
Qed.

(** The runs of blanks. *)
Lemma blanks_fire prev s :
  (2 <= length (fst (span isBlank s)))%nat ->
  replaceFrom blankRun [32] prev 0 s =
  32 :: replaceFrom blankRun [32] None 0 (snd (span isBlank s)).
Proof.
  intros H. pose proof (span_drop isBlank s) as Hd.
  destruct s as [|c s]; [cbn in H; lia|].
  destruct (length (fst (span isBlank (c :: s)))) as [|k] eqn:E; [lia|].
  rewrite (replaceFrom_hit _ _ _ _ _ k)
    by (try reflexivity; unfold blankRun; rewrite E;
        now rewrite (proj2 (Nat.leb_le 2 (S k))) by lia).
  cbn [app]. now rewrite Hd.
Qed.

Lemma blanks_keep prev c s :
  (length (fst (span isBlank (c :: s))) < 2)%nat ->
  replaceFrom blankRun [32] prev 0 (c :: s) =
  c :: replaceFrom blankRun [32] None 0 s.
Proof.
  intros H. apply replaceFrom_miss; [reflexivity|].
  unfold blankRun. now rewrite (proj2 (Nat.leb_gt 2 _)) by assumption.
Qed.

Lemma single_blank c s :
  isBlank c = true -> (length (fst (span isBlank (c :: s))) < 2)%nat ->
  noBlankFirst s = true.
Proof.
  intros Hc. rewrite span_blank_cons by assumption. cbn [fst length].
  destruct s as [|d s]; [reflexivity|]. cbn [span noBlankFirst].
  destruct (isBlank d); [|reflexivity].
  destruct (span isBlank s). cbn [fst length]. lia.
Qed.

(** After the pass over the runs of blanks no two blanks stand
    together. *)
Lemma blanks_collapsed n : forall s last,
  (length s <= n)%nat ->
  (before isBlank last = true -> noBlankFirst s = true) ->
  pairFreeAfter isBlank isBlank last (replaceFrom blankRun [32] None 0 s)
  = true.
Proof.
  induction n as [|n IH]; intros [|c s] last Hlen Hinv;
    try reflexivity; [cbn in Hlen; lia|].
  destruct (Nat.leb_spec 2 (length (fst (span isBlank (c :: s)))))
    as [Hrun|Hrun].
  - rewrite blanks_fire by assumption. cbn [pairFreeAfter].
    apply andb_true_iff. split.
    + destruct last as [x|]; [|reflexivity]. cbn [before] in Hinv.
      destruct (isBlank x); [|reflexivity]. specialize (Hinv eq_refl).
      cbn [noBlankFirst] in Hinv. apply negb_true_iff in Hinv.
      rewrite span_other_cons in Hrun by assumption. cbn in Hrun. lia.
    + apply IH.
      * pose proof (span_length isBlank (c :: s)). cbn [length] in *. lia.
      * intros _. apply noBlankFirst_rest.
  - rewrite blanks_keep by assumption. cbn [pairFreeAfter].
    apply andb_true_iff. split.
    + destruct last as [x|]; [|reflexivity]. cbn [before] in Hinv.
      destruct (isBlank x); [|reflexivity]. specialize (Hinv eq_refl).
      cbn [noBlankFirst] in Hinv. apply negb_true_iff in Hinv.
      now rewrite Hinv.
    + apply IH; [cbn [length] in Hlen; lia|]. cbn [before]. intros Hc.
      now apply (single_blank c).
Qed.

(** The pass over the runs of blanks keeps the pairs of a blank and a
    line feed apart: a blank stands for the run that it replaces. *)
Lemma blanks_keep_pairs (a b : Z -> bool) n :
  (forall x, isBlank x = true -> a x = a 32 /\ b x = b 32) ->
  forall s last prevIn,
  (length s <= n)%nat ->
  option_map a last = option_map a prevIn ->
  pairFreeAfter a b prevIn s = true ->
  pairFreeAfter a b last (replaceFrom blankRun [32] None 0 s) = true.
Proof.
  intros Hblind. induction n as [|n IH]; intros [|c s] last prevIn Hlen Hinv Hin;
    try reflexivity; [cbn in Hlen; lia|].
  destruct (Nat.leb_spec 2 (length (fst (span isBlank (c :: s)))))
    as [Hrun|Hrun].
  - rewrite blanks_fire by assumption.
    assert (Hc : isBlank c = true).
    { destruct (isBlank c) eqn:Hc; [reflexivity|].
      rewrite span_other_cons in Hrun by assumption. cbn in Hrun. lia. }
    destruct (span_spec isBlank (c :: s)) as [Hs Hall].
    rewrite span_blank_cons in * by assumption. cbn [fst snd] in *.
    rewrite Hs in Hin. change (c :: fst (span isBlank s) ++ snd (span isBlank s))
      with ((c :: fst (span isBlank s)) ++ snd (span isBlank s)) in Hin.
    rewrite pairFreeAfter_app in Hin. apply andb_true_iff in Hin as [H1 Hin].
    cbn [pairFreeAfter] in H1 |- *. apply andb_true_iff in H1 as [H1 _].
    apply andb_true_iff. split.
    + destruct last as [x|], prevIn as [y|]; try discriminate Hinv;
        [|reflexivity].
      injection Hinv as Hinv. destruct (Hblind c Hc) as [_ Hb].
      now rewrite Hinv, <- Hb.
    + apply (IH _ _ (lastOf prevIn (c :: fst (span isBlank s)))).
      * pose proof (span_length isBlank s). cbn [length] in *. lia.
      * destruct (exists_last (l := c :: fst (span isBlank s)))
          as (init & z & E); [discriminate|].
        rewrite E, lastOf_snoc. rewrite E in Hall.
        apply Forall_app in Hall as [_ Hz].
        apply Forall_cons in Hz as [Hz _].
        destruct (Hblind z Hz) as [Ha _]. cbn [option_map]. now rewrite Ha.
      * exact Hin.
  - rewrite blanks_keep by assumption. cbn [pairFreeAfter] in *.
    apply andb_true_iff in Hin as [H1 Hin]. apply andb_true_iff. split.
    + destruct last as [x|], prevIn as [y|]; try discriminate Hinv;
        [|reflexivity].
      injection Hinv as Hinv. now rewrite Hinv.
    + apply (IH _ _ (Some c)); [cbn [length] in Hlen; lia|reflexivity|exact Hin].
Qed.

Lemma occurs_after_blanks (run after : jsstring) :
  Forall (fun c => isBlank c = true) run ->
  occurs [10; 10; 10] (run ++ after) = occurs [10; 10; 10] after.
Proof.
  induction 1 as [|c run Hc _ IH]; [reflexivity|]. cbn [app].
  rewrite occurs_breaks_other; [exact IH|]. intros ->. discriminate Hc.
Qed.

(** The pass over the runs of blanks brings no line feeds together. *)
Lemma blanks_keep_breaks n : forall s,
  (length s <= n)%nat ->
  lead (replaceFrom blankRun [32] None 0 s) = lead s /\
  occurs [10; 10; 10] (replaceFrom blankRun [32] None 0 s) =
  occurs [10; 10; 10] s.
Proof.
  induction n as [|n IH]; intros [|c s] Hlen;
    try (split; reflexivity); [cbn in Hlen; lia|].
  destruct (Nat.leb_spec 2 (length (fst (span isBlank (c :: s)))))
    as [Hrun|Hrun].
  - rewrite blanks_fire by assumption.
    assert (Hc : isBlank c = true).
    { destruct (isBlank c) eqn:Hc; [reflexivity|].
      rewrite span_other_cons in Hrun by assumption. cbn in Hrun. lia. }
    assert (Hc10 : c <> 10) by (intros ->; discriminate Hc).
    destruct (span_spec isBlank (c :: s)) as [Hs Hall].
    destruct (IH (snd (span isBlank (c :: s)))) as [_ IH2].
    { pose proof (span_length isBlank (c :: s)). cbn [length] in *. lia. }
    rewrite !lead_cons_other by (assumption || discriminate).
    split; [reflexivity|].
    rewrite occurs_breaks_other by discriminate. rewrite IH2.
    rewrite Hs at 2. now rewrite occurs_after_blanks.
  - rewrite blanks_keep by assumption.
    destruct (IH s) as [IH1 IH2]; [cbn [length] in Hlen; lia|].
    destruct (Z.eq_dec c 10) as [->|Hc].
    + rewrite !lead_cons_break, !occurs_breaks, IH1, IH2. now split.
    + rewrite !lead_cons_other, !occurs_breaks_other by assumption.
      now split.
Qed.

(** *** The normal form *)

Lemma normalized_pairs text :
  let y := replaceRe blankRun [32]
             (replaceRe breakRun [10; 10]
                (replaceRe blanksAfterBreak [10]
                   (replaceRe blanksBeforeBreak [10]
                      (replaceAll [13] [10]
                         (replaceAll [13; 10] [10] text))))) in
  ~ In 13 y /\
  pairFreeAfter isBlank isLineFeed None y = true /\
  pairFreeAfter isLineFeed isBlank None y = true /\
  occurs [10; 10; 10] y = false /\
  pairFreeAfter isBlank isBlank None y = true.
Proof.
  cbv zeta. unfold replaceRe.
  set (t0 := replaceAll [13] [10] (replaceAll [13; 10] [10] text)).
  set (t1 := replaceFrom blanksBeforeBreak [10] None 0 t0).
  set (t2 := replaceFrom blanksAfterBreak [10] None 0 t1).
  set (t3 := replaceFrom breakRun [10; 10] None 0 t2).
  assert (H1 : pairFreeAfter isBlank isLineFeed None t1 = true)
    by (apply (trailing_removed (length t0)); [lia|discriminate]).
  assert (H2 : pairFreeAfter isBlank isLineFeed None t2 = true /\
               pairFreeAfter isLineFeed isBlank None t2 = true).
  { split.
    - apply (leading_keeps_trailing (length t1) _ _ None);
        [lia|discriminate|exact H1].
    - apply (leading_removed (length t1)); [lia|discriminate]. }
  destruct H2 as [H21 H22].
  assert (H31 : pairFreeAfter isBlank isLineFeed None t3 = true)
    by (apply (collapse_keeps_pairs _ _ (length t2)); [lia|exact H21]).
  assert (H32 : pairFreeAfter isLineFeed isBlank None t3 = true)
    by (apply (collapse_keeps_pairs _ _ (length t2)); [lia|exact H22]).
  assert (H33 : occurs [10; 10; 10] t3 = false) by apply collapse_no_run.
  split; [|split; [|split; [|split]]].
  - intros H.
    apply replaceFrom_chars in H as [H|[H|[]]]; [|discriminate H].
    apply replaceFrom_chars in H as [H|[H|[H|[]]]]; try discriminate H.
    apply replaceFrom_chars in H as [H|[H|[]]]; [|discriminate H].
    apply replaceFrom_chars in H as [H|[H|[]]]; [|discriminate H].
    now apply normalized_no_return in H.
  - apply (blanks_keep_pairs _ _ (length t3)) with (prevIn := None);
      [|lia|reflexivity|exact H31].
    intros x Hx. split; [now rewrite Hx|].
    unfold isLineFeed. destruct (Z.eqb_spec x 10) as [->|]; [discriminate Hx|].
    reflexivity.
  - apply (blanks_keep_pairs _ _ (length t3)) with (prevIn := None);
      [|lia|reflexivity|exact H32].
    intros x Hx. split; [|now rewrite Hx].
    unfold isLineFeed. destruct (Z.eqb_spec x 10) as [->|]; [discriminate Hx|].
    reflexivity.
  - destruct (blanks_keep_breaks (length t3) t3) as [_ ->]; [lia|exact H33].
  - apply (blanks_collapsed (length t3)); [lia|discriminate].
Qed.

(** X27: the Markdown of a fragment is normalized once and for all.
    [normalizeMarkdown] is idempotent: in the text that it returns no
    carriage return is left, no blank stands next to a line feed, no
    three line feeds and no two blanks stand together, and no white
    space stands at either end, so that a second application finds
    nothing to do. *)
Theorem X27_normalizeMarkdown_idempotent (text : jsstring) :
  normalizeMarkdown (normalizeMarkdown text) = normalizeMarkdown text.
Proof.
  destruct (normalized_pairs text) as (Hcr & Hbl & Hlb & Hrun & Hbb).
  cbv zeta in *. unfold normalizeMarkdown at 2.
  set (y := replaceRe blankRun [32] _) in *.
  destruct (trim_infix y) as (pre & suf & Ey).
  assert (Zcr : ~ In 13 (trim y)) by (intros H%trim_chars; contradiction).
  assert (Zbl : pairFreeAfter isBlank isLineFeed None (trim y) = true)
    by (apply (pairFreeAfter_piece _ _ pre _ suf); now rewrite <- Ey).
  assert (Zlb : pairFreeAfter isLineFeed isBlank None (trim y) = true)
    by (apply (pairFreeAfter_piece _ _ pre _ suf); now rewrite <- Ey).
  assert (Zbb : pairFreeAfter isBlank isBlank None (trim y) = true)
    by (apply (pairFreeAfter_piece _ _ pre _ suf); now rewrite <- Ey).
  assert (Zrun : occurs [10; 10; 10] (trim y) = false) by now apply occurs_trim.
  unfold normalizeMarkdown, replaceAll, replaceRe.
  rewrite (replaceFrom_quiet (literal [13; 10])) by now apply literal_quiet.
  rewrite (replaceFrom_quiet (literal [13])) by now apply literal_quiet.
  rewrite (replaceFrom_quiet blanksBeforeBreak)
    by now apply (trailing_blanks_quiet None None).
  rewrite (replaceFrom_quiet blanksAfterBreak)
    by now apply (leading_blanks_quiet None None).
  rewrite (replaceFrom_quiet breakRun) by now apply breakRun_quiet.
  rewrite (replaceFrom_quiet blankRun)
    by now apply (blank_pairs_quiet None None).
  apply trim_idempotent.
Qed.

(** ** The sections of an archive *)

Lemma startsIn_clear (needle0 x rest : jsstring) :
  needle0 <> [] -> occurs needle0 (x ++ removelast needle0) = false ->
  startsIn needle0 x (needle0 ++ rest) = false.
Proof.
  intros Hne. induction x as [|c x IH]; [reflexivity|].
  cbn [app occurs startsIn]. intros [H1 H2]%orb_false_iff.
  rewrite (IH H2), orb_false_r.
  assert (E : c :: x ++ needle0 ++ rest =
              (c :: x ++ removelast needle0) ++ [List.last needle0 0] ++ rest).
  { rewrite (app_removelast_last 0 Hne) at 1. cbn [app].
    now rewrite <- !app_assoc. }
  rewrite E, startsWith_app_long; [exact H1|].
  cbn [length]. rewrite length_app.
  assert (Hl : length needle0 = S (length (removelast needle0))).
  { rewrite (app_removelast_last 0 Hne) at 1. rewrite length_app.
    cbn [length]. lia. }
  lia.
Qed.

Lemma startsIn_nil (needle0 x : jsstring) :
  occurs needle0 x = false -> startsIn needle0 x [] = false.
Proof.
  induction x as [|c x IH]; [reflexivity|].
  cbn [occurs startsIn]. intros [H1 H2]%orb_false_iff.
  now rewrite app_nil_r, H1, IH.
Qed.

Lemma splitFrom_clear marker prev cur (x y : jsstring) :
  startsIn marker x y = false ->
  splitFrom (literal marker) prev 0 cur (x ++ y) =
  splitFrom (literal marker) None 0 (cur ++ x) y.
Proof.
  revert prev cur; induction x as [|c x IH]; intros prev cur H.
  - rewrite app_nil_r. apply splitFrom_literal_prev.
  - cbn [startsIn] in H. apply orb_false_iff in H as [H1 H2].
    cbn [app splitFrom]. unfold literal at 1.
    change (c :: x ++ y) with ((c :: x) ++ y). rewrite H1.
    rewrite (IH _ _ H2). now rewrite <- app_assoc.
Qed.

Lemma splitFrom_skipped pat prev cur (a rest : jsstring) :
  splitFrom (literal pat) prev (length a) cur (a ++ rest) =
  splitFrom (literal pat) None 0 cur rest.
Proof.
  revert prev; induction a as [|c a IH]; intros prev.
  - apply splitFrom_literal_prev.
  - cbn [length app splitFrom]. apply IH.
Qed.

Lemma splitFrom_marker marker prev cur (rest : jsstring) :
  marker <> [] ->
  splitFrom (literal marker) prev 0 cur (marker ++ rest) =
  cur :: splitFrom (literal marker) None 0 [] rest.
Proof.
  intros Hne. destruct marker as [|a m]; [contradiction|].
  cbn [app splitFrom]. unfold literal at 1.
  change (a :: m ++ rest) with ((a :: m) ++ rest).
  rewrite startsWith_app_self. cbn [length]. f_equal. apply splitFrom_skipped.
Qed.

(** Splitting at a marker gives back the texts that the marker was put
    between. *)
Lemma split_sections marker (preamble : jsstring) (secs : list jsstring) :
  marker <> [] ->
  Forall (fun x => occurs marker (x ++ removelast marker) = false)
    (preamble :: secs) ->
  split marker (preamble ++ flat_map (fun sec => marker ++ sec) secs) =
  preamble :: secs.
Proof.
  intros Hne H. unfold split, splitRe.
  change preamble with ([] ++ preamble) at 2.
  generalize (@nil Z) as cur. revert preamble H.
  induction secs as [|sec secs IH]; intros x H cur.
  - apply Forall_cons in H as [Hx _]. cbn [flat_map].
    rewrite splitFrom_clear
      by (apply startsIn_nil; now apply occurs_app_l in Hx).
    reflexivity.
  - apply Forall_cons in H as [Hx H]. cbn [flat_map].
    rewrite <- app_assoc.
    rewrite splitFrom_clear by now apply startsIn_clear.
    rewrite splitFrom_marker by assumption. f_equal.
    apply (IH sec H []).
Qed.

Lemma indexOf_first (x needle0 rest : jsstring) :
  needle0 <> [] -> occurs needle0 (x ++ removelast needle0) = false ->
  indexOf (x ++ needle0 ++ rest) needle0 0 = len x.
Proof.
  intros Hne H. rewrite indexOf_at_start.
  rewrite indexOfFrom_skip by now apply startsIn_clear.
  rewrite indexOfFrom_here. lia.
Qed.

(** X28: the sections of an archive.  When the text of the file is a
    header block, a blank line, and then a preamble and sections, each
    section after a marker (two hyphens and the boundary that the
    content type of the header block declares), and the marker starts
    nowhere else, [parseMhtmlParts] parses exactly these sections, in
    order: the preamble is dropped and nothing else is. *)
Theorem X28_sections_between_markers (input : list Z)
    (head boundary preamble : jsstring) (secs : list jsstring) :
  decodeLatin1 input =
    head ++ [13; 10; 13; 10] ++ preamble ++
    flat_map (fun sec => (lit "--" ++ boundary) ++ sec) secs ->
  occurs [13; 10; 13; 10] (head ++ [13; 10; 13]) = false ->
  getParam (orElse (parseHeaders head !! lit "content-type") [])
    (lit "boundary") = Some boundary ->
  boundary <> [] ->
  Forall (fun x => occurs (lit "--" ++ boundary)
                     (x ++ removelast (lit "--" ++ boundary)) = false)
    (preamble :: secs) ->
  parseMhtmlParts input = parseSections secs [].
Proof.
  intros Hfile Hhead Hparam Hne Hclear. unfold parseMhtmlParts. cbv zeta.
  rewrite Hfile.
  set (body := preamble ++ flat_map (fun sec => (lit "--" ++ boundary) ++ sec)
                             secs) in *.
  assert (Hidx : indexOf (head ++ [13; 10; 13; 10] ++ body) [13; 10; 13; 10] 0
                 = len head) by (apply indexOf_first; [discriminate|exact Hhead]).
  assert (Hsep : headerSeparator (head ++ [13; 10; 13; 10] ++ body) =
                 [13; 10; 13; 10]).
  { unfold headerSeparator. rewrite Hidx.
    now rewrite (proj2 (Z.leb_le 0 (len head))) by apply len_nonneg. }
  rewrite Hsep, Hidx.
  rewrite (proj2 (Z.ltb_ge (len head) 0)) by apply len_nonneg.
  rewrite slice_prefix, Hparam.
  destruct boundary as [|b0 boundary]; [contradiction|]. cbn [truthy negb orElse].
  replace (head ++ [13; 10; 13; 10] ++ body)
    with ((head ++ [13; 10; 13; 10]) ++ body) by now rewrite <- app_assoc.
  replace (len head + len [13; 10; 13; 10])
    with (len (head ++ [13; 10; 13; 10])) by now rewrite len_app.
  rewrite sliceFrom_suffix. unfold body.
  rewrite split_sections by (assumption || discriminate).
  reflexivity.
Qed.

Lemma X28_sections_between_markers_witness :
  parseMhtmlParts sampleFile =
  parseSections
    [[13; 10] ++ lit "Content-Type: Text/HTML; charset=UTF-8" ++ [13; 10] ++
     lit "Content-Transfer-Encoding: quoted-printable" ++ [13; 10; 13; 10] ++
     lit "<img src=3Dcid:img1>" ++ [13; 10];
     [13; 10] ++ lit "Content-Type: image/png" ++ [13; 10] ++
     lit "Content-ID: <img1>" ++ [13; 10] ++
     lit "Content-Transfer-Encoding: base64" ++ [13; 10; 13; 10] ++
     lit "iVBO" ++ [13; 10] ++ lit "Rw==" ++ [13; 10];
     lit "--" ++ [13; 10]] [].
Proof.
  apply (X28_sections_between_markers sampleFile
           (lit "MIME-Version: 1.0" ++ [13; 10] ++
            lit "Content-Type: multipart/related;" ++ [13; 10] ++
            [9] ++ lit "type=text/html; boundary=QQ")
           (lit "QQ") []).
  - vm_compute. reflexivity.
  - vm_compute. reflexivity.
  - vm_compute. reflexivity.
  - discriminate.
  - repeat constructor; vm_compute; reflexivity.
Defined.

Lemma stripTrailingBreak_line (body : jsstring) :
  stripTrailingBreak (body ++ [13; 10]) = body.
Proof.
  unfold stripTrailingBreak, endsWith. rewrite rev_app_distr.
  cbn [rev app startsWith]. change (10 =? 10) with true.
  change (13 =? 13) with true. cbn [andb].
  rewrite length_app. cbn [length].
  replace (length body + 2 - 2)%nat with (length body) by lia.
  now rewrite take_app_length.
Qed.

(** X29: a section of an archive.  In a section that is a line break, a
    header block that holds no blank line and does not start with two
    hyphens, a blank line, a body and a line break, the headers of the
    part are read from the header block and its body is the text
    between the blank line and the last line break, whatever the body
    holds; a section that starts with two hyphens, as the one after the
    closing marker does, gives no part. *)
Theorem X29_section_headers_and_body (h body : jsstring) :
  startsWith h (lit "--") = false ->
  occurs [13; 10; 13; 10] (h ++ [13; 10; 13]) = false ->
  sectionSplit ([13; 10] ++ h ++ [13; 10; 13; 10] ++ body ++ [13; 10]) =
    Some (parseHeaders h, body) /\
  forall rest, parseSection (lit "--" ++ rest) = Returned None.
Proof.
  intros Hh Hsep. split; [|reflexivity].
  unfold sectionSplit. cbv zeta.
  change (stripLeadingBreak ([13; 10] ++ h ++ [13; 10; 13; 10] ++ body ++
                             [13; 10]))
    with (h ++ [13; 10; 13; 10] ++ body ++ [13; 10]).
  assert (Hidx : indexOf (h ++ [13; 10; 13; 10] ++ body ++ [13; 10])
                   [13; 10; 13; 10] 0 = len h)
    by (apply indexOf_first; [discriminate|exact Hsep]).
  assert (Hps : headerSeparator (h ++ [13; 10; 13; 10] ++ body ++ [13; 10]) =
                [13; 10; 13; 10]).
  { unfold headerSeparator. rewrite Hidx.
    now rewrite (proj2 (Z.leb_le 0 (len h))) by apply len_nonneg. }
  assert (Hstart : startsWith (h ++ [13; 10; 13; 10] ++ body ++ [13; 10])
                     (lit "--") = false).
  { destruct h as [|c [|d h]]; [reflexivity| |exact Hh].
    cbn [app lit map list_ascii_of_string startsWith].
    now rewrite andb_false_r. }
  assert (Hin :
    (if startsWith (h ++ [13; 10; 13; 10] ++ body ++ [13; 10]) (lit "--")
     then None
     else
       let sec := h ++ [13; 10; 13; 10] ++ body ++ [13; 10] in
       let partSep := headerSeparator sec in
       let idx := indexOf sec partSep 0 in
       if idx <? 0 then None
       else
         Some (parseHeaders (slice sec 0 idx),
               stripTrailingBreak (sliceFrom sec (idx + len partSep)))) =
    Some (parseHeaders h, body)).
  { cbv zeta. rewrite Hstart, Hps, Hidx.
    rewrite (proj2 (Z.ltb_ge (len h) 0)) by apply len_nonneg.
    rewrite slice_prefix.
    replace (h ++ [13; 10; 13; 10] ++ body ++ [13; 10])
      with ((h ++ [13; 10; 13; 10]) ++ body ++ [13; 10])
      by now rewrite <- app_assoc.
    replace (len h + len [13; 10; 13; 10]) with (len (h ++ [13; 10; 13; 10]))
      by now rewrite len_app.
    now rewrite sliceFrom_suffix, stripTrailingBreak_line. }
  cbv zeta in Hin.
  destruct (h ++ [13; 10; 13; 10] ++ body ++ [13; 10]) as [|c0 t0] eqn:E;
    [destruct h; discriminate E|].
  exact Hin.
Qed.

Lemma X29_section_headers_and_body_witness :
  sectionSplit ([13; 10] ++ lit "Content-Type: image/png" ++ [13; 10] ++
                lit "Content-ID: <img1>" ++ [13; 10; 13; 10] ++
                (lit "--x" ++ [13; 10; 13; 10; 0; 255]) ++ [13; 10]) =
  Some (parseHeaders (lit "Content-Type: image/png" ++ [13; 10] ++
                      lit "Content-ID: <img1>"),
        lit "--x" ++ [13; 10; 13; 10; 0; 255]).
Proof.
  apply (X29_section_headers_and_body
           (lit "Content-Type: image/png" ++ [13; 10] ++
            lit "Content-ID: <img1>")
           (lit "--x" ++ [13; 10; 13; 10; 0; 255])); vm_compute; reflexivity.
Defined.

(** ** Tables: the rendering and the specification *)

(** *** White space collapsed is words joined *)

Lemma trimEnd_cons c x :
  trimEnd (c :: x) =
  if isWhiteSpace c
  then match trimEnd x with [] => [] | y => c :: y end
  else c :: trimEnd x.
Proof.
  induction x as [|d x IH] using rev_ind.
  - change [c] with ([] ++ [c]). rewrite trimEnd_snoc.
    now destruct (isWhiteSpace c).
  - change (c :: x ++ [d]) with ((c :: x) ++ [d]). rewrite !trimEnd_snoc.
    destruct (isWhiteSpace d); [exact IH|].
    destruct (isWhiteSpace c); [|reflexivity].
    now destruct x.
Qed.

Lemma wordsFrom_nonempty cur s :
  cur <> [] -> wordsFrom cur s <> [].
Proof.
  revert cur; induction s as [|c s IH]; intros cur Hcur; cbn [wordsFrom].
  - now destruct cur.
  - destruct (isWhiteSpace c); [now destruct cur|].
    apply IH. now destruct cur.
Qed.

Lemma wordsFrom_words cur s :
  Forall (fun w => w <> []) (wordsFrom cur s).
Proof.
  revert cur; induction s as [|c s IH]; intros cur; cbn [wordsFrom].
  - destruct cur; repeat constructor. discriminate.
  - destruct (isWhiteSpace c); [|apply IH].
    destruct cur; [apply IH|]. constructor; [discriminate|apply IH].
Qed.

Lemma join_words_nonempty l :
  Forall (fun w : jsstring => w <> []) l -> l <> [] -> join [32] l <> [].
Proof.
  intros Hl Hne. destruct l as [|w l]; [contradiction|].
  apply Forall_cons in Hl as [Hw _].
  destruct l; cbn [join]; [assumption|].
  destruct w; [contradiction|discriminate].
Qed.

Lemma join_word_cons (w : jsstring) l :
  join [32] (w :: l) =
  w ++ match l with [] => [] | _ => 32 :: join [32] l end.
Proof. destruct l; [now rewrite app_nil_r|reflexivity]. Qed.

(** The scan of the collapse at a code unit, outside a run and at the
    start of what is left of a run. *)
Lemma collapse_outside prev c r :
  replaceFrom whiteSpaceRun [32] prev 0 (c :: r) =
  if isWhiteSpace c
  then 32 :: replaceFrom whiteSpaceRun [32] (Some c)
               (length (fst (span isWhiteSpace r))) r
  else c :: replaceFrom whiteSpaceRun [32] (Some c) 0 r.
Proof.
  cbn [replaceFrom]. unfold whiteSpaceRun at 1. cbn [span].
  destruct (isWhiteSpace c); [|reflexivity].
  destruct (span isWhiteSpace r) as [run after]. reflexivity.
Qed.

Lemma collapse_inside prev c r :
  replaceFrom whiteSpaceRun [32] prev
    (length (fst (span isWhiteSpace (c :: r)))) (c :: r) =
  if isWhiteSpace c
  then replaceFrom whiteSpaceRun [32] (Some c)
         (length (fst (span isWhiteSpace r))) r
  else c :: replaceFrom whiteSpaceRun [32] (Some c) 0 r.
Proof.
  cbn [span]. destruct (isWhiteSpace c) eqn:Hc.
  - destruct (span isWhiteSpace r) as [run after]. reflexivity.
  - cbn [fst length]. rewrite collapse_outside. now rewrite Hc.
Qed.

Lemma collapse_inside_head prev s :
  trimStart (replaceFrom whiteSpaceRun [32] prev
               (length (fst (span isWhiteSpace s))) s) =
  replaceFrom whiteSpaceRun [32] prev
    (length (fst (span isWhiteSpace s))) s.
Proof.
  revert prev; induction s as [|c s IH]; intros prev; [reflexivity|].
  rewrite collapse_inside. destruct (isWhiteSpace c) eqn:Hc; [apply IH|].
  cbn [trimStart]. now rewrite Hc.
Qed.

Lemma collapse_words s :
  (forall prev cur, cur <> [] ->
     cur ++ trimEnd (replaceFrom whiteSpaceRun [32] prev 0 s) =
     join [32] (wordsFrom cur s)) /\
  (forall prev,
     trimEnd (replaceFrom whiteSpaceRun [32] prev
                (length (fst (span isWhiteSpace s))) s) =
     join [32] (wordsFrom [] s)).
Proof.
  induction s as [|c s [IH1 IH2]].
  - split.
    + intros prev cur Hcur. cbn [replaceFrom wordsFrom].
      change (trimEnd []) with (@nil Z). rewrite app_nil_r.
      now destruct cur.
    + reflexivity.
  - split.
    + intros prev cur Hcur. rewrite collapse_outside. cbn [wordsFrom].
      destruct (isWhiteSpace c) eqn:Hc.
      * rewrite trimEnd_cons. change (isWhiteSpace 32) with true. cbv iota.
        rewrite IH2.
        assert (E : wordsFrom cur (c :: s) = cur :: wordsFrom [] s)
          by (cbn [wordsFrom]; rewrite Hc; now destruct cur).
        destruct cur as [|d cur]; [contradiction|].
        rewrite join_word_cons.
        destruct (wordsFrom [] s) as [|w l] eqn:Ew; [reflexivity|].
        destruct (join [32] (w :: l)) eqn:Ej; [|reflexivity].
        exfalso. apply (join_words_nonempty (w :: l));
          [rewrite <- Ew; apply wordsFrom_words|discriminate|exact Ej].
      * rewrite trimEnd_cons, Hc.
        rewrite <- (IH1 (Some c) (cur ++ [c])) by now destruct cur.
        now rewrite <- app_assoc.
    + intros prev. rewrite collapse_inside. cbn [wordsFrom].
      destruct (isWhiteSpace c) eqn:Hc; [apply IH2|].
      rewrite trimEnd_cons, Hc. change ([] ++ [c]) with [c].
      now rewrite <- (IH1 (Some c) [c]) by discriminate.
Qed.

Lemma wordsFrom_blanks cur s :
  wordsFrom cur (map (fun c => if 160 =? c then 32 else c) s) =
  wordsFrom cur s.
Proof.
  revert cur; induction s as [|c s IH]; intros cur; [reflexivity|].
  cbn [map wordsFrom]. destruct (Z.eqb_spec 160 c) as [<-|Hc].
  - change (isWhiteSpace 32) with true. change (isWhiteSpace 160) with true.
    now rewrite IH.
  - now rewrite !IH.
Qed.

Lemma blanks_map s :
  replaceAll [160] [32] s = map (fun c => if 160 =? c then 32 else c) s.
Proof.
  unfold replaceAll, replaceRe. rewrite replaceFrom_single.
  induction s as [|c s IH]; [reflexivity|]. cbn [flat_map map].
  rewrite IH. now destruct (160 =? c).
Qed.

(** The text of a cell before the pipes are escaped: the words of the
    text with one space between them. *)
Lemma normalizeText_words text :
  normalizeText text = join [32] (words text).
Proof.
  unfold normalizeText, words. rewrite blanks_map.
  rewrite <- (wordsFrom_blanks [] text).
  generalize (map (fun c => if 160 =? c then 32 else c) text) as s.
  intros s. unfold trim, replaceRe. destruct s as [|c r]; [reflexivity|].
  destruct (collapse_words r) as [H1 H2].
  rewrite collapse_outside. cbn [wordsFrom].
  destruct (isWhiteSpace c) eqn:Hc.
  - cbn [trimStart]. change (isWhiteSpace 32) with true. cbv iota.
    rewrite collapse_inside_head. apply H2.
  - cbn [trimStart]. rewrite Hc, trimEnd_cons, Hc.
    change ([] ++ [c]) with [c].
    now rewrite <- (H1 (Some c) [c]) by discriminate.
Qed.

Lemma cellText_shown c : cellText c = shownCell c.
Proof.
  unfold cellText, shownCell, escapePipes.
  rewrite normalizeText_words. unfold replaceAll, replaceRe.
  rewrite replaceFrom_single. apply flat_map_ext. intros d.
  now rewrite Z.eqb_sym.
Qed.

(** *** Rows between pipes *)

Lemma renderRow_shown (r : list jsstring) :
  r <> [] ->
  renderRow r = lit "|" ++ flat_map (fun c => [32] ++ c ++ lit " |") r.
Proof.
  intros Hr. unfold renderRow.
  change (lit "| ") with ([124] ++ [32]). change (lit "|") with [124].
  rewrite <- app_assoc. f_equal.
  induction r as [|c r IH]; [contradiction|].
  destruct r as [|c' r].
  - cbn [join flat_map]. now rewrite app_nil_r.
  - change (join (lit " | ") (c :: c' :: r))
      with (c ++ lit " | " ++ join (lit " | ") (c' :: r)).
    change (flat_map (fun c0 => [32] ++ c0 ++ lit " |") (c :: c' :: r))
      with (([32] ++ c ++ lit " |") ++
            flat_map (fun c0 => [32] ++ c0 ++ lit " |") (c' :: r)).
    rewrite <- IH by discriminate.
    change (lit " | ") with (lit " |" ++ [32]).
    now rewrite <- !app_assoc.
Qed.

Lemma flat_map_repeat {A B : Type} (f : A -> list B) x n :
  flat_map f (repeat x n) = concat (repeat (f x) n).
Proof. induction n as [|n IH]; [reflexivity|]. cbn. now rewrite IH. Qed.

Lemma separator_shown width :
  (0 < width)%nat ->
  renderRow (repeat (lit "---") width) = separatorRow width.
Proof.
  intros Hw. rewrite renderRow_shown by (destruct width; [lia|discriminate]).
  unfold separatorRow. now rewrite flat_map_repeat.
Qed.

Lemma tableRows_shown table : tableRows table = shownRows table.
Proof.
  unfold tableRows, shownRows.
  induction (querySelectorAll [lit "tr"] table) as [|tr trs IH];
    [reflexivity|].
  cbn [flat_map]. rewrite IH. cbn [map List.filter].
  destruct (querySelectorAll [lit "th"; lit "td"] tr) as [|c cells].
  - reflexivity.
  - cbn [hasCells app map]. f_equal.
    f_equal; [apply cellText_shown|].
    apply map_ext. intros; apply cellText_shown.
Qed.

Lemma shownRows_cells table :
  Forall (fun r => r <> [] /\ Forall safeCell r) (shownRows table).
Proof.
  rewrite <- tableRows_shown. unfold tableRows.
  induction (querySelectorAll [lit "tr"] table) as [|tr trs IH];
    [constructor|].
  cbn [flat_map].
  destruct (querySelectorAll [lit "th"; lit "td"] tr) as [|c cells];
    [exact IH|].
  cbn [app]. constructor; [|exact IH]. split; [discriminate|].
  rewrite Forall_map. apply Forall_forall. intros; apply cellText_safe.
Qed.

Lemma tableLines_shown rows :
  Forall (fun r : list jsstring => r <> []) rows ->
  tableLines rows = shownLines (maxLength rows) rows.
Proof.
  intros Hrows. unfold tableLines, shownLines.
  set (width := maxLength rows).
  assert (Hrow : forall r, r <> [] ->
                   renderRow (padRow width r) = shownRow width r).
  { intros r Hr. unfold padRow, shownRow. apply renderRow_shown.
    now destruct r. }
  destruct rows as [|r rows]; [reflexivity|].
  apply Forall_cons in Hrows as [Hr Hrows]. cbn [map].
  rewrite Hrow by assumption. f_equal. f_equal.
  - apply separator_shown.
    assert (H := length_le_maxLength r (r :: rows) (or_introl eq_refl)).
    fold width in H. destruct r; [contradiction|]. cbn [length] in H. lia.
  - rewrite map_map. apply map_ext_in. intros r' Hr'.
    apply Hrow. rewrite List.Forall_forall in Hrows. now apply Hrows.
Qed.

Lemma maxLength_reached (rows : list (list jsstring)) :
  rows = [] \/ exists r, In r rows /\ length r = maxLength rows.
Proof.
  induction rows as [|r rows IH]; [now left|]. right.
  unfold maxLength in *. cbn [map fold_right].
  destruct IH as [->|(r' & Hin & Hlen)].
  - exists r. split; [now left|]. cbn. lia.
  - destruct (Nat.max_spec (length r)
                (fold_right Nat.max 0%nat (map (@length jsstring) rows)))
      as [[_ ->]|[_ ->]].
    + exists r'. split; [now right|exact Hlen].
    + exists r. split; [now left|reflexivity].
Qed.

Lemma glmNodeToMd_table attrs children depth :
  glmNodeToMd (ElementNode (lit "table") attrs children) depth =
  if hiddenByClass attrs then []
  else tableToMarkdown (ElementNode (lit "table") attrs children).
Proof.
  cbn [glmNodeToMd]. destruct (hiddenByClass attrs); reflexivity.
Qed.

(** *** Hidden elements *)

Lemma startsWith_prefix s p :
  startsWith s p = true <-> exists post, s = p ++ post.
Proof.
  revert s; induction p as [|a p IH]; intros s.
  - split; [intros _; now exists s|reflexivity].
  - destruct s as [|b s]; cbn [startsWith].
    + split; [discriminate|intros [post H]; discriminate H].
    + rewrite andb_true_iff, IH, Z.eqb_eq. split.
      * intros [-> [post ->]]. now exists post.
      * intros [post [= -> ->]]. split; [reflexivity|now exists post].
Qed.

Lemma occurs_infix needle s :
  occurs needle s = true <-> exists pre post, s = pre ++ needle ++ post.
Proof.
  induction s as [|c s IH]; cbn [occurs]; rewrite orb_true_iff.
  - rewrite startsWith_prefix. split.
    + intros [[post H]|H]; [|discriminate]. now exists [], post.
    + intros (pre & post & H). left.
      destruct pre; [now exists post|discriminate H].
  - rewrite startsWith_prefix, IH. split.
    + intros [[post H]|(pre & post & ->)].
      * now exists [], post.
      * now exists (c :: pre), post.
    + intros ([|d pre] & post & H).
      * left. now exists post.
      * right. injection H as -> ->. now exists pre, post.
Qed.

Lemma inList_In x l : inList x l = true <-> In x l.
Proof.
  unfold inList. rewrite existsb_exists. split.
  - intros (y & Hy & E). apply bool_decide_eq_true in E. now subst.
  - intros H. exists x. split; [exact H|now apply bool_decide_eq_true].
Qed.

(** The parts of a text between white space, the empty ones left out,
    are its words. *)
Lemma split_words s :
  (forall prev cur,
     List.filter (fun t : jsstring => match t with [] => false | _ => true end)
       (splitFrom whiteSpaceRun prev 0 cur s) = wordsFrom cur s) /\
  (forall prev,
     List.filter (fun t : jsstring => match t with [] => false | _ => true end)
       (splitFrom whiteSpaceRun prev
          (length (fst (span isWhiteSpace s))) [] s) = wordsFrom [] s).
Proof.
  induction s as [|c s [IH1 IH2]].
  - split; [intros prev cur; now destruct cur|reflexivity].
  - assert (H1 : forall prev cur,
              List.filter
                (fun t : jsstring => match t with [] => false | _ => true end)
                (splitFrom whiteSpaceRun prev 0 cur (c :: s)) =
              wordsFrom cur (c :: s)).
    { intros prev cur. cbn [splitFrom wordsFrom].
      unfold whiteSpaceRun at 1. cbn [span].
      destruct (isWhiteSpace c).
      - destruct (span isWhiteSpace s) as [run after] eqn:E.
        cbn [fst length List.filter].
        specialize (IH2 (Some c)). cbn [fst] in IH2.
        rewrite IH2. now destruct cur.
      - cbn [fst]. apply IH1. }
    split; [exact H1|].
    intros prev. cbn [span]. destruct (isWhiteSpace c) eqn:Hc.
    + destruct (span isWhiteSpace s) as [run after] eqn:E.
      cbn [fst length splitFrom wordsFrom]. rewrite Hc.
      specialize (IH2 (Some c)). exact IH2.
    + cbn [fst length]. apply H1.
Qed.

Lemma hiddenByClass_hiding attrs :
  hiddenByClass attrs = true <->
  hidingClass (toLowerCase (orElse (getAttribute attrs (lit "class")) [])).
Proof.
  unfold hiddenByClass, hidingClass. cbv zeta.
  set (cls := toLowerCase _).
  assert (Hw : List.filter
                 (fun t : jsstring => match t with [] => false | _ => true end)
                 (splitRe whiteSpaceRun cls) = words cls)
    by apply (proj1 (split_words cls)).
  rewrite Hw, !includes_occurs.
  rewrite !orb_true_iff, andb_true_iff, !inList_In, !occurs_infix.
  split.
  - intros [[[[[(pre & post & H)|(pre & post & H)]|H]|(pre & post & H)]
            |(pre & post & H)]|(pre & post & H)];
      try (left; eexists _, pre, post; split; [|exact H]; cbn; tauto).
    now right.
  - intros [(marker & pre & post & Hin & H)|H].
    + cbn [In] in Hin.
      destruct Hin as [<-|[<-|[<-|[<-|[<-|[]]]]]];
        [left; left; left; left; left|left; left; left; left; right
        |left; left; right|left; right|right]; now exists pre, post.
    + left; left; left; now right.
Qed.

(** C7 (amended): the shape of a rendered table.  The rows of a
    table are its [tr] elements that have at least one [th] or [td]
    cell, in document order; when every [tr] has a cell there is one
    row per [tr].  The text shown for a cell is the words of its text
    content with single spaces between them, a backslash before every
    pipe.  With [width] the number of cells of the widest row,
    [tableToMarkdown] renders a table without rows as the empty string
    and any other table as (number of rows) + 1 lines joined by line
    breaks and followed by two line breaks: the first row, the
    separator row of [---] cells, then the other rows, each row showing
    its cells and then empty cells up to [width], every cell between
    pipes.  No line holds a line break and every line has [width]
    cells.  [glmNodeToMd] renders a table in the same way unless the
    class of the table hides it (the class attribute in lower case
    contains thinking-chain-container, thinking-block, citations,
    tooltip or edit-user-message-button, or has both the classes
    overflow-hidden and h-0); then the rendering is empty. *)
Theorem C7_table_shape (attrs : list (jsstring * jsstring))
    (children : list Node) (depth : nat) :
  let table := ElementNode (lit "table") attrs children in
  let rows := shownRows table in
  exists width,
    Forall (fun r => (length r <= width)%nat) rows /\
    (rows = [] \/ exists r, In r rows /\ length r = width) /\
    ((forall tr, In tr (querySelectorAll [lit "tr"] table) ->
                 querySelectorAll [lit "th"; lit "td"] tr <> []) ->
     length rows = length (querySelectorAll [lit "tr"] table)) /\
    length (shownLines width rows) =
      match rows with
      | [] => 0%nat
      | _ => S (length rows)
      end /\
    Forall (fun line => ~ In 10 line /\ cellCount line = width)
      (shownLines width rows) /\
    tableToMarkdown table =
      match rows with
      | [] => []
      | _ => join [10] (shownLines width rows) ++ [10; 10]
      end /\
    let cls := toLowerCase (orElse (getAttribute attrs (lit "class")) []) in
    (hidingClass cls -> glmNodeToMd table depth = []) /\
    (~ hidingClass cls -> glmNodeToMd table depth = tableToMarkdown table).
Proof.
  intros table rows. exists (maxLength rows).
  assert (Hcells : Forall (fun r => r <> [] /\ Forall safeCell r) rows)
    by apply shownRows_cells.
  assert (Hne : Forall (fun r : list jsstring => r <> []) rows)
    by (eapply List.Forall_impl; [|exact Hcells]; now intros r [Hr _]).
  split; [apply List.Forall_forall; intros r Hr;
          now apply length_le_maxLength|].
  split; [apply maxLength_reached|].
  split.
  { intros Hall. unfold rows. rewrite <- tableRows_shown.
    now apply tableRows_all_rows. }
  split; [destruct rows; [reflexivity|cbn [shownLines length];
                                      now rewrite length_map]|].
  split.
  { destruct rows as [|r rows'] eqn:E; [constructor|].
    rewrite <- tableLines_shown by exact Hne.
    now apply tableLines_shape. }
  split.
  { unfold tableToMarkdown. rewrite tableRows_shown. fold rows.
    destruct rows as [|r rows'] eqn:E; [reflexivity|].
    now rewrite tableLines_shown by exact Hne. }
  cbv zeta. unfold table. rewrite (glmNodeToMd_table attrs children depth).
  destruct (hiddenByClass attrs) eqn:Hhidden.
  - split; [reflexivity|]. intros Hnot. exfalso.
    now apply Hnot, hiddenByClass_hiding.
  - split; [|reflexivity]. intros Hcls.
    apply hiddenByClass_hiding in Hcls. congruence.
Qed.

Lemma C7_table_shape_witness :
  length (shownRows jaggedTable) =
    length (querySelectorAll [lit "tr"] jaggedTable) /\
  glmNodeToMd jaggedTable 0 =
    lit "| a\|b | c |" ++ [10] ++ lit "| --- | --- |" ++ [10] ++
    lit "| x y |  |" ++ [10; 10].
Proof.
  destruct (C7_table_shape []
              [ElementNode (lit "tr") []
                 [ElementNode (lit "th") [] [TextNode (lit "a|b")];
                  ElementNode (lit "th") [] [TextNode (lit "c")]];
               ElementNode (lit "tr") []
                 [ElementNode (lit "td") [] [TextNode (lit " x  y ")]]]
              0%nat) as (width & _ & _ & Hlen & _ & _ & Hmd & _ & Hglm).
  split.
  - apply Hlen. intros tr Htr. vm_compute in Htr.
    destruct Htr as [<-|[<-|[]]]; vm_compute; discriminate.
  - fold jaggedTable in Hglm. rewrite Hglm.
    + vm_compute. reflexivity.
    + intros Hcls. apply hiddenByClass_hiding in Hcls.
      vm_compute in Hcls. discriminate Hcls.
Defined.

(** C7 as stated fails in [glmNodeToMd] for a table that its class
    hides: the table has one row, the row has a cell, and the rendering
    is the empty string, not two lines. *)
Lemma C7_hidden_table_has_no_line :
  querySelectorAll [lit "tr"] hiddenTable <> [] /\
  (forall tr, In tr (querySelectorAll [lit "tr"] hiddenTable) ->
              querySelectorAll [lit "th"; lit "td"] tr <> []) /\
  tableToMarkdown hiddenTable = lit "| x |" ++ [10] ++ lit "| --- |" ++ [10; 10] /\
  glmNodeToMd hiddenTable 0 = [] /\
  ~ exists lines,
      glmNodeToMd hiddenTable 0 = join [10] lines ++ [10; 10] /\
      length lines =
        S (length (querySelectorAll [lit "tr"] hiddenTable)).
Proof.
  split; [vm_compute; discriminate|].
  split.
  { intros tr Htr. vm_compute in Htr. destruct Htr as [<-|[]].
    vm_compute. discriminate. }
  split; [vm_compute; reflexivity|].
  assert (H : glmNodeToMd hiddenTable 0 = []) by (vm_compute; reflexivity).
  split; [exact H|].
  intros (lines & Hl & _). rewrite H in Hl.
  destruct (join [10] lines); discriminate Hl.
Qed.
